(* ===== verification/_CoqProject ===== *)
-Q . S2P
Prelude.v
NetAddr.v
External.v
Command.v
NodeRegistry.v
Seeds.v
World.v
Frame.v
Evolution.v
Utf8.v
Message.v
Handshake.v
SeedSync.v
Tick.v
NodeSync.v
SyncChannel.v
Interleave.v
Pieces.v
Overtake.v
Router.v
Record.v
P2PNode.v
Sql.v
Database.v
Chain.v
Balance.v
Transaction.v
TransactionSet.v
Epoch.v
EpochAllocation.v
EpochReward.v
ResourcePrice.v
ResourceSnapshot.v
TickRecord.v
Meta.v
PublicServer.v
Float.v
WitnessTable.v
WitnessSeed.v
Contact.v
Chat.v
Mail.v
Text.v
Files.v
UserStore.v
StoreRace.v
ProfileRace.v
IoStorage.v
Url.v
LocalIps.v
Resources.v
Web.v
WebApi.v
WebSend.v
Delivery.v
WebData.v
WebPages.v
Cli.v
Entries.v
Serve.v
Startup.v
Running.v
Toy.v
FilesToy.v
Witnesses.v
TableWitnesses.v
FilesWitnesses.v
WebWitnesses.v
StartWitnesses.v
