(* ===== verification/Prelude.v ===== *)
(** * Verification of the zz-p2p node

    A model of the peer-to-peer node under src/src/ (a Rust crate on top of the
    server crate aex and the key crate zz-account) and the theorems that make
    it correct. The sources run asynchronous handlers over shared state; here
    a handler is a function of that state, and a running node is a sequence of
    such functions.

    ** The program

    A node listens on a TCP port and dials other nodes. Everything on the wire
    is a signed frame ([P2PFrame]) around a command ([P2PCommand]: an entity,
    an action, a payload). The router runs the handler registered for the pair
    of entity and action:

    - online / online ack / offline: two nodes exchange session keys, addresses
      and the seeds they know; an announcement with an empty session id is seed
      gossip. The registry records for each node its seeds, from which side
      they were seen, and whether it is connected;
    - text messages and their acknowledgements, encrypted under session keys,
      deduplicated by a set of digests, delivered to the application;
    - seed sync: rounds of exchanging seed sets until the hash is stable;
    - ticks: agreement on the ring of witnesses, with a reward to share out;
    - node data sync and witness validation, which pass requests to channels
      the application registers.

    Beside the network the crate has stores over a database - balances, hash
    chains of transactions, epochs and ticks, settings, contacts and messages -
    and a store of files for every contact: the log of the conversation, a
    profile, images. A web interface answers HTTP requests from them, from the
    registry and from what the application left in the context, and sends
    messages; a command line connects, sends and shows the state of the node.

    ** The files and what they model

    - [Prelude]: fallible code ([result]), state passing ([state], with the
      notation [x ←? m ; k] for [?]), the predicate [respects R m] that a
      stateful operation stays within a preorder of states with its hint
      database and tactic, machine integers, bytes, stable sorting, decimal
      and hexadecimal text.
    - [NetAddr]: std::net addresses with their order, [Display] and [FromStr];
      is_public_ip, is_public_addr and filter_entries of node.rs.
    - [External]: code that is not in the repository, as classes of operations
      and, apart from them, classes of the documented laws: sha2, the codec
      (bincode through aex), zz-account, the session keys and the connection
      manager of aex.
    - [Command]: protocols/command.rs.
    - [NodeRegistry]: protocols/commands/node_registry.rs, every method, and
      the relation [registry_step] of all its mutators.
    - [Seeds]: the seed records and commands of ack.rs and the seed sets of
      seed_sync.rs, with their hashes.
    - [World]: the state all handlers share - [GlobalContext] with its
      type-indexed slots ([Gctx]), the connection contexts, the spawned tasks,
      published events, answered waiters, the readings of clocks and random
      generators, the statics of the process - and the primitive operations on
      it. [io_step] is the relation of operations that only send: what they
      write is frames the node built itself.
    - [Frame]: protocols/frame.rs and notify.rs; and what it is for a command
      to be handed to connections ([handed], [brings]), in which the handlers
      say what they send.
    - [Evolution]: the preorder [world_le] every operation of the node
      respects.
    - [Utf8]: [String::from_utf8_lossy], used for node ids.
    - [Message]: message.rs. [Handshake]: online.rs, ack.rs, offline.rs.
      [SeedSync]: seed_sync.rs. [Tick]: tick.rs. [NodeSync]: node_sync.rs and
      witness_validate.rs.
    - [Pieces]: tasks cut at their awaits, side by side, with what they rely on
      and guarantee. [Overtake]: the handlers of online.rs and ack.rs cut so,
      any number of them at once.
    - [Interleave]: the handlers of message.rs cut at every await, any number
      of them side by side. [SyncChannel]: the channel of node_sync.rs to the
      application, step by step, with many handlers at once.
    - [Router]: registry.rs, dispatch, and the spawned closures.
    - [Record]: record.rs. [P2PNode]: node.rs.
    - [Startup]: init and new of node.rs over the stored files. [LocalIps]:
      get_all_ips of online.rs, over the output of the system command.
    - [Serve]: start and start_with_web of node.rs: the routes of the web
      server, and the steps by which an accepted connection is filed in the
      manager and its frames are read, next to everything else the node does.
      [Entries]: what is documented of the manager's entries, and that the
      handlers keep them.
    - [Running]: the step relation of a running node ([step]): connections and
      commands that arrive, spawned tasks, dialling, typed commands, requests
      to the web server and the calls of the application; and what init leaves
      ([booted]), from where the theorems start.
    - [Sql]: the part of sea-orm the stores use, for one table: a class of
      statements, a class of what is documented of them, and a table in memory.
      [Chain]: hash chains in a table. [Database]: db/store.rs and
      db/defines.rs, transactions around a body and the creation of tables.
    - db/entity/, one file a table: [Balance], [Transaction], [TransactionSet],
      [EpochAllocation], [Epoch], [EpochReward], [TickRecord]
      (witness_tick_record), [Meta] (with network_type.rs), [PublicServer],
      [WitnessTable] (witness), [WitnessSeed], [Contact], [Chat]
      (chat_message), [Mail] (encrypted_message); and, listed in no module of
      the crate, [ResourcePrice] (market_resource_price, with types.rs) and
      [ResourceSnapshot] (tick_resource_snapshot).
    - [Text]: what the sources use of [str] and [std::path]: splitting, lines,
      white space, trimming, paths with [join] and where they lead. [Files]:
      tokio::fs and serde_json as classes of operations and of laws.
    - [UserStore]: user_store.rs. [StoreRace]: its methods that change chat
      logs cut at every await, many at once around the lock. [ProfileRace]:
      saving and loading profiles cut so, around the lock and the cache; that
      is where what the cache holds is stated.
    - [IoStorage]: io_storage.rs with the macro of macros.rs.
    - [Url]: query parameters and percent-decoding (web/api.rs). [Web]:
      requests, JSON and the state of the web interface. [WebApi]: the handlers
      for transfers, addresses, contacts, chats and profiles; [WebSend]:
      handle_send_chat; [Delivery]: a message from the web interface of one
      node to the application of another; [WebData]: what the pages show (with
      templates.rs and types.rs); [Resources]: what a page shows of the machine
      (templates.rs), over [Float], double precision; [WebPages]:
      gather_page_data, the pages, and the routes of web/mod.rs.
    - [Cli]: cli.rs, clis/, and the seeds option of node.rs.
    - [Toy]: one concrete instance of every class of [External] and of every
      codec, with proofs of the laws; [FilesToy]: a file system in memory.
      [Witnesses]: each theorem with hypotheses, applied to concrete nodes,
      frames and messages there; [TableWitnesses], [FilesWitnesses],
      [WebWitnesses] and [StartWitnesses] the same for tables, files, requests
      and starts.

    ** How code becomes definitions

    A Rust [fn] that mutates shared state becomes an operation [M A], a
    function of the [World]; an early [return] is a branch, an error a value
    of [result]. A type-indexed slot of the context is a field of [Gctx] of
    type [option]. [tokio::spawn] appends a value of [Task] that says which
    closure was spawned on which data; [Router.run_task] is what it does when
    it runs. [try_lock], which may fail, succeeds as the host says
    ([host_free]). [Arc] clones of one object are one field of the world. A write to
    a connection appends to the bytes of its context ([ctx_out]); a failed
    write is only logged by the code, and the model does not tell it from a
    successful one. Logging is left out. Clock readings and random draws are
    arbitrary functions of how many there were before. Unsigned integers are
    [Z] with the wrap-around written out where the code adds to them.

    The concurrent hash maps of the registry are [gmap]s: their iteration
    order is some fixed order, and the theorems that depend on an order say
    that any order gives the same.

    A store method is an operation on one table, [state T (result A)]; any
    statement may fail, and then changes nothing. Theorems that say an
    operation succeeds assume a reliable database ([SqlReliable]).

    A file operation may fail, half way too; [FsLaws] says which files there
    are then. A web handler is an operation on a state of its own ([Web.Web]),
    of which the node's world is a part; where the code panics it returns an
    error and does nothing after. What was sent to the client, broadcast to the
    open pages, or printed, is a list.

    Handlers are atomic steps. The interleaving of handlers inside their await
    points is modelled where state is shared that matters: for messages and
    acknowledgements ([Interleave], which shows that a handler left alone does
    what the atomic one does), for handshakes ([Overtake], which shows the
    same), for accepted connections ([Serve]), for the requests to the application
    ([SyncChannel]), for the chat logs ([StoreRace]), for the profiles ([ProfileRace], which
    shows that a save or a load left alone does what the atomic one does), and
    in the sync cycle,
    which waits for seconds: there, whatever other steps the node takes at each
    wait is the parameter [others], and the theorems hold for all of them that
    respect [world_le]. The sync tasks of one round run one after the other.

    ** Bounds

    - [SEEN_MESSAGES_MAX] is the 10000 of the source.
    - The sync cycle recurs on the number of rounds still allowed, which is
      the source's [effective_max]; the fuel is the code's own bound, and the
      result when it runs out is the code's.
    - [digits] has the bit length of the number as fuel, shown to be enough
      ([digits_fuel_enough]); [Utf8.chunks] the length of the input, of which
      every step consumes a byte.

    ** The theorems

    A claim is a [Theorem] whose comment starts with its number:

    - the wire and the handshake: C1 and C2 (two nodes, end to end over the
      bytes), C5 (sending), C6 (the reply), C13 (round trip of the
      envelope);
    - safety of a running node: C4 (any state reached from the start), C14
      (the registry), C7 (handshakes that overtake each other), C28 (who may
      dial whom), C17 (unverified seeds), C27 (what leaves the node);
    - messages: C3 (handlers that overtake each other deliver exactly once),
      C10, C20;
    - node data: C12 (the channel to the application);
    - agreement on seeds: C9 and C15 (merging and hashing), C11 and C18 (the
      cycle ends; it converges);
    - rewards: C16; records: C19;
    - tables: C29 and C30 (balances), C31 and C32 (hash chains), C33 and C34
      (epochs and ticks), C35 (settings), C36 (messages);
    - starting: C40 (what a restart keeps); serving: C8 (an accepted
      connection is filed before its frames are read);
    - the user store: C21 (the files implement lists of messages), C22
      (methods called at once), C26 (what a failure leaves), C24 (profiles
      saved and loaded at once), C25 (which files it touches);
    - the web interface: C23 (sending), C38 (parameters), C39 (seeds kept in
      the table);
    - what the code does not achieve, stated as it is: C37, parts of C32,
      C34, C25, C22 and C23.

    Further theorems without a number, among them
    [Frame.verify_does_not_bind_address] (the claimed sender is not bound to
    the key), [SeedSync.sync_succeeds_without_answer],
    [NodeSync.validation_is_unbound], [Seeds.seed_info_socket_addr] (IPv6
    seeds), [Seeds.seed_hash_ambiguous], [Seeds.derive_seed_set_spec],
    [Router.dispatch_spec], [Router.ticks_are_dropped],
    [SeedSync.merge_seed_set_spec], [Handshake.gossip_quiesces],
    [NodeRegistry.try_connect_spec], [Tick.lock_updates_witnesses],
    [Record.expiry_spec], [NodeSync.node_sync_answers],
    [Message.delivery_at_most_once] and [Message.confirmed_once] (handlers
    one after the other), [Message.seen_insert_spec] (the set of seen
    messages forgets), [WitnessSeed.online_rate_spec],
    [Balance.transfer_to_self_mints], [Meta.settings_read_back],
    [Mail.delete_is_one_sided], [Chat.conversations_spec],
    [UserStore.conversations_listed], [UserStore.calls_in_turn],
    [UserStore.load_races_with_save], [WebApi.conversation_opened],
    [WebApi.avatar_is_padded], [WebPages.requests_routed],
    [Message.dedup_key_ambiguous], [Handshake.dialled_seed_by_seed],
    [WebSend.ack_marks_last_sent], [WebData.seed_infos_merged],
    [WebData.page_figures], [IoStorage.stored_or_made],
    [Startup.node_identity], [LocalIps.all_ips_sorted_out],
    [Resources.resources_found], [Database.transaction_all_or_nothing],
    [Database.tables_created], [Cli.command_loop],
    [Cli.sync_needs_all_rounds], [Cli.dialled_is_own_seed],
    [Handshake.handlers_plan_allowed_connects],
    [WebData.connections_grouped] (what a page shows),
    [ResourcePrice.weights_bounded], [ResourceSnapshot.snapshots_chained].

    ** What is not modelled, and the plan

    Not modelled: the server of aex, which listens, parses requests and cuts
    the stream into frames (what it calls is [Serve] and [Router]); connecting
    to a database; epoch_resource_settlement, which is not Rust (a function
    without self matches on it), and the tables that no operation uses; the
    rendering of templates; failed writes to a connection and poisoned locks.
    What the machine says of itself (files of /proc, the output of df and of
    ip) is the class [Resources.Machine].

    The components are modelled as far as the repository has their code. What
    could be refined further: the handlers of seed_sync.rs and tick.rs over
    [Pieces], and a serialisation of the frames instead of the laws of the
    codec, as far as its crate is documented. *)

From stdpp Require Export base tactics functions gmap fin_maps sets list strings sorting.
From Stdlib Require Export ZArith Lia.
From Stdlib Require Import Ascii.
From Stdlib Require Import Strings.Byte.
From Stdlib Require String.

Open Scope Z_scope.

(** ** Fallible code

    [anyhow::Result], [Result<_, String>] and the standard library's
    parse results all become [result]; the error is the message. *)

Inductive result (A : Type) : Type :=
| Ok (a : A)
| Err (e : string).
Arguments Ok {A} a.
Arguments Err {A} e.

#[export] Instance result_ret : MRet result := fun A x => Ok x.
#[export] Instance result_bind : MBind result := fun A B f m =>
  match m with Ok a => f a | Err e => Err e end.
#[export] Instance result_fmap : FMap result := fun A B f m =>
  match m with Ok a => Ok (f a) | Err e => Err e end.
#[export] Instance result_eq_dec `{EqDecision A} : EqDecision (result A).
Proof.
  intros [a|e] [b|e']; [destruct (decide (a = b))|right|right|destruct (decide (e = e'))];
    (left; congruence) || (right; congruence) || congruence.
Defined.

Definition is_ok {A} (r : result A) : bool :=
  match r with Ok _ => true | Err _ => false end.

(** [Result::unwrap_or] *)
Definition unwrap_or {A} (d : A) (r : result A) : A :=
  match r with Ok a => a | Err _ => d end.

(** [Option::ok_or] *)
Definition ok_or {A} (e : string) (o : option A) : result A :=
  match o with Some a => Ok a | None => Err e end.

Lemma result_bind_ok {A B} (m : result A) (f : A → result B) b :
  m ≫= f = Ok b ↔ ∃ a, m = Ok a ∧ f a = Ok b.
Proof.
  destruct m; cbn; split; [by eauto|by intros (? & [= ->] & ?)|done|by intros (? & ? & ?)].
Qed.

(** ** State passing

    A stateful operation over a state [S] is a function of the state that
    returns its value and the state it leaves. *)

Definition state (S A : Type) : Type := S → A * S.

#[export] Instance state_ret {S} : MRet (state S) := fun A x s => (x, s).
#[export] Instance state_bind {S} : MBind (state S) := fun A B f m s =>
  let '(a, s') := m s in f a s'.

Definition gets {S A} (f : S → A) : state S A := fun s => (f s, s).
Definition modify {S} (f : S → S) : state S unit := fun s => (tt, f s).

(** [for x in l { f x }] *)
Fixpoint for_each {S A} (l : list A) (f : A → state S unit) : state S unit :=
  match l with
  | [] => mret tt
  | x :: l' => f x ≫= fun _ => for_each l' f
  end.

Definition exec {S A} (m : state S A) (s : S) : S := (m s).2.
Definition eval {S A} (m : state S A) (s : S) : A := (m s).1.

Lemma exec_bind {S A B} (m : state S A) (f : A → state S B) s :
  exec (m ≫= f) s = exec (f (eval m s)) (exec m s).
Proof. unfold exec, eval, mbind, state_bind. by destruct (m s). Qed.

Lemma eval_bind {S A B} (m : state S A) (f : A → state S B) s :
  eval (m ≫= f) s = eval (f (eval m s)) (exec m s).
Proof. unfold exec, eval, mbind, state_bind. by destruct (m s). Qed.

(** A relation between the state before and after that every run of an
    operation respects. *)
Definition respects {S A} (R : relation S) (m : state S A) : Prop :=
  ∀ s, R s (exec m s).

Create HintDb respects discriminated.

Section respects.
Context {S : Type} (R : relation S) `{!PreOrder R}.

Lemma respects_ret {A} (a : A) : respects R (mret a).
Proof. intros s. reflexivity. Qed.

Lemma respects_gets {A} (f : S → A) : respects R (gets f).
Proof. intros s. reflexivity. Qed.

Lemma respects_bind {A B} (m : state S A) (f : A → state S B) :
  respects R m → (∀ a, respects R (f a)) → respects R (m ≫= f).
Proof.
  intros Hm Hf s. rewrite exec_bind. etrans; [apply Hm|apply Hf].
Qed.

Lemma respects_for_each {A} (l : list A) (f : A → state S unit) :
  (∀ a, a ∈ l → respects R (f a)) → respects R (for_each l f).
Proof.
  induction l as [|x l IH]; intros Hf; cbn; [apply respects_ret|].
  apply respects_bind; [apply Hf; set_solver|].
  intros _. apply IH. intros a Ha. apply Hf. set_solver.
Qed.
End respects.

#[export] Hint Resolve respects_ret respects_gets : respects.

(** A stateful operation that can fail, and [?] on it. *)
Definition try_bind {S A B} (m : state S (result A)) (f : A → state S (result B)) :
    state S (result B) :=
  m ≫= fun r => match r with Ok a => f a | Err e => mret (Err e) end.

Notation "x ←? m ; k" := (try_bind m (fun x => k))
  (at level 20, m at level 100, k at level 200, only parsing) : stdpp_scope.

Lemma respects_try_bind {S A B} (R : relation S) `{!PreOrder R}
    (m : state S (result A)) (f : A → state S (result B)) :
  respects R m → (∀ a, respects R (f a)) → respects R (try_bind m f).
Proof.
  intros Hm Hf. apply respects_bind; [done|done|].
  intros [a|e]; [apply Hf|by apply respects_ret].
Qed.

Lemma run_try_bind {S A B} (m : state S (result A)) (f : A → state S (result B)) s :
  try_bind m f s = match m s with (Ok a, s') => f a s' | (Err e, s') => (Err e, s') end.
Proof. unfold try_bind, mbind, state_bind. by destruct (m s) as [[] ?]. Qed.

Lemma run_bind {S A B} (m : state S A) (f : A → state S B) s :
  (m ≫= f) s = let '(a, s') := m s in f a s'.
Proof. reflexivity. Qed.

(** Walks through the structure of a stateful definition: binds, loops and
    case distinctions; leaves to the [respects] database the operations. *)
Ltac respects_tac :=
  repeat first
    [ progress intros
    | solve [eauto with respects]
    | match goal with
      | |- respects _ (try_bind _ _) => apply respects_try_bind; [typeclasses eauto| |]
      | |- respects _ (mbind _ _) => apply respects_bind; [typeclasses eauto| |]
      | |- respects _ (mret _) => apply respects_ret; typeclasses eauto
      | |- respects _ (gets _) => apply respects_gets; typeclasses eauto
      | |- respects _ (for_each _ _) => apply respects_for_each; [typeclasses eauto|]
      | |- respects _ (match ?x with _ => _ end) => destruct x
      end ].

(** ** Machine integers *)

Definition in_u (w : Z) (n : Z) : Prop := 0 ≤ n < 2 ^ w.
Definition in_i (w : Z) (n : Z) : Prop := - 2 ^ (w - 1) ≤ n < 2 ^ (w - 1).
(** Wrap-around of an unsigned [w]-bit operation ([as uN] and, in release
    builds, [+], [-], [*]). *)
Definition wrap_u (w : Z) (n : Z) : Z := n mod 2 ^ w.
#[export] Instance in_u_dec w n : Decision (in_u w n).
Proof. unfold in_u. apply _. Defined.

Lemma wrap_u_small w n : in_u w n → wrap_u w n = n.
Proof. intros H. by apply Z.mod_small. Qed.

Lemma wrap_u_in w n : 0 ≤ w → in_u w (wrap_u w n).
Proof. intros H. unfold in_u, wrap_u. apply Z.mod_pos_bound. by apply Z.pow_pos_nonneg. Qed.

(** Wrap-around of a signed [w]-bit operation. *)
Definition wrap_i (w n : Z) : Z := (n + 2 ^ (w - 1)) mod 2 ^ w - 2 ^ (w - 1).

Lemma wrap_i_small w n : 0 < w → in_i w n → wrap_i w n = n.
Proof.
  intros Hw Hn. unfold wrap_i, in_i in *. rewrite Z.mod_small; [lia|].
  assert (2 ^ w = 2 * 2 ^ (w - 1)); [|lia]. rewrite <- Z.pow_succ_r by lia. f_equal. lia.
Qed.

Lemma wrap_i_add w a b : wrap_i w (wrap_i w a + b) = wrap_i w (a + b).
Proof.
  unfold wrap_i. f_equal. set (h := 2 ^ (w - 1)).
  replace ((a + h) mod 2 ^ w - h + b + h) with ((a + h) mod 2 ^ w + b) by lia.
  rewrite Zplus_mod_idemp_l. f_equal. lia.
Qed.

(** Sums, exact and in a loop that wraps. *)
Definition sum_list_Z (l : list Z) : Z := foldr Z.add 0 l.

#[export] Instance sum_list_Z_perm : Proper ((≡ₚ) ==> (=)) sum_list_Z.
Proof. unfold sum_list_Z. induction 1; cbn [foldr] in *; lia. Qed.

Lemma sum_wrap_u w acc l :
  foldl (fun total n => wrap_u w (total + n)) (wrap_u w acc) l = wrap_u w (acc + sum_list_Z l).
Proof.
  revert acc. induction l as [|n l IH]; intros acc; [cbn; by rewrite Z.add_0_r|].
  change (sum_list_Z (n :: l)) with (n + sum_list_Z l). cbn [foldl].
  unfold wrap_u at 2 3. rewrite Zplus_mod_idemp_l. fold (wrap_u w (acc + n)). rewrite IH. f_equal. lia.
Qed.

Lemma sum_wrap_i w acc l :
  foldl (fun total n => wrap_i w (total + n)) (wrap_i w acc) l = wrap_i w (acc + sum_list_Z l).
Proof.
  revert acc. induction l as [|n l IH]; intros acc; [cbn; by rewrite Z.add_0_r|].
  change (sum_list_Z (n :: l)) with (n + sum_list_Z l). cbn [foldl].
  rewrite wrap_i_add, IH. f_equal. lia.
Qed.

(** ** Bytes

    A Rust [String] is a Rocq [string] (its UTF-8 bytes); [Vec<u8>] and
    [[u8; N]] are lists of bytes. *)

Abbreviation bytes := (list Byte.byte).

Definition as_bytes (s : string) : bytes := String.list_byte_of_string s.
Definition from_bytes (b : bytes) : string := String.string_of_list_byte b.

Lemma from_as_bytes s : from_bytes (as_bytes s) = s.
Proof. apply String.string_of_list_byte_of_string. Qed.

#[export] Instance as_bytes_inj : Inj (=) (=) as_bytes.
Proof. intros s t H. by rewrite <- (from_as_bytes s), H, from_as_bytes. Qed.

#[export] Instance byte_eq_dec : EqDecision Byte.byte := Byte.byte_eq_dec.

Definition byte_of_Z (z : Z) : Byte.byte :=
  default Byte.x00 (Byte.of_N (Z.to_N (z mod 256))).
Definition Z_of_byte (b : Byte.byte) : Z := Z.of_N (Byte.to_N b).

Lemma Z_of_byte_of_Z z : Z_of_byte (byte_of_Z z) = z mod 256.
Proof.
  unfold Z_of_byte, byte_of_Z.
  pose proof (Z.mod_pos_bound z 256 ltac:(lia)) as Hb.
  destruct (Byte.of_N (Z.to_N (z mod 256))) as [b|] eqn:E; cbn.
  - apply Byte.to_of_N in E. rewrite E. lia.
  - apply Byte.of_N_None_iff in E. lia.
Qed.

(** [to_le_bytes] of an [n]-byte integer. *)
Fixpoint le_bytes (n : nat) (z : Z) : bytes :=
  match n with
  | O => []
  | S n' => byte_of_Z z :: le_bytes n' (z / 256)
  end.

Lemma length_le_bytes n z : length (le_bytes n z) = n.
Proof. revert z; induction n; intros z; cbn; auto. Qed.

Lemma le_bytes_mod_inj n x y :
  le_bytes n x = le_bytes n y → x mod 256 ^ Z.of_nat n = y mod 256 ^ Z.of_nat n.
Proof.
  revert x y; induction n as [|n IH]; intros x y H.
  - change (256 ^ Z.of_nat 0) with 1. by rewrite !Z.mod_1_r.
  - cbn [le_bytes] in H. injection H as Hb Ht.
    apply (f_equal Z_of_byte) in Hb. rewrite !Z_of_byte_of_Z in Hb.
    apply IH in Ht.
    rewrite Nat2Z.inj_succ, Z.pow_succ_r by lia.
    rewrite !Z.rem_mul_r by (try apply Z.pow_pos_nonneg; lia). lia.
Qed.

Lemma le_bytes_u_inj w n x y :
  w = 8 * Z.of_nat n → in_u w x → in_u w y → le_bytes n x = le_bytes n y → x = y.
Proof.
  intros -> Hx Hy H. apply le_bytes_mod_inj in H.
  assert (E : 256 ^ Z.of_nat n = 2 ^ (8 * Z.of_nat n)).
  { replace 256 with (2 ^ 8) by reflexivity. by rewrite <- Z.pow_mul_r by lia. }
  rewrite E in H. unfold in_u in *. rewrite !Z.mod_small in H by lia. done.
Qed.

(** ** Sorting

    [slice::sort] and [slice::sort_by] are stable; insertion from the right
    is the reference definition of a stable sort. *)

Section sort.
Context {A : Type} (leb : A → A → bool).

Fixpoint insert_sorted (x : A) (l : list A) : list A :=
  match l with
  | [] => [x]
  | y :: l' => if leb x y then x :: y :: l' else y :: insert_sorted x l'
  end.

Definition sort_by (l : list A) : list A := foldr insert_sorted [] l.

Lemma insert_sorted_perm x l : insert_sorted x l ≡ₚ x :: l.
Proof.
  induction l as [|y l IH]; cbn; [done|].
  destruct (leb x y); [done|]. rewrite IH. constructor.
Qed.

Lemma sort_by_perm l : sort_by l ≡ₚ l.
Proof.
  induction l as [|x l IH]; cbn; [done|].
  fold (sort_by l). by rewrite insert_sorted_perm, IH.
Qed.

Context (leb_total : ∀ x y, leb x y = true ∨ leb y x = true).
Context (leb_trans : ∀ x y z, leb x y = true → leb y z = true → leb x z = true).

Lemma insert_sorted_sorted x l :
  StronglySorted (fun a b => leb a b = true) l →
  StronglySorted (fun a b => leb a b = true) (insert_sorted x l).
Proof.
  induction l as [|y l IH]; cbn; intros Hl; [repeat constructor|].
  apply StronglySorted_inv in Hl as [Hl Hy].
  destruct (leb x y) eqn:E.
  - constructor; [by constructor|]. constructor; [done|].
    eapply Forall_impl; [exact Hy|]. cbn; eauto.
  - constructor; [by apply IH|]. rewrite insert_sorted_perm. constructor; [|done].
    destruct (leb_total x y); congruence.
Qed.

Lemma sort_by_sorted l : StronglySorted (fun a b => leb a b = true) (sort_by l).
Proof. induction l; cbn; [constructor|by apply insert_sorted_sorted]. Qed.

(** Elements that compare equal keep their order: the sort is stable. *)
Lemma insert_sorted_filter (P : A → Prop) `{!∀ a, Decision (P a)} x l :
  (∀ y, P x → P y → leb x y = true) →
  filter P (insert_sorted x l) = filter P (x :: l).
Proof.
  intros HP. induction l as [|y l IH]; cbn [insert_sorted]; [done|].
  destruct (leb x y) eqn:E; [done|].
  rewrite (filter_cons P y), IH, !filter_cons.
  repeat case_decide; try done. rewrite HP in E; done.
Qed.

Lemma sort_by_filter (P : A → Prop) `{!∀ a, Decision (P a)} l :
  (∀ x y, P x → P y → leb x y = true) → filter P (sort_by l) = filter P l.
Proof.
  intros HP. induction l as [|x l IH]; [done|].
  cbn [sort_by foldr]. fold (sort_by l).
  rewrite insert_sorted_filter by eauto. rewrite !filter_cons, IH. done.
Qed.

(** Under an antisymmetric order the result depends only on the multiset. *)
Lemma sort_by_canonical (l1 l2 : list A) :
  (∀ x y, leb x y = true → leb y x = true → x = y) →
  l1 ≡ₚ l2 → sort_by l1 = sort_by l2.
Proof.
  intros Hanti Hp.
  eapply (StronglySorted_unique_strong (fun a b => leb a b = true)); [|apply sort_by_sorted..|].
  - intros x y _ _. apply Hanti.
  - by rewrite !sort_by_perm.
Qed.
End sort.

(** Rust compares strings byte by byte, as [String.leb] does. *)
Definition str_leb (a b : string) : bool := String.leb a b.
Definition str_ltb (a b : string) : bool := String.ltb a b.
Definition sort_strings (l : list string) : list string := sort_by str_leb l.

Lemma str_leb_total a b : str_leb a b = true ∨ str_leb b a = true.
Proof. apply String.leb_total. Qed.

Lemma str_leb_trans a b c : str_leb a b = true → str_leb b c = true → str_leb a c = true.
Proof.
  intros H1 H2. apply Is_true_true in H1, H2. apply Is_true_true.
  exact (transitivity (R := String.le) H1 H2).
Qed.

Lemma str_leb_antisym a b : str_leb a b = true → str_leb b a = true → a = b.
Proof. apply String.leb_antisym. Qed.

Lemma str_leb_refl a : str_leb a a = true.
Proof. destruct (str_leb_total a a); done. Qed.

(** Strict order: exactly one of two different strings is smaller. *)
Lemma str_ltb_leb a b : str_ltb a b = negb (str_leb b a).
Proof.
  unfold str_ltb, str_leb, String.ltb, String.leb.
  rewrite (String.compare_antisym a b). destruct (String.compare b a); reflexivity.
Qed.

Lemma sort_strings_perm_eq l1 l2 : l1 ≡ₚ l2 → sort_strings l1 = sort_strings l2.
Proof.
  apply sort_by_canonical; [apply str_leb_total|apply str_leb_trans|apply str_leb_antisym].
Qed.

#[export] Instance sort_strings_proper : Proper ((≡ₚ) ==> (=)) sort_strings.
Proof. intros l1 l2. apply sort_strings_perm_eq. Qed.

(** ** Numbers as text

    [{}] and [{:x}] print without leading zeros; the parsers read the longest
    run of digits. *)

Fixpoint of_digits (r acc : Z) (ds : list Z) : Z :=
  match ds with
  | [] => acc
  | d :: ds' => of_digits r (acc * r + d) ds'
  end.

Fixpoint to_digits (r : Z) (fuel : nat) (n : Z) (acc : list Z) : list Z :=
  match fuel with
  | O => acc
  | S f => if n <? r then n :: acc else to_digits r f (n / r) (n mod r :: acc)
  end.

(** One more than the number of bits: enough fuel in every radix from 2 on. *)
Definition digits_fuel (n : Z) : nat := S (Z.to_nat (Z.log2 n)).
Definition digits (r n : Z) : list Z := to_digits r (digits_fuel n) n [].

Definition digit_char (d : Z) : ascii :=
  ascii_of_N (Z.to_N (if d <? 10 then 48 + d else 87 + d)).

(** [char::to_digit] for the radixes 10 and 16. *)
Definition char_digit (r : Z) (c : ascii) : option Z :=
  let n := Z.of_N (N_of_ascii c) in
  let d := if (48 <=? n) && (n <=? 57) then n - 48
           else if (97 <=? n) && (n <=? 122) then n - 87
           else if (65 <=? n) && (n <=? 90) then n - 55
           else 36 in
  if d <? r then Some d else None.

Definition show_digits (ds : list Z) : string :=
  foldr (fun d s => String (digit_char d) s) EmptyString ds.
Definition show (r n : Z) : string := show_digits (digits r n).

(** [{}] of an unsigned and of a signed integer. *)
Definition show_u (n : Z) : string := show 10 n.
Definition show_i (n : Z) : string :=
  if n <? 0 then String.append "-" (show_u (- n)) else show_u n.

#[global] Arguments show : simpl never.
#[global] Arguments show_u : simpl never.
#[global] Arguments show_i : simpl never.
#[global] Arguments String.append : simpl never.

Fixpoint span_digits (r : Z) (s : string) : list Z * string :=
  match s with
  | EmptyString => ([], EmptyString)
  | String c s' =>
      match char_digit r c with
      | Some d => let '(ds, rest) := span_digits r s' in (d :: ds, rest)
      | None => ([], s)
      end
  end.

(** [str::parse::<uN>]: an optional plus sign, at least one digit, nothing
    else, and no overflow. *)
Definition parse_digits_all (s : string) : option Z :=
  match span_digits 10 s with
  | (d :: ds, EmptyString) => Some (of_digits 10 0 (d :: ds))
  | _ => None
  end.

Definition parse_u (w : Z) (s : string) : result Z :=
  let body := match s with String "+" s' => s' | _ => s end in
  match parse_digits_all body with
  | Some n => if n <? 2 ^ w then Ok n else Err "number too large to fit in target type"
  | None => Err "invalid digit found in string"
  end.

(** [str::parse::<iN>] also reads a minus sign. *)
Definition parse_i (w : Z) (s : string) : result Z :=
  match s with
  | String "-" s' =>
      match parse_digits_all s' with
      | Some n => if n <=? 2 ^ (w - 1) then Ok (- n) else Err "number too small to fit in target type"
      | None => Err "invalid digit found in string"
      end
  | _ => parse_u (w - 1) s
  end.

Lemma of_digits_app r acc ds ds' :
  of_digits r acc (ds ++ ds') = of_digits r (of_digits r acc ds) ds'.
Proof. revert acc; induction ds; intros acc; cbn; auto. Qed.

Section digits.
Context (r : Z) (Hr : 2 ≤ r).

Lemma to_digits_spec fuel n acc :
  0 ≤ n < 2 ^ Z.of_nat fuel → (0 < fuel)%nat →
  ∃ ds, to_digits r fuel n acc = ds ++ acc ∧ of_digits r 0 ds = n ∧
        Forall (fun d => 0 ≤ d < r) ds ∧
        (∃ d ds', ds = d :: ds' ∧ (d = 0 → ds' = [])) .
Proof.
  revert n acc; induction fuel as [|f IH]; intros n acc Hn Hf; [lia|].
  rewrite Nat2Z.inj_succ, Z.pow_succ_r in Hn by lia.
  cbn [to_digits]. destruct (Z.ltb_spec n r) as [Hlt|Hge].
  - exists [n]. split_and!; [done|cbn; lia|repeat constructor; lia|by eauto].
  - assert (Hq : 1 ≤ n / r) by (apply Z.div_le_lower_bound; lia).
    assert (Hq' : n / r < 2 ^ Z.of_nat f) by (apply Z.div_lt_upper_bound; nia).
    destruct f as [|f']; [change (2 ^ Z.of_nat 0) with 1 in *; lia|].
    destruct (IH (n / r) (n mod r :: acc)) as (ds & E & Ev & HF & d & ds' & Ed & Hd); [lia|lia|].
    exists (ds ++ [n mod r]). rewrite E. split_and!.
    + by rewrite <- (assoc_L (++)).
    + rewrite of_digits_app, Ev. cbn. pose proof (Z.div_mod n r ltac:(lia)). lia.
    + apply Forall_app. split; [done|]. repeat constructor; apply Z.mod_pos_bound; lia.
    + exists d, (ds' ++ [n mod r]). split; [by rewrite Ed|].
      intros ->. rewrite Hd in Ed by done. subst ds. cbn in Ev. lia.
Qed.

Lemma digits_fuel_enough n : 0 ≤ n → n < 2 ^ Z.of_nat (digits_fuel n).
Proof using.
  intros Hn. unfold digits_fuel. rewrite Nat2Z.inj_succ, Z2Nat.id by apply Z.log2_nonneg.
  destruct (decide (n = 0)) as [->|]; [done|]. apply Z.log2_spec. lia.
Qed.

Lemma digits_spec n :
  0 ≤ n →
  of_digits r 0 (digits r n) = n ∧ Forall (fun d => 0 ≤ d < r) (digits r n) ∧
  (∃ d ds', digits r n = d :: ds' ∧ (d = 0 → ds' = [])).
Proof.
  intros Hn. unfold digits.
  destruct (to_digits_spec (digits_fuel n) n []) as (ds & E & ? & ? & ?).
  - split; [done|by apply digits_fuel_enough].
  - unfold digits_fuel; lia.
  - rewrite app_nil_r in E. rewrite E. eauto.
Qed.
End digits.

Lemma char_digit_of_digit d r : r = 10 ∨ r = 16 → 0 ≤ d < r → char_digit r (digit_char d) = Some d.
Proof.
  intros Hr Hd.
  assert (Hc : d ∈ map Z.of_nat (seq 0 16)) by (apply list_elem_of_fmap; exists (Z.to_nat d);
    rewrite elem_of_seq; split; lia).
  cbn in Hc. destruct Hr as [-> | ->];
    repeat (apply elem_of_cons in Hc as [->|Hc]; [try reflexivity; lia|]); set_solver.
Qed.

(** The text does not start with another digit of the radix. *)
Definition no_digit (r : Z) (s : string) : Prop :=
  match s with EmptyString => True | String c _ => char_digit r c = None end.

Lemma span_show_digits r ds s :
  r = 10 ∨ r = 16 → Forall (fun d => 0 ≤ d < r) ds → no_digit r s →
  span_digits r (String.append (show_digits ds) s) = (ds, s).
Proof.
  intros Hr HF Hs. induction HF as [|d ds Hd _ IH].
  - destruct s as [|c s']; [done|].
    unfold show_digits, String.append; cbn [foldr span_digits no_digit] in *. by rewrite Hs.
  - change (span_digits r (String (digit_char d) (String.append (show_digits ds) s)) = (d :: ds, s)).
    cbn [span_digits]. rewrite char_digit_of_digit, IH by done. done.
Qed.

Lemma string_app_nil_r s : String.append s "" = s.
Proof. induction s as [|c s IH]; [done|]. unfold String.append; fold String.append. by rewrite IH. Qed.

Lemma string_app_assoc a b c :
  String.append a (String.append b c) = String.append (String.append a b) c.
Proof.
  induction a as [|x a IH]; [done|].
  unfold String.append at 1 3 4; fold String.append. by rewrite IH.
Qed.

Lemma parse_digits_show n : 0 ≤ n → parse_digits_all (show_u n) = Some n.
Proof.
  intros Hn. unfold parse_digits_all, show_u, show.
  destruct (digits_spec 10 ltac:(lia) n Hn) as (Hv & HF & d & ds' & E & _).
  rewrite <- (string_app_nil_r (show_digits _)), span_show_digits by (auto; done).
  rewrite E in *. by rewrite Hv.
Qed.

Lemma show_digits_inj ds ds' r :
  r = 10 ∨ r = 16 → Forall (fun d => 0 ≤ d < r) ds → Forall (fun d => 0 ≤ d < r) ds' →
  show_digits ds = show_digits ds' → ds = ds'.
Proof.
  intros Hr H H' E.
  assert (span_digits r (String.append (show_digits ds) "") =
          span_digits r (String.append (show_digits ds') "")) as E' by (by rewrite E).
  rewrite !span_show_digits in E' by done. by injection E'.
Qed.

Lemma show_u_inj n m : 0 ≤ n → 0 ≤ m → show_u n = show_u m → n = m.
Proof.
  intros Hn Hm E. apply parse_digits_show in Hn, Hm. rewrite E in Hn. congruence.
Qed.

(** What follows a printed number never eats into it. *)
Lemma span_show r n s :
  r = 10 ∨ r = 16 → 0 ≤ n → no_digit r s →
  span_digits r (String.append (show r n) s) = (digits r n, s).
Proof.
  intros Hr Hn Hs. apply span_show_digits; [done| |done].
  apply digits_spec; [destruct Hr; lia|done].
Qed.

Lemma show_head n : 0 ≤ n → ∃ d s, 0 ≤ d < 10 ∧ show_u n = String (digit_char d) s.
Proof.
  intros Hn. destruct (digits_spec 10 ltac:(lia) n Hn) as (_ & HF & d & ds & E & _).
  exists d, (show_digits ds). split.
  - rewrite E in HF. by apply Forall_cons in HF as [? _].
  - unfold show_u, show. by rewrite E.
Qed.

(** A character that is not a decimal digit is not the head of a number. *)
Lemma show_head_ne n c s : 0 ≤ n → char_digit 10 c = None → show_u n ≠ String c s.
Proof.
  intros Hn Hc E. destruct (show_head n Hn) as (d & s' & Hd & E').
  rewrite E' in E. injection E as Hdc _. rewrite <- Hdc in Hc.
  rewrite char_digit_of_digit in Hc; [done|by left|lia].
Qed.

Lemma parse_u_show w n : in_u w n → parse_u w (show_u n) = Ok n.
Proof.
  intros [Hn Hw]. unfold parse_u.
  assert ((match show_u n with String "+" s' => s' | _ => show_u n end) = show_u n) as ->.
  { destruct (show_u n) as [|c s] eqn:E; [done|].
    repeat (match goal with |- context [match ?b with _ => _ end] => destruct b end; try done).
    by apply show_head_ne in E. }
  rewrite parse_digits_show by done. by rewrite (proj2 (Z.ltb_lt _ _) Hw).
Qed.

(** The lower-case hexadecimal text of a digest. *)
Definition hex_digit (n : Z) : ascii := digit_char n.
Fixpoint hex (b : bytes) : string :=
  match b with
  | [] => EmptyString
  | x :: b' => String (hex_digit (Z_of_byte x / 16))
                 (String (hex_digit (Z_of_byte x mod 16)) (hex b'))
  end.

Lemma Z_of_byte_bound b : 0 ≤ Z_of_byte b < 256.
Proof. unfold Z_of_byte. pose proof (Byte.to_N_bounded b). lia. Qed.

Lemma Z_of_byte_inj a b : Z_of_byte a = Z_of_byte b → a = b.
Proof.
  unfold Z_of_byte. intros E.
  assert (Byte.of_N (Byte.to_N a) = Byte.of_N (Byte.to_N b)) as E' by (f_equal; lia).
  rewrite !Byte.of_to_N in E'. congruence.
Qed.

Lemma hex_digit_inj x y : 0 ≤ x < 16 → 0 ≤ y < 16 → hex_digit x = hex_digit y → x = y.
Proof.
  intros Hx Hy E.
  apply (f_equal (char_digit 16)) in E. unfold hex_digit in E.
  rewrite !char_digit_of_digit in E by (auto; lia). congruence.
Qed.

#[export] Instance hex_inj : Inj (=) (=) hex.
Proof.
  intros a. induction a as [|x a IH]; intros [|y b] E; try done.
  cbn in E. injection E as E1 E2 E3. f_equal; [|by apply IH].
  pose proof (Z_of_byte_bound x). pose proof (Z_of_byte_bound y).
  apply hex_digit_inj in E1; [|split; [apply Z.div_pos|apply Z.div_lt_upper_bound]; lia..].
  apply hex_digit_inj in E2; [|apply Z.mod_pos_bound; lia..].
  apply Z_of_byte_inj. rewrite (Z.div_mod (Z_of_byte x) 16), (Z.div_mod (Z_of_byte y) 16) by lia.
  lia.
Qed.

(** A number below [r ^ k] prints with at most [k] digits. *)
Lemma of_digits_lower r acc ds :
  2 ≤ r → 0 ≤ acc → Forall (fun d => 0 ≤ d < r) ds →
  acc * r ^ Z.of_nat (length ds) ≤ of_digits r acc ds.
Proof.
  intros Hr. revert acc; induction ds as [|d ds IH]; intros acc Hacc HF.
  - cbn. change (r ^ 0) with 1. lia.
  - apply Forall_cons in HF as [Hd HF]. cbn [of_digits length].
    rewrite Nat2Z.inj_succ, Z.pow_succ_r by lia.
    specialize (IH (acc * r + d) ltac:(nia) HF).
    assert (0 < r ^ Z.of_nat (length ds)) by (apply Z.pow_pos_nonneg; lia). nia.
Qed.

Lemma digits_length r n k :
  2 ≤ r → (0 < k)%nat → 0 ≤ n < r ^ Z.of_nat k → (length (digits r n) ≤ k)%nat.
Proof.
  intros Hr Hk Hn. destruct (digits_spec r Hr n (proj1 Hn)) as (Hv & HF & d & ds & E & Hz).
  rewrite E in *. cbn [length]. destruct (decide (d = 0)) as [->|Hd].
  { rewrite Hz by done. cbn. lia. }
  apply Forall_cons in HF as [Hd' HF]. cbn [of_digits] in Hv.
  pose proof (of_digits_lower r (0 * r + d) ds Hr ltac:(lia) HF) as Hl. rewrite Hv in Hl.
  destruct (decide (k ≤ length ds)%nat) as [Hle|]; [|lia].
  assert (r ^ Z.of_nat k ≤ r ^ Z.of_nat (length ds)) by (apply Z.pow_le_mono_r; lia). nia.
Qed.
