(* ===== verification/NetAddr.v ===== *)
(** * Network addresses

    [std::net]'s [Ipv4Addr], [Ipv6Addr], [IpAddr] and [SocketAddr] as the
    program uses them (text form, parser, order, classification), and the
    address filters of src/src/node.rs. *)

From S2P Require Import Prelude.
From Stdlib Require Import Ascii.
Open Scope Z_scope.
Open Scope stdpp_scope.

Record Ipv4Addr := mk_v4 { o1 : Z; o2 : Z; o3 : Z; o4 : Z }.
(** Eight 16-bit segments. *)
Record Ipv6Addr := mk_v6 { segments : list Z }.

Inductive IpAddr :=
| V4 (ip : Ipv4Addr)
| V6 (ip : Ipv6Addr).

Inductive SocketAddr :=
| SockV4 (ip : Ipv4Addr) (port : Z)
| SockV6 (ip : Ipv6Addr) (port flowinfo scope_id : Z).

#[export] Instance Ipv4Addr_eq_dec : EqDecision Ipv4Addr.
Proof. solve_decision. Defined.
#[export] Instance Ipv6Addr_eq_dec : EqDecision Ipv6Addr.
Proof. solve_decision. Defined.
#[export] Instance IpAddr_eq_dec : EqDecision IpAddr.
Proof. solve_decision. Defined.
#[export] Instance SocketAddr_eq_dec : EqDecision SocketAddr.
Proof. solve_decision. Defined.

#[export] Instance Ipv4Addr_countable : Countable Ipv4Addr.
Proof.
  apply (inj_countable' (fun a => (o1 a, o2 a, o3 a, o4 a))
           (fun '(a, b, c, d) => mk_v4 a b c d)).
  by intros [].
Defined.
#[export] Instance Ipv6Addr_countable : Countable Ipv6Addr.
Proof. apply (inj_countable' segments mk_v6). by intros []. Defined.
#[export] Instance IpAddr_countable : Countable IpAddr.
Proof.
  apply (inj_countable' (fun a => match a with V4 i => inl i | V6 i => inr i end)
           (fun s => match s with inl i => V4 i | inr i => V6 i end)).
  by intros [].
Defined.
#[export] Instance SocketAddr_countable : Countable SocketAddr.
Proof.
  apply (inj_countable'
    (fun a => match a with SockV4 i p => inl (i, p) | SockV6 i p f s => inr (i, p, f, s) end)
    (fun s => match s with inl (i, p) => SockV4 i p | inr (i, p, f, s) => SockV6 i p f s end)).
  by intros [].
Defined.

(** [SocketAddr::new], [ip] and [port]. *)
Definition sock_new (ip : IpAddr) (port : Z) : SocketAddr :=
  match ip with V4 i => SockV4 i port | V6 i => SockV6 i port 0 0 end.
Definition sock_ip (a : SocketAddr) : IpAddr :=
  match a with SockV4 i _ => V4 i | SockV6 i _ _ _ => V6 i end.
Definition sock_port (a : SocketAddr) : Z :=
  match a with SockV4 _ p => p | SockV6 _ p _ _ => p end.

(** Field ranges of well-formed addresses. *)
Definition v4_wf (i : Ipv4Addr) : Prop :=
  in_u 8 (o1 i) ∧ in_u 8 (o2 i) ∧ in_u 8 (o3 i) ∧ in_u 8 (o4 i).
Definition v6_wf (i : Ipv6Addr) : Prop :=
  length (segments i) = 8%nat ∧ Forall (in_u 16) (segments i).
Definition ip_wf (i : IpAddr) : Prop := match i with V4 i => v4_wf i | V6 i => v6_wf i end.
Definition sock_wf (a : SocketAddr) : Prop :=
  match a with
  | SockV4 i p => v4_wf i ∧ in_u 16 p
  | SockV6 i p f s => v6_wf i ∧ in_u 16 p ∧ in_u 32 f ∧ in_u 32 s
  end.

(** ** Classification *)

Definition v4_is_private (i : Ipv4Addr) : bool :=
  (o1 i =? 10) || ((o1 i =? 172) && (16 <=? o2 i) && (o2 i <=? 31))
  || ((o1 i =? 192) && (o2 i =? 168)).
Definition v4_is_loopback (i : Ipv4Addr) : bool := o1 i =? 127.
Definition v4_is_link_local (i : Ipv4Addr) : bool := (o1 i =? 169) && (o2 i =? 254).

Definition is_loopback (i : IpAddr) : bool :=
  match i with
  | V4 i => v4_is_loopback i
  | V6 i => bool_decide (i = mk_v6 [0; 0; 0; 0; 0; 0; 0; 1])
  end.
Definition is_unspecified (i : IpAddr) : bool :=
  match i with
  | V4 i => bool_decide (i = mk_v4 0 0 0 0)
  | V6 i => bool_decide (i = mk_v6 [0; 0; 0; 0; 0; 0; 0; 0])
  end.

(** ** Order

    The derived [Ord]: every IPv4 address is below every IPv6 address, then
    the fields from left to right. *)

Fixpoint lex_compare (a b : list Z) : comparison :=
  match a, b with
  | [], [] => Eq
  | [], _ => Lt
  | _, [] => Gt
  | x :: a', y :: b' => match Z.compare x y with Eq => lex_compare a' b' | c => c end
  end.

Definition sock_key (a : SocketAddr) : list Z :=
  match a with
  | SockV4 i p => [0; o1 i; o2 i; o3 i; o4 i; p]
  | SockV6 i p f s => 1 :: segments i ++ [p; f; s]
  end.
Definition sock_compare (a b : SocketAddr) : comparison := lex_compare (sock_key a) (sock_key b).
Definition sock_geb (a b : SocketAddr) : bool :=
  match sock_compare a b with Lt => false | _ => true end.

Lemma lex_compare_antisym a b : lex_compare b a = CompOpp (lex_compare a b).
Proof.
  revert b; induction a as [|x a IH]; intros [|y b]; cbn; try done.
  rewrite Z.compare_antisym. destruct (Z.compare x y); cbn; auto.
Qed.

Lemma lex_compare_eq a b : lex_compare a b = Eq → a = b.
Proof.
  revert b; induction a as [|x a IH]; intros [|y b]; cbn; try done.
  destruct (Z.compare_spec x y); try done. intros H'. by f_equal; [|apply IH].
Qed.

Lemma sock_ip_new ip p : sock_ip (sock_new ip p) = ip.
Proof. by destruct ip. Qed.

Lemma sock_key_inj a b : sock_wf a → sock_wf b → sock_key a = sock_key b → a = b.
Proof.
  destruct a as [[] p|[l] p f s], b as [[] p'|[l'] p' f' s']; cbn; intros Ha Hb E; try congruence.
  injection E as E. destruct Ha as [[Hl _] _], Hb as [[Hl' _] _]. cbn in *.
  apply app_inj_1 in E as [-> [= -> -> ->]]; congruence.
Qed.

(** Two different addresses are ordered one way and only one way. *)
Lemma sock_geb_total a b :
  sock_wf a → sock_wf b → a ≠ b → sock_geb a b = negb (sock_geb b a).
Proof.
  intros Ha Hb Hab. unfold sock_geb, sock_compare.
  rewrite (lex_compare_antisym (sock_key a) (sock_key b)).
  destruct (lex_compare (sock_key a) (sock_key b)) eqn:E; try done.
  apply lex_compare_eq in E. by apply sock_key_inj in E.
Qed.

(** ** Text form *)

Definition show_v4 (i : Ipv4Addr) : string :=
  show_u (o1 i) +:+ "." +:+ show_u (o2 i) +:+ "." +:+ show_u (o3 i) +:+ "." +:+ show_u (o4 i).

(** Longest run of zero segments, the first one when several are as long:
    (start, length). *)
Fixpoint zero_run (i : Z) (cur best : Z * Z) (l : list Z) : Z * Z :=
  match l with
  | [] => best
  | s :: l' =>
      if s =? 0 then
        let cur' := if cur.2 =? 0 then (i, 1) else (cur.1, cur.2 + 1) in
        zero_run (i + 1) cur' (if best.2 <? cur'.2 then cur' else best) l'
      else zero_run (i + 1) (0, 0) best l'
  end.

Fixpoint show_segments (l : list Z) : string :=
  match l with
  | [] => ""
  | [s] => show 16 s
  | s :: l' => show 16 s +:+ ":" +:+ show_segments l'
  end.

(** [Ipv6Addr::to_ipv4_mapped] *)
Definition v4_mapped (i : Ipv6Addr) : option Ipv4Addr :=
  if bool_decide (take 6 (segments i) = [0; 0; 0; 0; 0; 65535]) then
    let x := nth 6 (segments i) 0 in
    let y := nth 7 (segments i) 0 in
    Some (mk_v4 (x / 256) (x mod 256) (y / 256) (y mod 256))
  else None.

Definition show_v6 (i : Ipv6Addr) : string :=
  match v4_mapped i with
  | Some m => "::ffff:" +:+ show_v4 m
  | None =>
      let l := segments i in
      let '(start, len) := zero_run 0 (0, 0) (0, 0) l in
      if 1 <? len then
        show_segments (take (Z.to_nat start) l) +:+ "::"
          +:+ show_segments (drop (Z.to_nat (start + len)) l)
      else show_segments l
  end.

Definition ip_to_string (i : IpAddr) : string :=
  match i with V4 i => show_v4 i | V6 i => show_v6 i end.

Definition sock_to_string (a : SocketAddr) : string :=
  match a with
  | SockV4 i p => show_v4 i +:+ ":" +:+ show_u p
  | SockV6 i p _ s =>
      if s =? 0 then "[" +:+ show_v6 i +:+ "]:" +:+ show_u p
      else "[" +:+ show_v6 i +:+ "%" +:+ show_u s +:+ "]:" +:+ show_u p
  end.

(** ** Parser

    [core::net::parser]: every [read_*] consumes a prefix or fails without
    consuming. *)

Definition read_char (c : ascii) (s : string) : option string :=
  match s with
  | String c' s' => if Ascii.eqb c c' then Some s' else None
  | EmptyString => None
  end.

(** [read_number]: [max] digits at most when given, [bound] the first value
    that does not fit the target type. *)
Definition read_number (r : Z) (max : option nat) (zero_prefix : bool) (bound : Z) (s : string)
  : option (Z * string) :=
  let '(ds, rest) := span_digits r s in
  let too_long := match max with Some m => (m <? length ds)%nat | None => false end in
  if too_long then None
  else match ds with
       | [] => None
       | d :: ds' =>
           if negb zero_prefix && (d =? 0) && negb (bool_decide (ds' = [])) then None
           else let n := of_digits r 0 ds in
                if n <? bound then Some (n, rest) else None
       end.

Definition read_octet (s : string) : option (Z * string) := read_number 10 (Some 3%nat) false 256 s.

Definition read_v4 (s : string) : option (Ipv4Addr * string) :=
  '(a, s) ← read_octet s; s ← read_char "." s;
  '(b, s) ← read_octet s; s ← read_char "." s;
  '(c, s) ← read_octet s; s ← read_char "." s;
  '(d, s) ← read_octet s;
  Some (mk_v4 a b c d, s).

(** [read_separator(':', i, inner)]: the separator is there unless [i = 0]. *)
Definition read_sep {A} (first : bool) (inner : string → option (A * string)) (s : string)
  : option (A * string) :=
  if first then inner s else s ← read_char ":" s; inner s.

(** [read_groups]: up to [limit] groups; an embedded IPv4 address takes the
    room of two and ends the sequence. *)
Fixpoint read_groups (limit : nat) (first : bool) (s : string) : list Z * bool * string :=
  match limit with
  | O => ([], false, s)
  | S l =>
      let v4 := if (0 <? l)%nat then read_sep first read_v4 s else None in
      match v4 with
      | Some (i, s') => ([o1 i * 256 + o2 i; o3 i * 256 + o4 i], true, s')
      | None =>
          match read_sep first (read_number 16 (Some 4%nat) true 65536) s with
          | Some (g, s') =>
              let '(gs, b, s'') := read_groups l false s' in (g :: gs, b, s'')
          | None => ([], false, s)
          end
      end
  end.

Definition read_v6 (s : string) : option (Ipv6Addr * string) :=
  let '(head, head_v4, s1) := read_groups 8 true s in
  if bool_decide (length head = 8%nat) then Some (mk_v6 head, s1)
  else if head_v4 then None
  else
    s2 ← read_char ":" s1; s3 ← read_char ":" s2;
    let '(tail, _, s4) := read_groups (8 - (length head + 1))%nat true s3 in
    Some (mk_v6 (head ++ repeat 0 (8 - length head - length tail)%nat ++ tail), s4).

Definition read_port (s : string) : option (Z * string) :=
  s ← read_char ":" s; read_number 10 None true 65536 s.
Definition read_scope_id (s : string) : Z * string :=
  match (s ← read_char "%" s; read_number 10 None true (2 ^ 32) s) with
  | Some (n, s') => (n, s')
  | None => (0, s)
  end.

Definition read_sock_v4 (s : string) : option (SocketAddr * string) :=
  '(ip, s) ← read_v4 s; '(p, s) ← read_port s; Some (SockV4 ip p, s).
Definition read_sock_v6 (s : string) : option (SocketAddr * string) :=
  s ← read_char "[" s; '(ip, s) ← read_v6 s;
  let '(scope, s) := read_scope_id s in
  s ← read_char "]" s; '(p, s) ← read_port s; Some (SockV6 ip p 0 scope, s).

(** [parse_with]: the whole text has to be read. *)
Definition parse_with {A} (r : option (A * string)) : option A :=
  match r with Some (a, EmptyString) => Some a | _ => None end.

(** [str::parse::<IpAddr>().ok()] and [str::parse::<SocketAddr>().ok()]. *)
Definition parse_ip (s : string) : option IpAddr :=
  parse_with (match read_v4 s with
              | Some (i, s') => Some (V4 i, s')
              | None => '(i, s') ← read_v6 s; Some (V6 i, s')
              end).
Definition parse_sock (s : string) : option SocketAddr :=
  parse_with (match read_sock_v4 s with Some r => Some r | None => read_sock_v6 s end).

(** ** Round trips *)

Ltac simpl_bind := cbn [mbind option_bind fst snd].

Lemma read_number_show r max zp bound n s :
  r = 10 ∨ r = 16 → 0 ≤ n < bound → no_digit r s →
  (∀ m, max = Some m → (0 < m)%nat ∧ n < r ^ Z.of_nat m) →
  read_number r max zp bound (show r n +:+ s) = Some (n, s).
Proof.
  intros Hr Hn Hs Hm. unfold read_number. rewrite span_show by (done || lia).
  assert ((match max with Some m => (m <? length (digits r n))%nat | None => false end) = false) as ->.
  { destruct max as [m|]; [|done]. destruct (Hm m eq_refl). apply Nat.ltb_ge.
    apply digits_length; [destruct Hr; lia|lia|lia]. }
  destruct (digits_spec r ltac:(destruct Hr; lia) n ltac:(lia)) as (Hv & _ & d & ds & E & Hz).
  rewrite E in *.
  assert (negb zp && (d =? 0) && negb (bool_decide (ds = [])) = false) as ->.
  { destruct (Z.eqb_spec d 0) as [->|]; [|by rewrite andb_false_r].
    rewrite bool_decide_true by auto. by rewrite andb_false_r. }
  rewrite Hv. by rewrite (proj2 (Z.ltb_lt _ _) (proj2 Hn)).
Qed.

Lemma read_octet_show n s : in_u 8 n → no_digit 10 s → read_octet (show_u n +:+ s) = Some (n, s).
Proof.
  intros Hn Hs. apply read_number_show; [by left|exact Hn|done|].
  intros m [= <-]. split; [lia|]. unfold in_u in Hn. lia.
Qed.

Lemma read_char_app c s : read_char c (String c s) = Some s.
Proof. cbn. by rewrite Ascii.eqb_refl. Qed.

Lemma read_char_lit (c : ascii) s : read_char c (String c EmptyString +:+ s) = Some s.
Proof. apply read_char_app. Qed.

Lemma read_v4_show i s : v4_wf i → no_digit 10 s → read_v4 (show_v4 i +:+ s) = Some (i, s).
Proof.
  intros (H1 & H2 & H3 & H4) Hs. unfold read_v4, show_v4. rewrite <- !string_app_assoc.
  rewrite read_octet_show by done. simpl_bind.
  rewrite read_char_lit. simpl_bind.
  rewrite read_octet_show by done. simpl_bind.
  rewrite read_char_lit. simpl_bind.
  rewrite read_octet_show by done. simpl_bind.
  rewrite read_char_lit. simpl_bind.
  rewrite read_octet_show by done. cbn. by destruct i.
Qed.

Lemma read_port_show p s : in_u 16 p → no_digit 10 s → read_port (":" +:+ show_u p +:+ s) = Some (p, s).
Proof.
  intros Hp Hs. unfold read_port. rewrite read_char_lit.
  simpl_bind. by apply read_number_show; [left| | |].
Qed.

(** Printing and parsing an IPv4 socket address. *)
Lemma parse_sock_show_v4 i p :
  v4_wf i → in_u 16 p → parse_sock (show_v4 i +:+ ":" +:+ show_u p) = Some (SockV4 i p).
Proof.
  intros Hi Hp. unfold parse_sock, read_sock_v4. rewrite read_v4_show by done.
  simpl_bind.
  rewrite <- (string_app_nil_r (show_u p)), read_port_show by done. done.
Qed.

Lemma parse_ip_show_v4 i : v4_wf i → parse_ip (show_v4 i) = Some (V4 i).
Proof.
  intros Hi. unfold parse_ip. rewrite <- (string_app_nil_r (show_v4 i)), read_v4_show by done. done.
Qed.

Lemma show_v4_inj i j : v4_wf i → v4_wf j → show_v4 i = show_v4 j → i = j.
Proof.
  intros Hi Hj E. apply parse_ip_show_v4 in Hi, Hj. rewrite E in Hi. congruence.
Qed.

(** ** Text without a character *)

Fixpoint has_char (c : ascii) (s : string) : bool :=
  match s with
  | EmptyString => false
  | String c' s' => Ascii.eqb c c' || has_char c s'
  end.

Lemma has_char_app c a b : has_char c (a +:+ b) = has_char c a || has_char c b.
Proof.
  induction a as [|x a IH]; [done|].
  change (Ascii.eqb c x || has_char c (a +:+ b) = Ascii.eqb c x || has_char c a || has_char c b).
  by rewrite IH, orb_assoc.
Qed.

Lemma has_char_show_digits c ds r :
  r = 10 ∨ r = 16 → char_digit r c = None → Forall (fun d => 0 ≤ d < r) ds →
  has_char c (show_digits ds) = false.
Proof.
  intros Hr Hc HF. induction HF as [|d ds Hd _ IH]; [done|]. cbn. fold (show_digits ds).
  rewrite IH, orb_false_r. apply Ascii.eqb_neq. intros ->.
  by rewrite char_digit_of_digit in Hc.
Qed.

Lemma has_char_show c r n :
  r = 10 ∨ r = 16 → char_digit r c = None → 0 ≤ n → has_char c (show r n) = false.
Proof.
  intros Hr Hc Hn. eapply has_char_show_digits; [exact Hr|done|].
  apply digits_spec; [destruct Hr; lia|done].
Qed.

Lemma has_char_show_segments c l :
  char_digit 16 c = None → Ascii.eqb c ":" = false → Forall (in_u 16) l →
  has_char c (show_segments l) = false.
Proof.
  intros Hc Hc' HF. induction HF as [|x l Hx HF IH]; [done|].
  assert (Hs : has_char c (show 16 x) = false)
    by (apply has_char_show; [by right|done|apply Hx]).
  destruct l as [|y l]; [exact Hs|].
  change (has_char c (show 16 x +:+ ":" +:+ show_segments (y :: l)) = false).
  rewrite !has_char_app, IH, Hs. cbn. by rewrite Hc'.
Qed.

(** The text of an IPv6 address: either it starts with a colon, or neither a
    dot nor a bracket occurs in it. *)
Lemma show_v6_shape i :
  v6_wf i →
  has_char "[" (show_v6 i) = false ∧
  (has_char "." (show_v6 i) = false ∨ ∃ s, show_v6 i = String ":" s).
Proof.
  intros [Hlen HF]. unfold show_v6.
  destruct (v4_mapped i) as [m|] eqn:Em.
  - split; [|right; by eexists].
    rewrite has_char_app. cbn [has_char Ascii.eqb orb]. unfold show_v4.
    assert (Hm : v4_wf m).
    { unfold v4_mapped in Em. case_bool_decide; [|done]. injection Em as <-.
      assert (Hn : ∀ k, (k < 8)%nat → in_u 16 (nth k (segments i) 0)).
      { intros k Hk. rewrite Forall_nth in HF. apply HF. lia. }
      pose proof (Hn 6%nat ltac:(lia)). pose proof (Hn 7%nat ltac:(lia)).
      unfold in_u in *. repeat split; cbn; try apply Z.div_pos; try apply Z.div_lt_upper_bound;
        try apply Z.mod_pos_bound; lia. }
    destruct Hm as (H1 & H2 & H3 & H4).
    unfold show_u. rewrite !has_char_app, !has_char_show by ((by left) || done || apply H1 || apply H2 || apply H3 || apply H4).
    done.
  - assert (Hgen : ∀ c, char_digit 16 c = None → Ascii.eqb c ":" = false →
      has_char c (let '(start, len) := zero_run 0 (0, 0) (0, 0) (segments i) in
        if 1 <? len then
          show_segments (take (Z.to_nat start) (segments i)) +:+ "::"
            +:+ show_segments (drop (Z.to_nat (start + len)) (segments i))
        else show_segments (segments i)) = false).
    { intros c Hc Hc'. destruct (zero_run _ _ _ _) as [st len].
      destruct (1 <? len); [|by apply has_char_show_segments].
      rewrite !has_char_app, !has_char_show_segments
        by (done || by apply Forall_take || by apply Forall_drop). cbn. by rewrite Hc'. }
    split; [by apply Hgen|left; by apply Hgen].
Qed.

Lemma has_char_span c r s : has_char c s = false → has_char c (span_digits r s).2 = false.
Proof.
  induction s as [|x s IH]; cbn; intros H; [done|].
  apply orb_false_iff in H as [H1 H2].
  destruct (char_digit r x); [|cbn; by rewrite H1, H2].
  destruct (span_digits r s); cbn in *; auto.
Qed.

Lemma read_char_has c s s' : read_char c s = Some s' → has_char c s = true.
Proof. destruct s as [|x s]; cbn; [done|]. by destruct (Ascii.eqb c x). Qed.

Lemma read_number_rest r m z b s n s' : read_number r m z b s = Some (n, s') → s' = (span_digits r s).2.
Proof.
  unfold read_number. destruct (span_digits r s) as [[|d ds] rest]; cbn;
    repeat case_match; naive_solver.
Qed.

(** An IPv4 address needs a dot. *)
Lemma read_v4_no_dot s : has_char "." s = false → read_v4 s = None.
Proof.
  intros H. unfold read_v4. destruct (read_octet s) as [[a s1]|] eqn:E1; [|done].
  apply read_number_rest in E1 as ->. simpl_bind.
  destruct (read_char _ _) as [s2|] eqn:E2; [|done].
  apply read_char_has in E2. by rewrite has_char_span in E2.
Qed.

(** The [ip:port] text of an IPv6 address, without the brackets, is not a
    socket address. *)
Lemma parse_sock_v6_unbracketed i p :
  v6_wf i → in_u 16 p → parse_sock (show_v6 i +:+ ":" +:+ show_u p) = None.
Proof.
  intros Hi Hp. destruct (show_v6_shape i Hi) as [Hb Hd].
  assert (Hport : ∀ c, char_digit 10 c = None → has_char c (show_u p) = false)
    by (intros c Hc; apply has_char_show; [by left|done|apply Hp]).
  assert (Hv4 : read_v4 (show_v6 i +:+ ":" +:+ show_u p) = None).
  { destruct Hd as [Hd|[s ->]].
    - apply read_v4_no_dot. by rewrite !has_char_app, Hd, Hport.
    - reflexivity. }
  unfold parse_sock, read_sock_v4, read_sock_v6. rewrite Hv4. simpl_bind.
  destruct (read_char "[" _) as [s|] eqn:E; [|done].
  apply read_char_has in E. by rewrite !has_char_app, Hb, Hport in E.
Qed.

(** ** src/src/node.rs: address filters and the connection tie-breaker *)

Definition is_public_ip (ip : IpAddr) : bool := negb (is_loopback ip) && negb (is_unspecified ip).
Definition is_public_addr (a : SocketAddr) : bool := is_public_ip (sock_ip a).
Definition filter_entries (l : list SocketAddr) : list SocketAddr :=
  List.filter is_public_addr l.

(** What follows the public-address filter is exactly the sublist of the
    addresses one can dial. *)
Lemma filter_entries_spec l a :
  a ∈ filter_entries l ↔ a ∈ l ∧ is_loopback (sock_ip a) = false ∧ is_unspecified (sock_ip a) = false.
Proof.
  unfold filter_entries. rewrite !list_elem_of_In, filter_In.
  unfold is_public_addr, is_public_ip. rewrite andb_true_iff, !negb_true_iff. done.
Qed.
