(* ===== verification/External.v ===== *)
(** * Code outside the repository

    The crates the sources only call are parameters: a class of operations for
    each, and, apart from it, a class of the documented laws a client relies
    on. Nothing here says how an operation is implemented.

    - [Sha256]: the digest of the crate sha2 over the concatenation of all
      [update]d pieces;
    - [JsonStrings]: a list of strings as JSON text (the crate serde_json);
    - [Codec]: the serialisation trait of the crate aex ([Codec::encode],
      [Codec::decode]);
    - [Account]: [FreeWebMovementAddress] of the crate zz-account;
    - [SessionKeys]: [PairedSessionKey] of the crate aex;
    - [Aex]: the connection manager, the node description and the network
      scopes of the crate aex. *)

From S2P Require Import Prelude NetAddr.
Open Scope Z_scope.
Open Scope stdpp_scope.

Class Sha256 : Type := sha256 : bytes → bytes.

(** [serde_json::to_string] of a list of strings *)
Class JsonStrings : Type := json_strings : list string → result string.

Class Codec (T : Type) : Type := {
  encode : T → result bytes;
  decode : bytes → result T;
}.

(** What was encoded decodes to the same value. *)
Class CodecLaws (T : Type) `{Codec T} : Prop :=
  decode_encode : ∀ (x : T) b, encode x = Ok b → decode b = Ok x.

(** Serialising a value into a vector of bytes cannot fail. *)
Class CodecTotal (T : Type) `{Codec T} : Prop :=
  encode_total : ∀ x : T, ∃ b, encode x = Ok b.

Class Account : Type := {
  Address : Type;
  PublicKey : Type;
  Signature : Type;
  (** [Display] *)
  addr_to_string : Address → string;
  (** [address.public_key.to_bytes()] *)
  addr_public_key : Address → bytes;
  (** [sign_message(&address.private_key, m).serialize_compact()] *)
  addr_sign : Address → bytes → bytes;
  to_public_key : bytes → PublicKey;
  to_signature : bytes → Signature;
  verify_message : PublicKey → bytes → Signature → bool;
}.

(** A signature verifies under the signer's own public key. *)
Class AccountLaws `{Account} : Prop :=
  verify_sign : ∀ (a : Address) (m : bytes),
    verify_message (to_public_key (addr_public_key a)) m (to_signature (addr_sign a m)) = true.

Class SessionKeys : Type := {
  Psk : Type;
  (** [create(main)]: the session id and the ephemeral public key. *)
  psk_create : Psk → bool → (bytes * bytes) * Psk;
  (** [establish_begins(peer, local, ephemeral)] *)
  psk_establish_begins : Psk → bytes → bytes → bytes → result (option bytes) * Psk;
  (** [establish_ends(id, peer, local, ephemeral)] *)
  psk_establish_ends : Psk → bytes → bytes → bytes → bytes → result bool * Psk;
  psk_encrypt : Psk → bytes → bytes → result bytes * Psk;
  psk_decrypt : Psk → bytes → bytes → result bytes * Psk;
}.

(** The two scopes the sources match on. *)
Inductive NetworkScope := Intranet | Extranet.
#[export] Instance NetworkScope_eq_dec : EqDecision NetworkScope.
Proof. solve_decision. Defined.

(** A context is named by a number; [entry_ctx] is the entry's
    [context: Option<Arc<Mutex<Context>>>]. *)
Abbreviation ctx_id := nat (only parsing).

Record ConnectionEntry (AexNode : Type) := mk_entry {
  entry_addr : SocketAddr;
  entry_ctx : option ctx_id;
  entry_node : option AexNode;
}.
Arguments mk_entry {AexNode}.
Arguments entry_addr {AexNode}.
Arguments entry_ctx {AexNode}.
Arguments entry_node {AexNode}.

(** On which side of a bucket an entry is: [servers] holds the connections
    this node dialled, [clients] the ones it accepted. *)
Inductive ConnSide := Clients | Servers.

(** Established session keys, which encryption and decryption keep: the keys
    [p] of the node named [a] and [q] of the node named [b] agree, so that the
    one seals anything for the other, which opens it. *)
Class SessionLaws `{SessionKeys} : Type := {
  linked : bytes → bytes → Psk → Psk → Prop;
  linked_sym a b p q : linked a b p q → linked b a q p;
  linked_encrypt a b p q k d : linked a b p q → linked a b (psk_encrypt p k d).2 q;
  linked_decrypt a b p q k d : linked a b p q → linked a b (psk_decrypt p k d).2 q;
  linked_seals a b p q d : linked a b p q → ∃ pay, (psk_encrypt p b d).1 = Ok pay;
  linked_opens a b p q d pay : linked a b p q → (psk_encrypt p b d).1 = Ok pay → (psk_decrypt q a pay).1 = Ok d;
}.

Class Aex : Type := {
  AexNode : Type;
  an_id : AexNode → bytes;
  an_port : AexNode → Z;
  an_ips : AexNode → list (NetworkScope * IpAddr);
  (** [Node::from_system(port, id, version)] *)
  an_from_system : Z → bytes → Z → AexNode;
  (** [NetworkScope::from_ip] *)
  scope_from_ip : IpAddr → NetworkScope;
  Manager : Type;
  (** [connections.get(&(ip, scope))] and then [clients.get] or [servers.get] *)
  mgr_get : Manager → IpAddr → NetworkScope → ConnSide → SocketAddr → option (ConnectionEntry AexNode);
  (** [entry.update_node(node)] *)
  mgr_update_node : Manager → IpAddr → NetworkScope → ConnSide → SocketAddr → AexNode → Manager;
  (** the entries [forward] hands to its callback *)
  mgr_entries : Manager → list (ConnectionEntry AexNode);
  mgr_find_entry : Manager → SocketAddr → option (ConnectionEntry AexNode);
  mgr_mark_active : Manager → SocketAddr → bool → Manager;
  mgr_remove : Manager → SocketAddr → bool → Manager;
  (** [connect(addr, _, _, Some(secs))]: the context of the new connection *)
  mgr_connect : Manager → SocketAddr → Z → result ctx_id * Manager;
}.
