(* ===== verification/Command.v ===== *)
(** * Commands

    src/src/protocols/command.rs: entities, actions, the command record and
    the 32-bit id under which the router files the handlers. *)

From S2P Require Import Prelude.
Open Scope Z_scope.

Inductive Entity := Node | Message | Witness | Telephone | File.

Inductive Action :=
| OnLine | OnLineAck | OffLine | Ack | Update | NodeSync | NodeSyncRequest | NodeSyncResponse
| SeedSyncRequest | SeedSyncResponse | SeedSyncCommit
| SendText | SendBinary | MessageAck
| SendEncrypted | SendEncryptedAck | ReadReceipt | DeleteMessage
| Tick | TickAck | Check_ | Validate | ValidateAck
| Call | HangUp | Accept | Reject.

#[export] Instance Entity_eq_dec : EqDecision Entity.
Proof. solve_decision. Defined.
#[export] Instance Action_eq_dec : EqDecision Action.
Proof. solve_decision. Defined.

Definition entities : list Entity := [Node; Message; Witness; Telephone; File].
Definition actions : list Action :=
  [OnLine; OnLineAck; OffLine; Ack; Update; NodeSync; NodeSyncRequest; NodeSyncResponse;
   SeedSyncRequest; SeedSyncResponse; SeedSyncCommit; SendText; SendBinary; MessageAck;
   SendEncrypted; SendEncryptedAck; ReadReceipt; DeleteMessage;
   Tick; TickAck; Check_; Validate; ValidateAck; Call; HangUp; Accept; Reject].

(** [entity as u32] and [action as u32]: the first variant is 1, the others
    count on. *)
Definition entity_u32 (e : Entity) : Z :=
  match e with Node => 1 | Message => 2 | Witness => 3 | Telephone => 4 | File => 5 end.

Definition action_u32 (a : Action) : Z :=
  match a with
  | OnLine => 1 | OnLineAck => 2 | OffLine => 3 | Ack => 4 | Update => 5 | NodeSync => 6
  | NodeSyncRequest => 7 | NodeSyncResponse => 8
  | SeedSyncRequest => 9 | SeedSyncResponse => 10 | SeedSyncCommit => 11
  | SendText => 12 | SendBinary => 13 | MessageAck => 14
  | SendEncrypted => 15 | SendEncryptedAck => 16 | ReadReceipt => 17 | DeleteMessage => 18
  | Tick => 19 | TickAck => 20 | Check_ => 21 | Validate => 22 | ValidateAck => 23
  | Call => 24 | HangUp => 25 | Accept => 26 | Reject => 27
  end.

Record P2PCommand := mk_command {
  cmd_entity : Entity;
  cmd_action : Action;
  cmd_data : bytes;
}.

(** [P2PCommand::new] *)
Definition command_new (e : Entity) (a : Action) (d : bytes) : P2PCommand := mk_command e a d.

(** [((action as u32) << 8) | (entity as u32)], in 32 bits. *)
Definition to_u32 (e : Entity) (a : Action) : Z :=
  Z.lor (wrap_u 32 (Z.shiftl (action_u32 a) 8)) (entity_u32 e).

(** [Command::id] and [Command::data] *)
Definition command_id (c : P2PCommand) : Z := to_u32 (cmd_entity c) (cmd_action c).
Definition command_data (c : P2PCommand) : bytes := cmd_data c.

(** The two halves of an id. *)
Definition id_entity (n : Z) : Z := Z.land n 255.
Definition id_action (n : Z) : Z := Z.shiftr n 8.

Lemma in_entities e : e ∈ entities.
Proof. destruct e; set_solver. Qed.

Lemma in_actions a : a ∈ actions.
Proof. destruct a; unfold actions; set_solver. Qed.

Lemma entity_u32_inj e e' : entity_u32 e = entity_u32 e' → e = e'.
Proof. destruct e, e'; done. Qed.

Lemma action_u32_inj a a' : action_u32 a = action_u32 a' → a = a'.
Proof. destruct a, a'; done. Qed.

Lemma to_u32_halves e a :
  id_entity (to_u32 e a) = entity_u32 e ∧ id_action (to_u32 e a) = action_u32 a.
Proof. destruct e, a; split; reflexivity. Qed.

(** Different (entity, action) pairs get different ids, and every id fits
    the 32 bits of the wire: the router's key separates all commands. *)
Theorem to_u32_inj e a e' a' :
  (to_u32 e a = to_u32 e' a' ↔ e = e' ∧ a = a') ∧ in_u 32 (to_u32 e a).
Proof.
  split.
  - split; [|by intros [-> ->]]. intros E.
    destruct (to_u32_halves e a) as [H1 H2], (to_u32_halves e' a') as [H1' H2'].
    rewrite E in H1, H2. split; [apply entity_u32_inj|apply action_u32_inj]; congruence.
  - destruct e, a; vm_compute; split; congruence.
Qed.
