(* ===== verification/NodeRegistry.v ===== *)
(** * The registry of nodes

    src/src/protocols/commands/node_registry.rs: for every node address the
    set of its seeds (socket addresses), the directions in which each seed
    was connected, and whether the node is connected.

    The registry is a [DashMap] behind an [Arc]: all clones share one map, so
    an operation is a function on that map. [now] is what
    [SystemTime::now()] answered, in seconds. The order in which a [DashMap]
    or [HashMap] is iterated is not specified; [map_to_list] stands for one
    of them, and the theorems do not depend on which. *)

From S2P Require Import Prelude NetAddr External.
Open Scope Z_scope.
Open Scope stdpp_scope.

Inductive ConnectionDirection := Inbound | Outbound | Unknown.

#[export] Instance ConnectionDirection_eq_dec : EqDecision ConnectionDirection.
Proof. solve_decision. Defined.
#[export] Instance ConnectionDirection_countable : Countable ConnectionDirection.
Proof.
  apply (inj_countable' (fun d => match d with Inbound => 0%nat | Outbound => 1%nat | Unknown => 2%nat end)
           (fun n => match n with 0%nat => Inbound | 1%nat => Outbound | _ => Unknown end)).
  by intros [].
Defined.

Abbreviation directions := (gset ConnectionDirection).

Record NodeEntry := mk_node_entry {
  address : string;
  seeds : gmap SocketAddr directions;
  connected : bool;
  scope : NetworkScope;
  last_seen : Z;
}.

Abbreviation registry := (gmap string NodeEntry).

(** [NodeRegistry::new] *)
Definition new_registry : registry := ∅.

(** [seeds.entry(seed).or_insert(HashSet::new()).insert(direction)] *)
Definition insert_direction (seed : SocketAddr) (d : ConnectionDirection)
    (m : gmap SocketAddr directions) : gmap SocketAddr directions :=
  <[seed := {[d]} ∪ default ∅ (m !! seed)]> m.

Definition with_seed (seed : SocketAddr) (d : ConnectionDirection) (now : Z) (e : NodeEntry) : NodeEntry :=
  mk_node_entry (address e) (insert_direction seed d (seeds e)) (connected e) (scope e) now.

Definition with_connected (b : bool) (e : NodeEntry) : NodeEntry :=
  mk_node_entry (address e) (seeds e) b (scope e) (last_seen e).

Definition with_last_seen (now : Z) (e : NodeEntry) : NodeEntry :=
  mk_node_entry (address e) (seeds e) (connected e) (scope e) now.

Definition with_scope (s : NetworkScope) (e : NodeEntry) : NodeEntry :=
  mk_node_entry (address e) (seeds e) (connected e) s (last_seen e).

Definition register_with_direction (now : Z) (a : string) (seed : SocketAddr) (s : NetworkScope)
    (d : ConnectionDirection) (r : registry) : registry :=
  let entry := default (mk_node_entry a ∅ false s now) (r !! a) in
  <[a := with_seed seed d now entry]> r.

Definition register (now : Z) (a : string) (seed : SocketAddr) (s : NetworkScope) (r : registry) : registry :=
  let entry := default (mk_node_entry a ∅ false s now) (r !! a) in
  <[a := with_seed seed Unknown now entry]> r.

Definition add_seed (now : Z) (a : string) (seed : SocketAddr) (r : registry) : bool * registry :=
  match r !! a with
  | Some e =>
      let existed := bool_decide (is_Some (seeds e !! seed)) in
      (negb existed, <[a := with_seed seed Unknown now e]> r)
  | None => (false, r)
  end.

(** Test and set of the connected flag under the entry's lock. *)
Definition try_connect (now : Z) (a : string) (r : registry) : bool * registry :=
  match r !! a with
  | Some e =>
      if connected e then (false, r)
      else (true, <[a := with_last_seen now (with_connected true e)]> r)
  | None => (true, <[a := mk_node_entry a ∅ true Intranet now]> r)
  end.

Definition mark_connected (a : string) (b : bool) (r : registry) : registry :=
  match r !! a with
  | Some e => <[a := with_connected b e]> r
  | None => r
  end.

Definition is_connected (a : string) (r : registry) : bool :=
  default false (connected <$> r !! a).

Definition disconnect (a : string) (r : registry) : registry :=
  match r !! a with
  | Some e => <[a := with_connected false e]> r
  | None => r
  end.

Definition is_registered (a : string) (r : registry) : bool := bool_decide (is_Some (r !! a)).

Definition get_all_seeds (r : registry) : list (SocketAddr * string) :=
  flat_map (fun '(a, e) => (fun seed => (seed, a)) <$> (map_to_list (seeds e)).*1) (map_to_list r).

Definition get_node_count (r : registry) : nat := size r.
Definition get_nodes (r : registry) : list NodeEntry := (map_to_list r).*2.
Definition get_connected_nodes (r : registry) : list string :=
  (List.filter (fun '(_, e) => connected e) (map_to_list r)).*1.

(** The first entry that holds the seed. *)
Definition find_node_for_seed (seed : SocketAddr) (r : registry) : option string :=
  fst <$> List.find (fun '(_, e) => bool_decide (is_Some (seeds e !! seed))) (map_to_list r).

Definition get_seeds_for_node (a : string) (r : registry) : list SocketAddr :=
  default [] ((fun e => (map_to_list (seeds e)).*1) <$> r !! a).

(** (inbound, outbound, unknown) over all seeds of all entries *)
Definition count_direction (d : ConnectionDirection) (r : registry) : nat :=
  sum_list ((fun '(_, e) =>
    sum_list ((fun '(_, ds) => if bool_decide (d ∈ (ds : directions)) then 1%nat else 0%nat)
                <$> map_to_list (seeds e))) <$> map_to_list r).
Definition direction_counts (r : registry) : nat * nat * nat :=
  (count_direction Inbound r, count_direction Outbound r, count_direction Unknown r).

Definition seeds_in_direction (d : ConnectionDirection) (a : string) (r : registry) : list SocketAddr :=
  default [] ((fun e => (List.filter (fun '(_, ds) => bool_decide (d ∈ (ds : directions)))
                           (map_to_list (seeds e))).*1) <$> r !! a).
Definition get_inbound_seeds := seeds_in_direction Inbound.
Definition get_outbound_seeds := seeds_in_direction Outbound.

(** What [sync_from_connection_info] reads of aex's [ConnectionInfo]: the
    peers of both directions with their node id, when known, and their
    address text; the web interface also shows the addresses they announced. *)
Record PeerInfo := mk_peer {
  peer_node_id : option string;
  peer_addr : string;
  peer_wan_ips : list string;
  peer_intranet_ips : list string;
}.
Record ConnectionInfo := mk_info { inbound : list PeerInfo; outbound : list PeerInfo }.

Definition sync_inbound (now : Z) (p : PeerInfo) (r : registry) : registry :=
  match peer_node_id p with
  | Some nid =>
      match r !! nid with
      | Some e => <[nid := with_last_seen now (with_connected true e)]> r
      | None => <[nid := mk_node_entry nid ∅ true Extranet now]> r
      end
  | None => r
  end.

Section outbound.
Context `{Aex}.

Definition sync_outbound (now : Z) (p : PeerInfo) (r : registry) : registry :=
  match peer_node_id p with
  | Some nid =>
      match parse_sock (peer_addr p) with
      | Some addr =>
          let s := scope_from_ip (sock_ip addr) in
          match r !! nid with
          | Some e =>
              <[nid := with_connected true (with_scope s (with_seed addr Outbound now e))]> r
          | None => <[nid := mk_node_entry nid {[addr := {[Outbound]}]} true s now]> r
          end
      | None => r
      end
  | None => r
  end.

Definition sync_from_connection_info (now : Z) (i : ConnectionInfo) (r : registry) : registry :=
  let r := foldl (fun r p => sync_inbound now p r) r (inbound i) in
  foldl (fun r p => sync_outbound now p r) r (outbound i).
End outbound.

(** ** The registry as a set of facts

    What a registry says, independently of its representation: which
    directions are recorded for a seed of a node, which nodes it has. *)

Definition seed_directions (r : registry) (a : string) (seed : SocketAddr) : directions :=
  default ∅ (e ← r !! a; seeds e !! seed).
Definition has_seed (r : registry) (a : string) (seed : SocketAddr) : Prop :=
  ∃ e, r !! a = Some e ∧ is_Some (seeds e !! seed).
Definition knows (r : registry) (a : string) (seed : SocketAddr) (d : ConnectionDirection) : Prop :=
  d ∈ seed_directions r a seed.

(** Every entry is filed under its own address and no seed is recorded
    without a direction. *)
Definition entry_wf (a : string) (e : NodeEntry) : Prop :=
  address e = a ∧ map_Forall (fun _ ds => ds ≠ ∅) (seeds e).
Definition registry_wf (r : registry) : Prop := map_Forall entry_wf r.

(** Nothing that was recorded is lost. *)
Definition registry_le (r r' : registry) : Prop :=
  (∀ a, is_Some (r !! a) → is_Some (r' !! a)) ∧
  (∀ a seed, has_seed r a seed → has_seed r' a seed) ∧
  (∀ a seed d, knows r a seed d → knows r' a seed d).

#[export] Instance registry_le_preorder : PreOrder registry_le.
Proof.
  split; [by intros r; split_and!|].
  intros r1 r2 r3 (A1 & B1 & C1) (A2 & B2 & C2). split_and!; eauto.
Qed.

(** An update of one entry that keeps its seeds and their directions. *)
Definition entry_le (e e' : NodeEntry) : Prop :=
  ∀ seed ds, seeds e !! seed = Some ds → ∃ ds', seeds e' !! seed = Some ds' ∧ ds ⊆ ds'.

Lemma registry_le_insert r a e' :
  (∀ e, r !! a = Some e → entry_le e e') → registry_le r (<[a := e']> r).
Proof.
  intros He. unfold registry_le, has_seed, knows, seed_directions. split_and!.
  - intros a' Ha. rewrite lookup_insert. case_decide; [by eexists|done].
  - intros a' seed (e & Ha & [ds Hs]). rewrite lookup_insert. case_decide; subst.
    + destruct (He e Ha seed ds Hs) as (ds' & Hs' & _). eauto.
    + eauto.
  - intros a' seed d. rewrite lookup_insert. case_decide; subst; [|done].
    destruct (r !! a') as [e|] eqn:Ha; cbn; [|set_solver].
    destruct (seeds e !! seed) as [ds|] eqn:Hs; cbn; [|set_solver].
    destruct (He e eq_refl seed ds Hs) as (ds' & -> & Hsub). cbn. set_solver.
Qed.

Lemma entry_le_refl_seeds e e' : seeds e = seeds e' → entry_le e e'.
Proof. intros E seed ds H. rewrite <- E. eauto. Qed.

Lemma entry_le_with_seed seed d now e e' :
  entry_le e e' → entry_le e (with_seed seed d now e').
Proof.
  intros He seed' ds H. destruct (He _ _ H) as (ds' & H' & Hsub). cbn. unfold insert_direction.
  rewrite lookup_insert. case_decide as E; [|eauto]. rewrite E, H'. cbn. eexists. split; [done|set_solver].
Qed.

Lemma entry_wf_with_seed a seed d now e : entry_wf a e → entry_wf a (with_seed seed d now e).
Proof.
  intros [Ha Hs]. split; [done|]. cbn. unfold insert_direction.
  apply map_Forall_insert_2; [set_solver|done].
Qed.

Lemma entry_wf_fresh a b s now : entry_wf a (mk_node_entry a ∅ b s now).
Proof. split; [done|]. apply map_Forall_empty. Qed.

Lemma registry_wf_insert r a e : registry_wf r → entry_wf a e → registry_wf (<[a := e]> r).
Proof. intros Hr He. by apply map_Forall_insert_2. Qed.

Create HintDb registry discriminated.
#[export] Hint Resolve entry_le_refl_seeds entry_le_with_seed entry_wf_with_seed
  entry_wf_fresh registry_wf_insert : registry.

(** ** Monotonicity and well-formedness of every operation *)

Lemma register_with_direction_le now a seed s d r : registry_le r (register_with_direction now a seed s d r).
Proof.
  apply registry_le_insert. intros e He. rewrite He. cbn.
  apply entry_le_with_seed. by apply entry_le_refl_seeds.
Qed.

Lemma register_le now a seed s r : registry_le r (register now a seed s r).
Proof. apply register_with_direction_le. Qed.

Lemma add_seed_le now a seed r : registry_le r (add_seed now a seed r).2.
Proof.
  unfold add_seed. destruct (r !! a) as [e|] eqn:E; cbn; [|done].
  apply registry_le_insert. intros e' He'. rewrite E in He'. injection He' as <-.
  apply entry_le_with_seed. by apply entry_le_refl_seeds.
Qed.

Lemma update_entry_le r a e e' :
  r !! a = Some e → seeds e = seeds e' → registry_le r (<[a := e']> r).
Proof.
  intros E He. apply registry_le_insert. intros e0 E0. rewrite E in E0. injection E0 as <-.
  by apply entry_le_refl_seeds.
Qed.

Lemma fresh_entry_le r a e' : r !! a = None → registry_le r (<[a := e']> r).
Proof. intros E. apply registry_le_insert. congruence. Qed.

Lemma try_connect_le now a r : registry_le r (try_connect now a r).2.
Proof.
  unfold try_connect. destruct (r !! a) as [e|] eqn:E; [destruct (connected e)|]; cbn.
  - done.
  - by eapply update_entry_le.
  - by apply fresh_entry_le.
Qed.

Lemma mark_connected_le a b r : registry_le r (mark_connected a b r).
Proof. unfold mark_connected. destruct (r !! a) eqn:E; [|done]. by eapply update_entry_le. Qed.

Lemma disconnect_le a r : registry_le r (disconnect a r).
Proof. unfold disconnect. destruct (r !! a) eqn:E; [|done]. by eapply update_entry_le. Qed.

Lemma sync_inbound_le now p r : registry_le r (sync_inbound now p r).
Proof.
  unfold sync_inbound. destruct (peer_node_id p) as [nid|]; [|done].
  destruct (r !! nid) eqn:E; [by eapply update_entry_le|by apply fresh_entry_le].
Qed.

Lemma sync_outbound_le `{Aex} now p r : registry_le r (sync_outbound now p r).
Proof.
  unfold sync_outbound. destruct (peer_node_id p) as [nid|]; [|done].
  destruct (parse_sock _) as [addr|]; [|done]. destruct (r !! nid) as [e|] eqn:E.
  - apply registry_le_insert. intros e' He'. rewrite E in He'. injection He' as <-.
    intros seed ds Hs. cbn. apply (entry_le_with_seed addr Outbound now e e); [|done].
    by apply entry_le_refl_seeds.
  - by apply fresh_entry_le.
Qed.

Lemma foldl_preorder {A B} (R : relation A) `{!PreOrder R} (f : A → B → A) l a :
  (∀ a b, R a (f a b)) → R a (foldl f a l).
Proof.
  intros Hf. revert a; induction l as [|b l IH]; intros a; cbn; [reflexivity|].
  etrans; [apply Hf|apply IH].
Qed.

Lemma sync_from_connection_info_le `{Aex} now i r : registry_le r (sync_from_connection_info now i r).
Proof.
  unfold sync_from_connection_info.
  etrans; [apply (foldl_preorder registry_le (fun r p => sync_inbound now p r))|].
  - intros. apply sync_inbound_le.
  - apply (foldl_preorder registry_le (fun r p => sync_outbound now p r)).
    intros. apply sync_outbound_le.
Qed.

#[export] Hint Resolve register_with_direction_le register_le add_seed_le try_connect_le
  mark_connected_le disconnect_le sync_inbound_le sync_outbound_le : registry.

(** ** The registry as a state machine *)

Inductive registry_step `{Aex} (r : registry) : registry → Prop :=
| step_register now a seed s : registry_step r (register now a seed s r)
| step_register_dir now a seed s d : registry_step r (register_with_direction now a seed s d r)
| step_add_seed now a seed : registry_step r (add_seed now a seed r).2
| step_try_connect now a : registry_step r (try_connect now a r).2
| step_mark_connected a b : registry_step r (mark_connected a b r)
| step_disconnect a : registry_step r (disconnect a r)
| step_sync now i : registry_step r (sync_from_connection_info now i r).

Lemma register_with_direction_wf now a seed s d r :
  registry_wf r → registry_wf (register_with_direction now a seed s d r).
Proof.
  intros Hr. apply registry_wf_insert; [done|]. apply entry_wf_with_seed.
  destruct (r !! a) as [e|] eqn:E; cbn; [by apply (Hr a e)|apply entry_wf_fresh].
Qed.

Lemma with_fields_wf a e e' :
  entry_wf a e → address e' = address e → seeds e' = seeds e → entry_wf a e'.
Proof. intros [Ha Hs] E1 E2. split; [congruence|by rewrite E2]. Qed.

Lemma sync_from_connection_info_wf `{Aex} now i r :
  registry_wf r → registry_wf (sync_from_connection_info now i r).
Proof.
  intros Hr. unfold sync_from_connection_info.
  assert (Hi : registry_wf (foldl (fun r p => sync_inbound now p r) r (inbound i))).
  { generalize (inbound i). intros l. revert r Hr; induction l as [|p l IH]; intros r Hr; cbn; [done|].
    apply IH. unfold sync_inbound. destruct (peer_node_id p) as [nid|]; [|done].
    destruct (r !! nid) as [e|] eqn:E; apply registry_wf_insert; auto with registry.
    eapply with_fields_wf; [by apply (Hr nid)|done..]. }
  revert Hi. generalize (foldl (fun r p => sync_inbound now p r) r (inbound i)). clear.
  generalize (outbound i). intros l. induction l as [|p l IH]; intros r Hr; cbn; [done|].
  apply IH. unfold sync_outbound. destruct (peer_node_id p) as [nid|]; [|done].
  destruct (parse_sock _) as [addr|]; [|done].
  destruct (r !! nid) as [e|] eqn:E; apply registry_wf_insert; try done.
  - eapply with_fields_wf; [apply (entry_wf_with_seed nid addr Outbound now e); by apply (Hr nid)|done..].
  - split; [done|]. apply map_Forall_singleton. set_solver.
Qed.

Lemma registry_step_wf `{Aex} r r' : registry_step r r' → registry_wf r → registry_wf r'.
Proof.
  intros [] Hr; try by apply register_with_direction_wf.
  - unfold add_seed. destruct (r !! a) as [e|] eqn:E; cbn; [|done].
    apply registry_wf_insert; [done|]. apply entry_wf_with_seed. by apply (Hr a).
  - unfold try_connect. destruct (r !! a) as [e|] eqn:E; [destruct (connected e)|]; cbn;
      [done| |]; apply registry_wf_insert; auto with registry.
    eapply with_fields_wf; [by apply (Hr a)|done..].
  - unfold mark_connected. destruct (r !! a) as [e|] eqn:E; [|done].
    apply registry_wf_insert; [done|]. eapply with_fields_wf; [by apply (Hr a)|done..].
  - unfold disconnect. destruct (r !! a) as [e|] eqn:E; [|done].
    apply registry_wf_insert; [done|]. eapply with_fields_wf; [by apply (Hr a)|done..].
  - by apply sync_from_connection_info_wf.
Qed.

Lemma registry_step_le `{Aex} r r' : registry_step r r' → registry_le r r'.
Proof. intros []; auto with registry. apply sync_from_connection_info_le. Qed.

Lemma rtc_registry_wf `{Aex} r r' : rtc registry_step r r' → registry_wf r → registry_wf r'.
Proof. induction 1; intros Hr; [done|]. eauto using registry_step_wf. Qed.

(** C14. Whatever sequence of operations is run, from the empty registry on,
    every entry stays filed under its own address and no seed is recorded
    without a direction; and no operation ever loses a node, a seed or a
    direction recorded before it: the registry only grows. *)
Theorem registry_invariant `{Aex} r r' :
  rtc registry_step new_registry r → rtc registry_step r r' →
  registry_wf r' ∧ registry_le r r'.
Proof.
  intros Hr Hr'. split.
  - eapply rtc_registry_wf; [exact Hr'|]. eapply rtc_registry_wf; [exact Hr|].
    apply map_Forall_empty.
  - clear Hr. induction Hr' as [r0|r0 r1 r2 Hs _ IH]; [done|].
    etrans; [by apply registry_step_le|done].
Qed.

Lemma register_with_direction_effect now a seed s d r :
  (∀ a' seed' d',
     knows (register_with_direction now a seed s d r) a' seed' d' ↔
     (a', seed', d') = (a, seed, d) ∨ knows r a' seed' d') ∧
  (∀ a', is_connected a' (register_with_direction now a seed s d r) = is_connected a' r) ∧
  (∀ now' s', let r1 := register_with_direction now a seed s d r in
     let r2 := register_with_direction now' a seed s' d r1 in
     ∀ a' seed' d', knows r2 a' seed' d' ↔ knows r1 a' seed' d').
Proof.
  assert (Hk : ∀ now s r a' seed' d',
    knows (register_with_direction now a seed s d r) a' seed' d' ↔
    (a', seed', d') = (a, seed, d) ∨ knows r a' seed' d').
  { clear. intros now s r a' seed' d'. unfold knows, seed_directions, register_with_direction.
    rewrite lookup_insert. case_decide as E; cbn.
    - subst a'. unfold insert_direction. rewrite lookup_insert. case_decide as E; cbn.
      + subst seed'. destruct (r !! a) as [e|]; cbn; [|rewrite lookup_empty; cbn]; set_solver.
      + destruct (r !! a) as [e|]; cbn; [|rewrite lookup_empty; cbn]; set_solver.
    - naive_solver. }
  split_and!; [apply Hk| |].
  - intros a'. unfold is_connected, register_with_direction. rewrite lookup_insert.
    case_decide as E; [subst a'|done]. destruct (r !! a); done.
  - intros now' s' r1 r2 a' seed' d'. unfold r2. rewrite Hk. unfold r1. rewrite Hk. naive_solver.
Qed.

(** Registering a seed with a direction records exactly that fact, under
    that node, and leaves every other fact and every connected flag as it
    was; registering it again adds nothing. *)
Theorem register_with_direction_spec now a seed s d r :
  (∀ a' seed' d',
     knows (register_with_direction now a seed s d r) a' seed' d' ↔
     (a', seed', d') = (a, seed, d) ∨ knows r a' seed' d') ∧
  (∀ a', is_connected a' (register_with_direction now a seed s d r) = is_connected a' r) ∧
  (∀ now' s', let r1 := register_with_direction now a seed s d r in
     let r2 := register_with_direction now' a seed s' d r1 in
     ∀ a' seed' d', knows r2 a' seed' d' ↔ knows r1 a' seed' d').
Proof. apply register_with_direction_effect. Qed.

(** [try_connect] succeeds exactly for a node not marked connected, marks
    it, and from then on fails until something clears the flag; it touches
    no other node and no seed. *)
Theorem try_connect_spec now a r :
  let '(ok, r') := try_connect now a r in
  ok = negb (is_connected a r) ∧
  is_connected a r' = true ∧
  (∀ now', (try_connect now' a r').1 = false) ∧
  (∀ now', (try_connect now' a (disconnect a r')).1 = true) ∧
  (∀ a', a' ≠ a → r' !! a' = r !! a') ∧
  (∀ a' seed d, knows r' a' seed d ↔ knows r a' seed d).
Proof.
  unfold try_connect, is_connected, disconnect, knows, seed_directions.
  destruct (r !! a) as [e|] eqn:E; [destruct (connected e) eqn:Ec|];
    cbn; rewrite ?lookup_insert_eq, ?E; cbn; rewrite ?lookup_insert_eq; cbn; rewrite ?Ec.
  all: split_and!; try done; try (intros; by rewrite lookup_insert_ne).
  - intros a' seed d. rewrite lookup_insert. case_decide; [subst a'|done]. by rewrite E.
  - intros a' seed d. rewrite lookup_insert. case_decide; [subst a'|done]. rewrite E. cbn.
    by rewrite lookup_empty.
Qed.

Lemma elem_of_get_all_seeds r a seed : (seed, a) ∈ get_all_seeds r ↔ has_seed r a seed.
Proof.
  unfold get_all_seeds, has_seed. rewrite list_elem_of_In, in_flat_map. split.
  - intros ([a' e] & Ha & Hs). apply list_elem_of_In, elem_of_map_to_list in Ha.
    apply list_elem_of_In, list_elem_of_fmap in Hs as (seed' & [= <- <-] & Hs).
    apply list_elem_of_fmap in Hs as ([seed' ds] & [= <-] & Hs).
    apply elem_of_map_to_list in Hs. eauto.
  - intros (e & Ha & [ds Hs]). exists (a, e). split.
    + by apply list_elem_of_In, elem_of_map_to_list.
    + apply list_elem_of_In, list_elem_of_fmap. exists seed. split; [done|].
      apply list_elem_of_fmap. exists (seed, ds). split; [done|]. by apply elem_of_map_to_list.
Qed.

(** [get_all_seeds] lists every (seed, node) pair once, and the lookups by
    node and by seed agree with it. *)
Theorem get_all_seeds_spec r :
  NoDup (get_all_seeds r) ∧
  (∀ a seed, seed ∈ get_seeds_for_node a r ↔ (seed, a) ∈ get_all_seeds r) ∧
  (∀ seed, match find_node_for_seed seed r with
           | Some a => (seed, a) ∈ get_all_seeds r
           | None => ∀ a, (seed, a) ∉ get_all_seeds r
           end).
Proof.
  split_and!.
  - unfold get_all_seeds. pose proof (NoDup_fst_map_to_list r) as Hnd. revert Hnd.
    induction (map_to_list r) as [|[a e] l IH]; cbn; intros Hnd; [constructor|].
    apply NoDup_cons in Hnd as [Ha Hnd]. apply NoDup_app. split_and!; [| |by apply IH].
    + apply NoDup_fmap_2; [by intros ?? [= ->]|]. apply NoDup_fst_map_to_list.
    + intros [seed a'] H1 H2. apply list_elem_of_fmap in H1 as (? & [= -> ->] & _).
      apply list_elem_of_In, in_flat_map in H2 as ([a' e'] & H2 & H3).
      apply list_elem_of_In, list_elem_of_fmap in H3 as (? & [= _ <-] & _).
      apply Ha, list_elem_of_fmap. exists (a, e'). split; [done|by apply list_elem_of_In].
  - intros a seed. rewrite elem_of_get_all_seeds. unfold get_seeds_for_node, has_seed.
    destruct (r !! a) as [e|] eqn:E; cbn.
    + rewrite list_elem_of_fmap. split.
      * intros ([s ds] & -> & Hs). apply elem_of_map_to_list in Hs. eauto.
      * intros (e' & [= <-] & [ds Hs]). exists (seed, ds). split; [done|].
        by apply elem_of_map_to_list.
    + split; [set_solver|]. by intros (? & ? & _).
  - intros seed. unfold find_node_for_seed.
    destruct (List.find _ _) as [[a e]|] eqn:E; cbn.
    + apply List.find_some in E as [Ha Hs]. apply bool_decide_eq_true in Hs.
      apply elem_of_get_all_seeds. exists e. split; [|done].
      by apply list_elem_of_In, elem_of_map_to_list in Ha.
    + intros a Ha. apply elem_of_get_all_seeds in Ha as (e & Ha & Hs).
      apply elem_of_map_to_list, list_elem_of_In in Ha.
      eapply List.find_none in E; [|exact Ha]. cbn in E. by apply bool_decide_eq_false in E.
Qed.
