(* ===== verification/Seeds.v ===== *)
(** * Seed records, seed sets and their hashes

    - [SeedRecord] and [SeedsCommand]: src/src/protocols/commands/ack.rs;
    - [SeedInfo], [SeedSet] and the set derived from the registry:
      src/src/protocols/commands/seed_sync.rs;
    - the ring hash of src/src/protocols/commands/tick.rs and the witness hash
      of src/src/clis/sync.rs.

    A [HashSet] that is only asked for membership is the list of what was
    inserted. *)

From S2P Require Import Prelude NetAddr External NodeRegistry.
From Stdlib Require Import Ascii.
Open Scope Z_scope.
Open Scope stdpp_scope.

Record SeedRecord := mk_seed {
  sr_address : string;
  sr_node_address : string;
  sr_first_seen : Z;
}.
#[export] Instance SeedRecord_eq_dec : EqDecision SeedRecord.
Proof. solve_decision. Defined.

(** [SeedRecord::new]; [ts] is [Utc::now().timestamp()]. *)
Definition seed_record_new (ts : Z) (a node : string) : SeedRecord := mk_seed a node ts.

Record SeedsCommand := mk_seeds { sc_seeds : list SeedRecord; sc_hash : bytes }.

(** [for x in l { if !seen.contains(key(x)) { seen.insert(key(x)); push(x) } }] *)
Fixpoint dedup_by {A} (key : A → string) (seen : list string) (l : list A) : list A :=
  match l with
  | [] => []
  | x :: l' =>
      if bool_decide (key x ∈ seen) then dedup_by key seen l'
      else x :: dedup_by key (key x :: seen) l'
  end.

Definition node_address_leb (a b : SeedRecord) : bool := str_leb (sr_node_address a) (sr_node_address b).

(** One step of the hash loop: node address, then [first_seen] as an i64. *)
Definition seed_record_bytes (s : SeedRecord) : bytes :=
  as_bytes (sr_node_address s) ++ le_bytes 8 (sr_first_seen s).

(** What is fed to the hash: the records sorted by node address. *)
Definition seeds_preimage (l : list SeedRecord) : bytes :=
  concat (seed_record_bytes <$> sort_by node_address_leb l).

Record SeedInfo := mk_info {
  si_ip : string;
  si_port : Z;
  si_node_id : string;
  si_is_intranet : bool;
  si_is_connectable : bool;
  si_success_count : Z;
  si_failure_count : Z;
  si_last_attempt_ts : Z;
}.
#[export] Instance SeedInfo_eq_dec : EqDecision SeedInfo.
Proof. solve_decision. Defined.

Definition seed_info_new (ip : string) (port : Z) (node : string) (intranet : bool) : SeedInfo :=
  mk_info ip port node intranet true 0 0 0.

(** [format!("{}:{}", self.ip, self.port)] *)
Definition si_address (s : SeedInfo) : string := si_ip s +:+ ":" +:+ show_u (si_port s).
Definition si_socket_addr (s : SeedInfo) : option SocketAddr :=
  parse_sock (si_ip s +:+ ":" +:+ show_u (si_port s)).

Definition seed_hash_hex_length : nat := 64.
(** [s.repeat(n)] for a one-character string *)
Fixpoint repeat_char (c : ascii) (n : nat) : string :=
  match n with O => EmptyString | S n' => String c (repeat_char c n') end.
Definition default_pre_hash : string := repeat_char "0"%char seed_hash_hex_length.

Record SeedSet := mk_set {
  ss_seeds : list SeedInfo;
  ss_pre_hash : string;
  ss_hash : bytes;
  ss_epoch : Z;
  ss_locked : bool;
  ss_sync_round : Z;
}.

Definition ss_is_empty (s : SeedSet) : bool := match ss_seeds s with [] => true | _ => false end.
Definition ss_len (s : SeedSet) : nat := length (ss_seeds s).
Definition ss_contains (ip : string) (port : Z) (s : SeedSet) : bool :=
  existsb (fun x => bool_decide (si_ip x = ip) && (si_port x =? port)) (ss_seeds s).

(** [SeedSet::is_loopback]: text that is not an address is not loopback. *)
Definition ip_text_is_loopback (ip : string) : bool :=
  match parse_ip ip with Some a => is_loopback a | None => false end.

Definition seed_set_preimage (pre_hash : string) (l : list SeedInfo) : bytes :=
  as_bytes pre_hash ++ concat (as_bytes <$> sort_strings (si_address <$> l)).

Definition not_loopback (s : SeedInfo) : bool := negb (ip_text_is_loopback (si_ip s)).

Section hashes.
Context `{Sha256}.

Definition seed_record_hash (s : SeedRecord) : bytes := sha256 (seed_record_bytes s).

Definition seeds_command_new (l : list SeedRecord) : SeedsCommand :=
  let deduped := dedup_by sr_address [] l in
  mk_seeds deduped (sha256 (seeds_preimage deduped)).

Definition seeds_command_verify (c : SeedsCommand) : bool :=
  bool_decide (sha256 (seeds_preimage (sc_seeds c)) = sc_hash c).

Definition compute_seed_hash (pre_hash : string) (l : list SeedInfo) : bytes :=
  sha256 (seed_set_preimage pre_hash l).

Definition seed_set_with_pre_hash (l : list SeedInfo) (epoch : Z) (pre_hash : string) : SeedSet :=
  mk_set l pre_hash (compute_seed_hash pre_hash l) epoch false 0.

Definition seed_set_new (l : list SeedInfo) (epoch : Z) : SeedSet :=
  let pre_hash := default_pre_hash in
  mk_set l pre_hash (compute_seed_hash pre_hash l) epoch false 0.

Definition seed_set_verify (s : SeedSet) : bool :=
  bool_decide (compute_seed_hash (ss_pre_hash s) (ss_seeds s) = ss_hash s).

Definition recalculate_hash (s : SeedSet) : SeedSet :=
  mk_set (ss_seeds s) (ss_pre_hash s) (compute_seed_hash (ss_pre_hash s) (ss_seeds s))
    (ss_epoch s) (ss_locked s) (ss_sync_round s).

(** The loop over [other.seeds] of [SeedSet::merge]. *)
Fixpoint merge_loop (seen : list string) (merged : list SeedInfo) (l : list SeedInfo) : list SeedInfo :=
  match l with
  | [] => merged
  | seed :: l' =>
      if ip_text_is_loopback (si_ip seed) then merge_loop seen merged l'
      else
        let addr := si_address seed in
        if bool_decide (addr ∈ seen) then merge_loop seen merged l'
        else merge_loop (addr :: seen) (merged ++ [seed]) l'
  end.

Definition merge (a b : SeedSet) : SeedSet :=
  let merged := List.filter not_loopback (ss_seeds a) in
  seed_set_with_pre_hash (merge_loop (si_address <$> merged) merged (ss_seeds b))
    (Z.max (ss_epoch a) (ss_epoch b)) (ss_pre_hash a).

Definition filter_loopback (s : SeedSet) : SeedSet :=
  seed_set_with_pre_hash (List.filter not_loopback (ss_seeds s)) (ss_epoch s) (ss_pre_hash s).

Definition seed_info_of (p : SocketAddr * string) : SeedInfo :=
  let '(addr, node) := p in
  let intranet := match sock_ip addr with V4 v4 => v4_is_private v4 | V6 _ => false end in
  seed_info_new (ip_to_string (sock_ip addr)) (sock_port addr) node intranet.

Definition derive_seed_set_from_registry (r : registry) : SeedSet :=
  seed_set_new (seed_info_of <$> List.filter (fun '(addr, _) => negb (sock_port addr =? 0)) (get_all_seeds r)) 0.

(** src/src/protocols/commands/tick.rs *)
Definition compute_witness_ring_hash (l : list SeedRecord) : bytes :=
  sha256 (concat (as_bytes <$> sort_strings (sr_address <$> l))).

(** src/src/clis/sync.rs: the list is sorted by the caller. *)
Definition compute_witness_hash (l : list string) : bytes := sha256 (concat (as_bytes <$> l)).
End hashes.

(** ** Deduplication *)

Section dedup.
Context {A : Type} (key : A → string).

Lemma dedup_by_keys seen l k :
  k ∈ key <$> dedup_by key seen l ↔ k ∈ key <$> l ∧ k ∉ seen.
Proof.
  revert seen; induction l as [|x l IH]; intros seen; cbn; [set_solver|].
  case_bool_decide as Hx; cbn; rewrite ?elem_of_cons, IH, ?elem_of_cons.
  - split; [naive_solver|]. intros [[->|?] ?]; done.
  - destruct (decide (k = key x)) as [->|]; naive_solver.
Qed.

Lemma dedup_by_nodup seen l : NoDup (key <$> dedup_by key seen l).
Proof.
  revert seen; induction l as [|x l IH]; intros seen; cbn; [constructor|].
  case_bool_decide; cbn; [done|]. constructor; [|done].
  rewrite dedup_by_keys. set_solver.
Qed.

Lemma dedup_by_sublist seen l : dedup_by key seen l `sublist_of` l.
Proof.
  revert seen; induction l as [|x l IH]; intros seen; cbn; [done|].
  case_bool_decide; by constructor.
Qed.

(** Of the entries with one key the first stays. *)
Lemma dedup_by_first seen l x :
  x ∈ dedup_by key seen l → List.find (fun y => bool_decide (key y = key x)) l = Some x.
Proof.
  revert seen; induction l as [|y l IH]; intros seen; cbn; [by intros ?%elem_of_nil|].
  assert (Hne : ∀ seen', key y ∈ seen' → x ∈ dedup_by key seen' l → key y ≠ key x).
  { intros seen' Hy Hx E. assert (Hk : key x ∈ key <$> dedup_by key seen' l) by (by apply list_elem_of_fmap_2).
    apply dedup_by_keys in Hk as [_ Hk]. by rewrite E in Hy. }
  case_bool_decide as Hy.
  - intros Hx. rewrite bool_decide_false by (by eapply Hne). by eapply IH.
  - intros [->|Hx]%elem_of_cons; [by rewrite bool_decide_true|].
    rewrite bool_decide_false by (eapply Hne; [|exact Hx]; by left). by eapply IH.
Qed.

(** A list without repeated keys is left as it is. *)
Lemma dedup_by_id seen l :
  NoDup (key <$> l) → (∀ k, k ∈ key <$> l → k ∉ seen) → dedup_by key seen l = l.
Proof.
  revert seen; induction l as [|x l IH]; intros seen Hl Hs; cbn; [done|].
  apply NoDup_cons in Hl as [Hx Hl]. rewrite bool_decide_false by (apply Hs; set_solver).
  f_equal. apply IH; [done|]. intros k Hk. apply not_elem_of_cons. split; [set_solver|].
  apply Hs. set_solver.
Qed.
End dedup.

Lemma merge_loop_dedup seen merged l :
  merge_loop seen merged l = merged ++ dedup_by si_address seen (List.filter not_loopback l).
Proof.
  revert seen merged; induction l as [|s l IH]; intros seen merged; cbn; [by rewrite app_nil_r|].
  unfold not_loopback at 1. destruct (ip_text_is_loopback (si_ip s)); cbn; [done|].
  case_bool_decide; [done|]. by rewrite IH, <- (assoc_L (++)).
Qed.

(** The addresses a set stands for: those of its entries off the loopback. *)
Definition live_addresses (s : SeedSet) : list string :=
  si_address <$> List.filter not_loopback (ss_seeds s).

Section seed_set_props.
Context `{Sha256}.

Lemma seed_set_preimage_perm pre (l1 l2 : list SeedInfo) :
  si_address <$> l1 ≡ₚ si_address <$> l2 → seed_set_preimage pre l1 = seed_set_preimage pre l2.
Proof. intros Hp. unfold seed_set_preimage. by rewrite Hp. Qed.

Lemma merge_seeds a b :
  ss_seeds (merge a b) =
    List.filter not_loopback (ss_seeds a) ++
    dedup_by si_address (live_addresses a) (List.filter not_loopback (ss_seeds b)).
Proof. apply merge_loop_dedup. Qed.

Lemma filter_not_loopback_id (l : list SeedInfo) :
  Forall (fun s => not_loopback s = true) l → List.filter not_loopback l = l.
Proof. induction 1 as [|s l Hs _ IH]; cbn; [done|]. by rewrite Hs, IH. Qed.

Lemma merge_all_live a b : Forall (fun s => not_loopback s = true) (ss_seeds (merge a b)).
Proof.
  apply Forall_forall. intros s. rewrite merge_seeds, elem_of_app. intros Hs.
  assert (∀ l, s ∈ List.filter not_loopback l → not_loopback s = true) as Hf.
  { intros l Hl. by apply list_elem_of_In, filter_In in Hl as [_ ?]. }
  destruct Hs as [Hs|Hs]; [by eapply Hf|].
  eapply Hf, elem_of_sublist; [exact Hs|apply dedup_by_sublist].
Qed.

Lemma live_addresses_merge a b :
  live_addresses (merge a b) = si_address <$> ss_seeds (merge a b).
Proof. unfold live_addresses. by rewrite (filter_not_loopback_id _ (merge_all_live a b)). Qed.

(** The addresses of a merge: those of the first set as they stand, then the
    others of the second, each once. *)
Lemma merge_parts a b :
  let new := dedup_by si_address (live_addresses a) (List.filter not_loopback (ss_seeds b)) in
  live_addresses (merge a b) = live_addresses a ++ (si_address <$> new) ∧ NoDup (si_address <$> new) ∧
  ∀ x, x ∈ si_address <$> new ↔ x ∈ live_addresses b ∧ x ∉ live_addresses a.
Proof.
  cbv zeta. rewrite live_addresses_merge, merge_seeds, fmap_app. fold (live_addresses a). split; [done|].
  split; [apply dedup_by_nodup|]. intros x. by rewrite dedup_by_keys.
Qed.

Lemma merge_union a b x : x ∈ live_addresses (merge a b) ↔ x ∈ live_addresses a ∨ x ∈ live_addresses b.
Proof.
  destruct (merge_parts a b) as (-> & _ & Hx). rewrite elem_of_app, Hx.
  destruct (decide (x ∈ live_addresses a)); naive_solver.
Qed.

Lemma merge_distinct a b : NoDup (live_addresses (merge a b)) ↔ NoDup (live_addresses a).
Proof.
  destruct (merge_parts a b) as (-> & Hn & Hx). rewrite NoDup_app. split; [by intros [? _]|].
  intros Ha. split_and!; [done| |done]. intros x Hxa Hxb. by apply Hx in Hxb as [_ ?].
Qed.

(** C15. What a merge holds: the entries of the first set off the loopback, as
    they stand and in their order - an address it has twice stays twice -,
    followed by the entries of the second at addresses the first does not
    have, each address once and with its first entry. So the addresses are
    the union, and repeated only if they were in the first set. No entry is on
    the loopback; the epoch is the larger one; the result is unlocked and
    passes [verify]. *)
Theorem merge_spec a b :
  (∃ new, ss_seeds (merge a b) = List.filter not_loopback (ss_seeds a) ++ new ∧
     new `sublist_of` ss_seeds b ∧ NoDup (si_address <$> new) ∧
     (∀ x, x ∈ si_address <$> new ↔ x ∈ live_addresses b ∧ x ∉ live_addresses a) ∧
     ∀ s, s ∈ new →
       List.find (fun t => bool_decide (si_address t = si_address s)) (List.filter not_loopback (ss_seeds b)) = Some s) ∧
  (∀ x, x ∈ si_address <$> ss_seeds (merge a b) ↔ x ∈ live_addresses a ∨ x ∈ live_addresses b) ∧
  (NoDup (si_address <$> ss_seeds (merge a b)) ↔ NoDup (live_addresses a)) ∧
  Forall (fun s => ip_text_is_loopback (si_ip s) = false) (ss_seeds (merge a b)) ∧
  ss_epoch (merge a b) = Z.max (ss_epoch a) (ss_epoch b) ∧
  ss_locked (merge a b) = false ∧
  seed_set_verify (merge a b) = true.
Proof.
  rewrite <- live_addresses_merge. split_and!; try done.
  - destruct (merge_parts a b) as (_ & Hn & Hx). eexists. split; [apply merge_seeds|]. split_and!; [|done..|].
    + etrans; [apply dedup_by_sublist|]. clear. induction (ss_seeds b) as [|s l IH]; cbn; [done|].
      destruct (not_loopback s); by constructor.
    + intros s Hs. by eapply dedup_by_first.
  - apply merge_union.
  - apply merge_distinct.
  - eapply Forall_impl; [apply merge_all_live|]. unfold not_loopback. intros s.
    by rewrite negb_true_iff.
  - unfold seed_set_verify. by apply bool_decide_true.
Qed.

Lemma merge_hash_ext a b a' b' :
  ss_pre_hash a = ss_pre_hash a' →
  NoDup (live_addresses a) → NoDup (live_addresses a') →
  (∀ x, (x ∈ live_addresses a ∨ x ∈ live_addresses b) ↔
        (x ∈ live_addresses a' ∨ x ∈ live_addresses b')) →
  ss_hash (merge a b) = ss_hash (merge a' b').
Proof.
  intros Hpre Ha Ha' Hx.
  apply (merge_distinct a b) in Ha as Hn. apply (merge_distinct a' b') in Ha' as Hn'.
  rewrite live_addresses_merge in Hn, Hn'.
  change (compute_seed_hash (ss_pre_hash a) (ss_seeds (merge a b)) =
          compute_seed_hash (ss_pre_hash a') (ss_seeds (merge a' b'))).
  rewrite Hpre. unfold compute_seed_hash. f_equal. apply seed_set_preimage_perm.
  apply NoDup_Permutation; [done..|]. intros x. rewrite <- !live_addresses_merge, !merge_union. apply Hx.
Qed.

(** A registry that has one socket under two nodes, and one that has it under
    one: the sets derived from them. *)
Definition shared_socket : SocketAddr := SockV4 (mk_v4 10 0 0 7) 9000.
Definition once_registered : registry := register 0 "n" shared_socket Intranet new_registry.
Definition twice_registered : registry := register 0 "m" shared_socket Intranet once_registered.

(** C9. Merging converges, and how far. On addresses always: whatever the sets
    are, the addresses of a merge do not depend on the order, the grouping or
    the repetition of merges. On the hash that decides agreement, when the
    sets have the same [pre_hash] and none has an address twice: then nodes
    that merged the same sets in any order and any number of times agree.
    Without that they need not: a node that has one socket on record under two
    names derives a set with its address twice, and of the two orders of
    merging with the set of a node that has it once, what is hashed differs. *)
Theorem merge_converges :
  (∀ a b c x,
     (x ∈ live_addresses (merge a b) ↔ x ∈ live_addresses (merge b a)) ∧
     (x ∈ live_addresses (merge (merge a b) c) ↔ x ∈ live_addresses (merge a (merge b c))) ∧
     (x ∈ live_addresses (merge (merge a b) b) ↔ x ∈ live_addresses (merge a b))) ∧
  (∀ a b c,
     ss_pre_hash a = ss_pre_hash b → ss_pre_hash b = ss_pre_hash c →
     NoDup (live_addresses a) → NoDup (live_addresses b) → NoDup (live_addresses c) →
     ss_hash (merge a b) = ss_hash (merge b a) ∧
     ss_hash (merge (merge a b) c) = ss_hash (merge a (merge b c)) ∧
     ss_hash (merge (merge a b) b) = ss_hash (merge a b)) ∧
  let a := derive_seed_set_from_registry twice_registered in
  let b := derive_seed_set_from_registry once_registered in
  ss_pre_hash a = ss_pre_hash b ∧ (∀ x, x ∈ live_addresses a ↔ x ∈ live_addresses b) ∧
  seed_set_preimage (ss_pre_hash a) (ss_seeds (merge a b)) ≠ seed_set_preimage (ss_pre_hash b) (ss_seeds (merge b a)).
Proof.
  split; [|split].
  - intros a b c x. rewrite !merge_union. split_and!; tauto.
  - intros a b c Hab Hbc Ha Hb Hc.
    assert (NoDup (live_addresses (merge a b))) by (by apply merge_distinct).
    split_and!; apply merge_hash_ext; try done; intros x; rewrite ?merge_union; tauto.
  - split; [done|]. split.
    + intros x. unfold live_addresses. set (la := si_address <$> _). set (lb := si_address <$> _).
      assert (Hl : la = "10.0.0.7:9000" :: lb ∧ lb = ["10.0.0.7:9000"]).
      { apply (bool_decide_unpack _). by vm_compute. }
      destruct Hl as [-> ->]. set_solver.
    + apply (bool_decide_unpack _). by vm_compute.
Qed.

(** The seed hash does not depend on the order in which the registry is
    iterated, nor on anything but the addresses; the set derived from a
    registry lists exactly its seeds with a non-zero port and always passes
    [verify]. *)
Theorem derive_seed_set_spec (r : registry) :
  (∀ l : list SeedInfo, l ≡ₚ ss_seeds (derive_seed_set_from_registry r) →
     compute_seed_hash default_pre_hash l = ss_hash (derive_seed_set_from_registry r)) ∧
  (∀ s, s ∈ ss_seeds (derive_seed_set_from_registry r) ↔
     ∃ addr node, has_seed r node addr ∧ sock_port addr ≠ 0 ∧ s = seed_info_of (addr, node)) ∧
  seed_set_verify (derive_seed_set_from_registry r) = true.
Proof.
  split_and!.
  - intros l Hl.
    change (sha256 (seed_set_preimage default_pre_hash l) =
            sha256 (seed_set_preimage default_pre_hash (ss_seeds (derive_seed_set_from_registry r)))).
    f_equal. apply seed_set_preimage_perm. by rewrite Hl.
  - intros s. unfold derive_seed_set_from_registry. cbn [ss_seeds seed_set_new].
    rewrite list_elem_of_fmap. split.
    + intros ([addr node] & -> & Hin). apply list_elem_of_In, filter_In in Hin as [Hin Hp].
      exists addr, node. apply list_elem_of_In, elem_of_get_all_seeds in Hin.
      apply negb_true_iff, Z.eqb_neq in Hp. done.
    + intros (addr & node & Hin & Hp & ->). exists (addr, node). split; [done|].
      apply list_elem_of_In, filter_In. split; [by apply list_elem_of_In, elem_of_get_all_seeds|].
      by apply negb_true_iff, Z.eqb_neq.
  - unfold seed_set_verify. by apply bool_decide_true.
Qed.
End seed_set_props.

(** ** Seed records on the wire *)

Section seeds_command_props.
Context `{Sha256}.

Lemma node_address_leb_total a b : node_address_leb a b = true ∨ node_address_leb b a = true.
Proof. apply str_leb_total. Qed.

Lemma node_address_leb_trans a b c :
  node_address_leb a b = true → node_address_leb b c = true → node_address_leb a c = true.
Proof. apply str_leb_trans. Qed.

(** Rewriting socket addresses does not move a record in the sort. *)
Lemma insert_sorted_map {A} (leb : A → A → bool) (f : A → A) x l :
  (∀ a b, leb (f a) (f b) = leb a b) →
  insert_sorted leb (f x) (f <$> l) = f <$> insert_sorted leb x l.
Proof.
  intros Hf. induction l as [|y l IH]; cbn; [done|]. rewrite Hf.
  destruct (leb x y); cbn; [done|]. by rewrite IH.
Qed.

Lemma sort_by_map {A} (leb : A → A → bool) (f : A → A) l :
  (∀ a b, leb (f a) (f b) = leb a b) → sort_by leb (f <$> l) = f <$> sort_by leb l.
Proof.
  intros Hf. induction l as [|x l IH]; [done|].
  change (insert_sorted leb (f x) (sort_by leb (f <$> l)) =
          f <$> insert_sorted leb x (sort_by leb l)).
  by rewrite IH, insert_sorted_map.
Qed.

(** [SeedsCommand::new] keeps the first record of every socket address,
    in order, drops nothing else, and what it builds always verifies. *)
Theorem seeds_command_new_spec (l : list SeedRecord) :
  let c := seeds_command_new l in
  seeds_command_verify c = true ∧
  sc_seeds c `sublist_of` l ∧
  NoDup (sr_address <$> sc_seeds c) ∧
  (∀ x, x ∈ sr_address <$> sc_seeds c ↔ x ∈ sr_address <$> l) ∧
  seeds_command_new (sc_seeds c) = c.
Proof.
  intros c. split_and!.
  - by apply bool_decide_true.
  - apply dedup_by_sublist.
  - apply dedup_by_nodup.
  - intros x. unfold c. cbn. rewrite dedup_by_keys. set_solver.
  - unfold c, seeds_command_new. cbn [sc_seeds].
    rewrite (dedup_by_id sr_address [] (dedup_by sr_address [] l));
      [done|apply dedup_by_nodup|set_solver].
Qed.

(** The check of a seed gossip does not cover the socket addresses:
    replacing the address of any record by any text whatever keeps the
    command valid. *)
Theorem seeds_verify_ignores_address (f : SeedRecord → string) (c : SeedsCommand) :
  seeds_command_verify
    (mk_seeds ((fun s => mk_seed (f s) (sr_node_address s) (sr_first_seen s)) <$> sc_seeds c) (sc_hash c))
  = seeds_command_verify c.
Proof.
  unfold seeds_command_verify. cbn [sc_seeds sc_hash].
  assert (E : ∀ l, seeds_preimage ((fun s => mk_seed (f s) (sr_node_address s) (sr_first_seen s)) <$> l)
                   = seeds_preimage l); [|by rewrite E].
  intros l. unfold seeds_preimage. rewrite sort_by_map by done. f_equal.
  rewrite <- list_fmap_compose. by apply list_fmap_ext.
Qed.
End seeds_command_props.

(** ** From a registry seed to an address one can dial *)

(** A seed that went through [SeedInfo] comes back as the socket address
    it was when that is an IPv4 address; an IPv6 seed does not come back at
    all, because its text lacks the brackets the parser wants. *)
Theorem seed_info_socket_addr (addr : SocketAddr) (node : string) :
  sock_wf addr →
  si_socket_addr (seed_info_of (addr, node)) =
    match addr with SockV4 _ _ => Some addr | SockV6 _ _ _ _ => None end.
Proof.
  destruct addr as [i p|i p f s]; unfold si_socket_addr; cbn [seed_info_of seed_info_new si_ip si_port sock_ip sock_port ip_to_string].
  - intros [Hi Hp]. by apply parse_sock_show_v4.
  - intros (Hi & Hp & _). by apply parse_sock_v6_unbracketed.
Qed.

Lemma seed_info_socket_addr_witness :
  si_socket_addr (seed_info_of (SockV4 (mk_v4 10 0 0 7) 9000, "n")) = Some (SockV4 (mk_v4 10 0 0 7) 9000).
Proof.
  apply (seed_info_socket_addr (SockV4 (mk_v4 10 0 0 7) 9000) "n").
  vm_compute. repeat split; congruence.
Defined.

(** The seed hash has collisions that no digest can prevent: the sorted
    addresses are concatenated without a separator, so two different seed
    sets, with no address in common, hash alike. *)
Theorem seed_hash_ambiguous `{Sha256} (pre_hash : string) :
  let a := [seed_info_new "1.1.1.1" 1 "n" false; seed_info_new "21.1.1.1" 5 "m" false] in
  let b := [seed_info_new "1.1.1.1" 12 "n" false; seed_info_new "1.1.1.1" 5 "m" false] in
  compute_seed_hash pre_hash a = compute_seed_hash pre_hash b ∧
  (∀ x, x ∈ si_address <$> a → x ∉ si_address <$> b).
Proof.
  split; [reflexivity|]. cbn. intros x Hx Hx'.
  repeat (apply elem_of_cons in Hx as [->|Hx]); try set_solver;
    repeat (apply elem_of_cons in Hx' as [?|Hx']; [discriminate|]); set_solver.
Qed.
