(* ===== verification/World.v ===== *)
(** * The node's state

    What the protocol handlers read and write: the [GlobalContext] with its
    type-indexed slots, the connection contexts, and the effects they leave
    behind - bytes handed to a connection's writer, spawned tasks, published
    events, answered waiters. Handlers are stateful operations over [World].

    Sources: src/src/protocols/commands/{ack,online,message,tick}.rs for the
    data, and every handler for the slots it uses. *)

From S2P Require Import Prelude NetAddr External Command NodeRegistry Seeds.
From Stdlib Require Floats.SpecFloat.
Open Scope Z_scope.
Open Scope stdpp_scope.

(** Readings of the clock, in seconds, of aex's message timestamp, of the
    random generators and of locks that are only tried: the n-th reading is
    whatever the host answers. *)
Class Host : Type := {
  host_clock : nat → Z;
  host_timestamp : nat → Z;
  host_nonce : nat → Z;
  host_uuid : nat → string;
  (** whether the lock of a connection is free when it is tried *)
  host_free : nat → bool;
}.

(** The crates of [External] and the host. *)
Class Crates : Type := {
  #[global] crates_sha :: Sha256;
  #[global] crates_account :: Account;
  #[global] crates_keys :: SessionKeys;
  #[global] crates_aex :: Aex;
  #[global] crates_host :: Host;
}.

(** src/src/protocols/commands/tick.rs *)
Record WitnessEntry := mk_witness {
  we_address : string;
  we_seed_addr : string;
  we_weight : Z;
  we_status : string;
  we_last_tick_ts : Z;
  we_rank : Z;
}.
Record BalanceEntry := mk_balance {
  be_address : string;
  be_balance : Z;
  be_updated_at : Z;
}.

(** src/src/protocols/commands/message.rs *)
Record IncomingMessage := mk_incoming {
  im_from : string;
  im_content : string;
  im_timestamp : Z;
}.

(** src/src/protocols/commands/online.rs *)
Inductive Event :=
| PeerOnlineEvent (addr : string) (intranet_ips wan_ips : list string)
| PeerOfflineEvent (addr : string).

(** The part of the node that the type-indexed slot of the context shares
    with its handlers: the registry and the peer list. *)
Record P2pNode := mk_p2p_node {
  pn_registry : registry;
  pn_peer_addrs : list SocketAddr;
}.

(** [Context]: the peer's socket address, its own slot for a [String] (the
    peer's node address), its writer and what was written to it. *)
Record Ctx := mk_ctx {
  ctx_addr : SocketAddr;
  ctx_peer : option string;
  ctx_writer : bool;
  ctx_out : list bytes;
}.

(** src/src/protocols/commands/node_sync.rs *)
Record NodeSyncRequest := mk_node_sync_request {
  nq_request_id : string;
  nq_node_id : string;
  nq_sync_type : string;
}.
Record TransactionData := mk_transaction_data {
  td_id : Z; td_epoch : Z; td_cycle : Z; td_tx_type : string; td_from_address : string;
  td_to_address : string; td_amount : string; td_timestamp : Z; td_pre_hash : string; td_hash : string;
  td_shard_key : string;
}.
Record BalanceData := mk_balance_data {
  bd_id : Z; bd_address : string; bd_balance : string; bd_updated_at : Z;
}.
Record EpochData := mk_epoch_data {
  ed_id : Z; ed_day : Z; ed_start_time : Z; ed_end_time : Z; ed_tick_count : Z; ed_total_reward : string;
  ed_settled : bool;
}.
Record SeedData := mk_seed_data {
  sd_id : Z; sd_ip : string; sd_port : Z; sd_node_id : string; sd_is_intranet : bool; sd_is_active : bool;
  sd_success_count : Z; sd_failure_count : Z; sd_online_days : Z; sd_offline_days : Z;
  sd_online_rate : SpecFloat.spec_float;
}.
Record MetaEntry := mk_meta_entry { me_key : string; me_value : string }.
Record NodeSyncResponse := mk_node_sync_response {
  np_request_id : string;
  np_success : bool;
  np_transactions : list TransactionData;
  np_balances : list BalanceData;
  np_epochs : list EpochData;
  np_seeds : list SeedData;
  np_meta_entries : list MetaEntry;
}.

(** src/src/protocols/commands/witness_validate.rs *)
Record ValidationEvent := mk_validation_event { ve_node_id : string; ve_success : bool }.

(** The process-wide statics of node_sync.rs and witness_validate.rs: the
    channels the rest of the application registers. [pr_request] is what the
    task behind [REQUEST_SENDER] answers to a request id, [None] when it drops
    the request; the other two hold what was sent, the events in a channel of
    bounded capacity. *)
Record Process := mk_process {
  pr_request : option (string → option NodeSyncResponse);
  pr_response : option (list NodeSyncResponse);
  pr_validation : option (nat * list ValidationEvent);
}.

Section world.
Context `{Crates}.

(** src/src/protocols/commands/online.rs and ack.rs *)
Record OnlineCommand := mk_online {
  on_session_id : bytes;
  on_node : AexNode;
  on_ephemeral : bytes;
  on_intranet_ips : list string;
  on_wan_ips : list string;
  on_seeds : option SeedsCommand;
}.
Record OnlineAckCommand := mk_online_ack {
  oa_session_id : bytes;
  oa_address : string;
  oa_node : AexNode;
  oa_ephemeral : bytes;
  oa_intranet_ips : list string;
  oa_wan_ips : list string;
  oa_seeds : option SeedsCommand;
}.

(** The closures the handlers [tokio::spawn]. *)
Inductive Task :=
| TConnect (c : ctx_id) (addr : SocketAddr) (node_address : string)
| TBroadcast (c : ctx_id) (cmd : SeedsCommand)
| TReturnConnect (addr : SocketAddr) (cmd : OnlineCommand)
| TNodeSync (c : ctx_id) (peer : string)
| TWatch (sock : SocketAddr) (node_address : string)
| TAckDirect (sender : string) (request_id : Z) (to : list SocketAddr)
| TAckBroadcast (sender : string) (request_id : Z).

Record Gctx := mk_gctx {
  (** [GlobalContext::addr] *)
  g_addr : SocketAddr;
  (** [local_node] *)
  g_local_node : AexNode;
  (** [paired_session_keys] *)
  g_psk : option Psk;
  (** [manager] *)
  g_manager : Manager;
  (** [get::<FreeWebMovementAddress>] *)
  g_address : option Address;
  (** [get::<Arc<Node>>] *)
  g_node : option P2pNode;
  (** [get::<SeenMessages>] *)
  g_seen : option (gset string);
  (** [get::<PendingAcks>]: the request ids that wait *)
  g_pending : option (gset Z);
  (** [get::<UnboundedSender<IncomingMessage>>]: what was sent *)
  g_inbox : option (list IncomingMessage);
  (** [get::<[u8; 32]>] *)
  g_ring_hash : option bytes;
  (** [get::<u32>] *)
  g_stable_count : option Z;
  (** [get::<Vec<WitnessEntry>>] *)
  g_witnesses : option (list WitnessEntry);
  (** [get::<Vec<BalanceEntry>>] *)
  g_balances : option (list BalanceEntry);
  (** [get::<SeedSet>] *)
  g_seed_set : option SeedSet;
}.

Record World := mk_world {
  (** the node's [GlobalContext] *)
  w_g : Gctx;
  (** the connection contexts behind their [Arc]s *)
  w_ctx : ctx_id → Ctx;
  (** spawned tasks, in order *)
  w_tasks : list Task;
  (** published events *)
  w_events : list Event;
  (** request ids whose waiter was told [true] *)
  w_confirmed : list Z;
  (** clock readings so far *)
  w_clock : nat;
  (** random draws so far *)
  w_rand : nat;
  (** the process's statics *)
  w_process : Process;
}.

Definition set_g_addr (v : _) (s : Gctx) := mk_gctx v (g_local_node s) (g_psk s) (g_manager s) (g_address s) (g_node s) (g_seen s) (g_pending s) (g_inbox s) (g_ring_hash s) (g_stable_count s) (g_witnesses s) (g_balances s) (g_seed_set s).
Definition set_g_local_node (v : _) (s : Gctx) := mk_gctx (g_addr s) v (g_psk s) (g_manager s) (g_address s) (g_node s) (g_seen s) (g_pending s) (g_inbox s) (g_ring_hash s) (g_stable_count s) (g_witnesses s) (g_balances s) (g_seed_set s).
Definition set_g_psk (v : _) (s : Gctx) := mk_gctx (g_addr s) (g_local_node s) v (g_manager s) (g_address s) (g_node s) (g_seen s) (g_pending s) (g_inbox s) (g_ring_hash s) (g_stable_count s) (g_witnesses s) (g_balances s) (g_seed_set s).
Definition set_g_manager (v : _) (s : Gctx) := mk_gctx (g_addr s) (g_local_node s) (g_psk s) v (g_address s) (g_node s) (g_seen s) (g_pending s) (g_inbox s) (g_ring_hash s) (g_stable_count s) (g_witnesses s) (g_balances s) (g_seed_set s).
Definition set_g_address (v : _) (s : Gctx) := mk_gctx (g_addr s) (g_local_node s) (g_psk s) (g_manager s) v (g_node s) (g_seen s) (g_pending s) (g_inbox s) (g_ring_hash s) (g_stable_count s) (g_witnesses s) (g_balances s) (g_seed_set s).
Definition set_g_node (v : _) (s : Gctx) := mk_gctx (g_addr s) (g_local_node s) (g_psk s) (g_manager s) (g_address s) v (g_seen s) (g_pending s) (g_inbox s) (g_ring_hash s) (g_stable_count s) (g_witnesses s) (g_balances s) (g_seed_set s).
Definition set_g_seen (v : _) (s : Gctx) := mk_gctx (g_addr s) (g_local_node s) (g_psk s) (g_manager s) (g_address s) (g_node s) v (g_pending s) (g_inbox s) (g_ring_hash s) (g_stable_count s) (g_witnesses s) (g_balances s) (g_seed_set s).
Definition set_g_pending (v : _) (s : Gctx) := mk_gctx (g_addr s) (g_local_node s) (g_psk s) (g_manager s) (g_address s) (g_node s) (g_seen s) v (g_inbox s) (g_ring_hash s) (g_stable_count s) (g_witnesses s) (g_balances s) (g_seed_set s).
Definition set_g_inbox (v : _) (s : Gctx) := mk_gctx (g_addr s) (g_local_node s) (g_psk s) (g_manager s) (g_address s) (g_node s) (g_seen s) (g_pending s) v (g_ring_hash s) (g_stable_count s) (g_witnesses s) (g_balances s) (g_seed_set s).
Definition set_g_ring_hash (v : _) (s : Gctx) := mk_gctx (g_addr s) (g_local_node s) (g_psk s) (g_manager s) (g_address s) (g_node s) (g_seen s) (g_pending s) (g_inbox s) v (g_stable_count s) (g_witnesses s) (g_balances s) (g_seed_set s).
Definition set_g_stable_count (v : _) (s : Gctx) := mk_gctx (g_addr s) (g_local_node s) (g_psk s) (g_manager s) (g_address s) (g_node s) (g_seen s) (g_pending s) (g_inbox s) (g_ring_hash s) v (g_witnesses s) (g_balances s) (g_seed_set s).
Definition set_g_witnesses (v : _) (s : Gctx) := mk_gctx (g_addr s) (g_local_node s) (g_psk s) (g_manager s) (g_address s) (g_node s) (g_seen s) (g_pending s) (g_inbox s) (g_ring_hash s) (g_stable_count s) v (g_balances s) (g_seed_set s).
Definition set_g_balances (v : _) (s : Gctx) := mk_gctx (g_addr s) (g_local_node s) (g_psk s) (g_manager s) (g_address s) (g_node s) (g_seen s) (g_pending s) (g_inbox s) (g_ring_hash s) (g_stable_count s) (g_witnesses s) v (g_seed_set s).
Definition set_g_seed_set (v : _) (s : Gctx) := mk_gctx (g_addr s) (g_local_node s) (g_psk s) (g_manager s) (g_address s) (g_node s) (g_seen s) (g_pending s) (g_inbox s) (g_ring_hash s) (g_stable_count s) (g_witnesses s) (g_balances s) v.
Definition set_w_g (v : _) (s : World) := mk_world v (w_ctx s) (w_tasks s) (w_events s) (w_confirmed s) (w_clock s) (w_rand s) (w_process s).
Definition set_w_ctx (v : _) (s : World) := mk_world (w_g s) v (w_tasks s) (w_events s) (w_confirmed s) (w_clock s) (w_rand s) (w_process s).
Definition set_w_tasks (v : _) (s : World) := mk_world (w_g s) (w_ctx s) v (w_events s) (w_confirmed s) (w_clock s) (w_rand s) (w_process s).
Definition set_w_events (v : _) (s : World) := mk_world (w_g s) (w_ctx s) (w_tasks s) v (w_confirmed s) (w_clock s) (w_rand s) (w_process s).
Definition set_w_confirmed (v : _) (s : World) := mk_world (w_g s) (w_ctx s) (w_tasks s) (w_events s) v (w_clock s) (w_rand s) (w_process s).
Definition set_w_clock (v : _) (s : World) := mk_world (w_g s) (w_ctx s) (w_tasks s) (w_events s) (w_confirmed s) v (w_rand s) (w_process s).
Definition set_w_rand (v : _) (s : World) := mk_world (w_g s) (w_ctx s) (w_tasks s) (w_events s) (w_confirmed s) (w_clock s) v (w_process s).
Definition set_w_process (v : _) (s : World) := mk_world (w_g s) (w_ctx s) (w_tasks s) (w_events s) (w_confirmed s) (w_clock s) (w_rand s) v.

Abbreviation M := (state World).

(** Slots of the global context. *)
Definition get_g {A} (f : Gctx → A) : M A := gets (fun w => f (w_g w)).
Definition mod_g (f : Gctx → Gctx) : M unit := modify (fun w => set_w_g (f (w_g w)) w).
Definition get_ctx {A} (c : ctx_id) (f : Ctx → A) : M A := gets (fun w => f (w_ctx w c)).
Definition mod_ctx (c : ctx_id) (f : Ctx → Ctx) : M unit :=
  modify (fun w => set_w_ctx (<[c := f (w_ctx w c)]> (w_ctx w)) w).

(** [guard.set(peer)] on a connection context. *)
Definition ctx_set_peer (c : ctx_id) (peer : string) : M unit :=
  mod_ctx c (fun x => mk_ctx (ctx_addr x) (Some peer) (ctx_writer x) (ctx_out x)).

(** [writer.write_all] and [flush], when the context has a writer; a failed
    write is only logged. *)
Definition write (c : ctx_id) (b : bytes) : M unit :=
  mod_ctx c (fun x => if ctx_writer x
                      then mk_ctx (ctx_addr x) (ctx_peer x) true (ctx_out x ++ [b]) else x).

(** [SystemTime::now()] in seconds since the epoch, 0 before it. *)
Definition now_secs : M Z :=
  fun w => (Z.max 0 (host_clock (w_clock w)), set_w_clock (S (w_clock w)) w).
(** [Utc::now().timestamp()] *)
Definition now_ts : M Z := fun w => (host_clock (w_clock w), set_w_clock (S (w_clock w)) w).
Definition now_stamp : M Z := fun w => (host_timestamp (w_clock w), set_w_clock (S (w_clock w)) w).
Definition draw_nonce : M Z := fun w => (host_nonce (w_rand w), set_w_rand (S (w_rand w)) w).
Definition draw_uuid : M string := fun w => (host_uuid (w_rand w), set_w_rand (S (w_rand w)) w).

(** [ctx.try_lock().ok().and_then(|g| g.get::<String>())] *)
Definition try_peer (c : ctx_id) : M (option string) := fun w =>
  (if host_free (w_rand w) then ctx_peer (w_ctx w c) else None, set_w_rand (S (w_rand w)) w).

Definition spawn (t : Task) : M unit := modify (fun w => set_w_tasks (w_tasks w ++ [t]) w).
Definition publish (e : Event) : M unit := modify (fun w => set_w_events (w_events w ++ [e]) w).
Definition confirm (request_id : Z) : M unit :=
  modify (fun w => set_w_confirmed (w_confirmed w ++ [request_id]) w).

(** An operation of the registry of the node in the context; without a node
    nothing happens. *)
Definition with_registry (f : registry → registry) : M unit :=
  mod_g (fun g => match g_node g with
                  | Some n => set_g_node (Some (mk_p2p_node (f (pn_registry n)) (pn_peer_addrs n))) g
                  | None => g
                  end).
Definition get_process {A} (f : Process → A) : M A := gets (fun w => f (w_process w)).
Definition mod_process (f : Process → Process) : M unit := modify (fun w => set_w_process (f (w_process w)) w).
Definition get_registry : M (option registry) := get_g (fun g => pn_registry <$> g_node g).

(** The registry's own clock reading comes first. *)
Definition reg_register (a : string) (seed : SocketAddr) : M unit :=
  now ← now_secs; with_registry (register now a seed (scope_from_ip (sock_ip seed))).
Definition reg_register_dir (a : string) (seed : SocketAddr) (d : ConnectionDirection) : M unit :=
  now ← now_secs; with_registry (register_with_direction now a seed (scope_from_ip (sock_ip seed)) d).
Definition reg_add_seed (a : string) (seed : SocketAddr) : M unit :=
  now ← now_secs; with_registry (fun r => (add_seed now a seed r).2).
Definition reg_mark_connected (a : string) (b : bool) : M unit := with_registry (mark_connected a b).
Definition reg_disconnect (a : string) : M unit := with_registry (disconnect a).
(** [node.registry.try_connect(a)], for a node that is in the context *)
Definition reg_try_connect (a : string) : M bool :=
  now ← now_secs;
  r ← get_registry;
  with_registry (fun r => (try_connect now a r).2) ;;
  mret (default false ((fun r => (try_connect now a r).1) <$> r)).

(** [get_all_seeds().into_iter().map(|(s, na)| SeedRecord::new(s.to_string(), na)).collect()];
    every record reads the clock. *)
Fixpoint seed_records (l : list (SocketAddr * string)) : M (list SeedRecord) :=
  match l with
  | [] => mret []
  | (s, na) :: l' =>
      ts ← now_ts; rest ← seed_records l';
      mret (seed_record_new ts (sock_to_string s) na :: rest)
  end.

(** The [SeedsCommand] of the registry, or of nothing without a node. *)
Definition all_seeds_command : M SeedsCommand :=
  r ← get_registry;
  match r with
  | Some r => l ← seed_records (get_all_seeds r); mret (seeds_command_new l)
  | None => mret (seeds_command_new [])
  end.

(** What sending leaves alone: everything but the session keys, the host's
    readings, and the buffers handed to writers, which only grow, by such as
    [P] admits for the node's address. *)
Record io_step_of (P : option Address → bytes → Prop) (w w' : World) : Prop := mk_io_step {
  io_g : set_g_psk None (w_g w') = set_g_psk None (w_g w);
  io_psk : is_Some (g_psk (w_g w')) ↔ is_Some (g_psk (w_g w));
  io_ctx : ∀ c, ∃ out, w_ctx w' c =
    mk_ctx (ctx_addr (w_ctx w c)) (ctx_peer (w_ctx w c)) (ctx_writer (w_ctx w c))
      (ctx_out (w_ctx w c) ++ out) ∧ Forall (P (g_address (w_g w))) out;
  io_tasks : w_tasks w' = w_tasks w;
  io_events : w_events w' = w_events w;
  io_confirmed : w_confirmed w' = w_confirmed w;
  io_clock : (w_clock w ≤ w_clock w')%nat;
  io_rand : (w_rand w ≤ w_rand w')%nat;
}.

Lemma ctx_same (x : Ctx) : x = mk_ctx (ctx_addr x) (ctx_peer x) (ctx_writer x) (ctx_out x ++ []).
Proof. destruct x; cbn. by rewrite app_nil_r. Qed.

Lemma io_step_ctx_same P w w' :
  w_ctx w' = w_ctx w → set_g_psk None (w_g w') = set_g_psk None (w_g w) →
  (is_Some (g_psk (w_g w')) ↔ is_Some (g_psk (w_g w))) →
  w_tasks w' = w_tasks w → w_events w' = w_events w → w_confirmed w' = w_confirmed w →
  (w_clock w ≤ w_clock w')%nat → (w_rand w ≤ w_rand w')%nat → io_step_of P w w'.
Proof. intros E **. split; try done. intros c. exists []. rewrite E. split; [apply ctx_same|constructor]. Qed.

Lemma io_step_address P w w' : io_step_of P w w' → g_address (w_g w') = g_address (w_g w).
Proof. intros Hw. apply (f_equal g_address (io_g _ _ _ Hw)). Qed.

#[global] Instance io_step_preorder P : PreOrder (io_step_of P).
Proof.
  split.
  - intros w. by apply io_step_ctx_same.
  - intros x y z H1 H2. pose proof (io_step_address _ _ _ H1) as Ea. destruct H1, H2.
    split; try congruence; try lia; [tauto|].
    intros c. destruct (io_ctx0 c) as (o1 & E1 & F1), (io_ctx1 c) as (o2 & E2 & F2).
    exists (o1 ++ o2). rewrite E2, E1, app_assoc. split; [done|]. apply Forall_app. by rewrite Ea in F2.
Qed.

Lemma write_io (P : option Address → bytes → Prop) c b w : P (g_address (w_g w)) b → io_step_of P w (exec (write c b) w).
Proof.
  intros Hb. assert (Hsame : ∀ x, ∃ out, x = mk_ctx (ctx_addr x) (ctx_peer x) (ctx_writer x) (ctx_out x ++ out) ∧
    Forall (P (g_address (w_g w))) out) by (intros x; exists []; split; [apply ctx_same|constructor]).
  split; try done. intros c'. cbn.
  destruct (decide (c = c')) as [<-|Hne]; [rewrite fn_lookup_insert|by rewrite fn_lookup_insert_ne by done].
  destruct (w_ctx w c) as [? ? [] ?]; cbn; [|apply Hsame]. exists [b]. split; [done|by constructor].
Qed.

Section quiet.
Context (P : option Address → bytes → Prop).
Lemma respects_now_secs : respects (io_step_of P) now_secs.
Proof. intros w. apply io_step_ctx_same; cbn; try done; lia. Qed.
Lemma respects_now_ts : respects (io_step_of P) now_ts.
Proof. intros w. apply io_step_ctx_same; cbn; try done; lia. Qed.
Lemma respects_now_stamp : respects (io_step_of P) now_stamp.
Proof. intros w. apply io_step_ctx_same; cbn; try done; lia. Qed.
Lemma respects_draw_nonce : respects (io_step_of P) draw_nonce.
Proof. intros w. apply io_step_ctx_same; cbn; try done; lia. Qed.
Lemma respects_try_peer c : respects (io_step_of P) (try_peer c).
Proof. intros w. apply io_step_ctx_same; cbn; try done; lia. Qed.
Lemma respects_draw_uuid : respects (io_step_of P) draw_uuid.
Proof. intros w. apply io_step_ctx_same; cbn; try done; lia. Qed.
End quiet.
End world.

(** Operations of the node. *)
Abbreviation M := (state World).

#[export] Hint Resolve respects_now_secs respects_now_ts respects_now_stamp
  respects_draw_nonce respects_draw_uuid respects_try_peer : respects.
