(* ===== verification/Frame.v ===== *)
(** * Frames

    src/src/protocols/frame.rs and src/src/protocols/notify.rs: the signed
    envelope every command travels in, and the functions that send one.

    - [FrameBody], [P2PFrame] and their operations are pure;
    - [send] is the path every handler uses: encode the command, choose the
      session key, encrypt, build and sign the frame, hand its bytes to the
      writer of one connection;
    - [notify], [notify_bytes] hand the same command, or the same frame, to
      every connection of the manager.

    [MessageCommand] and [MessageAckCommand] (src/src/protocols/commands/
    message.rs) are here because [send] looks into the former. *)

From S2P Require Import Prelude NetAddr External Command NodeRegistry Seeds World.
Open Scope Z_scope.
Open Scope stdpp_scope.

Record FrameBody := mk_body {
  fb_version : Z;
  fb_address : string;
  fb_public_key : bytes;
  fb_nonce : Z;
  fb_data_length : Z;
  fb_data : bytes;
}.

Record P2PFrame := mk_frame {
  pf_body : FrameBody;
  pf_signature : bytes;
}.

Record MessageCommand := mk_message {
  mc_sender : string;
  mc_receiver : string;
  mc_request_id : Z;
  mc_timestamp : Z;
  mc_message : string;
}.

Record MessageAckCommand := mk_message_ack { ma_request_id : Z }.

(** The [Codec] instances the sources declare for these types. *)
Class FrameCodecs : Type := {
  #[global] codec_command :: Codec P2PCommand;
  #[global] codec_body :: Codec FrameBody;
  #[global] codec_frame :: Codec P2PFrame;
  #[global] codec_message :: Codec MessageCommand;
  #[global] codec_message_ack :: Codec MessageAckCommand;
}.

Class FrameCodecsLaws `{FrameCodecs} : Prop := {
  #[global] codec_command_laws :: CodecLaws P2PCommand;
  #[global] codec_frame_laws :: CodecLaws P2PFrame;
}.

Class FrameCodecsTotal `{FrameCodecs} : Prop := {
  #[global] codec_command_total :: CodecTotal P2PCommand;
  #[global] codec_body_total :: CodecTotal FrameBody;
  #[global] codec_frame_total :: CodecTotal P2PFrame;
}.

(** [FrameBody::new], [P2PFrame::new] *)
Definition frame_body_new (version : Z) (address : string) (public_key : bytes) (nonce data_length : Z)
    (data : bytes) : FrameBody :=
  mk_body version address public_key nonce data_length data.
Definition frame_new (b : FrameBody) (sig : bytes) : P2PFrame := mk_frame b sig.

Definition set_data (d : bytes) (b : FrameBody) : FrameBody :=
  mk_body (fb_version b) (fb_address b) (fb_public_key b) (fb_nonce b) (fb_data_length b) d.

(** [Frame::command] and [Frame::is_flat] *)
Definition frame_command (f : P2PFrame) : option bytes := Some (fb_data (pf_body f)).
Definition frame_is_flat (f : P2PFrame) : bool := false.

Section frame.
Context `{Crates, !FrameCodecs}.

Definition data_from_command (cmd : P2PCommand) (b : FrameBody) : result FrameBody :=
  d ← encode cmd; mret (set_data d b).
Definition command_from_data (b : FrameBody) : result P2PCommand := decode (fb_data b).

(** [P2PFrame::sign] *)
Definition sign (b : FrameBody) (signer : Address) : result P2PFrame :=
  raw ← encode b; mret (mk_frame b (addr_sign signer raw)).

Definition signature_valid (f : P2PFrame) (raw : bytes) : bool :=
  verify_message (to_public_key (fb_public_key (pf_body f))) raw (to_signature (pf_signature f)).

Definition verify (f : P2PFrame) : result P2PFrame :=
  raw ← encode (pf_body f);
  if negb (signature_valid f raw) then Err "Frame signature verification failed" else Ok f.

Definition verify_bytes (b : bytes) : result P2PFrame := f ← decode b; verify f.

Definition build (a : Address) (cmd : P2PCommand) (version : Z) : M (result P2PFrame) :=
  match encode cmd with
  | Err e => mret (Err e)
  | Ok cmd_bytes =>
      nonce ← draw_nonce;
      mret (sign (mk_body version (addr_to_string a) (addr_public_key a) nonce
                    (wrap_u 32 (Z.of_nat (length cmd_bytes))) cmd_bytes) a)
  end.

(** [Frame::validate], [Frame::sign], [Frame::payload] *)
Definition validate (f : P2PFrame) : bool :=
  match encode (pf_body f) with Err _ => false | Ok raw => signature_valid f raw end.
Definition sign_with (f : P2PFrame) (signer : bytes → bytes) : bytes :=
  match encode (pf_body f) with Ok raw => signer raw | Err _ => [] end.
Definition payload (f : P2PFrame) : option bytes :=
  match encode (pf_body f) with Ok raw => Some raw | Err _ => None end.

(** The session key under which [send] encrypts. *)
Definition encryption_key (c : ctx_id) (action : Action) (data : bytes) (addr_str : string) : M bytes :=
  if decide (action = SendText) then
    mret match decode (T := MessageCommand) data with
         | Ok msg => as_bytes (mc_receiver msg)
         | Err _ => as_bytes addr_str
         end
  else if decide (action = MessageAck) then
    peer ← get_ctx c ctx_peer;
    match peer with
    | Some p => mret (as_bytes p)
    | None =>
        peer_sock ← get_ctx c ctx_addr;
        r ← get_registry;
        mret match r with
             | Some r => match find_node_for_seed peer_sock r with
                         | Some p => as_bytes p
                         | None => as_bytes addr_str
                         end
             | None => as_bytes addr_str
             end
    end
  else mret (as_bytes addr_str).

(** [psk.lock().await.encrypt(key, data)], when there are session keys. *)
Definition encrypt_for (key data : bytes) : M (result bytes) :=
  p ← get_g g_psk;
  match p with
  | Some p => let '(r, p') := psk_encrypt p key data in mod_g (set_g_psk (Some p')) ;; mret r
  | None => mret (Ok data)
  end.

(** [psk.lock().await.decrypt(key, data)] of the session keys [p]. *)
Definition decrypt_from (key data : bytes) : M (option (result bytes)) :=
  p ← get_g g_psk;
  match p with
  | Some p => let '(r, p') := psk_decrypt p key data in mod_g (set_g_psk (Some p')) ;; mret (Some r)
  | None => mret None
  end.

Definition send {C} `{Codec C} (c : ctx_id) (command : option C) (e : Entity) (a : Action)
    (is_encrypt : bool) : M (result unit) :=
  data ←? mret (match command with Some cmd => encode cmd | None => Ok [] end);
  address ←? (o ← get_g g_address; mret (ok_or "Address not set" o));
  let addr_str := addr_to_string address in
  psk ← get_g g_psk;
  payload ←? (if is_encrypt && bool_decide (is_Some psk)
              then key ← encryption_key c a data addr_str; encrypt_for key data
              else mret (Ok data));
  frame ←? build address (command_new e a payload) 1;
  raw ←? mret (encode frame);
  write c raw ;;
  mret (Ok tt).

(** [for entry in entries { if let Some(ctx) = &entry.context { f(ctx) } }],
    the shape of the closures handed to [forward]. *)
Definition for_each_connection (l : list (ConnectionEntry AexNode)) (f : ctx_id → M unit) : M unit :=
  for_each l (fun entry => match entry_ctx entry with Some c => f c | None => mret tt end).
Definition forward (f : ctx_id → M unit) : M unit :=
  m ← get_g g_manager; for_each_connection (mgr_entries m) f.

(** A [send] whose error is dropped or logged. *)
Definition send_ {C} `{Codec C} (c : ctx_id) (command : option C) (e : Entity) (a : Action)
    (is_encrypt : bool) : M unit :=
  send c command e a is_encrypt ;; mret tt.

(** src/src/protocols/notify.rs *)
Definition notify {C} `{Codec C} (cmd : C) (e : Entity) (a : Action) (is_encrypt : bool) : M unit :=
  forward (fun c => send_ c (Some cmd) e a is_encrypt).

(** [P2PFrame::notify]: the frame itself, byte for byte; and
    [P2PFrame::send_bytes] *)
Definition send_bytes (c : ctx_id) (b : bytes) : M unit := write c b.
Definition notify_frame (f : P2PFrame) : M unit :=
  match encode f with
  | Err _ => mret tt
  | Ok b => forward (fun c => send_bytes c b)
  end.
End frame.

(** ** Frame conditions of sending *)

Section own.
Context `{Crates, !FrameCodecs}.

(** The bytes of a frame [build] made for the address [o]. *)
Definition own_frame (o : option Address) (raw : bytes) : Prop :=
  ∃ a cmd v w f, o = Some a ∧ eval (build a cmd v) w = Ok f ∧ encode f = Ok raw.
End own.

(** Steps that only send, and only frames the node built itself. *)
Abbreviation io_step := (io_step_of own_frame).

Section effects.
Context `{Crates, !FrameCodecs} (P : option Address → bytes → Prop).

Lemma respects_psk (p : Psk) w :
  is_Some (g_psk (w_g w)) → io_step_of P w (exec (mod_g (set_g_psk (Some p))) w).
Proof. intros Hp. apply io_step_ctx_same; cbn; try done; by split; eauto. Qed.

Lemma respects_encrypt_for key data : respects (io_step_of P) (encrypt_for key data).
Proof.
  intros w. unfold encrypt_for, exec. rewrite run_bind. cbn.
  destruct (g_psk (w_g w)) as [p|] eqn:E; [|done].
  destruct (psk_encrypt p key data) as [r p']. rewrite run_bind. cbn.
  apply (respects_psk p' w). by rewrite E.
Qed.

Lemma respects_decrypt_from key data : respects (io_step_of P) (decrypt_from key data).
Proof.
  intros w. unfold decrypt_from, exec. rewrite run_bind. cbn.
  destruct (g_psk (w_g w)) as [p|] eqn:E; [|done].
  destruct (psk_decrypt p key data) as [r p']. rewrite run_bind. cbn.
  apply (respects_psk p' w). by rewrite E.
Qed.

Lemma respects_get_g {A} (f : Gctx → A) : respects (io_step_of P) (get_g f).
Proof. apply respects_gets, _. Qed.
Lemma respects_get_ctx {A} c (f : Ctx → A) : respects (io_step_of P) (get_ctx c f).
Proof. apply respects_gets, _. Qed.

Lemma encryption_key_pure c a data s w : exec (encryption_key c a data s) w = w.
Proof.
  unfold encryption_key, get_registry. repeat case_decide; [done| |done].
  rewrite exec_bind. cbn. by destruct (ctx_peer _).
Qed.

Lemma build_ctx a cmd v w : w_ctx (exec (build a cmd v) w) = w_ctx w.
Proof. unfold build. by destruct (encode cmd). Qed.

Lemma respects_encryption_key c a data s : respects (io_step_of P) (encryption_key c a data s).
Proof. intros w. rewrite encryption_key_pure. reflexivity. Qed.

Lemma respects_build a cmd v : respects (io_step_of P) (build a cmd v).
Proof. unfold build. destruct (encode cmd); respects_tac. Qed.
End effects.

#[export] Hint Resolve respects_get_g respects_get_ctx respects_encrypt_for respects_decrypt_from
  respects_encryption_key respects_build : respects.

(** Steps from a state with a given address: there what was built for that
    address may be written. *)
Section at_address.
Context `{Crates, !FrameCodecs}.

Definition io_at (o : option Address) (w w' : World) : Prop := g_address (w_g w) = o → io_step w w'.
#[global] Instance io_at_preorder o : PreOrder (io_at o).
Proof.
  split; [by intros w _|]. intros x y z Hxy Hyz Hx. etrans; [by apply Hxy|]. apply Hyz.
  rewrite <- Hx. by apply (io_step_address own_frame), Hxy.
Qed.

Lemma respects_at o {A} (m : M A) : respects io_step m → respects (io_at o) m.
Proof. intros Hm w _. apply Hm. Qed.
Lemma respects_write_own o c raw : own_frame o raw → respects (io_at o) (write c raw).
Proof. intros Hr w Hw. apply write_io. by rewrite Hw. Qed.
Lemma respects_get_address {A} (k : option Address → M A) :
  (∀ o, respects (io_at o) (k o)) → respects io_step (get_g g_address ≫= k).
Proof. intros Hk w. unfold exec. rewrite run_bind. cbn. by apply Hk. Qed.
Lemma respects_build_own {A} a cmd v (k : result P2PFrame → M A) :
  (∀ e, respects (io_at (Some a)) (k (Err e))) →
  (∀ f, (∀ raw, encode f = Ok raw → own_frame (Some a) raw) → respects (io_at (Some a)) (k (Ok f))) →
  respects (io_at (Some a)) (build a cmd v ≫= k).
Proof.
  intros He Ho w. unfold exec. rewrite run_bind.
  pose proof (respects_at (Some a) _ (respects_build own_frame a cmd v) w) as Hb.
  destruct (build a cmd v w) as [[f|e] w1] eqn:E; unfold exec in Hb; rewrite E in Hb; (etrans; [exact Hb|]); [|apply He].
  apply Ho. intros raw Hr. exists a, cmd, v, w, f. split_and!; [done| |done]. unfold eval. by rewrite E.
Qed.
Lemma respects_forward_at o f : (∀ c, respects (io_at o) (f c)) → respects (io_at o) (forward f).
Proof.
  intros Hf. apply respects_bind; [apply _|apply respects_at, respects_get_g|]. intros m.
  apply respects_for_each; [apply _|]. intros x _. destruct (entry_ctx x); [apply Hf|apply respects_ret, _].
Qed.
(** A frame that was built, encoded once and written to every connection. *)
Lemma respects_send_to_all a cmd v :
  respects (io_at (Some a))
    (frame ← build a cmd v;
     match frame with
     | Err _ => mret tt
     | Ok frame => match encode frame with Err _ => mret tt | Ok b => forward (fun c => write c b) end
     end).
Proof.
  apply respects_build_own; [intros e; apply respects_ret, _|]. intros f Hf.
  destruct (encode f) as [raw|]; [|apply respects_ret, _]. apply respects_forward_at. intros c.
  by apply respects_write_own, Hf.
Qed.
End at_address.

Section sending.
Context `{Crates, !FrameCodecs}.

Lemma validate_verify (f : P2PFrame) :
  (validate f = true ↔ verify f = Ok f) ∧ (∀ g, verify f = Ok g → g = f).
Proof.
  unfold validate, verify. destruct (encode (pf_body f)) as [raw|e]; cbn; [|done].
  destruct (signature_valid f raw); cbn; naive_solver.
Qed.

(** [Frame::validate], which guards the dispatch, accepts exactly the
    frames [P2PFrame::verify] returns, and [verify] never alters a frame. *)
Theorem validate_iff_verify (f : P2PFrame) :
  (validate f = true ↔ verify f = Ok f) ∧ (∀ g, verify f = Ok g → g = f).
Proof. apply validate_verify. Qed.

Lemma sign_verifies `{!AccountLaws} b a f :
  fb_public_key b = addr_public_key a → sign b a = Ok f → pf_body f = b ∧ verify f = Ok f.
Proof.
  intros Hk. unfold sign, verify, signature_valid.
  destruct (encode b) as [raw|e] eqn:Hb; cbn; [|done]. intros [= <-]. cbn.
  rewrite Hb. cbn. unfold signature_valid. cbn. by rewrite Hk, verify_sign.
Qed.

(** What a built frame carries, whatever the nonce. *)
Definition frame_carries (a : Address) (cmd : P2PCommand) (version : Z) (f : P2PFrame) : Prop :=
  fb_address (pf_body f) = addr_to_string a ∧
  fb_public_key (pf_body f) = addr_public_key a ∧
  fb_version (pf_body f) = version ∧
  fb_data_length (pf_body f) = wrap_u 32 (Z.of_nat (length (fb_data (pf_body f)))) ∧
  command_from_data (pf_body f) = Ok cmd.

Lemma build_verifies `{!FrameCodecsLaws, !AccountLaws} a cmd version w f raw :
  eval (build a cmd version) w = Ok f → encode f = Ok raw →
  verify_bytes raw = Ok f ∧ frame_carries a cmd version f.
Proof.
  unfold build. destruct (encode cmd) as [d|e] eqn:Hd; [|done].
  rewrite eval_bind. cbn. intros Hs Hraw.
  apply sign_verifies in Hs as [Hb Hv]; [|done].
  split; [unfold verify_bytes; by rewrite (decode_encode _ _ Hraw)|].
  unfold frame_carries, command_from_data. rewrite Hb. cbn. by rewrite (decode_encode _ _ Hd).
Qed.

(** C13. Round trip of the envelope: the bytes of a frame [build] made pass
    the receiver's [verify_bytes] and give back that very frame, which names
    the sender and its key and from which the command is decoded. *)
Theorem build_round_trip `{!FrameCodecsLaws, !AccountLaws} a cmd version w f raw :
  eval (build a cmd version) w = Ok f → encode f = Ok raw →
  verify_bytes raw = Ok f ∧ frame_carries a cmd version f.
Proof. apply build_verifies. Qed.

(** The signature does not bind the sender's name: whoever holds any key
    can sign a body that carries an address of its choice, and the frame
    passes [verify]. *)
Theorem verify_does_not_bind_address `{!AccountLaws} (a : Address) (claimed : string) version nonce
    (data : bytes) raw :
  let body := mk_body version claimed (addr_public_key a) nonce (Z.of_nat (length data)) data in
  encode body = Ok raw →
  ∃ f, sign body a = Ok f ∧ verify f = Ok f ∧ validate f = true ∧ fb_address (pf_body f) = claimed.
Proof.
  intros body Hraw. destruct (sign body a) as [f|] eqn:Hs;
    [|by unfold sign in Hs; rewrite Hraw in Hs].
  destruct (sign_verifies body a f eq_refl Hs) as [Hb Hv].
  exists f. rewrite Hb. repeat split; try done. by apply validate_verify.
Qed.

(** The bytes [send] puts in the command: the encoded message or, with
    session keys and on request, its encryption under the chosen key. *)
Definition sent_payload (c : ctx_id) (a : Action) (addr_str : string) (data : bytes) (enc : bool)
    (w : World) : result bytes :=
  match g_psk (w_g w), enc with
  | Some p, true => (psk_encrypt p (eval (encryption_key c a data addr_str) w) data).1
  | _, _ => Ok data
  end.

Definition command_bytes {C} `{Codec C} (command : option C) : result bytes :=
  match command with Some cmd => encode cmd | None => Ok [] end.

Lemma encrypt_for_payload c a s data w p :
  g_psk (w_g w) = Some p →
  eval (encryption_key c a data s ≫= fun key => encrypt_for key data) w =
    sent_payload c a s data true w ∧
  w_ctx (exec (encryption_key c a data s ≫= fun key => encrypt_for key data) w) = w_ctx w.
Proof.
  intros Hp. rewrite eval_bind, exec_bind, encryption_key_pure. unfold sent_payload, encrypt_for.
  rewrite Hp, eval_bind, exec_bind. cbn. rewrite Hp.
  destruct (psk_encrypt p _ data) as [r p']. done.
Qed.

(** The stages of [send], with the state they are run in. *)
Lemma send_stages {C} `{Codec C} c (command : option C) e a enc w r w' :
  send c command e a enc w = (r, w') →
  (∃ err, r = Err err ∧ w_ctx w' = w_ctx w) ∨
  (∃ data addr pay w1 f raw,
    r = Ok tt ∧ command_bytes command = Ok data ∧ g_address (w_g w) = Some addr ∧
    sent_payload c a (addr_to_string addr) data enc w = Ok pay ∧
    eval (build addr (command_new e a pay) 1) w1 = Ok f ∧ encode f = Ok raw ∧
    w_ctx w' = w_ctx (exec (write c raw) w)).
Proof.
  unfold send, command_bytes. rewrite run_try_bind. cbn.
  destruct (match command with Some _ => _ | None => _ end) as [data|err]; [|intros [= <- <-]; eauto].
  rewrite run_try_bind, run_bind. cbn.
  destruct (g_address (w_g w)) as [addr|]; cbn; [|intros [= <- <-]; eauto].
  rewrite run_bind. cbn. rewrite run_try_bind.
  set (m := if enc && _ then _ else _).
  assert (Hm : eval m w = sent_payload c a (addr_to_string addr) data enc w ∧ w_ctx (exec m w) = w_ctx w).
  { unfold m. destruct (g_psk (w_g w)) as [p|] eqn:Hp, enc; cbn; try (unfold sent_payload; by rewrite Hp).
    by apply (encrypt_for_payload c a _ data w p). }
  unfold eval, exec in Hm. destruct (m w) as [[pay|err] w1]; cbn in Hm; destruct Hm as [Hpay Hc];
    [|intros [= <- <-]; eauto].
  rewrite run_try_bind. pose proof (build_ctx addr (command_new e a pay) 1 w1) as Hb.
  unfold exec in Hb. destruct (build addr _ 1 w1) as [[f|err] w2] eqn:Hf; cbn in Hb;
    [|intros [= <- <-]; left; eexists; split; [done|congruence]].
  rewrite run_try_bind. cbn.
  destruct (encode f) as [raw|err] eqn:Hraw; cbn;
    intros [= <- <-]; [|left; eexists; split; [done|congruence]].
  right. exists data, addr, pay, w1, f, raw. unfold eval. rewrite Hf. repeat split; try done.
  cbn. by rewrite Hb, Hc.
Qed.

(** With an address, and a payload - the encoded command itself or its
    encryption - a frame is sent. *)
Lemma build_total `{!FrameCodecsTotal} a cmd v w : ∃ f, eval (build a cmd v) w = Ok f.
Proof.
  unfold build. destruct (encode_total cmd) as [d ->]. rewrite eval_bind. unfold sign.
  match goal with |- ∃ f, eval (mret (raw ← encode ?b; _)) _ = _ => destruct (encode_total b) as [raw ->] end. by eexists.
Qed.
Lemma send_total `{!FrameCodecsTotal} {C} `{Codec C} c (x : C) e a enc w addr data pay :
  g_address (w_g w) = Some addr → encode x = Ok data → sent_payload c a (addr_to_string addr) data enc w = Ok pay →
  eval (send c (Some x) e a enc) w = Ok tt.
Proof.
  intros Ha Hd Hp. unfold send, eval. rewrite Hd, run_try_bind. cbn. rewrite run_try_bind, run_bind. cbn. rewrite Ha. cbn.
  rewrite run_bind. cbn. rewrite run_try_bind. set (m := if enc && _ then _ else _).
  assert (Hm : eval m w = Ok pay).
  { rewrite <- Hp. unfold m. destruct (g_psk (w_g w)) as [p|] eqn:Hk, enc; cbn; try (unfold sent_payload; by rewrite Hk).
    by apply (encrypt_for_payload c a _ data w p). }
  unfold eval in Hm. destruct (m w) as [r w1]. cbn in Hm. subst r. rewrite run_try_bind.
  destruct (build_total addr (command_new e a pay) 1 w1) as [f Hf]. unfold eval in Hf.
  destruct (build _ _ _ w1) as [r w2]. cbn in Hf. subst r. rewrite run_try_bind. cbn.
  by destruct (encode_total f) as [raw ->].
Qed.

Lemma send_quiet {C} `{Codec C} c (command : option C) e a enc :
  respects (io_step_of (fun _ _ => True)) (send c command e a enc).
Proof.
  assert (Hw : ∀ b, respects (io_step_of (fun _ _ => True)) (write c b)) by (intros b w; by apply write_io).
  unfold send. respects_tac.
Qed.

Lemma respects_send {C} `{Codec C} c (command : option C) e a enc :
  respects io_step (send c command e a enc).
Proof.
  intros w. pose proof (send_quiet c command e a enc w) as [].
  split; try done. unfold exec in *. destruct (send c command e a enc w) as [r w'] eqn:E. cbn.
  destruct (send_stages _ _ _ _ _ _ _ _ E)
    as [(err & -> & Hc)|(data & addr & pay & w1 & f & raw & -> & Hd & Ha & Hp & Hb & Hraw & Hc)]; rewrite Hc.
  - intros c'. exists []. split; [apply ctx_same|constructor].
  - apply (World.io_ctx own_frame w (exec (write c raw) w)), write_io. rewrite Ha. by exists addr, (command_new e a pay), 1, w1, f.
Qed.

Lemma respects_send_ {C} `{Codec C} c (command : option C) e a enc :
  respects io_step (send_ c command e a enc).
Proof. apply respects_bind; [apply _|apply respects_send|]. intros r. apply respects_ret, _. Qed.

Lemma respects_forward f : (∀ c, respects io_step (f c)) → respects io_step (forward f).
Proof.
  intros Hf. apply respects_bind; [apply _|apply respects_get_g|]. intros m.
  apply respects_for_each; [apply _|]. intros x _. destruct (entry_ctx x); [apply Hf|respects_tac].
Qed.

Lemma respects_notify {C} `{Codec C} (cmd : C) e a enc : respects io_step (notify cmd e a enc).
Proof. apply respects_forward. intros c. apply respects_send_. Qed.

Lemma send_effect `{!FrameCodecsLaws, !AccountLaws} {C} `{Codec C} c (command : option C) e a enc w r w' :
  send c command e a enc w = (r, w') →
  match r with
  | Err _ => w_ctx w' = w_ctx w
  | Ok _ => ∃ addr data pay f raw,
      g_address (w_g w) = Some addr ∧ command_bytes command = Ok data ∧
      sent_payload c a (addr_to_string addr) data enc w = Ok pay ∧
      verify_bytes raw = Ok f ∧ frame_carries addr (mk_command e a pay) 1 f ∧
      ctx_out (w_ctx w' c) = ctx_out (w_ctx w c) ++ (if ctx_writer (w_ctx w c) then [raw] else []) ∧
      ∀ c', c' ≠ c → w_ctx w' c' = w_ctx w c'
  end ∧ io_step w w'.
Proof.
  intros E. split.
  - destruct (send_stages _ _ _ _ _ _ _ _ E)
      as [(err & -> & Hc)|(data & addr & pay & w1 & f & raw & -> & Hd & Ha & Hp & Hb & Hraw & Hc)]; [done|].
    destruct (build_verifies _ _ _ _ _ _ Hb Hraw) as [Hv Hf].
    exists addr, data, pay, f, raw. repeat (split; [done|]). rewrite Hc. cbn. split.
    + rewrite fn_lookup_insert. destruct (w_ctx w c) as [? ? [] ?]; cbn; by rewrite ?app_nil_r.
    + intros c' Hne. by rewrite fn_lookup_insert_ne.
  - change w' with (r, w').2. rewrite <- E. apply respects_send.
Qed.

(** C5. What sending does. An error hands no byte to any connection. A
    success hands the connection's writer, when it has one, exactly one
    buffer, which the receiver's [verify_bytes] accepts and from which it
    decodes the command with the entity, the action and the payload - the
    encoded message itself, or its encryption under the session key that the
    action selects; no other connection receives anything. *)
Theorem send_spec `{!FrameCodecsLaws, !AccountLaws} {C} `{Codec C} c (command : option C) e a enc w r w' :
  send c command e a enc w = (r, w') →
  match r with
  | Err _ => w_ctx w' = w_ctx w
  | Ok _ => ∃ addr data pay f raw,
      g_address (w_g w) = Some addr ∧ command_bytes command = Ok data ∧
      sent_payload c a (addr_to_string addr) data enc w = Ok pay ∧
      verify_bytes raw = Ok f ∧ frame_carries addr (mk_command e a pay) 1 f ∧
      ctx_out (w_ctx w' c) = ctx_out (w_ctx w c) ++ (if ctx_writer (w_ctx w c) then [raw] else []) ∧
      ∀ c', c' ≠ c → w_ctx w' c' = w_ctx w c'
  end ∧ io_step w w'.
Proof. apply send_effect. Qed.
End sending.

#[export] Hint Resolve respects_send respects_send_ respects_notify
  respects_forward : respects.

(** ** The session keys while messages are sent *)

Section keys.
Context `{Crates, !FrameCodecs}.

Definition psk_step (p p' : Psk) : Prop := ∃ k d, p' = (psk_encrypt p k d).2 ∨ p' = (psk_decrypt p k d).2.
Definition keys_later (w w' : World) : Prop :=
  ∀ p, g_psk (w_g w) = Some p → ∃ p', g_psk (w_g w') = Some p' ∧ rtc psk_step p p'.
#[global] Instance keys_later_preorder : PreOrder keys_later.
Proof.
  split; [intros w p Hp; by exists p|]. intros x y z Hxy Hyz p Hp. destruct (Hxy p Hp) as (p1 & Hp1 & S1).
  destruct (Hyz p1 Hp1) as (p2 & Hp2 & S2). exists p2. split; [done|by etrans].
Qed.

Lemma keys_same {A} (m : M A) : (∀ w, g_psk (w_g (exec m w)) = g_psk (w_g w)) → respects keys_later m.
Proof. intros Hm w p Hp. exists p. by rewrite Hm. Qed.

Lemma keys_encrypt k d : respects keys_later (encrypt_for k d).
Proof.
  intros w p Hp. unfold encrypt_for, exec. rewrite run_bind. cbn. rewrite Hp.
  destruct (psk_encrypt p k d) as [r p'] eqn:E. exists p'. split; [done|]. apply rtc_once. exists k, d. left. by rewrite E.
Qed.

Lemma keys_decrypt k d : respects keys_later (decrypt_from k d).
Proof.
  intros w p Hp. unfold decrypt_from, exec. rewrite run_bind. cbn. rewrite Hp.
  destruct (psk_decrypt p k d) as [r p'] eqn:E. exists p'. split; [done|]. apply rtc_once. exists k, d. right. by rewrite E.
Qed.

Lemma keys_send {C} `{Codec C} c (command : option C) e a enc : respects keys_later (send c command e a enc).
Proof.
  assert (Hk : ∀ data s, respects keys_later (encryption_key c a data s)) by
    (intros; apply keys_same; intros w; by rewrite encryption_key_pure).
  assert (Hb : ∀ o cmd v, respects keys_later (build o cmd v)) by
    (intros o cmd v; apply keys_same; intros w; unfold build; by destruct (encode cmd)).
  assert (Hw : ∀ raw, respects keys_later (write c raw)) by (intros; by apply keys_same).
  assert (Hg : ∀ B (f : Gctx → B), respects keys_later (get_g f)) by (intros; by apply keys_same).
  pose proof keys_encrypt. unfold send. respects_tac.
Qed.

Lemma keys_later_rel w w' : keys_later w w' → (is_Some (g_psk (w_g w')) ↔ is_Some (g_psk (w_g w))) →
  match g_psk (w_g w), g_psk (w_g w') with
  | Some p, Some p' => rtc psk_step p p'
  | None, None => True
  | _, _ => False
  end.
Proof.
  intros Hk Hs. destruct (g_psk (w_g w)) as [p|] eqn:Hp.
  - destruct (Hk p Hp) as (p' & -> & Hr). done.
  - destruct (g_psk (w_g w')) as [p'|]; [|done]. destruct (proj1 Hs ltac:(by eexists)) as [? [=]].
Qed.
End keys.

(** ** A command for every connection *)

Section each.
Context `{Crates, !FrameCodecs, !FrameCodecsLaws, !AccountLaws}.

(** The session keys, if there are any, encrypt whatever they are asked to,
    now and later. *)
Definition seals (keys : option Psk) : Prop :=
  match keys with
  | Some p => ∀ p' k d, rtc psk_step p p' → ∃ pay, (psk_encrypt p' k d).1 = Ok pay
  | None => True
  end.

(** A buffer that brings [x] from the node with address [o]: the receiver
    accepts it, and its command carries the encoded [x], encrypted when there
    are session keys. *)
Definition brings {C} `{Codec C} (x : C) (e : Entity) (a : Action) (o : option Address) (keys : option Psk)
    (raw : bytes) : Prop :=
  ∃ addr f data pay, o = Some addr ∧ verify_bytes raw = Ok f ∧ frame_carries addr (mk_command e a pay) 1 f ∧
    encode x = Ok data ∧
    match keys with
    | Some p => ∃ p' k, rtc psk_step p p' ∧ (psk_encrypt p' k data).1 = Ok pay
    | None => pay = data
    end.

(** How often a connection is among some. *)
Definition times (c : ctx_id) (cs : list ctx_id) : nat := length (List.filter (fun c' => bool_decide (c' = c)) cs).
Lemma times_cons c x cs : times c (x :: cs) = ((if bool_decide (x = c) then 1 else 0) + times c cs)%nat.
Proof. unfold times. cbn. by case_bool_decide. Qed.

(** Every connection is handed the command as often as it is among those the
    manager gives out - at most, and exactly when nothing is missing: an
    address, a writer, and keys that encrypt. *)
Definition handed {C} `{Codec C} (x : C) (e : Entity) (a : Action) (cs : list ctx_id) (w w' : World) : Prop :=
  ∀ c, ∃ out, ctx_out (w_ctx w' c) = ctx_out (w_ctx w c) ++ out ∧
    Forall (brings x e a (g_address (w_g w)) (g_psk (w_g w))) out ∧
    (length out ≤ times c cs)%nat ∧
    (is_Some (g_address (w_g w)) → seals (g_psk (w_g w)) → ctx_writer (w_ctx w c) = true → length out = times c cs).

Lemma send_hands {C} `{Codec C, !CodecTotal C, !FrameCodecsTotal} (x : C) e a c w :
  handed x e a [c] w (exec (send c (Some x) e a true) w).
Proof.
  intros c'. rewrite times_cons. change (times c' []) with 0%nat. rewrite Nat.add_0_r.
  destruct (send c (Some x) e a true w) as [r w'] eqn:E. unfold exec. rewrite E. cbn [snd].
  destruct (send_effect _ _ _ _ _ _ _ _ E) as [Heff _]. destruct r as [[]|err].
  - destruct Heff as (addr & data & pay & f & raw & Ha & Hd & Hp & Hv & Hf & Ho & Hother). case_bool_decide as Hc.
    + subst c'. exists (if ctx_writer (w_ctx w c) then [raw] else []). split; [done|].
      split; [|split; [destruct (ctx_writer _); cbn; lia|by intros _ _ ->]].
      destruct (ctx_writer _); [|done]. constructor; [|done]. exists addr, f, data, pay. split_and!; try done.
      unfold sent_payload in Hp. destruct (g_psk (w_g w)) as [p|]; [|congruence]. by eexists p, _.
    + exists []. rewrite (Hother c') by done. rewrite app_nil_r. by split_and!.
  - exists []. rewrite Heff, app_nil_r. split_and!; [done..|cbn; lia|]. intros [addr Ha] Hs _. exfalso.
    destruct (encode_total x) as [data Hd].
    assert (Hp : ∃ pay, sent_payload c a (addr_to_string addr) data true w = Ok pay).
    { unfold sent_payload. destruct (g_psk (w_g w)) as [p|]; [by apply Hs|by eexists]. }
    destruct Hp as [pay Hp]. pose proof (send_total c x e a true w addr data pay Ha Hd Hp) as Hok.
    unfold eval in Hok. rewrite E in Hok. discriminate Hok.
Qed.

Lemma brings_later {C} `{Codec C} (x : C) e a o w w' raw :
  keys_later w w' → (is_Some (g_psk (w_g w')) ↔ is_Some (g_psk (w_g w))) →
  brings x e a o (g_psk (w_g w')) raw → brings x e a o (g_psk (w_g w)) raw.
Proof.
  intros Hk Hs (addr & f & data & pay & Ho & Hv & Hf & Hd & Hp). exists addr, f, data, pay. split_and!; try done.
  pose proof (keys_later_rel w w' Hk Hs) as Hr. destruct (g_psk (w_g w)) as [p|], (g_psk (w_g w')) as [p'|]; try done.
  destruct Hp as (p2 & k & Hr2 & Hp). exists p2, k. split; [by etrans|done].
Qed.
Lemma seals_later w w' :
  keys_later w w' → (is_Some (g_psk (w_g w')) ↔ is_Some (g_psk (w_g w))) → seals (g_psk (w_g w)) → seals (g_psk (w_g w')).
Proof.
  intros Hk Hs. pose proof (keys_later_rel w w' Hk Hs) as Hr.
  destruct (g_psk (w_g w)) as [p|], (g_psk (w_g w')) as [p'|]; try done.
  intros Hseal p2 k d Hr2. apply Hseal. by etrans.
Qed.

(** One after the other. *)
Lemma handed_trans {C} `{Codec C} (x : C) e a cs1 cs2 w w1 w2 :
  io_step w w1 → keys_later w w1 → handed x e a cs1 w w1 → handed x e a cs2 w1 w2 → handed x e a (cs1 ++ cs2) w w2.
Proof.
  intros Hio Hk HA HB c. destruct (HA c) as (o1 & E1 & F1 & L1 & T1), (HB c) as (o2 & E2 & F2 & L2 & T2).
  destruct Hio as [Hg Hs Hc _ _ _ _ _].
  assert (Ea : g_address (w_g w1) = g_address (w_g w)) by (by apply (f_equal g_address) in Hg).
  assert (Ew : ctx_writer (w_ctx w1 c) = ctx_writer (w_ctx w c)) by (destruct (Hc c) as (o & -> & _); done).
  assert (Et : times c (cs1 ++ cs2) = (times c cs1 + times c cs2)%nat) by (unfold times; by rewrite List.filter_app, length_app).
  rewrite Ea in F2, T2. rewrite Ew in T2. exists (o1 ++ o2). rewrite E2, E1, app_assoc, Et, length_app.
  split; [done|]. split; [|split; [lia|]].
  - apply Forall_app. split; [done|]. eapply Forall_impl; [exact F2|]. intros raw. by apply brings_later.
  - intros Ha Hseal Hw. rewrite T1, T2; [done|done|by apply (seals_later w)|done|done..].
Qed.

Lemma forward_hands {C} `{Codec C, !CodecTotal C, !FrameCodecsTotal} (x : C) e a w :
  handed x e a (omap entry_ctx (mgr_entries (g_manager (w_g w)))) w
    (exec (forward (fun c => send_ c (Some x) e a true)) w).
Proof.
  unfold forward. rewrite exec_bind. change (exec (get_g g_manager) w) with w.
  change (eval (get_g g_manager) w) with (g_manager (w_g w)). generalize (mgr_entries (g_manager (w_g w))). intros l.
  unfold for_each_connection. revert w. induction l as [|en l IH]; intros w; cbn [for_each omap list_omap].
  - intros c. exists []. by rewrite app_nil_r.
  - rewrite exec_bind. destruct (entry_ctx en) as [c|]; [|apply IH].
    change (c :: omap entry_ctx l) with ([c] ++ omap entry_ctx l).
    assert (Es : exec (send_ c (Some x) e a true) w = exec (send c (Some x) e a true) w).
    { unfold send_. by rewrite exec_bind. }
    rewrite Es. eapply handed_trans; [apply respects_send|apply keys_send|apply send_hands|apply IH].
Qed.
End each.
