(* ===== verification/Evolution.v ===== *)
(** * How the node's state evolves

    [world_le w w']: what every handler guarantees of the state it leaves,
    whatever it was given. The registry moves only by its own operations, the
    node's identity is fixed, and what the node did - bytes written, tasks
    spawned, events published, messages delivered, requests confirmed - is
    only ever extended. Each stateful operation respects it, and so does
    everything composed from them. *)

From S2P Require Import Prelude NetAddr External Command NodeRegistry Seeds World Frame.
Open Scope Z_scope.
Open Scope stdpp_scope.

Definition extends {A} (l l' : list A) : Prop := l `prefix_of` l'.
Definition option_extends {A} (o o' : option (list A)) : Prop :=
  match o, o' with
  | Some l, Some l' => extends l l'
  | None, None => True
  | _, _ => False
  end.
#[export] Instance option_extends_preorder {A} : PreOrder (@option_extends A).
Proof.
  split.
  - intros [l|]; cbn; unfold extends; done.
  - intros [] [] []; cbn; unfold extends; try done. by intros; etrans.
Qed.

Section evolution.
Context `{Crates, !FrameCodecs}.

Definition node_le (n n' : option P2pNode) : Prop :=
  match n, n' with
  | Some n, Some n' => rtc registry_step (pn_registry n) (pn_registry n')
  | None, None => True
  | _, _ => False
  end.
#[global] Instance node_le_preorder : PreOrder node_le.
Proof.
  split.
  - intros [n|]; cbn; done.
  - intros [] [] []; cbn; try done. by intros; etrans.
Qed.

(** On a connection of the node with address [o]: what is written are frames
    it built. *)
Definition ctx_le (o : option Address) (x x' : Ctx) : Prop :=
  ctx_addr x' = ctx_addr x ∧ ctx_writer x' = ctx_writer x ∧
  ∃ out, ctx_out x' = ctx_out x ++ out ∧ Forall (own_frame o) out.
#[global] Instance ctx_le_preorder o : PreOrder (ctx_le o).
Proof.
  split.
  - intros x. split_and!; try done. exists []. by rewrite app_nil_r.
  - intros x y z (A1 & B1 & o1 & E1 & F1) (A2 & B2 & o2 & E2 & F2). split_and!; try congruence.
    exists (o1 ++ o2). rewrite E2, E1, app_assoc. split; [done|]. by apply Forall_app.
Qed.

Record world_le (w w' : World) : Prop := mk_world_le {
  wl_node : node_le (g_node (w_g w)) (g_node (w_g w'));
  wl_address : g_address (w_g w') = g_address (w_g w);
  wl_addr : g_addr (w_g w') = g_addr (w_g w);
  wl_psk : is_Some (g_psk (w_g w')) ↔ is_Some (g_psk (w_g w));
  wl_ctx : ∀ c, ctx_le (g_address (w_g w)) (w_ctx w c) (w_ctx w' c);
  wl_inbox : option_extends (g_inbox (w_g w)) (g_inbox (w_g w'));
  wl_tasks : extends (w_tasks w) (w_tasks w');
  wl_events : extends (w_events w) (w_events w');
  wl_confirmed : extends (w_confirmed w) (w_confirmed w');
}.

#[global] Instance world_le_preorder : PreOrder world_le.
Proof.
  split.
  - intros w. by split.
  - intros x y z [] []. split; try congruence; try (by etrans).
    intros c. etrans; [apply wl_ctx0|]. by rewrite <- wl_address0.
Qed.

Lemma io_step_world_le w w' : io_step w w' → world_le w w'.
Proof.
  intros [Hg ? Hc ? ? ? ? ?].
  assert (E : ∀ A (f : Gctx → A), (∀ g, f (set_g_psk None g) = f g) → f (w_g w') = f (w_g w)).
  { intros A f Hf. rewrite <- (Hf (w_g w')), <- (Hf (w_g w)). by rewrite Hg. }
  split; try (by apply E); try done; try congruence.
  - by rewrite (E _ g_node).
  - intros c. destruct (Hc c) as (out & -> & Ho). split_and!; try done. by exists out.
  - by rewrite (E _ g_inbox).
  - rewrite io_tasks. unfold extends. done.
  - rewrite io_events. unfold extends. done.
  - rewrite io_confirmed. unfold extends. done.
Qed.

Lemma respects_io {A} (m : M A) : respects io_step m → respects world_le m.
Proof. intros Hm w. by apply io_step_world_le. Qed.

(** A change of one slot that the relation does not speak about. *)
Lemma respects_mod_g f :
  (∀ g, g_node (f g) = g_node g) → (∀ g, g_address (f g) = g_address g) →
  (∀ g, g_addr (f g) = g_addr g) → (∀ g, g_psk (f g) = g_psk g) →
  (∀ g, g_inbox (f g) = g_inbox g) → respects world_le (mod_g f).
Proof.
  intros H1 H2 H3 H4 H5 w. split; cbn; rewrite ?H1, ?H2, ?H3, ?H4, ?H5; done.
Qed.

Lemma respects_with_registry f :
  (∀ r, rtc registry_step r (f r)) → respects world_le (with_registry f).
Proof.
  intros Hf w. destruct (g_node (w_g w)) as [n|] eqn:E.
  - split; cbn; rewrite ?E; cbn; try done.
  - split; cbn; rewrite ?E; cbn; rewrite ?E; done.
Qed.

Lemma respects_ctx_set_peer c p : respects world_le (ctx_set_peer c p).
Proof.
  intros w. split; cbn; try done. intros c'.
  destruct (decide (c = c')) as [<-|]; [rewrite fn_lookup_insert|rewrite fn_lookup_insert_ne by done];
    (split_and!; [done|done|]; exists []; by rewrite app_nil_r).
Qed.

Lemma respects_spawn t : respects world_le (spawn t).
Proof. intros w. split; cbn; try done; by apply prefix_app_r. Qed.
Lemma respects_publish e : respects world_le (publish e).
Proof. intros w. split; cbn; try done; by apply prefix_app_r. Qed.
Lemma respects_confirm n : respects world_le (confirm n).
Proof. intros w. split; cbn; try done; by apply prefix_app_r. Qed.
End evolution.

#[export] Hint Resolve respects_with_registry respects_ctx_set_peer respects_spawn respects_publish
  respects_confirm : respects.
#[export] Hint Extern 5 (respects world_le _) => (apply respects_io; solve [eauto with respects]) : respects.
#[export] Hint Extern 1 (respects world_le (mod_g _)) => (by apply respects_mod_g) : respects.

Section registry_operations.
Context `{Crates, !FrameCodecs}.

Lemma respects_reg_register a seed : respects world_le (reg_register a seed).
Proof.
  unfold reg_register. respects_tac. apply respects_with_registry. intros r.
  apply rtc_once. constructor.
Qed.
Lemma respects_reg_register_dir a seed d : respects world_le (reg_register_dir a seed d).
Proof.
  unfold reg_register_dir. respects_tac. apply respects_with_registry. intros r.
  apply rtc_once. constructor.
Qed.
Lemma respects_reg_add_seed a seed : respects world_le (reg_add_seed a seed).
Proof.
  unfold reg_add_seed. respects_tac. apply respects_with_registry. intros r.
  apply rtc_once. constructor.
Qed.
Lemma respects_reg_mark_connected a b : respects world_le (reg_mark_connected a b).
Proof. apply respects_with_registry. intros r. apply rtc_once. constructor. Qed.
Lemma respects_reg_disconnect a : respects world_le (reg_disconnect a).
Proof. apply respects_with_registry. intros r. apply rtc_once. constructor. Qed.
Lemma respects_reg_try_connect a : respects world_le (reg_try_connect a).
Proof.
  unfold reg_try_connect, get_registry. respects_tac. apply respects_with_registry.
  intros r. apply rtc_once. constructor.
Qed.
Lemma respects_get_registry : respects io_step get_registry.
Proof. apply respects_get_g. Qed.
Lemma respects_seed_records l : respects io_step (seed_records l).
Proof. induction l as [|[s na] l IH]; cbn; respects_tac; apply IH. Qed.
End registry_operations.

#[export] Hint Resolve respects_reg_register respects_reg_register_dir respects_reg_add_seed
  respects_reg_mark_connected respects_reg_disconnect respects_reg_try_connect respects_get_registry
  respects_seed_records : respects.

Lemma respects_all_seeds_command `{Crates, !FrameCodecs} : respects io_step all_seeds_command.
Proof. unfold all_seeds_command. respects_tac. Qed.
#[export] Hint Resolve respects_all_seeds_command : respects.
