(* ===== verification/Utf8.v ===== *)
(** * UTF-8

    [String::from_utf8] and [String::from_utf8_lossy] of the Rust standard
    library, which the handlers apply to node ids that come off the wire. The
    scan follows core::str::lossy: an invalid sequence is the longest prefix
    of a character that can still become valid, and each one is replaced by
    U+FFFD. *)

From S2P Require Import Prelude.
Open Scope Z_scope.
Open Scope stdpp_scope.

Definition in_range (lo hi : Z) (o : option Z) : bool :=
  match o with Some x => (lo <=? x) && (x <=? hi) | None => false end.
Definition continuation := in_range 128 191.

(** The second byte that may follow a first byte of a 3- or 4-byte character. *)
Definition second_ok (b0 : Z) (b1 : option Z) : bool :=
  if b0 =? 224 then in_range 160 191 b1
  else if b0 =? 237 then in_range 128 159 b1
  else if b0 =? 240 then in_range 144 191 b1
  else if b0 =? 244 then in_range 128 143 b1
  else in_range 128 191 b1.

(** How many bytes after the first one the scan takes, and whether they make a
    character. *)
Definition scan_char (b0 : Z) (b1 b2 b3 : option Z) : nat * bool :=
  if b0 <? 128 then (0%nat, true)
  else if (194 <=? b0) && (b0 <=? 223) then
    if continuation b1 then (1%nat, true) else (0%nat, false)
  else if (224 <=? b0) && (b0 <=? 239) then
    if second_ok b0 b1 then if continuation b2 then (2%nat, true) else (1%nat, false)
    else (0%nat, false)
  else if (240 <=? b0) && (b0 <=? 244) then
    if second_ok b0 b1 then
      if continuation b2 then if continuation b3 then (3%nat, true) else (2%nat, false)
      else (1%nat, false)
    else (0%nat, false)
  else (0%nat, false).

Definition byte_at (b : bytes) (i : nat) : option Z := Z_of_byte <$> (b !! i).

Definition scan (x : Byte.byte) (b : bytes) : nat * bool :=
  scan_char (Z_of_byte x) (byte_at b 0) (byte_at b 1) (byte_at b 2).

(** The characters of a byte string: each a slice and whether it is valid. *)
Fixpoint chunks_fuel (fuel : nat) (b : bytes) : list (bytes * bool) :=
  match fuel, b with
  | S f, x :: b' =>
      let '(n, ok) := scan x b' in
      (x :: take n b', ok) :: chunks_fuel f (drop n b')
  | _, _ => []
  end.
Definition chunks (b : bytes) : list (bytes * bool) := chunks_fuel (length b) b.

(** U+FFFD *)
Definition replacement : bytes := byte_of_Z <$> [239; 191; 189].

Definition from_utf8_lossy (b : bytes) : string :=
  from_bytes (concat ((fun '(s, ok) => if ok : bool then s else replacement) <$> chunks b)).

Definition from_utf8 (b : bytes) : option string :=
  if forallb snd (chunks b) then Some (from_bytes b) else None.

(** The slices are the whole input: the fuel is enough. *)
Lemma chunks_fuel_concat fuel b : (length b ≤ fuel)%nat → concat (chunks_fuel fuel b).*1 = b.
Proof.
  revert b; induction fuel as [|f IH]; intros [|x b'] Hl; cbn in *; [done|lia|done|].
  destruct (scan x b') as [n ok]. cbn. rewrite IH by (rewrite length_drop; lia).
  by rewrite take_drop.
Qed.

(** Text that is valid UTF-8 is read back as it is. *)
Lemma from_utf8_lossy_valid b s : from_utf8 b = Some s → from_utf8_lossy b = s ∧ b = as_bytes s.
Proof.
  unfold from_utf8, from_utf8_lossy. destruct (forallb snd (chunks b)) eqn:E; [|done].
  intros [= <-]. split; [|by unfold as_bytes, from_bytes; rewrite String.list_byte_of_string_of_list_byte].
  f_equal. rewrite <- (chunks_fuel_concat (length b) b) at 2 by lia. fold (chunks b).
  induction (chunks b) as [|[s ok] l IH]; cbn in *; [done|].
  apply andb_prop in E as [-> E]. by rewrite IH.
Qed.

(** ASCII is UTF-8. *)
Definition ascii_bytes (b : bytes) : Prop := Forall (fun x => Z_of_byte x < 128) b.
Lemma chunks_fuel_ascii fuel b : ascii_bytes b → forallb snd (chunks_fuel fuel b) = true.
Proof.
  revert b. induction fuel as [|f IH]; intros b H; cbn; [done|]. destruct b as [|x b]; [done|].
  apply Forall_cons in H as [Hx H]. unfold scan, scan_char. rewrite (proj2 (Z.ltb_lt _ _) Hx). cbn. by apply IH.
Qed.
Lemma from_utf8_ascii b : ascii_bytes b → from_utf8 b = Some (from_bytes b).
Proof. intros H. unfold from_utf8, chunks. by rewrite chunks_fuel_ascii. Qed.

Example lossy_ascii : from_utf8_lossy (as_bytes "1LoXz") = "1LoXz".
Proof. reflexivity. Qed.
Example lossy_truncated : chunks (byte_of_Z <$> [226; 130; 65; 255]) =
  [(byte_of_Z <$> [226; 130], false); ([byte_of_Z 65], true); ([byte_of_Z 255], false)].
Proof. reflexivity. Qed.
