(* ===== verification/Message.v ===== *)
(** * Text messages

    src/src/protocols/commands/message.rs: sending a text, the handler that
    delivers it to the application and acknowledges it, the handler of the
    acknowledgement, and the closures that send the acknowledgement.

    The slot [SeenMessages] is a set of keys shared by both handlers, the slot
    [PendingAcks] the request ids that have a waiter. *)

From S2P Require Import Prelude Utf8 NetAddr External Command NodeRegistry Seeds World Frame.
Open Scope Z_scope.
Open Scope stdpp_scope.

Definition SEEN_MESSAGES_MAX : Z := 10000.

(** [NEXT_REQUEST_ID], which starts at 1, and its [fetch_add]. *)
Definition NEXT_REQUEST_ID_INIT : Z := 1.
Definition next_request_id : state Z Z := fun n => (n, wrap_u 64 (n + 1)).

Definition dedup_preimage (sender receiver message : string) (timestamp : Z) : bytes :=
  as_bytes sender ++ as_bytes "|" ++ as_bytes receiver ++ as_bytes "|" ++ as_bytes message ++
  as_bytes "|" ++ le_bytes 16 timestamp.

(** [format!("ack:{}", request_id)] *)
Definition ack_key (request_id : Z) : string := "ack:" +:+ show_u request_id.

(** [insert] and the cap of [SeenMessages]: whether the key was new. *)
Definition seen_insert (key : string) (s : gset string) : bool * gset string :=
  if decide (key ∈ s) then (false, s)
  else let s' := {[key]} ∪ s in
       (true, if Z.of_nat (size s') >? SEEN_MESSAGES_MAX then ∅ else s').

Section message.
Context `{Crates, !FrameCodecs}.

Definition dedup_key (sender receiver message : string) (timestamp : Z) : string :=
  hex (sha256 (dedup_preimage sender receiver message timestamp)).
Definition message_key (m : MessageCommand) : string :=
  dedup_key (mc_sender m) (mc_receiver m) (mc_message m) (mc_timestamp m).

Definition send_text_message (sender receiver : string) (request_id : Z) (c : ctx_id)
    (message : string) : M (result unit) :=
  timestamp ← now_stamp;
  send c (Some (mk_message sender receiver request_id timestamp message)) Message SendText true.

Definition send_message_ack (receiver_addr : string) (request_id : Z) (c : ctx_id) : M (result unit) :=
  send c (Some (mk_message_ack request_id)) Message MessageAck true.

(** The block "dedup check" of both handlers; without the slot every message
    counts as new. *)
Definition note_seen (key : string) : M bool :=
  seen ← get_g g_seen;
  match seen with
  | Some s => let '(fresh, s') := seen_insert key s in mod_g (set_g_seen (Some s')) ;; mret fresh
  | None => mret true
  end.

(** Decrypt and decode, the head of both handlers. *)
Definition open_command {C} `{Codec C} (frame : P2PFrame) (cmd : P2PCommand) : M (option C) :=
  plain ← decrypt_from (as_bytes (fb_address (pf_body frame))) (cmd_data cmd);
  mret match plain with
       | Some (Ok plaintext) => match decode plaintext with Ok x => Some x | Err _ => None end
       | _ => None
       end.

(** [pending.remove(&request_id)] and [tx.send(true)] *)
Definition take_pending (request_id : Z) : M bool :=
  pending ← get_g g_pending;
  match pending with
  | Some s =>
      if decide (request_id ∈ s)
      then mod_g (set_g_pending (Some (s ∖ {[request_id]}))) ;; confirm request_id ;; mret true
      else mret false
  | None => mret false
  end.

Definition message_ack_handler (c : ctx_id) (frame : P2PFrame) (cmd : P2PCommand) : M unit :=
  ack ← open_command (C := MessageAckCommand) frame cmd;
  match ack with
  | None => mret tt
  | Some ack =>
      fresh ← note_seen (ack_key (ma_request_id ack));
      if negb fresh then mret tt
      else
        is_for_us ← take_pending (ma_request_id ack);
        if negb is_for_us
        then forward (fun c' => send_ c' (Some ack) Message MessageAck true)
        else mret tt
  end.

(** The acknowledgement is spawned, to the sender's seeds or, when the
    registry has none, to everyone. *)
Definition spawn_ack (sender : string) (request_id : Z) : M unit :=
  node ← get_registry;
  match node with
  | Some r =>
      match get_seeds_for_node sender r with
      | [] => spawn (TAckBroadcast sender request_id)
      | l => spawn (TAckDirect sender request_id l)
      end
  | None => mret tt
  end.

Definition deliver (m : MessageCommand) : M unit :=
  inbox ← get_g g_inbox;
  match inbox with
  | Some l => mod_g (set_g_inbox (Some (l ++ [mk_incoming (mc_sender m) (mc_message m) (mc_timestamp m)])))
  | None => mret tt
  end.

Definition message_handler (c : ctx_id) (frame : P2PFrame) (cmd : P2PCommand) : M unit :=
  message ← open_command (C := MessageCommand) frame cmd;
  match message with
  | None => mret tt
  | Some message =>
      fresh ← note_seen (message_key message);
      if negb fresh then mret tt
      else
        address ← get_g g_address;
        match address with
        | None => mret tt
        | Some address =>
            if decide (mc_sender message = addr_to_string address) then mret tt
            else if decide (mc_receiver message = addr_to_string address) then
              spawn_ack (mc_sender message) (mc_request_id message) ;;
              deliver message
            else mret tt
        end
  end.

(** ** The spawned closures *)

(** The first seed with a live context gets the acknowledgement. *)
Fixpoint ack_direct (m : Manager) (sender : string) (request_id : Z) (l : list SocketAddr) : M bool :=
  match l with
  | [] => mret false
  | seed_addr :: l' =>
      match mgr_find_entry m seed_addr ≫= entry_ctx with
      | Some c => send_message_ack sender request_id c ;; mret true
      | None => ack_direct m sender request_id l'
      end
  end.

(** The fallback over all entries; [sent_nodes] are the node ids served. *)
Fixpoint ack_fallback (sender : string) (request_id : Z) (to : list SocketAddr)
    (sent_nodes : gset string) (l : list (ConnectionEntry AexNode)) : M unit :=
  match l with
  | [] => mret tt
  | entry :: l' =>
      peer ← (match entry_ctx entry with Some c => try_peer c | None => mret None end);
      let matches_socket := bool_decide (entry_addr entry ∈ to) in
      let matches_peer := bool_decide (peer = Some sender) in
      if negb matches_socket && negb matches_peer then ack_fallback sender request_id to sent_nodes l'
      else
        let nid := (fun n => from_utf8_lossy (an_id n)) <$> entry_node entry in
        match nid with
        | Some n =>
            if decide (n ∈ sent_nodes) then ack_fallback sender request_id to sent_nodes l'
            else (match entry_ctx entry with
                  | Some c => send_message_ack sender request_id c ;; mret tt
                  | None => mret tt
                  end) ;;
                 ack_fallback sender request_id to ({[n]} ∪ sent_nodes) l'
        | None =>
            (match entry_ctx entry with
             | Some c => send_message_ack sender request_id c ;; mret tt
             | None => mret tt
             end) ;;
            ack_fallback sender request_id to sent_nodes l'
        end
  end.

Definition run_ack_direct (sender : string) (request_id : Z) (to : list SocketAddr) : M unit :=
  m ← get_g g_manager;
  ack_sent ← ack_direct m sender request_id to;
  if negb ack_sent then ack_fallback sender request_id to ∅ (mgr_entries m) else mret tt.

Definition run_ack_broadcast (sender : string) (request_id : Z) : M unit :=
  forward (fun c => send_message_ack sender request_id c ;; mret tt).
End message.

(** ** The set of seen keys *)

Lemma size_seen_union key (s : gset string) :
  key ∉ s → size ({[key]} ∪ s : gset string) = S (size s).
Proof. intros Hk. rewrite size_union by set_solver. by rewrite size_singleton. Qed.

Lemma seen_insert_false key s : (seen_insert key s).1 = false ↔ key ∈ s.
Proof. unfold seen_insert. case_decide; cbn; naive_solver. Qed.

Lemma seen_insert_room key (s : gset string) :
  Z.of_nat (size s) < SEEN_MESSAGES_MAX → (seen_insert key s).2 = {[key]} ∪ s.
Proof.
  intros Hs. unfold seen_insert. case_decide; cbn; [set_solver|].
  rewrite size_seen_union by done.
  destruct (_ >? _) eqn:E; [apply Z.gtb_lt in E; lia|done].
Qed.

Lemma seen_insert_bound key (s : gset string) :
  Z.of_nat (size s) ≤ SEEN_MESSAGES_MAX → Z.of_nat (size (seen_insert key s).2) ≤ SEEN_MESSAGES_MAX.
Proof.
  intros Hs. unfold seen_insert. case_decide; cbn; [done|].
  destruct (_ >? _) eqn:E; [by rewrite size_empty|].
  destruct (Z.ltb_spec SEEN_MESSAGES_MAX (Z.of_nat (size ({[key]} ∪ s)))) as [Hl|]; [|lia].
  rewrite Z.gtb_ltb in E. apply Z.ltb_ge in E. lia.
Qed.

(** The set of seen keys never holds more than 10000 of them: an insertion
    keeps the bound, answers whether the key is new, and otherwise only adds
    the key; but the insertion that goes over the bound empties the set, so
    that a repetition of that very key counts as new. *)
Theorem seen_insert_spec (key : string) (s : gset string) :
  Z.of_nat (size s) ≤ SEEN_MESSAGES_MAX →
  ((seen_insert key s).1 = true ↔ key ∉ s) ∧
  Z.of_nat (size (seen_insert key s).2) ≤ SEEN_MESSAGES_MAX ∧
  (Z.of_nat (size s) < SEEN_MESSAGES_MAX → (seen_insert key s).2 = {[key]} ∪ s) ∧
  (Z.of_nat (size s) = SEEN_MESSAGES_MAX → key ∉ s →
     (seen_insert key s).2 = ∅ ∧ (seen_insert key (seen_insert key s).2).1 = true).
Proof.
  intros Hs. split_and!.
  - pose proof (seen_insert_false key s). destruct (seen_insert key s).1; naive_solver.
  - by apply seen_insert_bound.
  - apply seen_insert_room.
  - intros Hmax Hk. assert (E : (seen_insert key s).2 = ∅).
    { unfold seen_insert. rewrite decide_False by done. cbn.
      rewrite size_seen_union by done. destruct (_ >? _) eqn:E; [done|].
      rewrite Z.gtb_ltb in E. apply Z.ltb_ge in E. lia. }
    rewrite E. split; [done|]. unfold seen_insert. by rewrite decide_False by set_solver.
Qed.

(** The ids of [k] calls in a row. *)
Fixpoint draw_ids (k : nat) (n : Z) : list Z :=
  match k with O => [] | S k' => let '(id, n') := next_request_id n in id :: draw_ids k' n' end.

Lemma draw_ids_lookup k n i : 0 ≤ n < 2 ^ 64 → (i < k)%nat →
  draw_ids k n !! i = Some (wrap_u 64 (n + Z.of_nat i)).
Proof.
  revert n i. induction k as [|k IH]; intros n [|i] Hn Hi; cbn; try lia.
  - rewrite wrap_u_small; [f_equal; lia|]. unfold in_u. lia.
  - rewrite IH; [|by apply (wrap_u_in 64)|lia]. unfold wrap_u. f_equal.
    rewrite Z.add_mod_idemp_l by done. f_equal. lia.
Qed.

(** Request ids: the ids a process draws start at 1, fit their u64, and
    are distinct until the counter has gone round. *)
Theorem request_ids_distinct (k i j : nat) id :
  (i < k)%nat → (j < k)%nat → Z.of_nat k ≤ 2 ^ 64 →
  draw_ids k NEXT_REQUEST_ID_INIT !! i = Some id → draw_ids k NEXT_REQUEST_ID_INIT !! j = Some id →
  i = j ∧ in_u 64 id ∧ (i = 0%nat → id = 1).
Proof.
  unfold NEXT_REQUEST_ID_INIT. intros Hi Hj Hk.
  rewrite !draw_ids_lookup by (done || lia). intros [= <-] [= E].
  split_and!; [|by apply wrap_u_in|by intros ->].
  apply Nat2Z.inj. unfold wrap_u in E.
  pose proof (Z.div_mod (1 + Z.of_nat i) (2 ^ 64) ltac:(done)) as E1.
  pose proof (Z.div_mod (1 + Z.of_nat j) (2 ^ 64) ltac:(done)) as E2.
  rewrite E in E2.
  assert (0 ≤ (1 + Z.of_nat i) / 2 ^ 64 ≤ 1) by (split; [apply Z.div_pos; lia|apply Z.lt_succ_r, Z.div_lt_upper_bound; lia]).
  assert (0 ≤ (1 + Z.of_nat j) / 2 ^ 64 ≤ 1) by (split; [apply Z.div_pos; lia|apply Z.lt_succ_r, Z.div_lt_upper_bound; lia]).
  nia.
Qed.

(** ** The handlers *)

Section handlers.
Context `{Crates, !FrameCodecs}.

(** A message is for the application: it comes from someone else and names
    this node as its receiver. *)
Definition for_us (g : Gctx) (m : MessageCommand) : bool :=
  match g_address g with
  | Some a => bool_decide (mc_sender m ≠ addr_to_string a) && bool_decide (mc_receiver m = addr_to_string a)
  | None => false
  end.
Definition is_new (g : Gctx) (key : string) : bool :=
  match g_seen g with Some s => (seen_insert key s).1 | None => true end.
Definition seen_after (g : Gctx) (key : string) : option (gset string) :=
  (fun s => (seen_insert key s).2) <$> g_seen g.

Definition incoming_of (m : MessageCommand) : IncomingMessage :=
  mk_incoming (mc_sender m) (mc_message m) (mc_timestamp m).
Definition ack_tasks (g : Gctx) (m : MessageCommand) : list Task :=
  match g_node g with
  | Some n => match get_seeds_for_node (mc_sender m) (pn_registry n) with
              | [] => [TAckBroadcast (mc_sender m) (mc_request_id m)]
              | l => [TAckDirect (mc_sender m) (mc_request_id m) l]
              end
  | None => []
  end.

(** Opening a command spends at most one step of the session keys. *)
Lemma open_command_psk {C} `{Codec C} frame cmd w :
  ∃ p, exec (open_command (C := C) frame cmd) w = set_w_g (set_g_psk p (w_g w)) w.
Proof.
  unfold open_command, decrypt_from. rewrite exec_bind. unfold exec, eval. rewrite !run_bind. cbn.
  destruct (g_psk (w_g w)) as [p|] eqn:E.
  - destruct (psk_decrypt p _ _) as [r p']. cbn. by exists (Some p').
  - exists None. cbn. destruct w as [[] ? ? ? ? ? ? ?]; cbn in *. by subst.
Qed.

Lemma run_note_seen key w :
  note_seen key w = (is_new (w_g w) key, set_w_g (set_g_seen (seen_after (w_g w) key) (w_g w)) w).
Proof.
  unfold note_seen, is_new, seen_after. rewrite run_bind. cbn.
  destruct (g_seen (w_g w)) as [s|] eqn:E; cbn.
  - destruct (seen_insert key s). done.
  - destruct w as [[] ? ? ? ? ? ? ?]; cbn in *. by subst.
Qed.

Lemma run_deliver m w :
  deliver m w = (tt, set_w_g (set_g_inbox ((fun l => l ++ [incoming_of m]) <$> g_inbox (w_g w)) (w_g w)) w).
Proof.
  unfold deliver. rewrite run_bind. cbn. destruct (g_inbox (w_g w)) as [l|] eqn:E; cbn; [done|].
  destruct w as [[] ? ? ? ? ? ? ?]; cbn in *. by subst.
Qed.

Lemma run_spawn_ack m w :
  spawn_ack (mc_sender m) (mc_request_id m) w = (tt, set_w_tasks (w_tasks w ++ ack_tasks (w_g w) m) w).
Proof.
  unfold spawn_ack, ack_tasks, get_registry. rewrite run_bind. cbn.
  destruct (g_node (w_g w)) as [n|]; cbn; [by destruct (get_seeds_for_node _ _)|].
  rewrite app_nil_r. by destruct w.
Qed.

(** The state after a message [m] was opened: [m] is accepted when it is new
    and for this node. *)
Definition accepts (g : Gctx) (m : MessageCommand) : bool := is_new g (message_key m) && for_us g m.
Definition message_result (g : Gctx) (m : MessageCommand) (w : World) : World :=
  let w1 := set_w_g (set_g_seen (seen_after g (message_key m)) (w_g w)) w in
  if accepts g m then
    set_w_tasks (w_tasks w ++ ack_tasks g m)
      (set_w_g (set_g_inbox ((fun l => l ++ [incoming_of m]) <$> g_inbox g) (w_g w1)) w1)
  else w1.

Lemma run_message_handler c frame cmd w :
  exec (message_handler c frame cmd) w =
    let w0 := exec (open_command (C := MessageCommand) frame cmd) w in
    match eval (open_command (C := MessageCommand) frame cmd) w with
    | None => w0
    | Some m => message_result (w_g w) m w0
    end.
Proof.
  unfold message_handler. rewrite exec_bind.
  destruct (open_command_psk (C := MessageCommand) frame cmd w) as [p ->].
  destruct (eval _ w) as [m|]; [|done]. cbn zeta.
  unfold exec at 1. rewrite run_bind, run_note_seen. cbn [w_g set_w_g].
  change (is_new (set_g_psk p (w_g w)) (message_key m)) with (is_new (w_g w) (message_key m)).
  unfold message_result, accepts, for_us.
  destruct (is_new (w_g w) (message_key m)); cbn [negb andb]; [|done].
  rewrite run_bind. cbn [w_g set_w_g get_g gets].
  change (g_address (set_g_seen _ (set_g_psk p (w_g w)))) with (g_address (w_g w)).
  destruct (g_address (w_g w)) as [a|]; [|done].
  repeat (case_decide || case_bool_decide); try done.
  cbn [andb]. rewrite run_bind, run_spawn_ack, run_deliver. done.
Qed.
End handlers.

Section properties.
Context `{Crates, !FrameCodecs}.

Lemma message_handler_effect c frame cmd w :
  let w' := exec (message_handler c frame cmd) w in
  let g := w_g w in
  match eval (open_command (C := MessageCommand) frame cmd) w with
  | None => g_inbox (w_g w') = g_inbox g ∧ w_tasks w' = w_tasks w ∧ g_seen (w_g w') = g_seen g
  | Some m =>
      g_inbox (w_g w') = (fun l => l ++ if accepts g m then [incoming_of m] else []) <$> g_inbox g ∧
      w_tasks w' = w_tasks w ++ (if accepts g m then ack_tasks g m else []) ∧
      g_seen (w_g w') = seen_after g (message_key m)
  end ∧
  w_ctx w' = w_ctx w ∧ w_events w' = w_events w ∧ w_confirmed w' = w_confirmed w ∧
  g_node (w_g w') = g_node g ∧ g_pending (w_g w') = g_pending g ∧ g_address (w_g w') = g_address g.
Proof.
  cbn zeta. rewrite run_message_handler. cbn zeta.
  destruct (open_command_psk (C := MessageCommand) frame cmd w) as [p ->].
  destruct (eval _ w) as [m|]; [|done].
  unfold message_result. destruct (accepts (w_g w) m); cbn; split_and!; try done; rewrite ?app_nil_r; try done.
  destruct (g_inbox (w_g w)); cbn; by rewrite ?app_nil_r.
Qed.

(** C10. The message handler on every branch. A frame that cannot be
    decrypted or decoded changes nothing but the session keys. A message is
    recorded as seen, and when it was new, comes from someone else and is
    addressed to this node, the application receives it - once, with its
    sender, text and timestamp - and one acknowledgement is spawned: to the
    sender's seeds, or to everyone when the registry has none. Otherwise it
    is dropped without a trace, and in no case does the handler itself send
    anything or touch the registry and the pending requests. *)
Theorem message_handler_spec c frame cmd w :
  let w' := exec (message_handler c frame cmd) w in
  let g := w_g w in
  match eval (open_command (C := MessageCommand) frame cmd) w with
  | None => g_inbox (w_g w') = g_inbox g ∧ w_tasks w' = w_tasks w ∧ g_seen (w_g w') = g_seen g
  | Some m =>
      g_inbox (w_g w') = (fun l => l ++ if accepts g m then [incoming_of m] else []) <$> g_inbox g ∧
      w_tasks w' = w_tasks w ++ (if accepts g m then ack_tasks g m else []) ∧
      g_seen (w_g w') = seen_after g (message_key m)
  end ∧
  w_ctx w' = w_ctx w ∧ w_events w' = w_events w ∧ w_confirmed w' = w_confirmed w ∧
  g_node (w_g w') = g_node g ∧ g_pending (w_g w') = g_pending g ∧ g_address (w_g w') = g_address g.
Proof. apply message_handler_effect. Qed.

Definition pending_after (id : Z) (g : Gctx) : option (gset Z) := (fun s => s ∖ {[id]}) <$> g_pending g.
Definition waits (id : Z) (g : Gctx) : bool :=
  match g_pending g with Some s => bool_decide (id ∈ s) | None => false end.

Lemma run_take_pending id w :
  take_pending id w =
    (waits id (w_g w),
     if waits id (w_g w)
     then set_w_confirmed (w_confirmed w ++ [id]) (set_w_g (set_g_pending (pending_after id (w_g w)) (w_g w)) w)
     else w).
Proof.
  unfold take_pending, waits, pending_after. rewrite run_bind. cbn.
  destruct (g_pending (w_g w)) as [s|]; [|done].
  case_decide; [rewrite bool_decide_true by done|rewrite bool_decide_false by done]; done.
Qed.

Lemma message_ack_handler_effect c frame cmd w :
  let w' := exec (message_ack_handler c frame cmd) w in
  let g := w_g w in
  match eval (open_command (C := MessageAckCommand) frame cmd) w with
  | None => w_ctx w' = w_ctx w ∧ g_pending (w_g w') = g_pending g ∧ w_confirmed w' = w_confirmed w ∧
            g_seen (w_g w') = g_seen g
  | Some ack =>
      let id := ma_request_id ack in
      let mine := is_new g (ack_key id) && waits id g in
      g_pending (w_g w') = (if mine then pending_after id g else g_pending g) ∧
      w_confirmed w' = w_confirmed w ++ (if mine then [id] else []) ∧
      g_seen (w_g w') = seen_after g (ack_key id) ∧
      (is_new g (ack_key id) = false ∨ mine = true → w_ctx w' = w_ctx w)
  end ∧
  g_node (w_g w') = g_node g ∧ g_inbox (w_g w') = g_inbox g ∧ w_tasks w' = w_tasks w.
Proof.
  cbn zeta. unfold message_ack_handler. rewrite exec_bind.
  destruct (open_command_psk (C := MessageAckCommand) frame cmd w) as [p ->].
  destruct (eval _ w) as [ack|]; [|done]. cbn zeta. set (id := ma_request_id ack).
  rewrite exec_bind. unfold eval, exec. rewrite run_note_seen. cbn [fst snd w_g set_w_g].
  change (is_new (set_g_psk p (w_g w)) (ack_key id)) with (is_new (w_g w) (ack_key id)).
  change (seen_after (set_g_psk p (w_g w)) (ack_key id)) with (seen_after (w_g w) (ack_key id)).
  set (w1 := set_w_g _ _).
  destruct (is_new (w_g w) (ack_key id)); cbn [negb andb].
  - rewrite run_bind, run_take_pending.
    change (waits id (w_g w1)) with (waits id (w_g w)).
    destruct (waits id (w_g w)) eqn:Hw; cbn [negb].
    + cbn. by split_and!.
    + pose proof (respects_forward (fun c' => send_ c' (Some ack) Message MessageAck true)
        (fun c' => respects_send_ _ _ _ _ _) w1) as [Hg _ _ Ht _ Hc _ _].
      unfold exec in *. destruct (forward _ w1) as [[] w2]. cbn in *.
      split_and!; try done.
      * by apply (f_equal g_pending) in Hg.
      * by rewrite app_nil_r, Hc.
      * by apply (f_equal g_seen) in Hg.
      * intros []; done.
      * by apply (f_equal g_node) in Hg.
      * by apply (f_equal g_inbox) in Hg.
  - cbn. rewrite app_nil_r. by split_and!.
Qed.

Lemma keys_open {C} `{Codec C} frame cmd : respects keys_later (open_command (C := C) frame cmd).
Proof.
  unfold open_command. apply respects_bind; [typeclasses eauto|apply keys_decrypt|]. intros o. by apply keys_same.
Qed.

(** An acknowledgement nobody waits for here is handed on. *)
Lemma message_ack_forwards `{!FrameCodecsLaws, !FrameCodecsTotal, !AccountLaws, !CodecTotal MessageAckCommand} c frame cmd w ack :
  eval (open_command (C := MessageAckCommand) frame cmd) w = Some ack →
  is_new (w_g w) (ack_key (ma_request_id ack)) = true → waits (ma_request_id ack) (w_g w) = false →
  handed ack Message MessageAck (omap entry_ctx (mgr_entries (g_manager (w_g w)))) w
    (exec (message_ack_handler c frame cmd) w).
Proof.
  intros Ho Hn Hw. unfold message_ack_handler. rewrite exec_bind, Ho.
  destruct (open_command_psk (C := MessageAckCommand) frame cmd w) as [p Hp].
  pose proof (keys_open (C := MessageAckCommand) frame cmd w) as Hk. rewrite Hp in *.
  rewrite exec_bind. unfold eval, exec at 2. rewrite run_note_seen. cbn [fst snd w_g set_w_g].
  change (is_new (set_g_psk p (w_g w)) (ack_key (ma_request_id ack))) with (is_new (w_g w) (ack_key (ma_request_id ack))).
  rewrite Hn. cbn [negb]. set (w1 := set_w_g _ _). rewrite exec_bind. unfold eval, exec at 2. rewrite run_take_pending.
  change (waits (ma_request_id ack) (w_g w1)) with (waits (ma_request_id ack) (w_g w)). rewrite Hw. cbn [fst snd negb].
  assert (Hio : is_Some p ↔ is_Some (g_psk (w_g w))).
  { assert (Hs : respects io_step (open_command (C := MessageAckCommand) frame cmd)) by (unfold open_command; respects_tac).
    pose proof (io_psk _ _ _ (Hs w)) as Hi. by rewrite Hp in Hi. }
  pose proof (forward_hands ack Message MessageAck w1) as Hf.
  change (omap entry_ctx (mgr_entries (g_manager (w_g w1)))) with (omap entry_ctx (mgr_entries (g_manager (w_g w)))) in Hf.
  intros c'. destruct (Hf c') as (out & Eo & Fo & Lo & To). exists out. split; [exact Eo|]. split; [|split; [exact Lo|]].
  - eapply Forall_impl; [exact Fo|]. intros raw. by apply (brings_later _ _ _ _ w w1).
  - intros Ha Hs. apply To; [exact Ha|]. by apply (seals_later w w1).
Qed.

End properties.

(** ** Runs of both handlers *)

Section runs.
Context `{Crates, !FrameCodecs}.

(** What the connection tasks hand to the two handlers, one after another. *)
Inductive input :=
| InMessage (c : ctx_id) (frame : P2PFrame) (cmd : P2PCommand)
| InAck (c : ctx_id) (frame : P2PFrame) (cmd : P2PCommand).

Definition handle_input (i : input) : M unit :=
  match i with
  | InMessage c frame cmd => message_handler c frame cmd
  | InAck c frame cmd => message_ack_handler c frame cmd
  end.
Definition handle_inputs (l : list input) : M unit := for_each l handle_input.

(** Every delivered message's key is in the set of seen keys. *)
Definition delivered_keys (a : Address) (l : list IncomingMessage) : list string :=
  (fun m => dedup_key (im_from m) (addr_to_string a) (im_content m) (im_timestamp m)) <$> l.
Record dedup_inv (a : Address) (n : nat) (w : World) : Prop := {
  di_address : g_address (w_g w) = Some a;
  di_seen : ∃ s, g_seen (w_g w) = Some s ∧ (size s ≤ n)%nat ∧
    ∃ l, g_inbox (w_g w) = Some l ∧ NoDup (delivered_keys a l) ∧
      ∀ k, k ∈ delivered_keys a l → k ∈ s;
}.

Lemma seen_insert_size key (s : gset string) : (size (seen_insert key s).2 ≤ S (size s))%nat.
Proof.
  unfold seen_insert. case_decide; cbn; [lia|].
  destruct (_ >? _); [rewrite size_empty; lia|by rewrite size_seen_union].
Qed.

Lemma dedup_inv_message a n c frame cmd w :
  Z.of_nat n < SEEN_MESSAGES_MAX → dedup_inv a n w →
  dedup_inv a (S n) (exec (message_handler c frame cmd) w).
Proof.
  intros Hn [Ha (s & Hs & Hsz & l & Hl & Hnd & Hin)].
  pose proof (message_handler_effect c frame cmd w) as (Hm & _ & _ & _ & _ & _ & Ha').
  cbn zeta in *. split; [congruence|].
  destruct (eval _ w) as [m|].
  - destruct Hm as (-> & _ & ->). unfold seen_after. rewrite Hs, Hl. cbn.
    eexists. split; [done|]. split; [pose proof (seen_insert_size (message_key m) s); lia|].
    rewrite seen_insert_room by lia.
    eexists. split; [done|]. unfold accepts.
    destruct (is_new (w_g w) (message_key m)) eqn:Hnew; cbn;
      [|rewrite app_nil_r; split; [done|set_solver]].
    destruct (for_us (w_g w) m) eqn:Hus; [|rewrite app_nil_r; split; [done|set_solver]].
    assert (Hk : message_key m ∉ s).
    { unfold is_new in Hnew. rewrite Hs in Hnew. intros Hk%seen_insert_false. congruence. }
    unfold for_us in Hus. rewrite Ha in Hus. apply andb_prop in Hus as [_ Hr%bool_decide_eq_true].
    unfold delivered_keys. rewrite fmap_app. cbn.
    unfold message_key in *. rewrite Hr in *. split.
    + apply NoDup_app. split; [done|]. split; [set_solver|apply NoDup_singleton].
    + intros k Hk'. apply elem_of_app in Hk' as [?%Hin|?]; set_solver.
  - destruct Hm as (-> & _ & ->). exists s. split; [done|]. split; [lia|]. eauto.
Qed.

Lemma dedup_inv_ack a n c frame cmd w :
  Z.of_nat n < SEEN_MESSAGES_MAX → dedup_inv a n w →
  dedup_inv a (S n) (exec (message_ack_handler c frame cmd) w).
Proof.
  intros Hn [Ha (s & Hs & Hsz & l & Hl & Hnd & Hin)].
  assert (Ha' : g_address (w_g (exec (message_ack_handler c frame cmd) w)) = g_address (w_g w)).
  { unfold message_ack_handler. rewrite exec_bind.
    destruct (open_command_psk (C := MessageAckCommand) frame cmd w) as [p ->].
    destruct (eval _ w) as [ack|]; [|done].
    rewrite exec_bind. unfold eval, exec. rewrite run_note_seen. cbn [fst snd].
    destruct (is_new _ _); [|done]. cbn [negb]. rewrite run_bind, run_take_pending.
    destruct (waits _ _); [done|]. cbn [negb].
    match goal with |- g_address (w_g (forward ?f ?x).2) = _ =>
      pose proof (io_g _ _ _ (respects_forward f (fun c' => respects_send_ _ _ _ _ _) x)) as Hg end.
    by apply (f_equal g_address) in Hg. }
  pose proof (message_ack_handler_effect c frame cmd w) as (Hm & _ & Hi & _). cbn zeta in *.
  split; [congruence|]. rewrite Hi, Hl.
  destruct (eval _ w) as [ack|].
  - destruct Hm as (_ & _ & -> & _). unfold seen_after. rewrite Hs. cbn.
    eexists. split; [done|]. split; [pose proof (seen_insert_size (ack_key (ma_request_id ack)) s); lia|].
    rewrite seen_insert_room by lia. eexists. split; [done|]. split; [done|set_solver].
  - destruct Hm as (_ & _ & _ & ->). exists s. split; [done|]. split; [lia|]. eauto.
Qed.

Lemma dedup_inv_run l a n w :
  Z.of_nat (n + length l) ≤ SEEN_MESSAGES_MAX → dedup_inv a n w →
  dedup_inv a (n + length l) (exec (handle_inputs l) w).
Proof.
  revert n w. induction l as [|i l IH]; intros n w Hn Hi.
  - by rewrite Nat.add_0_r.
  - cbn [length] in *. unfold handle_inputs. cbn [for_each]. rewrite exec_bind.
    replace (n + S (length l))%nat with (S n + length l)%nat in * by lia.
    apply IH; [done|]. destruct i; cbn; [apply dedup_inv_message|apply dedup_inv_ack]; (lia || done).
Qed.

(** At most once delivery: starting from a node that has seen nothing,
    whatever messages and acknowledgements arrive - repeated, reordered,
    forwarded by several peers - as long as they are at most 10000 the
    application never receives the same sender, text and timestamp twice. *)
Theorem delivery_at_most_once (l : list input) (a : Address) w :
  g_address (w_g w) = Some a → g_seen (w_g w) = Some ∅ → g_inbox (w_g w) = Some [] →
  Z.of_nat (length l) ≤ SEEN_MESSAGES_MAX →
  ∃ got, g_inbox (w_g (exec (handle_inputs l) w)) = Some got ∧ NoDup got.
Proof.
  intros Ha Hs Hi Hl.
  destruct (dedup_inv_run l a 0 w) as [_ (s & _ & _ & got & Hg & Hnd & _)]; [done| |].
  - split; [done|]. exists ∅. split; [done|]. split; [by rewrite size_empty|].
    exists []. split; [done|]. split; [constructor|set_solver].
  - exists got. split; [done|]. unfold delivered_keys in Hnd. by apply NoDup_fmap_1 in Hnd.
Qed.

Lemma handle_input_pending i w P :
  g_pending (w_g w) = Some P →
  let w' := exec (handle_input i) w in
  (w_confirmed w' = w_confirmed w ∧ g_pending (w_g w') = Some P) ∨
  ∃ id, id ∈ P ∧ w_confirmed w' = w_confirmed w ++ [id] ∧ g_pending (w_g w') = Some (P ∖ {[id]}).
Proof.
  intros HP. destruct i as [c frame cmd|c frame cmd]; cbn.
  - pose proof (message_handler_effect c frame cmd w) as (_ & _ & _ & Hc & _ & Hp & _).
    cbn in *. left. split; congruence.
  - pose proof (message_ack_handler_effect c frame cmd w) as (Hm & _). cbn zeta in Hm.
    destruct (eval _ w) as [ack|]; [|left; destruct Hm as (_ & ? & ? & _); split; congruence].
    destruct Hm as (Hp & Hc & _). unfold pending_after, waits in *. rewrite HP in *.
    destruct (is_new _ _); cbn in *; [|rewrite app_nil_r in Hc; by left].
    case_bool_decide; [|rewrite app_nil_r in Hc; by left].
    right. eauto.
Qed.

(** A waiter is answered at most once and only if it waits: over any run
    of the two handlers the newly confirmed request ids are distinct, were
    pending at the start, and are exactly the ones that no longer are. *)
Theorem confirmed_once (l : list input) (P : gset Z) w :
  g_pending (w_g w) = Some P →
  ∃ new, w_confirmed (exec (handle_inputs l) w) = w_confirmed w ++ new ∧ NoDup new ∧
    (∀ id, id ∈ new → id ∈ P) ∧
    g_pending (w_g (exec (handle_inputs l) w)) = Some (P ∖ list_to_set new).
Proof.
  revert P w. induction l as [|i l IH]; intros P w HP.
  - exists []. rewrite app_nil_r. split_and!; [done|constructor|set_solver|]. cbn. rewrite HP. f_equal. set_solver.
  - unfold handle_inputs. cbn [for_each]. rewrite exec_bind.
    destruct (handle_input_pending i w P HP) as [[Hc Hp]|(id & Hid & Hc & Hp)];
      destruct (IH _ _ Hp) as (new & Hn & Hnd & Hin & HP'); unfold handle_inputs in *.
    + exists new. rewrite Hn, Hc. done.
    + exists (id :: new). rewrite Hn, Hc, HP', <- app_assoc. split_and!; [done| | |].
      * constructor; [|done]. intros ?%Hin. set_solver.
      * intros k. rewrite elem_of_cons. set_solver.
      * f_equal. cbn. set_solver.
Qed.
End runs.

(** ** Keys *)

(** The two kinds of keys in the shared set never meet: no digest is the
    key of an acknowledgement, and distinct request ids have distinct keys. *)
Theorem seen_keys_disjoint `{Crates} (m : MessageCommand) (i j : Z) :
  0 ≤ i → 0 ≤ j → message_key m ≠ ack_key i ∧ (ack_key i = ack_key j → i = j).
Proof.
  intros Hi Hj. split.
  - unfold message_key, dedup_key, ack_key. destruct (sha256 _) as [|x [|y b]]; cbn; [done|done|].
    intros [= _ _ E _]. apply (f_equal (char_digit 16)) in E.
    pose proof (Z_of_byte_bound y). unfold hex_digit in E.
    rewrite char_digit_of_digit in E; [done|by right|].
    split; [apply Z.div_pos; lia|apply Z.div_lt_upper_bound; lia].
  - intros [= E]. by apply show_u_inj.
Qed.

Lemma as_bytes_app (s t : string) : as_bytes (s +:+ t) = as_bytes s ++ as_bytes t.
Proof. induction s as [|c s IH]; [done|]. apply (f_equal (cons (Ascii.byte_of_ascii c)) IH). Qed.

(** The key does not keep the fields apart: whatever is written between the
    sender and the text can move from one to the other, and the message that
    comes second counts as a repetition of the first. *)
Theorem dedup_key_ambiguous `{Crates} (s a receiver b : string) (timestamp : Z) :
  dedup_key s receiver (a +:+ "|" +:+ receiver +:+ "|" +:+ b) timestamp =
  dedup_key (s +:+ "|" +:+ receiver +:+ "|" +:+ a) receiver b timestamp.
Proof. unfold dedup_key, dedup_preimage. by rewrite !as_bytes_app, <- !app_assoc. Qed.
