(* ===== verification/Handshake.v ===== *)
(** * The handshake and seed gossip

    - src/src/protocols/commands/online.rs: [online_handler] answers an
      announcement - a full handshake or, with an empty session id, a gossip
      of seeds - and plans what follows: the return connection, the broadcast,
      the node sync, the watch over the connection;
    - src/src/protocols/commands/ack.rs: [onlineack_handler],
      [broadcast_seeds_to_peers], [connect_to_new_peer];
    - src/src/protocols/commands/offline.rs: [offline_handler].

    The closures the handlers spawn are the operations [run_...]; the router
    component runs them as separate steps. *)

From S2P Require Import Prelude NetAddr External Command NodeRegistry Seeds World Frame Evolution.
Open Scope Z_scope.
Open Scope stdpp_scope.

Class HandshakeCodecs `{Crates} : Type := {
  #[global] codec_online :: Codec OnlineCommand;
  #[global] codec_online_ack :: Codec OnlineAckCommand;
}.

Definition is_zero_key (k : bytes) : bool := forallb (fun b => bool_decide (b = Byte.x00)) k.
Definition zero_key : bytes := replicate 32 Byte.x00.

Section definitions.
Context `{Crates, !FrameCodecs, !HandshakeCodecs}.

(** A step of the session keys under their lock; nothing without keys. *)
Definition use_psk {R} (f : Psk → R * Psk) : M (option R) :=
  p ← get_g g_psk;
  match p with
  | Some p => let '(r, p') := f p in mod_g (set_g_psk (Some p')) ;; mret (Some r)
  | None => mret None
  end.

(** The announced addresses, split by scope. *)
Definition ips_of_scope (s : NetworkScope) (n : AexNode) : list string :=
  (fun p => ip_to_string p.2) <$> List.filter (fun p => bool_decide (p.1 = s)) (an_ips n).
Definition local_ips (n : AexNode) : list string * list string :=
  (ips_of_scope Intranet n, ips_of_scope Extranet n).

(** [entry.update_node(node)] on the first side of the bucket of the
    connection's peer that has an entry for it. *)
Fixpoint store_peer_node (c : ctx_id) (sides : list ConnSide) (n : AexNode) : M unit :=
  match sides with
  | [] => mret tt
  | side :: sides' =>
      peer_addr ← get_ctx c ctx_addr;
      m ← get_g g_manager;
      let ip := sock_ip peer_addr in
      match mgr_get m ip (scope_from_ip ip) side peer_addr with
      | Some _ => mod_g (set_g_manager (mgr_update_node m ip (scope_from_ip ip) side peer_addr n))
      | None => store_peer_node c sides' n
      end
  end.

(** Register the node of a received seed record at its address, if that is
    an address. *)
Definition register_seed (seed : SeedRecord) : M unit :=
  match parse_sock (sr_address seed) with
  | Some addr => reg_register (sr_node_address seed) addr
  | None => mret tt
  end.

Definition with_node (m : M unit) : M unit :=
  r ← get_registry; match r with Some _ => m | None => mret tt end.

(** May this node dial the node of a seed: it is not connected already, is
    not this node, and the tie-breaker leaves it to the lower address. *)
Definition may_initiate (local : option Address) (r : registry) (node_address : string) : bool :=
  negb (is_connected node_address r) &&
  match local with
  | Some a => negb (bool_decide (node_address = addr_to_string a)) &&
              negb (str_ltb node_address (addr_to_string a))
  | None => true
  end.

Definition connect_seed (c : ctx_id) (seed : SeedRecord) : M unit :=
  r ← get_registry;
  local ← get_g g_address;
  match r with
  | Some r =>
      if may_initiate local r (sr_node_address seed) then
        match parse_sock (sr_address seed) with
        | Some addr => spawn (TConnect c addr (sr_node_address seed))
        | None => mret tt
        end
      else mret tt
  | None => mret tt
  end.

Definition seed_count : M nat :=
  r ← get_registry; mret (default 0%nat ((fun r => length (get_all_seeds r)) <$> r)).

(** Broadcast what the registry holds, if it grew past [before]. *)
Definition propagate_if_grown (c : ctx_id) (before : nat) : M unit :=
  after ← seed_count;
  if (before <? after)%nat then cmd ← all_seeds_command; spawn (TBroadcast c cmd) else mret tt.

(** [online_handler], the branch of the empty session id. *)
Definition gossip_seed (c : ctx_id) (seed : SeedRecord) : M unit :=
  r ← get_registry;
  (if default false (is_registered (sr_node_address seed) <$> r) then mret tt else register_seed seed) ;;
  connect_seed c seed.

Definition gossip_merge (c : ctx_id) (cmd : SeedsCommand) : M unit :=
  before ← seed_count;
  for_each (sc_seeds cmd) (gossip_seed c) ;;
  propagate_if_grown c before.

Definition online_gossip (c : ctx_id) (frame : P2PFrame) (online : OnlineCommand) : M unit :=
  store_peer_node c [Servers; Clients] (on_node online) ;;
  peer_sock ← get_ctx c ctx_addr;
  with_node (reg_register (fb_address (pf_body frame)) (sock_new (sock_ip peer_sock) (an_port (on_node online)))) ;;
  match on_seeds online with
  | Some cmd => if seeds_command_verify cmd then with_node (gossip_merge c cmd) else mret tt
  | None => mret tt
  end.

(** The first block of the handshake: test-and-set of the connected flag and
    the registration at the advertised port; answers whether this is a
    return connection. *)
Definition online_admit (c : ctx_id) (frame : P2PFrame) (online : OnlineCommand) : M bool :=
  node ← get_registry;
  match node with
  | Some _ =>
      first ← reg_try_connect (fb_address (pf_body frame));
      peer_sock ← get_ctx c ctx_addr;
      reg_register_dir (fb_address (pf_body frame))
        (sock_new (sock_ip peer_sock) (an_port (on_node online))) Inbound ;;
      mret (negb first)
  | None => mret false
  end.

(** [establish_begins] with the announced key; both arms of the source do
    the same. [None]: an error, or no session keys. *)
Definition online_key (from local : string) (online : OnlineCommand) : M (option bytes) :=
  r ← use_psk (fun p => psk_establish_begins p (as_bytes from) (as_bytes local) (on_ephemeral online));
  mret match r with
       | Some (Ok (Some pk)) => Some pk
       | Some (Ok None) => Some zero_key
       | _ => None
       end.

Definition merge_announced (online : OnlineCommand) : M unit :=
  match on_seeds online with
  | Some cmd => if seeds_command_verify cmd then with_node (for_each (sc_seeds cmd) register_seed) else mret tt
  | None => mret tt
  end.

Definition online_ack (key : bytes) (address : Address) (online : OnlineCommand) : M OnlineAckCommand :=
  node ← get_g g_local_node;
  merge_announced online ;;
  seeds ← all_seeds_command;
  let '(intranet_ips, wan_ips) := local_ips node in
  mret (mk_online_ack (on_session_id online) (addr_to_string address) node key intranet_ips wan_ips (Some seeds)).

(** The return connection, unless one was dialled already. *)
Definition already_connected (m : Manager) (peer_sock peer_addr : SocketAddr) : bool :=
  let get := mgr_get m (sock_ip peer_addr) (scope_from_ip (sock_ip peer_addr)) Servers in
  bool_decide (is_Some (get peer_sock)) || bool_decide (is_Some (get peer_addr)).
Definition plan_return_connect (c : ctx_id) (online : OnlineCommand) : M unit :=
  peer_sock ← get_ctx c ctx_addr;
  m ← get_g g_manager;
  let peer_addr := sock_new (sock_ip peer_sock) (an_port (on_node online)) in
  if already_connected m peer_sock peer_addr then mret tt
  else
    local_node ← get_g g_local_node;
    created ← use_psk (fun p => psk_create p false);
    match created with
    | Some (session_id, eph_pub) =>
        spawn (TReturnConnect peer_addr (mk_online session_id local_node eph_pub [] [] None))
    | None => mret tt
    end.

Definition online_followup (c : ctx_id) (frame : P2PFrame) (online : OnlineCommand) : M unit :=
  let from := fb_address (pf_body frame) in
  plan_return_connect c online ;;
  cmd ← all_seeds_command;
  spawn (TBroadcast c cmd) ;;
  publish (PeerOnlineEvent from (on_intranet_ips online) (on_wan_ips online)) ;;
  spawn (TNodeSync c from) ;;
  peer_sock ← get_ctx c ctx_addr;
  spawn (TWatch peer_sock from).

(** The second half of the handshake: keys, acknowledgement, follow-up. *)
Definition online_reply (c : ctx_id) (frame : P2PFrame) (online : OnlineCommand) (is_return_conn : bool) : M unit :=
  let from := fb_address (pf_body frame) in
  psk ← get_g g_psk;
  match psk with
  | None => mret tt
  | Some _ =>
      local ← get_g g_address;
      match local with
      | None => mret tt
      | Some address =>
          key ← (if is_return_conn then online_key from (addr_to_string address) online
                 else online_key from (addr_to_string address) online);
          match key with
          | None => mret tt
          | Some key =>
              ack ← online_ack key address online;
              sent ← send c (Some ack) Node OnLineAck false;
              match sent with
              | Err _ => mret tt
              | Ok _ => online_followup c frame online
              end
          end
      end
  end.

Definition online_handshake (c : ctx_id) (frame : P2PFrame) (online : OnlineCommand) : M unit :=
  is_return_conn ← online_admit c frame online;
  ctx_set_peer c (fb_address (pf_body frame)) ;;
  store_peer_node c [Clients; Servers] (on_node online) ;;
  online_reply c frame online is_return_conn.

Definition online_handler (c : ctx_id) (frame : P2PFrame) (cmd : P2PCommand) : M unit :=
  match decode (T := OnlineCommand) (cmd_data cmd) with
  | Err _ => mret tt
  | Ok online =>
      match on_session_id online with
      | [] => online_gossip c frame online
      | _ => online_handshake c frame online
      end
  end.

(** ** ack.rs *)

Definition ack_establish (from local : string) (ack : OnlineAckCommand) : M unit :=
  if negb (is_zero_key (oa_ephemeral ack)) then
    use_psk (fun p => psk_establish_ends p (oa_session_id ack) (as_bytes from) (as_bytes local) (oa_ephemeral ack)) ;;
    mret tt
  else mret tt.

(** The announced addresses at the port of the connection; text that makes
    no address there stands for the connection's own address. *)
Definition ack_store_ip (peer_addr : SocketAddr) (peer : string) (ip : string) : M unit :=
  if ip_text_is_loopback ip then mret tt
  else
    let seed_addr := default peer_addr (parse_sock (ip +:+ ":" +:+ show_u (sock_port peer_addr))) in
    with_node (reg_add_seed peer seed_addr).

Definition ack_seeds (c : ctx_id) (cmd : SeedsCommand) : M unit :=
  if seeds_command_verify cmd then
    with_node (
      before ← seed_count;
      for_each (sc_seeds cmd) register_seed ;;
      propagate_if_grown c before ;;
      for_each (sc_seeds cmd) (connect_seed c))
  else mret tt.

Definition onlineack_handler (c : ctx_id) (frame : P2PFrame) (cmd : P2PCommand) : M unit :=
  match decode (T := OnlineAckCommand) (cmd_data cmd) with
  | Err _ => mret tt
  | Ok ack =>
      psk ← get_g g_psk;
      match psk with
      | None => mret tt
      | Some _ =>
          local ← get_g g_address;
          match local with
          | None => mret tt
          | Some address =>
              ack_establish (fb_address (pf_body frame)) (addr_to_string address) ack ;;
              peer_addr ← get_ctx c ctx_addr;
              let peer := oa_address ack in
              with_node (reg_try_connect peer ;; reg_register_dir peer peer_addr Outbound) ;;
              ctx_set_peer c peer ;;
              store_peer_node c [Servers] (oa_node ack) ;;
              m ← get_g g_manager;
              mod_g (set_g_manager (mgr_mark_active m peer_addr false)) ;;
              for_each (oa_intranet_ips ack ++ oa_wan_ips ack) (ack_store_ip peer_addr peer) ;;
              match oa_seeds ack with
              | Some cmd => ack_seeds c cmd
              | None => mret tt
              end
          end
      end
  end.

Definition broadcast_seeds_to_peers (seeds : SeedsCommand) : M unit :=
  self ← get_g g_local_node;
  address ← get_g g_address;
  match address with
  | None => mret tt
  | Some address =>
      match encode (mk_online [] (an_from_system 0 (an_id self) 1) zero_key [] [] (Some seeds)) with
      | Err _ => mret tt
      | Ok cmd_bytes =>
          frame ← build address (command_new Node OnLine cmd_bytes) 1;
          match frame with
          | Err _ => mret tt
          | Ok frame =>
              match encode frame with
              | Err _ => mret tt
              | Ok frame_bytes => forward (fun c => write c frame_bytes)
              end
          end
      end
  end.

(** [manager.connect(addr, _, callback, Some(10))]; the callback sends the
    command on the new connection. *)
Definition connect_and_announce (addr : SocketAddr) (cmd : OnlineCommand) : M (result unit) :=
  m ← get_g g_manager;
  let '(r, m') := mgr_connect m addr 10 in
  mod_g (set_g_manager m') ;;
  match r with
  | Ok c => send_ c (Some cmd) Node OnLine false ;; mret (Ok tt)
  | Err e => mret (Err e)
  end.

Definition connect_to_new_peer (addr : SocketAddr) : M (result unit) :=
  created ← use_psk (fun p => psk_create p false);
  match created with
  | None => mret (Err "PairedSessionKeys not set")
  | Some (id, key) =>
      seeds ← all_seeds_command;
      node ← get_g g_local_node;
      let '(intranet_ips, wan_ips) := local_ips node in
      r ← connect_and_announce addr (mk_online id node key intranet_ips wan_ips (Some seeds));
      mret match r with
           | Ok _ => Ok tt
           | Err e => Err ("connect_to_new_peer " +:+ sock_to_string addr +:+ " failed: " +:+ e)
           end
  end.

(** ** The spawned closures *)

Definition run_connect (addr : SocketAddr) (node_address : string) : M unit :=
  r ← connect_to_new_peer addr;
  if is_ok r then reg_mark_connected node_address true else mret tt.
Definition run_return_connect (addr : SocketAddr) (cmd : OnlineCommand) : M unit :=
  connect_and_announce addr cmd ;; mret tt.

(** One round of the watch, every 30 seconds: whether it is over. *)
Definition watch_round (sock : SocketAddr) (node_address : string) : M bool :=
  m ← get_g g_manager;
  let get side := mgr_get m (sock_ip sock) (scope_from_ip (sock_ip sock)) side sock in
  if bool_decide (is_Some (get Clients)) || bool_decide (is_Some (get Servers)) then mret false
  else
    with_node (reg_disconnect node_address) ;;
    publish (PeerOfflineEvent node_address) ;;
    mret true.

(** src/src/protocols/commands/offline.rs *)
Definition offline_handler (c : ctx_id) (frame : P2PFrame) (cmd : P2PCommand) : M unit :=
  addr ← get_ctx c ctx_addr;
  m ← get_g g_manager;
  mod_g (set_g_manager (mgr_remove m addr true)).
End definitions.

(** ** What the handlers guarantee of every step they take

    [policy w w']: connected flags are only set, the name of a connection's
    peer is kept, and every connection attempt that was planned on the way was
    allowed already at the start. *)

Section policy.
Context `{Crates, !FrameCodecs}.

Definition reg_of (w : World) : option registry := pn_registry <$> g_node (w_g w).

Definition task_ok (w : World) (t : Task) : Prop :=
  match t with
  | TConnect _ _ na => ∃ r, reg_of w = Some r ∧ may_initiate (g_address (w_g w)) r na = true
  | _ => True
  end.

Definition flags_le (o o' : option registry) : Prop :=
  match o, o' with
  | Some r, Some r' => ∀ a, is_connected a r = true → is_connected a r' = true
  | None, None => True
  | _, _ => False
  end.

Lemma flags_le_refl o : flags_le o o.
Proof. destruct o; cbn; auto. Qed.

Record policy (w w' : World) : Prop := mk_policy {
  po_flags : flags_le (reg_of w) (reg_of w');
  po_address : g_address (w_g w') = g_address (w_g w);
  po_peer : ∀ c, ctx_peer (w_ctx w' c) = ctx_peer (w_ctx w c);
  po_tasks : ∃ l, w_tasks w' = w_tasks w ++ l ∧ Forall (task_ok w) l;
}.

Lemma task_ok_earlier w x t :
  flags_le (reg_of w) (reg_of x) → g_address (w_g x) = g_address (w_g w) → task_ok x t → task_ok w t.
Proof.
  intros Hf Ha. destruct t; try done. cbn. rewrite Ha. intros (r & Hr & Hm). rewrite Hr in Hf.
  destruct (reg_of w) as [rw|]; [|done]. exists rw. split; [done|].
  unfold may_initiate in *. apply andb_prop in Hm as [Hc ->]. rewrite andb_true_r.
  cbn in Hf. specialize (Hf node_address). destruct (is_connected node_address rw); [|done].
  by rewrite Hf in Hc.
Qed.

#[global] Instance policy_preorder : PreOrder policy.
Proof.
  split.
  - intros w. split; try done; [apply flags_le_refl|]. exists []. by rewrite app_nil_r.
  - intros x y z [F1 A1 P1 (l1 & T1 & K1)] [F2 A2 P2 (l2 & T2 & K2)]. split; try congruence.
    + revert F1 F2. destruct (reg_of x), (reg_of y), (reg_of z); cbn; naive_solver.
    + exists (l1 ++ l2). rewrite T2, T1, app_assoc. split; [done|]. apply Forall_app. split; [done|].
      eapply Forall_impl; [exact K2|]. intros t. by apply task_ok_earlier.
Qed.

Lemma policy_same w w' :
  flags_le (reg_of w) (reg_of w') → g_address (w_g w') = g_address (w_g w) →
  (∀ c, ctx_peer (w_ctx w' c) = ctx_peer (w_ctx w c)) → w_tasks w' = w_tasks w → policy w w'.
Proof. intros. split; try done. exists []. rewrite app_nil_r. done. Qed.

Lemma respects_io_policy {A} (m : M A) : respects io_step m → respects policy m.
Proof.
  intros Hm w. destruct (Hm w) as [Hg _ Hc Ht _ _ _ _]. apply policy_same; [| | |done].
  - apply (f_equal g_node) in Hg. cbn in Hg. unfold reg_of. rewrite Hg. apply flags_le_refl.
  - by apply (f_equal g_address) in Hg.
  - intros c. by destruct (Hc c) as (out & -> & _).
Qed.

Lemma respects_policy_mod_g f :
  (∀ g, g_node (f g) = g_node g) → (∀ g, g_address (f g) = g_address g) → respects policy (mod_g f).
Proof.
  intros H1 H2 w. apply policy_same; cbn; try done. unfold reg_of. cbn. rewrite H1. apply flags_le_refl.
Qed.

Lemma respects_policy_registry f :
  (∀ r a, is_connected a r = true → is_connected a (f r) = true) → respects policy (with_registry f).
Proof.
  intros Hf w. apply policy_same; cbn; try done; unfold reg_of; cbn; destruct (g_node (w_g w)) as [n|] eqn:E;
    cbn; rewrite ?E; cbn; try done. by apply Hf.
Qed.

Lemma respects_policy_spawn t : (∀ w, task_ok w t) → respects policy (spawn t).
Proof.
  intros Ht w. split; cbn; try done; [apply flags_le_refl|]. exists [t]. split; [done|]. by repeat constructor.
Qed.
Lemma respects_policy_publish e : respects policy (publish e).
Proof. intros w. apply policy_same; try done. apply flags_le_refl. Qed.
End policy.

#[export] Hint Resolve respects_policy_publish : respects.
#[export] Hint Extern 5 (respects policy _) => (apply respects_io_policy; solve [eauto with respects]) : respects.
#[export] Hint Extern 1 (respects policy (mod_g _)) => (by apply respects_policy_mod_g) : respects.
#[export] Hint Extern 1 (respects policy (spawn _)) => (by apply respects_policy_spawn) : respects.

(** Connected flags under the registry's operations. *)
Lemma is_connected_register now a seed s d r a' :
  is_connected a' (register_with_direction now a seed s d r) = is_connected a' r.
Proof.
  unfold is_connected, register_with_direction. rewrite lookup_insert.
  case_decide; [subst a'|done]. by destruct (r !! a).
Qed.
Lemma is_connected_add_seed now a seed r a' :
  is_connected a' (add_seed now a seed r).2 = is_connected a' r.
Proof.
  unfold is_connected, add_seed. destruct (r !! a) as [e|] eqn:E; cbn; [|done].
  rewrite lookup_insert. case_decide; [subst a'|done]. by rewrite E.
Qed.
Lemma is_connected_try_connect now a r a' :
  is_connected a' (try_connect now a r).2 = bool_decide (a' = a) || is_connected a' r.
Proof.
  unfold is_connected, try_connect. destruct (r !! a) as [e|] eqn:E; [destruct (connected e) eqn:Ec|];
    cbn; rewrite ?lookup_insert; case_bool_decide; subst; rewrite ?E; cbn; rewrite ?Ec;
    repeat case_decide; done.
Qed.

Lemma try_connect_fst now a r : (try_connect now a r).1 = negb (is_connected a r).
Proof.
  unfold try_connect, is_connected. destruct (r !! a) as [e|]; [|done]. cbn. by destruct (connected e).
Qed.

Section policy_operations.
Context `{Crates, !FrameCodecs}.

Lemma policy_reg_register a seed : respects policy (reg_register a seed).
Proof.
  unfold reg_register. respects_tac. apply respects_policy_registry. intros r a' Hc.
  by rewrite <- Hc; apply is_connected_register.
Qed.
Lemma policy_reg_register_dir a seed d : respects policy (reg_register_dir a seed d).
Proof.
  unfold reg_register_dir. respects_tac. apply respects_policy_registry. intros r a' Hc.
  by rewrite is_connected_register.
Qed.
Lemma policy_reg_add_seed a seed : respects policy (reg_add_seed a seed).
Proof.
  unfold reg_add_seed. respects_tac. apply respects_policy_registry. intros r a' Hc.
  by rewrite is_connected_add_seed.
Qed.
Lemma policy_reg_try_connect a : respects policy (reg_try_connect a).
Proof.
  unfold reg_try_connect. respects_tac. apply respects_policy_registry. intros r a' Hc.
  by rewrite is_connected_try_connect, Hc, orb_true_r.
Qed.
Lemma policy_register_seed s : respects policy (register_seed s).
Proof. unfold register_seed. destruct (parse_sock _); [apply policy_reg_register|respects_tac]. Qed.
Lemma policy_with_node m : respects policy m → respects policy (with_node m).
Proof. intros Hm. unfold with_node. respects_tac. Qed.

Lemma policy_connect_seed c s : respects policy (connect_seed c s).
Proof.
  intros w. unfold connect_seed, get_registry. rewrite !exec_bind. cbn.
  destruct (g_node (w_g w)) as [n|] eqn:E; cbn; [|reflexivity].
  destruct (may_initiate _ _ _) eqn:Hm; [|reflexivity]. destruct (parse_sock _) as [a|]; [|reflexivity].
  split; cbn; try done; [apply flags_le_refl|].
  exists [TConnect c a (sr_node_address s)]. split; [done|]. constructor; [|done].
  exists (pn_registry n). unfold reg_of. by rewrite E.
Qed.

Lemma respects_use_psk {R} (f : Psk → R * Psk) : respects io_step (use_psk f).
Proof.
  intros w. unfold use_psk, exec. rewrite run_bind. cbn.
  destruct (g_psk (w_g w)) as [p|] eqn:E; [|done].
  destruct (f p) as [r p']. rewrite run_bind. cbn. apply (respects_psk _ p' w). by rewrite E.
Qed.
End policy_operations.

#[export] Hint Resolve policy_reg_register policy_reg_register_dir policy_reg_add_seed
  policy_reg_try_connect policy_register_seed policy_with_node policy_connect_seed respects_use_psk : respects.

(** ** The handlers respect both relations *)

Section handler_steps.
Context `{Crates, !FrameCodecs, !HandshakeCodecs}.

Lemma seed_count_io : respects io_step seed_count.
Proof. unfold seed_count. respects_tac. Qed.
Lemma world_register_seed s : respects world_le (register_seed s).
Proof. unfold register_seed. destruct (parse_sock _); respects_tac. Qed.
Lemma world_with_node m : respects world_le m → respects world_le (with_node m).
Proof. intros Hm. unfold with_node. respects_tac. Qed.
Lemma world_connect_seed c s : respects world_le (connect_seed c s).
Proof. unfold connect_seed. respects_tac. Qed.
Lemma policy_store_peer_node c sides n : respects policy (store_peer_node c sides n).
Proof. induction sides as [|side sides IH]; cbn; respects_tac. Qed.
Lemma world_store_peer_node c sides n : respects world_le (store_peer_node c sides n).
Proof. induction sides as [|side sides IH]; cbn; respects_tac. Qed.
End handler_steps.
#[export] Hint Resolve seed_count_io world_register_seed world_with_node world_connect_seed
  policy_store_peer_node world_store_peer_node : respects.

Section handler_steps_2.
Context `{Crates, !FrameCodecs, !HandshakeCodecs}.

Lemma policy_propagate c n : respects policy (propagate_if_grown c n).
Proof. unfold propagate_if_grown. respects_tac. Qed.
Lemma world_propagate c n : respects world_le (propagate_if_grown c n).
Proof. unfold propagate_if_grown. respects_tac. Qed.
Lemma io_online_key from local o : respects io_step (online_key from local o).
Proof. unfold online_key. respects_tac. Qed.
Lemma io_ack_establish from local a : respects io_step (ack_establish from local a).
Proof. unfold ack_establish. respects_tac. Qed.
Lemma policy_plan_return_connect c o : respects policy (plan_return_connect c o).
Proof. unfold plan_return_connect. respects_tac. Qed.
Lemma world_plan_return_connect c o : respects world_le (plan_return_connect c o).
Proof. unfold plan_return_connect. respects_tac. Qed.
Lemma policy_ack_store_ip pa p ip : respects policy (ack_store_ip pa p ip).
Proof. unfold ack_store_ip. respects_tac. Qed.
Lemma world_ack_store_ip pa p ip : respects world_le (ack_store_ip pa p ip).
Proof. unfold ack_store_ip. respects_tac. Qed.
Lemma policy_online_admit c f o : respects policy (online_admit c f o).
Proof. unfold online_admit. respects_tac. Qed.
Lemma world_online_admit c f o : respects world_le (online_admit c f o).
Proof. unfold online_admit. respects_tac. Qed.
Lemma policy_merge_announced o : respects policy (merge_announced o).
Proof. unfold merge_announced. respects_tac; apply policy_with_node; respects_tac. Qed.
Lemma world_merge_announced o : respects world_le (merge_announced o).
Proof. unfold merge_announced. respects_tac; apply world_with_node; respects_tac. Qed.
End handler_steps_2.
#[export] Hint Resolve policy_propagate world_propagate io_online_key io_ack_establish
  policy_plan_return_connect world_plan_return_connect policy_ack_store_ip world_ack_store_ip
  policy_online_admit world_online_admit policy_merge_announced world_merge_announced : respects.

Section handler_steps_3.
Context `{Crates, !FrameCodecs, !HandshakeCodecs}.

Lemma policy_gossip_merge c cmd : respects policy (gossip_merge c cmd).
Proof. unfold gossip_merge, gossip_seed. respects_tac. Qed.
Lemma world_gossip_merge c cmd : respects world_le (gossip_merge c cmd).
Proof. unfold gossip_merge, gossip_seed. respects_tac. Qed.
Lemma policy_online_ack k a o : respects policy (online_ack k a o).
Proof. unfold online_ack. respects_tac. Qed.
Lemma world_online_ack k a o : respects world_le (online_ack k a o).
Proof. unfold online_ack. respects_tac. Qed.
Lemma policy_online_followup c f o : respects policy (online_followup c f o).
Proof. unfold online_followup. respects_tac. Qed.
Lemma world_online_followup c f o : respects world_le (online_followup c f o).
Proof. unfold online_followup. respects_tac. Qed.
Lemma policy_ack_seeds c cmd : respects policy (ack_seeds c cmd).
Proof. unfold ack_seeds. respects_tac; apply policy_with_node; respects_tac. Qed.
Lemma world_ack_seeds c cmd : respects world_le (ack_seeds c cmd).
Proof. unfold ack_seeds. respects_tac; apply world_with_node; respects_tac. Qed.
Lemma world_connect_and_announce addr cmd : respects world_le (connect_and_announce addr cmd).
Proof.
  unfold connect_and_announce. respects_tac.
Qed.
End handler_steps_3.
#[export] Hint Resolve policy_gossip_merge world_gossip_merge policy_online_ack world_online_ack
  policy_online_followup world_online_followup policy_ack_seeds world_ack_seeds
  world_connect_and_announce : respects.

Section handlers_respect.
Context `{Crates, !FrameCodecs, !HandshakeCodecs}.

Lemma policy_online_gossip c f o : respects policy (online_gossip c f o).
Proof. unfold online_gossip. respects_tac. Qed.
Lemma world_online_gossip c f o : respects world_le (online_gossip c f o).
Proof. unfold online_gossip. respects_tac. Qed.
Lemma world_online_reply c f o b : respects world_le (online_reply c f o b).
Proof. unfold online_reply. respects_tac. Qed.
Lemma policy_online_reply c f o b : respects policy (online_reply c f o b).
Proof. unfold online_reply. respects_tac. Qed.
Lemma world_online_handshake c f o : respects world_le (online_handshake c f o).
Proof. pose proof world_online_reply. unfold online_handshake. respects_tac. Qed.
Lemma world_online_handler c f cmd : respects world_le (online_handler c f cmd).
Proof.
  unfold online_handler. destruct (decode _) as [o|]; [|respects_tac].
  destruct (on_session_id o); [apply world_online_gossip|apply world_online_handshake].
Qed.
Lemma world_onlineack_handler c f cmd : respects world_le (onlineack_handler c f cmd).
Proof.
  unfold onlineack_handler. destruct (decode _) as [a|]; respects_tac;
  apply world_with_node. respects_tac.
Qed.
Lemma io_broadcast_seeds s : respects io_step (broadcast_seeds_to_peers s).
Proof.
  unfold broadcast_seeds_to_peers. apply respects_bind; [apply _|apply respects_get_g|]. intros self.
  apply respects_get_address. intros [a|]; [|apply respects_ret, _].
  destruct (encode _) as [b|]; [|apply respects_ret, _]. by apply respects_send_to_all.
Qed.
Lemma world_connect_to_new_peer addr : respects world_le (connect_to_new_peer addr).
Proof. unfold connect_to_new_peer. respects_tac. Qed.
Lemma world_run_connect addr na : respects world_le (run_connect addr na).
Proof. unfold run_connect. pose proof world_connect_to_new_peer. respects_tac. Qed.
Lemma world_run_return_connect addr cmd : respects world_le (run_return_connect addr cmd).
Proof. unfold run_return_connect. respects_tac. Qed.
Lemma world_watch_round s na : respects world_le (watch_round s na).
Proof. unfold watch_round. respects_tac. Qed.
Lemma world_offline_handler c f cmd : respects world_le (offline_handler c f cmd).
Proof. unfold offline_handler. respects_tac. Qed.
End handlers_respect.
#[export] Hint Resolve world_online_handler world_onlineack_handler io_broadcast_seeds world_run_connect
  world_run_return_connect world_watch_round world_offline_handler world_connect_to_new_peer : respects.

(** ** Properties *)

Section properties.
Context `{Crates, !FrameCodecs, !HandshakeCodecs}.

(** C28. The tie-breaker: of two nodes with different addresses neither of
    which has the other connected, exactly one may dial the other; with
    connections already there, at most one; and no node may dial itself. *)
Theorem tie_breaker_exclusive (a b : Address) (ra rb : registry) :
  let dials x r y := may_initiate (Some x) r (addr_to_string y) in
  (addr_to_string a ≠ addr_to_string b →
     dials a ra b && dials b rb a = false ∧
     (is_connected (addr_to_string b) ra = false → is_connected (addr_to_string a) rb = false →
      xorb (dials a ra b) (dials b rb a) = true)) ∧
  dials a ra a = false.
Proof.
  unfold may_initiate. split.
  - intros Hne. rewrite !bool_decide_false by congruence. cbn.
    pose proof (str_ltb_leb (addr_to_string a) (addr_to_string b)) as E1.
    pose proof (str_ltb_leb (addr_to_string b) (addr_to_string a)) as E2.
    pose proof (str_leb_total (addr_to_string a) (addr_to_string b)) as Ht.
    pose proof (str_leb_antisym (addr_to_string a) (addr_to_string b)) as Hs.
    rewrite E1, E2.
    destruct (is_connected _ ra), (is_connected _ rb),
      (str_leb (addr_to_string a) (addr_to_string b)), (str_leb (addr_to_string b) (addr_to_string a));
      cbn; naive_solver.
  - rewrite bool_decide_true by done. cbn. by rewrite andb_false_r.
Qed.

(** The connection attempts an operation planned. *)
Definition planned (w w' : World) (t : Task) : Prop :=
  ∃ l, w_tasks w' = w_tasks w ++ l ∧ t ∈ l.

(** [ctx_set_peer] aside, a handler is a [policy] step. *)
Definition policy_but_peer (w w' : World) : Prop :=
  flags_le (reg_of w) (reg_of w') ∧ g_address (w_g w') = g_address (w_g w) ∧
  ∃ l, w_tasks w' = w_tasks w ++ l ∧ Forall (task_ok w) l.
#[local] Instance policy_but_peer_preorder : PreOrder policy_but_peer.
Proof.
  split.
  - intros w. split; [apply flags_le_refl|]. split; [done|]. exists []. by rewrite app_nil_r.
  - intros x y z (F1 & A1 & l1 & T1 & K1) (F2 & A2 & l2 & T2 & K2). split; [|split; [congruence|]].
    + revert F1 F2. destruct (reg_of x), (reg_of y), (reg_of z); cbn; naive_solver.
    + exists (l1 ++ l2). rewrite T2, T1, app_assoc. split; [done|]. apply Forall_app. split; [done|].
      eapply Forall_impl; [exact K2|]. intros t. by apply task_ok_earlier.
Qed.
Lemma respects_but_peer {A} (m : M A) : respects policy m → respects policy_but_peer m.
Proof. intros Hm w. destruct (Hm w) as [? ? _ ?]. done. Qed.
Lemma set_peer_but_peer c p : respects policy_but_peer (ctx_set_peer c p).
Proof. intros w. split; [apply flags_le_refl|]. split; [done|]. exists []. cbn. by rewrite app_nil_r. Qed.

#[local] Hint Extern 5 (respects policy_but_peer _) =>
  (apply respects_but_peer; solve [eauto with respects]) : respects.
#[local] Hint Resolve set_peer_but_peer : respects.

Lemma but_peer_online_handler c f cmd : respects policy_but_peer (online_handler c f cmd).
Proof.
  unfold online_handler, online_handshake. destruct (decode _) as [o|]; [|respects_tac].
  pose proof policy_online_reply. destruct (on_session_id o); [|respects_tac]. apply respects_but_peer, policy_online_gossip.
Qed.
Lemma but_peer_onlineack_handler c f cmd : respects policy_but_peer (onlineack_handler c f cmd).
Proof.
  unfold onlineack_handler. destruct (decode _) as [a|]; respects_tac;
    apply respects_but_peer, policy_with_node; respects_tac.
Qed.

Lemma may_initiate_allowed o r na : may_initiate o r na = true →
  is_connected na r = false ∧ ∀ a, o = Some a → na ≠ addr_to_string a ∧ str_leb (addr_to_string a) na = true.
Proof.
  unfold may_initiate. intros [Hc Hm]%andb_prop. split; [by destruct (is_connected na r)|]. intros a ->.
  apply andb_prop in Hm as [Hs Ht]. split; [by apply negb_true_iff, bool_decide_eq_false in Hs|].
  rewrite str_ltb_leb in Ht. by destruct (str_leb _ na).
Qed.

(** Whatever arrives - any frame, any claimed seeds - every connection
    that [online_handler] or [onlineack_handler] plans is to a node that was
    not marked connected when the handler started, is not this node, and is
    not left to the other side by the tie-breaker. *)
Theorem handlers_plan_allowed_connects (ack : bool) c frame cmd w c' addr na :
  let w' := exec (if ack then onlineack_handler c frame cmd else online_handler c frame cmd) w in
  planned w w' (TConnect c' addr na) →
  ∃ r, reg_of w = Some r ∧ is_connected na r = false ∧
    (∀ a, g_address (w_g w) = Some a → na ≠ addr_to_string a ∧ str_leb (addr_to_string a) na = true).
Proof.
  cbn zeta. intros (l & E & Hin).
  assert (Hp : policy_but_peer w (exec (if ack then onlineack_handler c frame cmd else online_handler c frame cmd) w))
    by (destruct ack; [apply but_peer_onlineack_handler|apply but_peer_online_handler]).
  destruct Hp as (_ & _ & l' & E' & Hl). rewrite E in E'. apply app_inv_head in E'. subst l'.
  rewrite Forall_forall in Hl. apply Hl in Hin as (r & Hr & Hm). exists r. split; [done|].
  by apply may_initiate_allowed.
Qed.

Lemma run_online_admit c frame online w n :
  g_node (w_g w) = Some n →
  let from := fb_address (pf_body frame) in
  let listen := sock_new (sock_ip (ctx_addr (w_ctx w c))) (an_port (on_node online)) in
  let w' := exec (online_admit c frame online) w in
  eval (online_admit c frame online) w = is_connected from (pn_registry n) ∧
  (∃ now now', reg_of w' = Some (register_with_direction now' from listen (scope_from_ip (sock_ip listen)) Inbound
     (try_connect now from (pn_registry n)).2)) ∧
  w_ctx w' = w_ctx w ∧ g_address (w_g w') = g_address (w_g w).
Proof.
  intros Hn. destruct w as [[] ? ? ? ? ? ? ?]; cbn in Hn; subst. cbn zeta.
  split_and!; [|by eexists _, _|done|done].
  rewrite <- (negb_involutive (is_connected _ _)), <- (try_connect_fst (Z.max 0 (host_clock w_clock))).
  done.
Qed.

Lemma knows_step r r' a seed d : rtc registry_step r r' → knows r a seed d → knows r' a seed d.
Proof.
  intros Hr. assert (Hle : registry_le r r').
  { induction Hr as [|x y z Hs _ IH]; [done|]. etrans; [by apply registry_step_le|done]. }
  apply Hle.
Qed.

Lemma online_handshake_outcome c frame online w n :
  g_node (w_g w) = Some n →
  let from := fb_address (pf_body frame) in
  let w' := exec (online_handshake c frame online) w in
  ∃ r', reg_of w' = Some r' ∧ is_connected from r' = true ∧
    knows r' from (sock_new (sock_ip (ctx_addr (w_ctx w c))) (an_port (on_node online))) Inbound ∧
    ctx_peer (w_ctx w' c) = Some from.
Proof.
  intros Hn from w'. unfold w', online_handshake. fold from. rewrite exec_bind.
  destruct (run_online_admit c frame online w n Hn) as (_ & (now & now' & Hr) & Hc & _).
  fold from in Hr. set (w1 := exec (online_admit _ _ _) w) in *.
  set (b := eval (online_admit _ _ _) w). rewrite exec_bind. cbv beta.
  set (w2 := exec (ctx_set_peer c from) w1).
  set (m := store_peer_node c _ _ ≫= _).
  assert (Hp : respects policy m) by (pose proof policy_online_reply; unfold m; respects_tac).
  assert (Hw : respects world_le m) by (pose proof world_online_reply; unfold m; respects_tac).
  destruct (Hp w2) as [Hf _ Hpe _]. destruct (Hw w2) as [Hno _ _ _ _ _ _ _ _].
  change (reg_of w2) with (reg_of w1) in Hf. rewrite Hr in Hf.
  unfold reg_of in *. change (g_node (w_g w2)) with (g_node (w_g w1)) in Hno.
  destruct (g_node (w_g w1)) as [n1|]; [|done]. injection Hr as Hr.
  destruct (g_node (w_g (exec m w2))) as [n2|]; [|done]. exists (pn_registry n2). split_and!; [done| | |].
  - apply Hf. rewrite is_connected_register, is_connected_try_connect.
    by rewrite bool_decide_true.
  - cbn in Hno. eapply knows_step; [exact Hno|]. rewrite Hr. apply register_with_direction_effect. by left.
  - rewrite Hpe. unfold w2, ctx_set_peer, mod_ctx, exec. cbn. by rewrite fn_lookup_insert.
Qed.

(** What a full handshake leaves recorded, however it ends: the
    announcing node is in the registry under the name its frame carries,
    marked connected, reachable at its announced port with direction
    inbound, and the connection knows it by that name. *)
Theorem online_handshake_records c frame online w n :
  g_node (w_g w) = Some n →
  let from := fb_address (pf_body frame) in
  let w' := exec (online_handshake c frame online) w in
  ∃ r', reg_of w' = Some r' ∧ is_connected from r' = true ∧
    knows r' from (sock_new (sock_ip (ctx_addr (w_ctx w c))) (an_port (on_node online))) Inbound ∧
    ctx_peer (w_ctx w' c) = Some from.
Proof. apply online_handshake_outcome. Qed.
End properties.

(** ** What is sent in a handshake *)

Section reply.
Context `{Crates, !FrameCodecs, !HandshakeCodecs}.

(** Nothing is handed to a writer and no task is spawned. *)
Definition silent (w w' : World) : Prop :=
  (∀ c, ctx_out (w_ctx w' c) = ctx_out (w_ctx w c) ∧ ctx_writer (w_ctx w' c) = ctx_writer (w_ctx w c)) ∧
  w_tasks w' = w_tasks w ∧ g_address (w_g w') = g_address (w_g w).
#[local] Instance silent_preorder : PreOrder silent.
Proof.
  split; [by intros w|]. intros x y z (C1 & T1 & A1) (C2 & T2 & A2). split; [|split; congruence].
  intros c. destruct (C1 c), (C2 c). split; congruence.
Qed.

Lemma silent_get_g {A} (f : Gctx → A) : respects silent (get_g f).
Proof. by intros w. Qed.
Lemma silent_get_ctx {A} c (f : Ctx → A) : respects silent (get_ctx c f).
Proof. by intros w. Qed.
Lemma silent_mod_g f : (∀ g, g_address (f g) = g_address g) → respects silent (mod_g f).
Proof. intros Hf w. split; [done|]. split; [done|]. apply Hf. Qed.
Lemma silent_with_registry f : respects silent (with_registry f).
Proof. apply silent_mod_g. intros g. by destruct (g_node g). Qed.
Lemma silent_now_secs : respects silent now_secs.
Proof. by intros w. Qed.
Lemma silent_now_ts : respects silent now_ts.
Proof. by intros w. Qed.
#[local] Hint Resolve silent_get_g silent_get_ctx silent_with_registry silent_now_secs silent_now_ts : respects.
#[local] Hint Extern 1 (respects silent (mod_g _)) => (by apply silent_mod_g) : respects.

Lemma silent_use_psk {R} (f : Psk → R * Psk) : respects silent (use_psk f).
Proof. unfold use_psk. respects_tac. Qed.
Lemma silent_seed_records l : respects silent (seed_records l).
Proof. induction l as [|[s na] l IH]; cbn; respects_tac. Qed.
#[local] Hint Resolve silent_use_psk silent_seed_records : respects.
Lemma silent_set_peer c p : respects silent (ctx_set_peer c p).
Proof.
  intros w. split; [|done]. intros c'. cbn.
  destruct (decide (c = c')) as [<-|]; [by rewrite fn_lookup_insert|by rewrite fn_lookup_insert_ne].
Qed.
Lemma silent_store_peer_node c sides n : respects silent (store_peer_node c sides n).
Proof. induction sides; cbn; respects_tac. Qed.
Lemma silent_admit c f o : respects silent (online_admit c f o).
Proof. unfold online_admit, reg_try_connect, reg_register_dir, get_registry. respects_tac. Qed.
Lemma silent_online_key from local o : respects silent (online_key from local o).
Proof. unfold online_key. respects_tac. Qed.
Lemma silent_all_seeds : respects silent all_seeds_command.
Proof. unfold all_seeds_command, get_registry. respects_tac. Qed.
Lemma silent_register_seed s : respects silent (register_seed s).
Proof. unfold register_seed, reg_register. destruct (parse_sock _); respects_tac. Qed.
#[local] Hint Resolve silent_register_seed silent_all_seeds : respects.
Lemma silent_merge_announced o : respects silent (merge_announced o).
Proof. unfold merge_announced, with_node, get_registry. respects_tac. Qed.
#[local] Hint Resolve silent_merge_announced : respects.
Lemma silent_online_ack k a o : respects silent (online_ack k a o).
Proof. unfold online_ack. respects_tac. Qed.

Lemma seeds_command_new_verify l : seeds_command_verify (seeds_command_new l) = true.
Proof. by apply bool_decide_eq_true. Qed.

Lemma eval_all_seeds_verify w : seeds_command_verify (eval all_seeds_command w) = true.
Proof.
  unfold all_seeds_command. rewrite eval_bind. destruct (eval get_registry w) as [r|].
  - rewrite eval_bind. apply seeds_command_new_verify.
  - apply seeds_command_new_verify.
Qed.

(** The acknowledgement answers the announcement: its session id, this
    node's name, and seeds whose hash verifies. *)
Definition answers (online : OnlineCommand) (a : Address) (ack : OnlineAckCommand) : Prop :=
  oa_session_id ack = on_session_id online ∧ oa_address ack = addr_to_string a ∧
  ∃ cmd, oa_seeds ack = Some cmd ∧ seeds_command_verify cmd = true.

Lemma online_ack_answers k a o w : answers o a (eval (online_ack k a o) w).
Proof.
  unfold online_ack. do 3 (rewrite eval_bind; cbv beta). cbn [local_ips].
  split; [done|]. split; [done|]. eexists. split; [done|]. apply eval_all_seeds_verify.
Qed.

(** The tasks planned after an acknowledgement. *)
Definition followup_tasks (c : ctx_id) (from : string) (sock : SocketAddr) (l : list Task) : Prop :=
  ∃ pre cmd, l = pre ++ [TBroadcast c cmd; TNodeSync c from; TWatch sock from] ∧
    (pre = [] ∨ ∃ addr oc, pre = [TReturnConnect addr oc]).

Lemma plan_return_connect_tasks c o w :
  let w' := exec (plan_return_connect c o) w in
  w_ctx w' = w_ctx w ∧ ∃ pre, w_tasks w' = w_tasks w ++ pre ∧
    (pre = [] ∨ ∃ addr oc, pre = [TReturnConnect addr oc]).
Proof.
  cbn zeta. unfold plan_return_connect. do 2 (rewrite exec_bind; cbv beta).
  change (exec (get_ctx _ _) w) with w. change (exec (get_g _) w) with w.
  destruct (already_connected _ _ _); [split; [done|]; exists []; rewrite app_nil_r; by auto|].
  rewrite exec_bind. cbv beta. change (exec (get_g _) w) with w.
  unfold use_psk, exec. rewrite !run_bind. cbn.
  destruct (g_psk (w_g w)) as [p|] eqn:E.
  - destruct (psk_create p false) as [[id key] p']. rewrite run_bind. cbn.
    split; [done|]. eexists. split; [done|]. right. by eexists _, _.
  - cbn. split; [done|]. exists []. rewrite app_nil_r. by auto.
Qed.

(** Reading the registry's seeds moves only the clock. *)
Lemma exec_seed_records l w : ∃ n, exec (seed_records l) w = set_w_clock n w.
Proof.
  revert w. induction l as [|[s na] l IH]; intros w; cbn; [exists (w_clock w); by destruct w|].
  do 2 (rewrite exec_bind; cbv beta). destruct (IH (exec now_ts w)) as [n ->]. by exists n.
Qed.
Lemma exec_all_seeds w : ∃ n, exec all_seeds_command w = set_w_clock n w.
Proof.
  unfold all_seeds_command. rewrite exec_bind. change (exec get_registry w) with w.
  destruct (eval get_registry w) as [r|]; [|exists (w_clock w); by destruct w].
  rewrite exec_bind. destruct (exec_seed_records (get_all_seeds r) w) as [n ->]. by exists n.
Qed.

Lemma followup_effect c f o w :
  let w' := exec (online_followup c f o) w in
  w_ctx w' = w_ctx w ∧ ∃ l, w_tasks w' = w_tasks w ++ l ∧
    followup_tasks c (fb_address (pf_body f)) (ctx_addr (w_ctx w c)) l.
Proof.
  cbn zeta. unfold online_followup. rewrite exec_bind. cbv beta.
  destruct (plan_return_connect_tasks c o w) as (Hc & pre & Ht & Hpre).
  set (w1 := exec (plan_return_connect c o) w) in *. rewrite exec_bind. cbv beta.
  destruct (exec_all_seeds w1) as [n ->]. set (cmd := eval _ w1).
  split; [exact Hc|]. eexists (pre ++ [TBroadcast c cmd; TNodeSync c _; TWatch (ctx_addr (w_ctx w1 c)) _]).
  split; [|rewrite Hc; exists pre, cmd; by split].
  rewrite app_assoc, <- Ht. unfold exec.
  do 4 (rewrite run_bind; cbn). by rewrite <- !app_assoc.
Qed.

(** The registry, the name of a connection and the manager are not the session
    keys. *)
Definition same_psk (w w' : World) : Prop := g_psk (w_g w') = g_psk (w_g w).
#[local] Instance same_psk_preorder : PreOrder same_psk.
Proof. split; [done|]. intros x y z E1 E2. unfold same_psk in *. congruence. Qed.
Lemma same_psk_mod_g f : (∀ g, g_psk (f g) = g_psk g) → respects same_psk (mod_g f).
Proof. intros Hf w. apply Hf. Qed.
Lemma same_psk_reads {A} (f : World → A) : respects same_psk (gets f).
Proof. by intros w. Qed.
#[local] Hint Resolve same_psk_reads : respects.
#[local] Hint Extern 1 (respects same_psk (mod_g _)) => (apply same_psk_mod_g; intros ?; by repeat case_match) : respects.
#[local] Hint Extern 1 (respects same_psk _) => (by intros ?) : respects.
Lemma same_psk_store c sides n : respects same_psk (store_peer_node c sides n).
Proof. induction sides; cbn; respects_tac. Qed.
Lemma same_psk_admit c f o : respects same_psk (online_admit c f o).
Proof. unfold online_admit, reg_try_connect, reg_register_dir, with_registry. respects_tac. Qed.

(** The key that answers an announcement: the one the key exchange gives, or
    zero when there is a key already; none without session keys or an address,
    or when the exchange is refused. *)
Definition key_offered (from : string) (online : OnlineCommand) (w : World) : option bytes :=
  p ← g_psk (w_g w);
  a ← g_address (w_g w);
  match (psk_establish_begins p (as_bytes from) (as_bytes (addr_to_string a)) (on_ephemeral online)).1 with
  | Ok (Some pk) => Some pk
  | Ok None => Some zero_key
  | Err _ => None
  end.

Lemma eval_online_key from online w p a :
  g_psk (w_g w) = Some p → g_address (w_g w) = Some a →
  eval (online_key from (addr_to_string a) online) w = key_offered from online w.
Proof.
  intros Hp Ha. unfold online_key, key_offered, use_psk, eval. rewrite run_bind, run_bind. cbn. rewrite Hp, Ha. cbn.
  by destruct (psk_establish_begins _ _ _ _) as [[[]|] ?].
Qed.

(** The acknowledgement carries that key. *)
Definition answered (online : OnlineCommand) (key : bytes) (c : ctx_id) (from : string) (w w' : World) : Prop :=
  ∃ a ack pay f raw l,
    g_address (w_g w) = Some a ∧ answers online a ack ∧ oa_ephemeral ack = key ∧ encode ack = Ok pay ∧
    verify_bytes raw = Ok f ∧ frame_carries a (mk_command Node OnLineAck pay) 1 f ∧
    ctx_out (w_ctx w' c) = ctx_out (w_ctx w c) ++ (if ctx_writer (w_ctx w c) then [raw] else []) ∧
    (∀ c', c' ≠ c → ctx_out (w_ctx w' c') = ctx_out (w_ctx w c')) ∧
    w_tasks w' = w_tasks w ++ l ∧ followup_tasks c from (ctx_addr (w_ctx w c)) l.

Lemma key_online_ack k a o w : oa_ephemeral (eval (online_ack k a o) w) = k.
Proof. unfold online_ack. do 3 (rewrite eval_bind; cbv beta). done. Qed.

Section total.
Context `{!FrameCodecsLaws, !FrameCodecsTotal, !AccountLaws, !CodecTotal OnlineAckCommand}.

Lemma online_reply_answers c frame online b w :
  let w' := exec (online_reply c frame online b) w in
  let from := fb_address (pf_body frame) in
  match key_offered from online w with
  | None => silent w w'
  | Some key => answered online key c from w w'
  end.
Proof.
  cbv zeta. unfold online_reply. set (from := fb_address _).
  rewrite exec_bind. cbv beta. change (exec (get_g _) w) with w. change (eval (get_g g_psk) w) with (g_psk (w_g w)).
  destruct (g_psk (w_g w)) as [p|] eqn:Hp; [|by replace (key_offered from online w) with (@None bytes) by (unfold key_offered; by rewrite Hp)].
  rewrite exec_bind. cbv beta. change (exec (get_g _) w) with w. change (eval (get_g g_address) w) with (g_address (w_g w)).
  destruct (g_address (w_g w)) as [a|] eqn:Ha; [|by replace (key_offered from online w) with (@None bytes) by (unfold key_offered; by rewrite Hp, Ha)].
  rewrite exec_bind. cbv beta.
  replace (if b then online_key from (addr_to_string a) online else online_key from (addr_to_string a) online)
    with (online_key from (addr_to_string a) online) by (by destruct b).
  rewrite (eval_online_key from online w p a Hp Ha). set (w4 := exec (online_key _ _ _) w).
  assert (Hs4 : silent w w4) by apply silent_online_key.
  destruct (key_offered from online w) as [key|]; [|done].
  rewrite exec_bind. cbv beta. set (ack := eval _ w4). set (w5 := exec (online_ack _ _ _) w4).
  assert (Hs5 : silent w w5) by (etrans; [exact Hs4|apply silent_online_ack]). destruct Hs5 as (S1 & S2 & S3).
  rewrite exec_bind. cbv beta. destruct (encode_total ack) as [pay Hpay].
  assert (Hplain : sent_payload c OnLineAck (addr_to_string a) pay false w5 = Ok pay)
    by (unfold sent_payload; by destruct (g_psk (w_g w5))).
  pose proof (send_total c ack Node OnLineAck false w5 a pay pay (eq_trans S3 Ha) Hpay Hplain) as Hsent.
  destruct (send c (Some ack) Node OnLineAck false w5) as [r w6] eqn:Es. unfold eval in Hsent. rewrite Es in Hsent. cbn in Hsent. subst r.
  destruct (send_effect _ _ _ _ _ _ _ _ Es) as [(a' & data & pay' & f & raw & Ha' & Hd & Hpay' & Hv & Hf & Ho & Hne) Hio].
  assert (E1 : eval (send c (Some ack) Node OnLineAck false) w5 = Ok tt) by (unfold eval; by rewrite Es).
  assert (E2 : exec (send c (Some ack) Node OnLineAck false) w5 = w6) by (unfold exec; by rewrite Es).
  rewrite E1, E2. cbv beta iota. destruct (followup_effect c frame online w6) as (Hc & l & Ht & Hl).
  assert (a' = a) as -> by congruence. cbn in Hd.
  assert (pay' = pay) as -> by (unfold sent_payload in Hpay'; destruct (g_psk (w_g w5)); congruence).
  exists a, ack, pay, f, raw, l. destruct (S1 c) as [S1c S1w].
  split_and!; rewrite ?Hc; try done.
  - apply online_ack_answers.
  - apply key_online_ack.
  - by rewrite Ho, S1c, S1w.
  - intros c' Hc'. rewrite Hne by done. apply S1.
  - rewrite Ht, (io_tasks _ _ _ Hio). congruence.
  - replace (ctx_addr (w_ctx w c)) with (ctx_addr (w_ctx w6 c)); [done|].
    destruct (io_ctx _ _ _ Hio c) as (o & E6 & _). rewrite E6. cbn.
    assert (Hw5 : respects world_le (online_ack key a online)) by respects_tac.
    assert (Hw4 : respects io_step (online_key from (addr_to_string a) online)) by respects_tac.
    destruct (wl_ctx _ _ (Hw5 w4) c) as (E5 & _). destruct (io_ctx _ _ _ (Hw4 w) c) as (o4 & E4 & _).
    fold w5 in E5. fold w4 in E4. rewrite E5, E4. done.
Qed.

Lemma online_handshake_answers c frame online w :
  let w' := exec (online_handshake c frame online) w in
  let from := fb_address (pf_body frame) in
  match key_offered from online w with
  | None => silent w w'
  | Some key => answered online key c from w w'
  end.
Proof.
  cbv zeta. unfold online_handshake. set (from := fb_address _).
  rewrite exec_bind. cbv beta. set (b := eval _ w). set (w1 := exec (online_admit _ _ _) w).
  do 2 (rewrite exec_bind; cbv beta). set (w3 := exec (store_peer_node _ _ _) _).
  assert (Hs : silent w w3).
  { etrans; [apply silent_admit|]. etrans; [apply silent_set_peer|]. apply silent_store_peer_node. }
  assert (Hk : same_psk w w3).
  { etrans; [apply same_psk_admit|]. etrans; [|apply same_psk_store]. done. }
  assert (Hc : ctx_addr (w_ctx w3 c) = ctx_addr (w_ctx w c)).
  { pose proof (world_online_admit c frame online w) as H1'. pose proof (respects_ctx_set_peer c from w1) as H2'.
    pose proof (world_store_peer_node c [Clients; Servers] (on_node online) (exec (ctx_set_peer c from) w1)) as H3'.
    destruct (wl_ctx _ _ H1' c) as (E1 & _), (wl_ctx _ _ H2' c) as (E2 & _), (wl_ctx _ _ H3' c) as (E3 & _).
    fold w1 in E1. fold w3 in E3. congruence. }
  clearbody b w3. clear w1. pose proof (online_reply_answers c frame online b w3) as Hr. cbv zeta in Hr. fold from in Hr.
  destruct Hs as (S1 & S2 & S3).
  assert (Eo : key_offered from online w3 = key_offered from online w).
  { unfold key_offered. unfold same_psk in Hk. by rewrite Hk, S3. }
  rewrite Eo in Hr. destruct (key_offered from online w) as [key|].
  - destruct Hr as (a & ack & pay & f & raw & l & Ha & Han & Hkey & He & Hv & Hf & Ho & Hne & Ht & Hl).
    exists a, ack, pay, f, raw, l. destruct (S1 c) as [S1c S1w]. rewrite S1c, S1w in Ho. rewrite Hc in Hl.
    split_and!; try done; [congruence| |congruence]. intros c' Hc'. rewrite Hne by done. apply S1.
  - etrans; [|exact Hr]. done.
Qed.
End total.

(** C6. What a full handshake sends, and when. Without session keys or an
    address, or when the key exchange is refused, no byte goes to any
    connection and nothing is planned. In all other cases the announcing
    connection, if it can be written to, receives exactly one frame, signed by
    this node, that carries the acknowledgement of this very session with the
    key of the exchange - zero if there was one already - and seeds that
    verify, nobody else receives anything, and a broadcast of the seeds, a
    node sync, the watch over the connection and at most one return connection
    are planned. *)
Theorem online_handshake_reply `{!FrameCodecsLaws, !FrameCodecsTotal, !AccountLaws, !CodecTotal OnlineAckCommand} c frame online w :
  let w' := exec (online_handshake c frame online) w in
  let from := fb_address (pf_body frame) in
  match key_offered from online w with
  | None => silent w w'
  | Some key => ∃ a ack pay f raw l,
      g_address (w_g w) = Some a ∧ answers online a ack ∧ oa_ephemeral ack = key ∧ encode ack = Ok pay ∧
      verify_bytes raw = Ok f ∧ frame_carries a (mk_command Node OnLineAck pay) 1 f ∧
      ctx_out (w_ctx w' c) = ctx_out (w_ctx w c) ++ (if ctx_writer (w_ctx w c) then [raw] else []) ∧
      (∀ c', c' ≠ c → ctx_out (w_ctx w' c') = ctx_out (w_ctx w c')) ∧
      w_tasks w' = w_tasks w ++ l ∧ followup_tasks c from (ctx_addr (w_ctx w c)) l
  end.
Proof. apply online_handshake_answers. Qed.
End reply.

(** ** Trust in seeds, and the end of gossip *)

Section gossip.
Context `{Crates, !FrameCodecs, !HandshakeCodecs}.

Definition others_same_reg (p : string) (o o' : option registry) : Prop :=
  match o, o' with
  | Some r, Some r' => ∀ a, a ≠ p → r' !! a = r !! a
  | None, None => True
  | _, _ => False
  end.

Definition not_connect (t : Task) : Prop := match t with TConnect _ _ _ => False | _ => True end.

(** Only what is filed under [p] moves, and no connection is planned. *)
Definition only_peer (p : string) (w w' : World) : Prop :=
  others_same_reg p (reg_of w) (reg_of w') ∧
  ∃ l, w_tasks w' = w_tasks w ++ l ∧ Forall not_connect l.

#[local] Instance only_peer_preorder p : PreOrder (only_peer p).
Proof.
  split.
  - intros w. split; [by destruct (reg_of w)|]. exists []. by rewrite app_nil_r.
  - intros x y z (R1 & l1 & T1 & K1) (R2 & l2 & T2 & K2). split.
    + destruct (reg_of x), (reg_of y), (reg_of z); cbn in *; try done.
      intros a Ha. by rewrite R2, R1.
    + exists (l1 ++ l2). rewrite T2, T1, app_assoc. split; [done|]. by apply Forall_app.
Qed.

Lemma others_same_refl p o : others_same_reg p o o.
Proof. by destruct o. Qed.

Lemma only_io p {A} (m : M A) : respects io_step m → respects (only_peer p) m.
Proof.
  intros Hm w. destruct (Hm w) as [Hg _ _ Ht _ _ _ _]. split.
  - apply (f_equal g_node) in Hg. cbn in Hg. unfold reg_of. rewrite Hg. apply others_same_refl.
  - exists []. by rewrite app_nil_r.
Qed.
Lemma only_mod_g p f : (∀ g, g_node (f g) = g_node g) → respects (only_peer p) (mod_g f).
Proof.
  intros Hf w. split; [|exists []; by rewrite app_nil_r]. unfold reg_of. cbn. rewrite Hf. apply others_same_refl.
Qed.
Lemma only_registry p f :
  (∀ r a, a ≠ p → f r !! a = r !! a) → respects (only_peer p) (with_registry f).
Proof.
  intros Hf w. split; [|exists []; by rewrite app_nil_r]. unfold reg_of. cbn.
  destruct (g_node (w_g w)) as [n|] eqn:E; cbn; rewrite ?E; cbn; [by apply Hf|done].
Qed.
Lemma only_spawn p t : not_connect t → respects (only_peer p) (spawn t).
Proof. intros Ht w. split; [apply others_same_refl|]. exists [t]. split; [done|]. by repeat constructor. Qed.
Lemma only_publish p e : respects (only_peer p) (publish e).
Proof. intros w. split; [apply others_same_refl|]. exists []. by rewrite app_nil_r. Qed.
Lemma only_set_peer p c q : respects (only_peer p) (ctx_set_peer c q).
Proof. intros w. split; [apply others_same_refl|]. exists []. cbn. by rewrite app_nil_r. Qed.

#[local] Hint Resolve only_publish only_set_peer : respects.
#[local] Hint Extern 5 (respects (only_peer _) _) => (apply only_io; solve [eauto with respects]) : respects.
#[local] Hint Extern 1 (respects (only_peer _) (mod_g _)) => (by apply only_mod_g) : respects.
#[local] Hint Extern 1 (respects (only_peer _) (spawn _)) => (by apply only_spawn) : respects.

Lemma only_reg_register p s : respects (only_peer p) (reg_register p s).
Proof.
  unfold reg_register. respects_tac. apply only_registry. intros r a' Hne. by apply lookup_insert_ne.
Qed.
Lemma only_reg_register_dir p s d : respects (only_peer p) (reg_register_dir p s d).
Proof.
  unfold reg_register_dir. respects_tac. apply only_registry. intros r a' Hne. by apply lookup_insert_ne.
Qed.
Lemma only_reg_try_connect p : respects (only_peer p) (reg_try_connect p).
Proof.
  unfold reg_try_connect. respects_tac. apply only_registry. intros r a' Hne. unfold try_connect.
  destruct (r !! p) as [e|]; [destruct (connected e)|]; cbn; rewrite ?lookup_insert_ne; done.
Qed.
Lemma only_reg_add_seed p s : respects (only_peer p) (reg_add_seed p s).
Proof.
  unfold reg_add_seed. respects_tac. apply only_registry. intros r a' Hne. unfold add_seed.
  destruct (r !! p) as [e|]; cbn; rewrite ?lookup_insert_ne; done.
Qed.
#[local] Hint Resolve only_reg_register only_reg_register_dir only_reg_try_connect only_reg_add_seed : respects.
Lemma only_with_node p m : respects (only_peer p) m → respects (only_peer p) (with_node m).
Proof. intros Hm. unfold with_node. respects_tac. Qed.
#[local] Hint Resolve only_with_node : respects.
Lemma only_store_peer_node p c sides n : respects (only_peer p) (store_peer_node c sides n).
Proof. induction sides; cbn; respects_tac. Qed.
#[local] Hint Resolve only_store_peer_node : respects.

Definition unverified (o : option SeedsCommand) : Prop :=
  match o with Some cmd => seeds_command_verify cmd = false | None => True end.

Lemma only_followup p c f o : respects (only_peer p) (online_followup c f o).
Proof. unfold online_followup, plan_return_connect. respects_tac. Qed.
Lemma only_merge p o : unverified (on_seeds o) → respects (only_peer p) (merge_announced o).
Proof. unfold merge_announced. destruct (on_seeds o) as [cmd|]; cbn; [intros ->|]; respects_tac. Qed.
#[local] Hint Resolve only_followup only_merge : respects.

(** C17. Seeds are believed only with their hash: an announcement or an
    acknowledgement whose seeds do not verify (or that brings none) changes
    no entry of the registry but that of the node it speaks for, and plans
    no connection to a seed. *)
Theorem unverified_seeds_ignored c frame cmd w :
  (∀ online, decode (cmd_data cmd) = Ok online → unverified (on_seeds online) →
     only_peer (fb_address (pf_body frame)) w (exec (online_handler c frame cmd) w)) ∧
  (∀ ack, decode (cmd_data cmd) = Ok ack → unverified (oa_seeds ack) →
     only_peer (oa_address ack) w (exec (onlineack_handler c frame cmd) w)).
Proof.
  split.
  - intros o Ho Hv. unfold online_handler. rewrite Ho.
    destruct (on_session_id o).
    + assert (Hr : respects (only_peer (fb_address (pf_body frame))) (online_gossip c frame o)); [|apply Hr].
      unfold online_gossip. destruct (on_seeds o) as [sc|]; cbn in Hv; [rewrite Hv|]; respects_tac.
    + assert (Hr : respects (only_peer (fb_address (pf_body frame))) (online_handshake c frame o)); [|apply Hr].
      unfold online_handshake, online_admit, online_reply, online_ack. respects_tac.
  - intros a Ha Hv. unfold onlineack_handler. rewrite Ha.
    assert (Hs : ∀ k, respects (only_peer (oa_address a))
      (match oa_seeds a with Some sc => ack_seeds k sc | None => mret tt end)).
    { intros k. unfold ack_seeds. destruct (oa_seeds a) as [sc|]; cbn in Hv; [rewrite Hv|]; respects_tac. }
    match goal with |- only_peer ?p _ (exec ?m _) => assert (Hr : respects (only_peer p) m); [|apply Hr] end.
    unfold ack_store_ip. respects_tac; apply only_with_node; respects_tac.
Qed.

(** ** Gossip comes to rest *)

Definition planned_only (w w' : World) : Prop :=
  w_g w' = w_g w ∧ ∃ l, w_tasks w' = w_tasks w ++ l ∧ ∀ c cmd, TBroadcast c cmd ∉ l.

Lemma planned_only_connect_seed c s w : planned_only w (exec (connect_seed c s) w).
Proof.
  unfold connect_seed. do 2 (rewrite exec_bind; cbv beta).
  change (exec get_registry w) with w. change (exec (get_g g_address) w) with w.
  destruct (eval get_registry w) as [r|]; [destruct (may_initiate _ _ _); [destruct (parse_sock _)|]|].
  all: split; try done; cbn; (eexists; split; [reflexivity|set_solver]) || (exists []; by rewrite app_nil_r; set_solver).
Qed.

Lemma exec_gossip_known c s w r :
  reg_of w = Some r → is_registered (sr_node_address s) r = true →
  exec (gossip_seed c s) w = exec (connect_seed c s) w.
Proof.
  intros Hr Hs. unfold gossip_seed. rewrite exec_bind. change (exec get_registry w) with w.
  change (eval get_registry w) with (reg_of w). rewrite Hr. cbn [fmap option_fmap option_map default from_option].
  by rewrite Hs.
Qed.

Lemma planned_only_gossip c l w r :
  reg_of w = Some r → Forall (fun s => is_registered (sr_node_address s) r = true) l →
  planned_only w (exec (for_each l (gossip_seed c)) w).
Proof.
  revert w. induction l as [|s l IH]; intros w Hr Hl; cbn [for_each].
  - split; [done|]. exists []. rewrite app_nil_r. set_solver.
  - apply Forall_cons in Hl as [Hs Hl]. rewrite exec_bind. cbv beta.
    rewrite (exec_gossip_known c s w r Hr Hs).
    destruct (planned_only_connect_seed c s w) as (Hg & l1 & Ht1 & Hn1).
    assert (Hr' : reg_of (exec (connect_seed c s) w) = Some r) by (unfold reg_of; by rewrite Hg).
    destruct (IH _ Hr' Hl) as (Hg2 & l2 & Ht2 & Hn2).
    split; [by etrans|]. exists (l1 ++ l2). rewrite Ht2, Ht1, app_assoc. split; [done|].
    intros c' cmd. rewrite elem_of_app. intros [?|?]; [by eapply Hn1|by eapply Hn2].
Qed.

(** Gossip comes to rest: when the registry already has every node a
    gossip names, merging it changes nothing in the registry and broadcasts
    nothing, so that a set of seeds everyone knows is not passed on. *)
Theorem gossip_quiesces c cmd w r :
  reg_of w = Some r → Forall (fun s => is_registered (sr_node_address s) r = true) (sc_seeds cmd) →
  let w' := exec (gossip_merge c cmd) w in
  reg_of w' = Some r ∧ ∃ l, w_tasks w' = w_tasks w ++ l ∧ ∀ c' cmd', TBroadcast c' cmd' ∉ l.
Proof.
  intros Hr Hl. cbn zeta. unfold gossip_merge. do 2 (rewrite exec_bind; cbv beta).
  change (exec seed_count w) with w.
  destruct (planned_only_gossip c (sc_seeds cmd) w r Hr Hl) as (Hg & l & Ht & Hn).
  set (w1 := exec (for_each _ _) w) in *. unfold propagate_if_grown. rewrite exec_bind.
  assert (E : eval seed_count w1 = eval seed_count w).
  { unfold seed_count. rewrite !eval_bind. change (eval get_registry ?x) with (reg_of x).
    unfold reg_of. by rewrite Hg. }
  rewrite E, Nat.ltb_irrefl. change (exec (mret tt) ?x) with x. change (exec seed_count w1) with w1.
  split; [unfold reg_of; by rewrite Hg|]. by exists l.
Qed.

(** The watch over a connection: it goes on, changing nothing, as long as
    the manager has the connection on either side; when it is gone the node
    is no longer marked connected, so that it can be dialled and admitted
    again, the event is published, and the watch ends. *)
Theorem watch_round_spec sock na w :
  let m := g_manager (w_g w) in
  let get side := mgr_get m (sock_ip sock) (scope_from_ip (sock_ip sock)) side sock in
  let w' := exec (watch_round sock na) w in
  (eval (watch_round sock na) w = false ↔ is_Some (get Clients) ∨ is_Some (get Servers)) ∧
  (eval (watch_round sock na) w = false → w' = w) ∧
  (eval (watch_round sock na) w = true →
     w_events w' = w_events w ++ [PeerOfflineEvent na] ∧
     ∀ r, reg_of w = Some r → ∃ r', reg_of w' = Some r' ∧ is_connected na r' = false ∧
       (∀ now, (try_connect now na r').1 = true) ∧ (∀ a, a ≠ na → r' !! a = r !! a)).
Proof.
  cbn zeta. unfold watch_round. rewrite eval_bind, exec_bind. cbv beta.
  change (exec (get_g g_manager) w) with w. change (eval (get_g g_manager) w) with (g_manager (w_g w)).
  destruct (mgr_get _ _ _ Clients _) as [e1|] eqn:E1; cbn; [naive_solver|].
  destruct (mgr_get _ _ _ Servers _) as [e2|] eqn:E2; cbn; [naive_solver|].
  do 2 (rewrite eval_bind; cbv beta). change (eval (mret true) ?x) with true.
  split; [split; [done|by intros [[? ?]|[? ?]]]|]. split; [done|]. intros _.
  destruct w as [[] ? ? ? ? ? ? ?]. destruct g_node as [n|]; [|done]. split; [done|].
  intros r [= <-]. exists (disconnect na (pn_registry n)). split; [done|].
  unfold is_connected, disconnect, try_connect.
  destruct (pn_registry n !! na) as [e|] eqn:E; rewrite ?lookup_insert_eq, ?E; cbn; split_and!; try done.
  intros a Ha. by rewrite lookup_insert_ne.
Qed.
End gossip.

(** ** What an acknowledgement leaves recorded *)

Section acknowledged.
Context `{Crates, !FrameCodecs, !HandshakeCodecs}.

(** The rest of [onlineack_handler] after the peer was named. *)
Definition ack_rest (c : ctx_id) (peer_addr : SocketAddr) (ack : OnlineAckCommand) : M unit :=
  store_peer_node c [Servers] (oa_node ack) ;;
  m ← get_g g_manager;
  mod_g (set_g_manager (mgr_mark_active m peer_addr false)) ;;
  for_each (oa_intranet_ips ack ++ oa_wan_ips ack) (ack_store_ip peer_addr (oa_address ack)) ;;
  match oa_seeds ack with Some cmd => ack_seeds c cmd | None => mret tt end.

Lemma ack_rest_steps c pa ack : respects policy (ack_rest c pa ack) ∧ respects world_le (ack_rest c pa ack).
Proof. unfold ack_rest. split; respects_tac. Qed.

Lemma exec_with_node m w n : g_node (w_g w) = Some n → exec (with_node m) w = exec m w.
Proof.
  intros Hn. unfold with_node. rewrite exec_bind. change (eval get_registry w) with (reg_of w).
  unfold reg_of. by rewrite Hn.
Qed.

Lemma onlineack_records c frame cmd ack w n p a :
  decode (cmd_data cmd) = Ok ack → g_node (w_g w) = Some n → g_psk (w_g w) = Some p →
  g_address (w_g w) = Some a →
  let w' := exec (onlineack_handler c frame cmd) w in
  ∃ r', reg_of w' = Some r' ∧ is_connected (oa_address ack) r' = true ∧
    knows r' (oa_address ack) (ctx_addr (w_ctx w c)) Outbound ∧ ctx_peer (w_ctx w' c) = Some (oa_address ack).
Proof.
  intros Hd Hn Hp Ha. cbn zeta. unfold onlineack_handler. rewrite Hd.
  rewrite exec_bind. cbv beta. change (exec (get_g _) w) with w.
  change (eval (get_g g_psk) w) with (g_psk (w_g w)). rewrite Hp. rewrite exec_bind. cbv beta iota.
  change (exec (get_g _) w) with w. change (eval (get_g g_address) w) with (g_address (w_g w)). rewrite Ha.
  rewrite exec_bind. cbv beta. set (w1 := exec (ack_establish _ _ _) w).
  pose proof (io_ack_establish (fb_address (pf_body frame)) (addr_to_string a) ack w) as Hio.
  fold w1 in Hio. rewrite exec_bind. cbv beta. change (exec (get_ctx _ _) w1) with w1.
  change (eval (get_ctx c ctx_addr) w1) with (ctx_addr (w_ctx w1 c)).
  assert (Hca : ctx_addr (w_ctx w1 c) = ctx_addr (w_ctx w c)) by (destruct (io_ctx _ _ _ Hio c) as (o & -> & _); done).
  rewrite Hca. set (pa := ctx_addr (w_ctx w c)). rewrite exec_bind. cbv beta.
  assert (Hn1 : g_node (w_g w1) = Some n).
  { rewrite <- Hn. pose proof (io_g _ _ _ Hio) as Hg. by apply (f_equal g_node) in Hg. }
  rewrite (exec_with_node _ w1 n Hn1). set (w2 := exec (_ ≫= _) w1).
  assert (Hr2 : ∃ now now', reg_of w2 = Some (register_with_direction now' (oa_address ack) pa
    (scope_from_ip (sock_ip pa)) Outbound (try_connect now (oa_address ack) (pn_registry n)).2)).
  { unfold w2. clear -Hn1. destruct w1 as [[] ? ? ? ? ? ? ?]; cbn in Hn1; subst. by eexists _, _. }
  destruct Hr2 as (now & now' & Hr2). rewrite exec_bind. cbv beta. set (w3 := exec (ctx_set_peer _ _) w2).
  assert (Hr3 : reg_of w3 = reg_of w2) by done.
  fold (ack_rest c pa ack). destruct (ack_rest_steps c pa ack) as [Hpo Hwo].
  destruct (Hpo w3) as [Hf _ Hpe _]. destruct (Hwo w3) as [Hno _ _ _ _ _ _ _ _].
  rewrite Hr3, Hr2 in Hf. unfold reg_of in *. change (g_node (w_g w3)) with (g_node (w_g w2)) in Hno.
  destruct (g_node (w_g w2)) as [n2|]; [|done]. injection Hr2 as Hr2.
  destruct (g_node (w_g (exec (ack_rest c pa ack) w3))) as [n3|]; [|done].
  exists (pn_registry n3). split_and!; [done| | |].
  - apply Hf. rewrite is_connected_register, is_connected_try_connect. by rewrite bool_decide_true.
  - cbn in Hno. eapply knows_step; [exact Hno|]. rewrite Hr2. apply register_with_direction_effect. by left.
  - rewrite Hpe. unfold w3, ctx_set_peer, mod_ctx, exec. cbn. by rewrite fn_lookup_insert.
Qed.
End acknowledged.

(** ** Which seeds are dialled *)

Section dialled.
Context `{Crates, !FrameCodecs}.

Definition planned_connect (c : ctx_id) (local : option Address) (r : registry) (seed : SeedRecord) : option Task :=
  if may_initiate local r (sr_node_address seed)
  then (fun addr => TConnect c addr (sr_node_address seed)) <$> parse_sock (sr_address seed) else None.

(** Every seed is looked at as if it were the only one: a node with several
    seeds in one command is dialled at each of them, since it counts as
    connected only when a connection stands. *)
Theorem dialled_seed_by_seed (c : ctx_id) (l : list SeedRecord) w r :
  reg_of w = Some r →
  exec (for_each l (connect_seed c)) w =
    set_w_tasks (w_tasks w ++ omap (planned_connect c (g_address (w_g w)) r) l) w ∧
  ∀ na, may_initiate (g_address (w_g w)) r na = true → Forall (fun s => sr_node_address s = na ∧ is_Some (parse_sock (sr_address s))) l →
    length (omap (planned_connect c (g_address (w_g w)) r) l) = length l.
Proof.
  intros Hr. split.
  - revert w Hr. induction l as [|s l IH]; intros w Hr; cbn [for_each omap list_omap]; [rewrite app_nil_r; by destruct w|].
    assert (Hs : exec (connect_seed c s) w = set_w_tasks (w_tasks w ++ option_list (planned_connect c (g_address (w_g w)) r s)) w).
    { unfold connect_seed, planned_connect. do 2 (rewrite exec_bind; cbv beta).
      change (eval get_registry (exec get_registry w)) with (reg_of w). change (eval get_registry w) with (reg_of w). rewrite Hr.
      change (eval (get_g g_address) _) with (g_address (w_g w)).
      destruct (may_initiate _ _ _); [destruct (parse_sock _)|]; cbn; rewrite ?app_nil_r; by destruct w. }
    rewrite exec_bind. cbv beta. rewrite Hs, IH by done. cbn [w_tasks w_g set_w_tasks].
    destruct (planned_connect _ _ _ s); cbn; by rewrite <- ?app_assoc, ?app_nil_r.
  - intros na Hm Hl. induction Hl as [|s l [<- [a Ha]] _ IH]; [done|]. cbn. unfold planned_connect at 1.
    rewrite Hm, Ha. cbn. by f_equal.
Qed.
End dialled.
