(* ===== verification/SeedSync.v ===== *)
(** * Seed synchronisation

    src/src/protocols/commands/seed_sync.rs: the three handlers, which merge a
    received seed set into the registry and the peer list, and the sync cycle,
    which asks every peer round after round until the derived set is stable.

    While the cycle sleeps, other tasks run; what they do is the operation
    [others], an argument of the cycle. [past_deadline] tells whether
    [Instant::now()] is past the deadline at the n-th reading. The peers of a
    round are synced one after another. *)

From S2P Require Import Prelude NetAddr External Command NodeRegistry Seeds World Frame Evolution Handshake.
Open Scope Z_scope.
Open Scope stdpp_scope.

Record SeedSyncRequest := mk_sync_request {
  sq_from_node_id : string;
  sq_seed_set : SeedSet;
  sq_retry_count : Z;
}.
Record SeedSyncResponse := mk_sync_response {
  sp_seed_set : SeedSet;
  sp_hash : bytes;
}.
Record SeedSyncCommit := mk_sync_commit {
  sm_hash : bytes;
  sm_seed_set : SeedSet;
  sm_locked : bool;
}.

Class SeedSyncCodecs : Type := {
  #[global] codec_sync_request :: Codec SeedSyncRequest;
  #[global] codec_sync_response :: Codec SeedSyncResponse;
  #[global] codec_sync_commit :: Codec SeedSyncCommit;
}.

Definition STABLE_ROUNDS_REQUIRED : Z := 2.

(** [for seed in &set.seeds { if !peers.contains(&addr) { peers.push(addr) } }] *)
Definition push_peer (peers : list SocketAddr) (s : SeedInfo) : list SocketAddr :=
  match si_socket_addr s with
  | Some addr => if bool_decide (addr ∈ peers) then peers else peers ++ [addr]
  | None => peers
  end.
Definition push_peers (l : list SeedInfo) (peers : list SocketAddr) : list SocketAddr :=
  foldl push_peer peers l.

Section handlers.
Context `{Crates, !FrameCodecs, !SeedSyncCodecs}.

Definition register_seed_info (s : SeedInfo) : M unit :=
  match si_socket_addr s with
  | Some addr => reg_register (si_node_id s) addr
  | None => mret tt
  end.

(** The block the three handlers share. *)
Definition update_peer_addrs : M unit :=
  mod_g (fun g => match g_node g with
                  | Some n =>
                      let seed_set := derive_seed_set_from_registry (pn_registry n) in
                      set_g_node (Some (mk_p2p_node (pn_registry n)
                                          (push_peers (ss_seeds seed_set) (pn_peer_addrs n)))) g
                  | None => g
                  end).
Definition merge_seed_set (set : SeedSet) : M unit :=
  with_node (for_each (ss_seeds set) register_seed_info ;; update_peer_addrs).

Definition seed_sync_request_handler (c : ctx_id) (frame : P2PFrame) (cmd : P2PCommand) : M unit :=
  match decode (T := SeedSyncRequest) (cmd_data cmd) with
  | Err _ => mret tt
  | Ok request =>
      merge_seed_set (sq_seed_set request) ;;
      r ← get_registry;
      match r with
      | None => mret tt
      | Some r =>
          let filtered_set := filter_loopback (derive_seed_set_from_registry r) in
          send_ c (Some (mk_sync_response filtered_set (ss_hash filtered_set))) Node Command.SeedSyncResponse false
      end
  end.

Definition seed_sync_response_handler (c : ctx_id) (frame : P2PFrame) (cmd : P2PCommand) : M unit :=
  match decode (T := SeedSyncResponse) (cmd_data cmd) with
  | Err _ => mret tt
  | Ok response => merge_seed_set (sp_seed_set response)
  end.

Definition seed_sync_commit_handler (c : ctx_id) (frame : P2PFrame) (cmd : P2PCommand) : M unit :=
  match decode (T := SeedSyncCommit) (cmd_data cmd) with
  | Err _ => mret tt
  | Ok commit => merge_seed_set (sm_seed_set commit)
  end.

Definition broadcast_seed_set_to_all_peers (set : SeedSet) : M unit :=
  address ← get_g g_address;
  addr ← get_g g_addr;
  match address with
  | None => mret tt
  | Some address =>
      match encode (mk_sync_request (sock_to_string addr) set (ss_sync_round set)) with
      | Err _ => mret tt
      | Ok cmd_bytes =>
          frame ← build address (command_new Node Command.SeedSyncRequest cmd_bytes) 1;
          match frame with
          | Err _ => mret tt
          | Ok frame =>
              match encode frame with
              | Err _ => mret tt
              | Ok frame_bytes => forward (fun c => write c frame_bytes)
              end
          end
      end
  end.

Definition lock_seed_set_global (set : SeedSet) : M unit :=
  mod_g (set_g_seed_set (Some (mk_set (ss_seeds set) (ss_pre_hash set) (ss_hash set) (ss_epoch set) true
                                 (ss_sync_round set)))).

(** ** The cycle *)

(** The set derived now, or [default_set] without a node. *)
Definition derive_or (default_set : SeedSet) : M SeedSet :=
  r ← get_registry;
  mret match r with Some r => derive_seed_set_from_registry r | None => default_set end.
Definition empty_seed_set : SeedSet := seed_set_new [] 0.

Definition get_existing_connection_context (m : Manager) (addr : SocketAddr) : option ctx_id :=
  let ip := sock_ip addr in
  match mgr_get m ip (scope_from_ip ip) Servers addr with
  | Some entry => entry_ctx entry
  | None => mgr_get m ip (scope_from_ip ip) Clients addr ≫= entry_ctx
  end.

Section cycle.
Context (others : M unit) (past_deadline : nat → bool).

(** Send the local set, wait, look at the registry again; the answer is
    what [result] holds in the end. *)
Definition send_and_check (c : ctx_id) (local_set : SeedSet) : M bool :=
  addr ← get_g g_addr;
  sent ← send c (Some (mk_sync_request (sock_to_string addr) local_set 0)) Node Command.SeedSyncRequest false;
  match sent with
  | Ok _ => others ;; merged ← derive_or local_set; mret (seed_set_verify merged)
  | Err _ => mret false
  end.

Definition send_seed_sync_via_existing_ctx (c : ctx_id) : M bool :=
  local_set ← derive_or empty_seed_set; send_and_check c local_set.
Definition send_seed_sync_request (c : ctx_id) : M bool :=
  use_psk (fun p => psk_create p false) ;;
  local_set ← derive_or empty_seed_set; send_and_check c local_set.

Definition sync_once (addr : SocketAddr) (attempt : Z) : M bool :=
  psk ← get_g g_psk;
  match psk with
  | None => mret false
  | Some _ =>
      m ← get_g g_manager;
      match get_existing_connection_context m addr with
      | Some c => success ← send_seed_sync_via_existing_ctx c; others ;; mret success
      | None =>
          let '(r, m') := mgr_connect m addr 5 in
          mod_g (set_g_manager m') ;;
          match r with
          | Ok c => success ← send_seed_sync_request c; others ;; mret success
          | Err _ => mret false
          end
      end
  end.

(** Up to three attempts. *)
Fixpoint attempts (l : list Z) (addr : SocketAddr) : M bool :=
  match l with
  | [] => mret false
  | attempt :: l' =>
      result ← sync_once addr attempt;
      if result : bool then mret true
      else (if attempt <? 3 then others else mret tt) ;; attempts l' addr
  end.
Definition try_sync_with_peer_global (addr : SocketAddr) : M bool := attempts [1; 2; 3] addr.

Definition deadline_reached : M bool :=
  fun w => (past_deadline (w_clock w), set_w_clock (S (w_clock w)) w).

Fixpoint sync_peers (peers : list SocketAddr) : M unit :=
  match peers with
  | [] => mret tt
  | addr :: peers' =>
      late ← deadline_reached;
      if late : bool then mret tt else try_sync_with_peer_global addr ;; sync_peers peers'
  end.

(** The loop; [left] counts the rounds still allowed. The result carries
    the number of rounds done. *)
Fixpoint rounds (left : nat) (peers : list SocketAddr) (round : Z) (stable_rounds : Z)
    (prev_hash : option bytes) : M (Z * result SeedSet) :=
  late ← deadline_reached;
  match left with
  | O => s ← derive_or empty_seed_set; mret (round, Ok s)
  | S left' =>
      if late : bool then s ← derive_or empty_seed_set; mret (round, Ok s)
      else
        let round := round + 1 in
        r ← get_registry;
        match r with
        | None => mret (round, Err "Node not registered in GlobalContext")
        | Some _ =>
            sync_peers peers ;;
            others ;;
            r ← get_registry;
            match r with
            | None => mret (round, Err "Node not registered in GlobalContext")
            | Some r =>
                let current_hash := ss_hash (derive_seed_set_from_registry r) in
                if decide (prev_hash = Some current_hash) then
                  let stable_rounds := stable_rounds + 1 in
                  if STABLE_ROUNDS_REQUIRED <=? stable_rounds
                  then mret (round, Ok (derive_seed_set_from_registry r))
                  else rounds left' peers round stable_rounds prev_hash
                else rounds left' peers round 0 (Some current_hash)
            end
        end
  end.

Definition run_seed_sync_cycle (peer_addrs : list SocketAddr) (max_rounds : Z) : M (result SeedSet) :=
  match peer_addrs with
  | [] => s ← derive_or empty_seed_set; mret (Ok s)
  | _ =>
      let effective_max : Z := if max_rounds =? 0 then 10 else max_rounds in
      r ← rounds (Z.to_nat effective_max) peer_addrs 0 0 None;
      mret r.2
  end.
End cycle.
End handlers.

(** ** Steps *)

Section steps.
Context `{Crates, !FrameCodecs, !SeedSyncCodecs}.

Lemma world_update_peer_addrs : respects world_le update_peer_addrs.
Proof.
  intros w. destruct w as [[] ? ? ? ? ? ? ?]. destruct g_node as [n|]; split; cbn; done.
Qed.
Lemma world_register_seed_info s : respects world_le (register_seed_info s).
Proof. unfold register_seed_info. destruct (si_socket_addr s); respects_tac. Qed.
Lemma io_derive_or d : respects io_step (derive_or d).
Proof. unfold derive_or. respects_tac. Qed.
Lemma io_deadline p : respects io_step (deadline_reached p).
Proof. intros w. apply io_step_ctx_same; cbn; try done; lia. Qed.
Lemma io_broadcast_seed_set s : respects io_step (broadcast_seed_set_to_all_peers s).
Proof.
  unfold broadcast_seed_set_to_all_peers. apply respects_get_address. intros o.
  apply respects_bind; [apply _|apply respects_at, respects_get_g|]. intros addr.
  destruct o as [a|]; [|apply respects_ret, _]. destruct (encode _) as [b|]; [|apply respects_ret, _].
  apply respects_send_to_all.
Qed.
End steps.
#[export] Hint Resolve world_update_peer_addrs world_register_seed_info io_derive_or io_deadline
  io_broadcast_seed_set : respects.

Section world_steps.
Context `{Crates, !FrameCodecs, !SeedSyncCodecs}.

Lemma world_merge_seed_set s : respects world_le (merge_seed_set s).
Proof. unfold merge_seed_set. apply world_with_node. respects_tac. Qed.
#[local] Hint Resolve world_merge_seed_set : respects.
Lemma world_seed_sync_request_handler c f cmd : respects world_le (seed_sync_request_handler c f cmd).
Proof. unfold seed_sync_request_handler. destruct (decode _); respects_tac. Qed.
Lemma world_seed_sync_response_handler c f cmd : respects world_le (seed_sync_response_handler c f cmd).
Proof. unfold seed_sync_response_handler. destruct (decode _); respects_tac. Qed.
Lemma world_seed_sync_commit_handler c f cmd : respects world_le (seed_sync_commit_handler c f cmd).
Proof. unfold seed_sync_commit_handler. destruct (decode _); respects_tac. Qed.
Lemma world_lock_seed_set s : respects world_le (lock_seed_set_global s).
Proof. by apply respects_mod_g. Qed.

(** The cycle respects whatever its parts and the other tasks respect. *)
Section generic.
Context (others : M unit) (past_deadline : nat → bool) (R : relation World) `{!PreOrder R}.
Context (R_io : ∀ A (m : M A), respects io_step m → respects R m).
Context (R_manager : ∀ m, respects R (mod_g (set_g_manager m))).
Context (R_others : respects R others).

Ltac step := respects_tac; try (apply R_io; solve [eauto with respects]).

Lemma generic_send_and_check c s : respects R (send_and_check others c s).
Proof. unfold send_and_check. step. Qed.
Lemma generic_existing c : respects R (send_seed_sync_via_existing_ctx others c).
Proof. unfold send_seed_sync_via_existing_ctx. pose proof generic_send_and_check. step. Qed.
Lemma generic_request c : respects R (send_seed_sync_request others c).
Proof. unfold send_seed_sync_request. pose proof generic_send_and_check. step. Qed.
Lemma generic_sync_once addr n : respects R (sync_once others addr n).
Proof.
  unfold sync_once. pose proof generic_existing. pose proof generic_request. step.
Qed.
Lemma generic_attempts l addr : respects R (attempts others l addr).
Proof. induction l; cbn; pose proof generic_sync_once; step. Qed.
Lemma generic_sync_peers l : respects R (sync_peers others past_deadline l).
Proof.
  induction l; cbn; pose proof (generic_attempts [1; 2; 3]); unfold try_sync_with_peer_global; step.
Qed.
Lemma generic_rounds k l n s h : respects R (rounds others past_deadline k l n s h).
Proof.
  revert n s h. induction k; intros n s h; cbn; pose proof generic_sync_peers; step.
Qed.
End generic.
End world_steps.
#[export] Hint Resolve world_merge_seed_set world_seed_sync_request_handler world_seed_sync_response_handler
  world_seed_sync_commit_handler world_lock_seed_set : respects.

(** ** Merging a received set *)

Lemma has_seed_steps `{Aex} r r' a seed : rtc registry_step r r' → has_seed r a seed → has_seed r' a seed.
Proof.
  intros Hr. assert (Hle : registry_le r r').
  { induction Hr as [|x y z Hs _ IH]; [done|]. etrans; [by apply registry_step_le|done]. }
  apply Hle.
Qed.

Lemma push_peers_app l p : ∃ new, push_peers l p = p ++ new.
Proof.
  revert p. induction l as [|s l IH]; intros p; [exists []; by rewrite app_nil_r|].
  unfold push_peers. cbn [foldl]. fold (push_peers l (push_peer p s)).
  destruct (IH (push_peer p s)) as [new ->]. unfold push_peer.
  destruct (si_socket_addr s) as [a|]; [|by eexists].
  case_bool_decide; [by eexists|]. exists ([a] ++ new). by rewrite app_assoc.
Qed.

Lemma push_peers_nodup l p : NoDup p → NoDup (push_peers l p).
Proof.
  revert p. induction l as [|s l IH]; intros p Hp; [done|]. apply IH. unfold push_peer.
  destruct (si_socket_addr s) as [a|]; [|done]. case_bool_decide; [done|].
  apply NoDup_app. split; [done|]. split; [set_solver|apply NoDup_singleton].
Qed.

Lemma elem_of_push_peers l p a :
  a ∈ push_peers l p ↔ a ∈ p ∨ ∃ s, s ∈ l ∧ si_socket_addr s = Some a.
Proof.
  revert p. induction l as [|s l IH]; intros p; [set_solver|].
  unfold push_peers. cbn [foldl]. fold (push_peers l (push_peer p s)). rewrite IH.
  assert (E : a ∈ push_peer p s ↔ a ∈ p ∨ si_socket_addr s = Some a).
  { unfold push_peer. destruct (si_socket_addr s) as [b|]; [|naive_solver].
    case_bool_decide; rewrite ?elem_of_app, ?list_elem_of_singleton; naive_solver. }
  rewrite E. setoid_rewrite elem_of_cons. naive_solver.
Qed.

Section merging.
Context `{Crates, !FrameCodecs, !SeedSyncCodecs}.

Lemma exec_register_seed_info s w n :
  g_node (w_g w) = Some n →
  ∃ n', g_node (w_g (exec (register_seed_info s) w)) = Some n' ∧
    rtc registry_step (pn_registry n) (pn_registry n') ∧ pn_peer_addrs n' = pn_peer_addrs n ∧
    ∀ a, si_socket_addr s = Some a → has_seed (pn_registry n') (si_node_id s) a.
Proof.
  intros Hn. unfold register_seed_info. destruct (si_socket_addr s) as [a|]; [|by exists n].
  destruct w as [[] ? ? ? ? ? ? ?]; cbn in Hn; subst.
  eexists. split; [reflexivity|]. split; [apply rtc_once; constructor|]. split; [done|].
  intros a' [= <-]. unfold has_seed, register. cbn [pn_registry]. rewrite lookup_insert_eq. eexists.
  split; [done|]. cbn. unfold insert_direction. by rewrite lookup_insert_eq.
Qed.

Lemma exec_register_all l w n :
  g_node (w_g w) = Some n →
  ∃ n', g_node (w_g (exec (for_each l register_seed_info) w)) = Some n' ∧
    rtc registry_step (pn_registry n) (pn_registry n') ∧ pn_peer_addrs n' = pn_peer_addrs n ∧
    ∀ s a, s ∈ l → si_socket_addr s = Some a → has_seed (pn_registry n') (si_node_id s) a.
Proof.
  revert w n. induction l as [|s l IH]; intros w n Hn; cbn [for_each].
  - exists n. split; [done|]. split; [done|]. split; [done|]. set_solver.
  - rewrite exec_bind. cbv beta.
    destruct (exec_register_seed_info s w n Hn) as (n1 & Hn1 & Hr1 & Hp1 & Hs1).
    destruct (IH _ n1 Hn1) as (n2 & Hn2 & Hr2 & Hp2 & Hs2).
    exists n2. split; [done|]. split; [by etrans|]. split; [congruence|].
    intros s' a [->|Hin]%elem_of_cons Ha; [|by eapply Hs2].
    eapply has_seed_steps; [exact Hr2|by apply Hs1].
Qed.

(** Merging a received seed set: every seed that names an address is in
    the registry afterwards under its node, nothing the registry held is
    lost, and the peer list keeps its order, gains exactly the addresses of
    the set derived from the new registry, and never holds one twice. *)
Theorem merge_seed_set_spec set w n :
  g_node (w_g w) = Some n →
  ∃ n', g_node (w_g (exec (merge_seed_set set) w)) = Some n' ∧
    rtc registry_step (pn_registry n) (pn_registry n') ∧
    (∀ s a, s ∈ ss_seeds set → si_socket_addr s = Some a → has_seed (pn_registry n') (si_node_id s) a) ∧
    (∃ new, pn_peer_addrs n' = pn_peer_addrs n ++ new) ∧
    (NoDup (pn_peer_addrs n) → NoDup (pn_peer_addrs n')) ∧
    (∀ a, a ∈ pn_peer_addrs n' ↔ a ∈ pn_peer_addrs n ∨
       ∃ s, s ∈ ss_seeds (derive_seed_set_from_registry (pn_registry n')) ∧ si_socket_addr s = Some a).
Proof.
  intros Hn. unfold merge_seed_set, with_node. rewrite exec_bind. change (exec get_registry w) with w.
  change (eval get_registry w) with (reg_of w). unfold reg_of. rewrite Hn. cbn [fmap option_fmap option_map].
  rewrite exec_bind. cbv beta.
  destruct (exec_register_all (ss_seeds set) w n Hn) as (n1 & Hn1 & Hr & Hp & Hs).
  set (w1 := exec (for_each _ _) w) in *.
  exists (mk_p2p_node (pn_registry n1)
            (push_peers (ss_seeds (derive_seed_set_from_registry (pn_registry n1))) (pn_peer_addrs n1))).
  cbn [pn_registry pn_peer_addrs]. rewrite <- Hp. split_and!; try done.
  - unfold update_peer_addrs, mod_g, modify, exec. cbn. by rewrite Hn1.
  - apply push_peers_app.
  - apply push_peers_nodup.
  - intros a. apply elem_of_push_peers.
Qed.
End merging.

(** ** The cycle *)

Section cycle_properties.
Context `{Crates, !FrameCodecs, !SeedSyncCodecs}.
Context (others : M unit) (past_deadline : nat → bool).

Lemma derived_verifies r : seed_set_verify (derive_seed_set_from_registry r) = true.
Proof. unfold seed_set_verify. by apply bool_decide_true. Qed.

Lemma eval_derive_or d w r : reg_of w = Some r → eval (derive_or d) w = derive_seed_set_from_registry r.
Proof.
  intros Hr. unfold derive_or. rewrite eval_bind. change (eval get_registry w) with (reg_of w). by rewrite Hr.
Qed.
Lemma exec_derive_or d w : exec (derive_or d) w = w.
Proof. reflexivity. Qed.

Lemma world_le_reg w w' r : world_le w w' → reg_of w = Some r → ∃ r', reg_of w' = Some r'.
Proof.
  intros [Hn _ _ _ _ _ _ _ _]. unfold reg_of.
  destruct (g_node (w_g w)), (g_node (w_g w')); cbn in *; try done. by eexists.
Qed.

(** A sync with a peer counts as successful as soon as the request could
    be sent: what the other side answers, or that it answers at all, plays
    no part, because the set it checks was just derived and always verifies
    itself. *)
Theorem sync_succeeds_without_answer c local_set w r :
  respects world_le others → reg_of w = Some r →
  eval (send_and_check others c local_set) w =
  is_ok (eval (send c (Some (mk_sync_request (sock_to_string (g_addr (w_g w))) local_set 0))
                 Node Command.SeedSyncRequest false) w).
Proof.
  intros Ho Hr. unfold send_and_check. do 2 (rewrite eval_bind; cbv beta).
  change (exec (get_g g_addr) w) with w. change (eval (get_g g_addr) w) with (g_addr (w_g w)).
  set (m := send _ _ _ _ _).
  assert (Hm : world_le w (exec m w)) by (apply respects_io; apply respects_send).
  destruct (eval m w) as [[]|e]; [|done]. cbn [is_ok].
  do 2 (rewrite eval_bind; cbv beta).
  destruct (world_le_reg w (exec others (exec m w)) r) as [r' Hr']; [by etrans; [exact Hm|apply Ho]|done|].
  rewrite (eval_derive_or _ _ r' Hr'). apply derived_verifies.
Qed.

Lemma rounds_result k peers n s h w r :
  respects world_le others → reg_of w = Some r →
  ∃ r', reg_of (exec (rounds others past_deadline k peers n s h) w) = Some r' ∧
    (eval (rounds others past_deadline k peers n s h) w).2 = Ok (derive_seed_set_from_registry r') ∧
    n ≤ (eval (rounds others past_deadline k peers n s h) w).1 ≤ n + Z.of_nat k.
Proof.
  intros Ho. revert n s h w r. induction k as [|k IH]; intros n s h w r Hr.
  - cbn [rounds]. do 2 (rewrite exec_bind, eval_bind; cbv beta).
    exists r. rewrite (eval_derive_or _ _ r) by done. split_and!; (done || cbn; lia).
  - cbn [rounds]. rewrite exec_bind, eval_bind. cbv beta.
    set (w1 := exec (deadline_reached past_deadline) w).
    assert (Hr1 : reg_of w1 = Some r) by done.
    destruct (eval (deadline_reached past_deadline) w).
    + rewrite exec_bind, eval_bind. cbv beta. exists r. rewrite (eval_derive_or _ _ r) by done.
      split_and!; (done || cbn; lia).
    + rewrite exec_bind, eval_bind. cbv beta. change (exec get_registry w1) with w1.
      change (eval get_registry w1) with (reg_of w1). rewrite Hr1.
      do 3 (rewrite exec_bind, eval_bind; cbv beta).
      set (w2 := exec (sync_peers _ _ _) w1). set (w3 := exec others w2).
      change (exec get_registry w3) with w3. change (eval get_registry w3) with (reg_of w3).
      assert (Hw : world_le w1 w3).
      { etrans; [|apply Ho]. assert (Hs : respects world_le (sync_peers others past_deadline peers)); [|apply Hs].
        apply generic_sync_peers; [apply _|by intros ??; apply respects_io| |done]. intros m. by apply respects_mod_g. }
      destruct (world_le_reg _ _ _ Hw Hr1) as [r3 Hr3]. rewrite Hr3.
      case_decide.
      * destruct (_ <=? _); [exists r3; split_and!; (done || cbn; lia)|].
        destruct (IH (n + 1) (s + 1) h w3 r3 Hr3) as (r' & ? & ? & ?). exists r'. split_and!; (done || lia).
      * destruct (IH (n + 1) 0 (Some (ss_hash (derive_seed_set_from_registry r3))) w3 r3 Hr3)
          as (r' & ? & ? & ?). exists r'. split_and!; (done || lia).
Qed.

(** C11. The sync cycle ends and answers: whatever the peers and the other
    tasks do, for every deadline and every number of rounds, it returns the
    set derived from the registry at its end, which verifies, and it does at
    most the rounds it was given (ten when given none). *)
Theorem run_seed_sync_cycle_spec peers max_rounds w r :
  respects world_le others → reg_of w = Some r → in_u 32 max_rounds →
  let m := run_seed_sync_cycle others past_deadline peers max_rounds in
  ∃ r', reg_of (exec m w) = Some r' ∧ eval m w = Ok (derive_seed_set_from_registry r') ∧
    seed_set_verify (derive_seed_set_from_registry r') = true ∧
    (peers ≠ [] →
     let effective_max : Z := if max_rounds =? 0 then 10 else max_rounds in
     0 ≤ (eval (rounds others past_deadline (Z.to_nat effective_max) peers 0 0 None) w).1 ≤ effective_max).
Proof.
  intros Ho Hr Hmax. cbn zeta. unfold run_seed_sync_cycle. destruct peers as [|p peers].
  - exists r. rewrite eval_bind, (eval_derive_or _ _ r) by done. split_and!; try done. apply derived_verifies.
  - set (k := if max_rounds =? 0 then 10 else max_rounds).
    destruct (rounds_result (Z.to_nat k) (p :: peers) 0 0 None w r Ho Hr) as (r' & Hr' & He & Hn).
    exists r'. rewrite exec_bind, eval_bind. cbv beta. rewrite He. split_and!; try done; [apply derived_verifies|].
    intros _. rewrite Z2Nat.id in Hn by (unfold k, in_u in *; destruct (_ =? _); lia); lia.
Qed.

(** A task that leaves the registry as it is. *)
Definition reg_same (w w' : World) : Prop := reg_of w' = reg_of w.
#[local] Instance reg_same_preorder : PreOrder reg_same.
Proof. split; [done|]. intros x y z. unfold reg_same. congruence. Qed.

Lemma io_reg_same {A} (m : M A) : respects io_step m → respects reg_same m.
Proof.
  intros Hm w. pose proof (io_g _ _ _ (Hm w)) as Hg. apply (f_equal g_node) in Hg. cbn in Hg.
  unfold reg_same, reg_of. by rewrite Hg.
Qed.

(** C18. Convergence: once nothing new comes in and the deadline is away, the
    cycle stops by itself after three rounds - one that sees the hash, two
    that see it again - with the set of the registry. *)
Theorem cycle_converges peers w r k :
  respects reg_same others → (∀ n, past_deadline n = false) → reg_of w = Some r → (3 ≤ k)%nat →
  eval (rounds others past_deadline k peers 0 0 None) w = (3, Ok (derive_seed_set_from_registry r)).
Proof.
  intros Ho Hd Hr Hk.
  assert (Step : ∀ k n s h w, reg_of w = Some r →
    ∃ w', reg_of w' = Some r ∧
    eval (rounds others past_deadline (S k) peers n s h) w =
    let hash := ss_hash (derive_seed_set_from_registry r) in
    if decide (h = Some hash) then
      if STABLE_ROUNDS_REQUIRED <=? s + 1 then (n + 1, Ok (derive_seed_set_from_registry r))
      else eval (rounds others past_deadline k peers (n + 1) (s + 1) h) w'
    else eval (rounds others past_deadline k peers (n + 1) 0 (Some hash)) w').
  { clear k Hk w Hr. intros k n s h w Hr. cbn [rounds]. rewrite eval_bind. cbv beta.
    set (w1 := exec (deadline_reached past_deadline) w).
    change (eval (deadline_reached past_deadline) w) with (past_deadline (w_clock w)). rewrite Hd.
    rewrite eval_bind. cbv beta. change (exec get_registry w1) with w1.
    change (eval get_registry w1) with (reg_of w). rewrite Hr. do 3 (rewrite eval_bind; cbv beta).
    set (w3 := exec others _). assert (Hr3 : reg_of w3 = Some r).
    { rewrite <- Hr. change (reg_of w) with (reg_of w1). unfold w3. rewrite (Ho _).
      apply generic_sync_peers; [apply _|by intros ??; apply io_reg_same|by intros ? ?|done]. }
    exists w3. split; [done|]. change (exec get_registry w3) with w3.
    change (eval get_registry w3) with (reg_of w3). rewrite Hr3.
    case_decide; [|done]. by destruct (_ <=? _). }
  destruct k as [|[|[|k]]]; try lia.
  destruct (Step (S (S k)) 0 0 None w Hr) as (w1 & Hr1 & ->). cbn zeta. rewrite decide_False by done.
  destruct (Step (S k) (0 + 1) 0 (Some (ss_hash (derive_seed_set_from_registry r))) w1 Hr1) as (w2 & Hr2 & ->).
  cbn zeta. rewrite decide_True by done. cbn [STABLE_ROUNDS_REQUIRED Z.leb].
  destruct (Step k (0 + 1 + 1) (0 + 1) (Some (ss_hash (derive_seed_set_from_registry r))) w2 Hr2) as (w3 & Hr3 & E).
  change (2 <=? 0 + 1) with false. cbv iota. rewrite E. cbn zeta. by rewrite decide_True by done.
Qed.
End cycle_properties.
