(* ===== verification/Tick.v ===== *)
(** * Ticks and the witness ring

    src/src/protocols/commands/tick.rs: the handler that merges the seeds of a
    tick, compares its ring hash with the local one, counts agreeing rounds
    and, when the ring is stable, locks it: the witness list and the balances
    of the context are updated and the reward is shared out. *)

From S2P Require Import Prelude NetAddr External Command NodeRegistry Seeds World Frame Evolution Handshake.
Open Scope Z_scope.
Open Scope stdpp_scope.

Definition WITNESS_RING_STABLE_ROUNDS : Z := 2.

Record TickCommand := mk_tick {
  tk_daily_epoch : Z;
  tk_slot : Z;
  tk_challenge : bytes;
  tk_seeds : option SeedsCommand;
  tk_ring_hash : bytes;
}.

(** [v[p] = x] for the first entry that matches, [v.push(x)] otherwise. *)
Fixpoint upsert {A} (matches : A → bool) (update : A → A) (fresh : A) (l : list A) : list A :=
  match l with
  | [] => [fresh]
  | x :: l' => if matches x then update x :: l' else x :: upsert matches update fresh l'
  end.

Definition witness_of (now : Z) (i : nat) (seed : SeedRecord) : WitnessEntry :=
  mk_witness (sr_node_address seed) (sr_address seed) 1 "active" now (wrap_u 32 (Z.of_nat i)).
Definition upsert_witness (w : WitnessEntry) (l : list WitnessEntry) : list WitnessEntry :=
  upsert (fun x => bool_decide (we_address x = we_address w)) (fun _ => w) w l.
(** The first loop of [lock_witness_ring], from rank [i] on. *)
Fixpoint upsert_witnesses (now : Z) (i : nat) (ring : list SeedRecord) (l : list WitnessEntry) : list WitnessEntry :=
  match ring with
  | [] => l
  | seed :: ring' => upsert_witnesses now (S i) ring' (upsert_witness (witness_of now i seed) l)
  end.

Definition total_reward : Z := 1000.
Definition per_witness (total_nodes : nat) : Z :=
  if (0 <? total_nodes)%nat then total_reward / Z.of_nat total_nodes else 0.

(** The second loop: credit the node of one seed. *)
Definition credit (now amount : Z) (balances : list BalanceEntry) (seed : SeedRecord) : list BalanceEntry :=
  upsert (fun b => bool_decide (be_address b = sr_node_address seed))
    (fun b => mk_balance (be_address b) (wrap_u 64 (be_balance b + amount)) (be_updated_at b))
    (mk_balance (sr_node_address seed) amount now) balances.
Definition distribute (now : Z) (ring : list SeedRecord) (balances : list BalanceEntry) : list BalanceEntry :=
  foldl (credit now (per_witness (length ring))) balances ring.

Section tick.
Context `{Crates, !FrameCodecs, !HandshakeCodecs, !Codec TickCommand}.

Definition get_witness_ring : M (list SeedRecord) :=
  r ← get_registry;
  match r with Some r => seed_records (get_all_seeds r) | None => mret [] end.

Definition build_tick_command : M TickCommand :=
  seed_records ← get_witness_ring;
  let ring_hash := compute_witness_ring_hash seed_records in
  mret (mk_tick 0 0 []
    (match seed_records with [] => None | _ => Some (seeds_command_new seed_records) end) ring_hash).

Definition send_tick (c : ctx_id) : M (result unit) :=
  tick ← build_tick_command; send c (Some tick) Node Tick false.

(** The two loops of [sync_witness_ring]. [local_addrs] is read once. *)
Definition tick_register (local_addrs : list string) (seed : SeedRecord) : M unit :=
  if bool_decide (sr_address seed ∈ local_addrs) then mret tt else register_seed seed.
Definition tick_connect (c : ctx_id) (seed : SeedRecord) : M unit :=
  r ← get_registry;
  if default false (is_connected (sr_node_address seed) <$> r) then mret tt
  else match parse_sock (sr_address seed) with
       | Some addr => spawn (TConnect c addr (sr_node_address seed))
       | None => mret tt
       end.
Definition sync_witness_ring (c : ctx_id) (cmd : SeedsCommand) : M unit :=
  r ← get_registry;
  match r with
  | Some r =>
      let local_addrs := (fun p => sock_to_string p.1) <$> get_all_seeds r in
      for_each (sc_seeds cmd) (tick_register local_addrs) ;;
      for_each (sc_seeds cmd) (tick_connect c)
  | None => mret tt
  end.

Definition lock_witness_ring (ring : list SeedRecord) (hash : bytes) : M unit :=
  now ← now_secs;
  mod_g (fun g => match ring with
                  | [] => g
                  | _ => set_g_witnesses (Some (upsert_witnesses now 0 ring (default [] (g_witnesses g)))) g
                  end) ;;
  mod_g (set_g_ring_hash (Some hash)) ;;
  mod_g (fun g => set_g_balances (Some (distribute now ring (default [] (g_balances g)))) g).

(** The stability count, for a tick that agrees: whether the ring is locked. *)
Definition note_stable (local_hash : bytes) : M bool :=
  prev_hash ← get_g g_ring_hash;
  if decide (prev_hash = Some local_hash) then
    count ← get_g g_stable_count;
    let new_count := wrap_u 32 (default 0 count + 1) in
    mod_g (set_g_stable_count (Some new_count)) ;;
    mret (WITNESS_RING_STABLE_ROUNDS <=? new_count)
  else
    mod_g (set_g_stable_count (Some 1)) ;;
    mod_g (set_g_ring_hash (Some local_hash)) ;;
    mret false.

Definition tick_handler (c : ctx_id) (frame : P2PFrame) (cmd : P2PCommand) : M unit :=
  match decode (T := TickCommand) (cmd_data cmd) with
  | Err _ => mret tt
  | Ok tick =>
      (match tk_seeds tick with
       | Some seeds_cmd => if seeds_command_verify seeds_cmd then sync_witness_ring c seeds_cmd else mret tt
       | None => mret tt
       end) ;;
      local_ring ← get_witness_ring;
      let local_hash := compute_witness_ring_hash local_ring in
      let merged_seeds := seeds_command_new local_ring in
      broadcast_seeds_to_peers merged_seeds ;;
      (if decide (local_hash = tk_ring_hash tick) then
         stable ← note_stable local_hash;
         if stable : bool then lock_witness_ring local_ring local_hash else mret tt
       else mret tt) ;;
      send_ c (Some (mk_tick (tk_daily_epoch tick) (tk_slot tick) [] (Some merged_seeds) (sc_hash merged_seeds)))
        Node TickAck false
  end.
End tick.

(** ** Steps *)

Section steps.
Context `{Crates, !FrameCodecs, !HandshakeCodecs, !Codec TickCommand}.

Lemma io_get_witness_ring : respects io_step get_witness_ring.
Proof. unfold get_witness_ring. respects_tac. Qed.
#[local] Hint Resolve io_get_witness_ring : respects.
Lemma io_send_tick c : respects io_step (send_tick c).
Proof. unfold send_tick, build_tick_command. respects_tac. Qed.
Lemma world_sync_witness_ring c cmd : respects world_le (sync_witness_ring c cmd).
Proof. unfold sync_witness_ring, tick_register, tick_connect. respects_tac. Qed.
Lemma world_lock_witness_ring l h : respects world_le (lock_witness_ring l h).
Proof.
  unfold lock_witness_ring. respects_tac. apply respects_mod_g; by destruct l.
Qed.
Lemma world_note_stable h : respects world_le (note_stable h).
Proof. unfold note_stable. respects_tac. Qed.
#[local] Hint Resolve world_sync_witness_ring world_lock_witness_ring world_note_stable : respects.
Lemma world_tick_handler c f cmd : respects world_le (tick_handler c f cmd).
Proof. unfold tick_handler. destruct (decode _); respects_tac. Qed.
End steps.
#[export] Hint Resolve io_get_witness_ring io_send_tick world_tick_handler : respects.

(** ** Shares *)

Section upsert.
Context {A : Type} (key : A → string) (k : string) (update : A → A) (fresh : A).
Context (Hu : ∀ x, key x = k → key (update x) = k) (Hf : key fresh = k).
Let m (x : A) : bool := bool_decide (key x = k).

(** The keys after an [upsert]: the same, or one more at the end. *)
Lemma upsert_keys l :
  key <$> upsert m update fresh l = if bool_decide (k ∈ key <$> l) then key <$> l else (key <$> l) ++ [k].
Proof.
  induction l as [|x l IH]; cbn; [by rewrite Hf|]. destruct (decide (key x = k)) as [E|E]; [rewrite (bool_decide_true (key x = k) E : m x = true)|rewrite (bool_decide_false (key x = k) E : m x = false)]; cbn.
  - rewrite (Hu x E), E, bool_decide_true by set_solver. done.
  - rewrite IH. case_bool_decide as E2.
    + by rewrite bool_decide_true by set_solver.
    + by rewrite bool_decide_false by set_solver.
Qed.

Lemma upsert_nodup l : NoDup (key <$> l) → NoDup (key <$> upsert m update fresh l).
Proof.
  intros Hl. rewrite upsert_keys. case_bool_decide; [done|].
  apply NoDup_app. split; [done|]. split; [set_solver|apply NoDup_singleton].
Qed.

Lemma upsert_other l x : key x ≠ k → x ∈ upsert m update fresh l ↔ x ∈ l.
Proof.
  intros Hx. induction l as [|y l IH]; cbn.
  - rewrite list_elem_of_singleton. split; [intros ->; congruence|set_solver].
  - destruct (decide (key y = k)) as [E|E]; [rewrite (bool_decide_true (key y = k) E : m y = true)|rewrite (bool_decide_false (key y = k) E : m y = false)]; rewrite !elem_of_cons.
    + split; intros [->|?]; (by auto) || (exfalso; apply Hx; auto).
    + by rewrite IH.
Qed.
End upsert.

Definition sum_balances (l : list BalanceEntry) : Z := foldr (fun b s => be_balance b + s) 0 l.

(** How often a node occurs in the ring, which lists seeds. *)
Definition seeds_of (a : string) (ring : list SeedRecord) : Z :=
  Z.of_nat (length (List.filter (fun s => bool_decide (sr_node_address s = a)) ring)).
Definition balance_of (a : string) (l : list BalanceEntry) : Z :=
  foldr (fun b s => if bool_decide (be_address b = a) then be_balance b + s else s) 0 l.

Lemma per_witness_bound (ring : list SeedRecord) :
  0 ≤ per_witness (length ring) ∧ Z.of_nat (length ring) * per_witness (length ring) ≤ total_reward.
Proof.
  destruct ring as [|s ring]; [done|]. unfold per_witness, total_reward. cbn [length Nat.ltb Nat.leb].
  split; [apply Z.div_pos; lia|apply Z.mul_div_le; lia].
Qed.

Lemma sum_nonneg l : Forall (fun b => in_u 64 (be_balance b)) l → 0 ≤ sum_balances l.
Proof. induction 1 as [|b l Hb _ IH]; [done|]. change (0 ≤ be_balance b + sum_balances l). unfold in_u in Hb. lia. Qed.

Lemma credit_sum now amount l seed :
  0 ≤ amount → Forall (fun b => in_u 64 (be_balance b)) l → sum_balances l + amount < 2 ^ 64 →
  sum_balances (credit now amount l seed) = sum_balances l + amount ∧
  Forall (fun b => in_u 64 (be_balance b)) (credit now amount l seed).
Proof.
  intros Ha. unfold credit. induction l as [|b l IH]; cbn [upsert sum_balances foldr]; intros Hl Hs.
  - cbn in *. split; [lia|]. constructor; [unfold in_u; cbn; lia|done].
  - apply Forall_cons in Hl as [Hb Hl]. pose proof (sum_nonneg l Hl) as Hn. unfold sum_balances in *.
    case_bool_decide.
    + cbn [foldr be_balance]. rewrite wrap_u_small by (unfold in_u in *; lia).
      split; [lia|]. constructor; [unfold in_u in *; cbn; lia|done].
    + cbn [foldr]. unfold in_u in Hb. destruct IH as [IHs IHf]; [done|lia|]. split; [lia|by constructor].
Qed.

Lemma distribute_sum now amount ring l :
  0 ≤ amount → Forall (fun b => in_u 64 (be_balance b)) l →
  sum_balances l + Z.of_nat (length ring) * amount < 2 ^ 64 →
  sum_balances (foldl (credit now amount) l ring) = sum_balances l + Z.of_nat (length ring) * amount.
Proof.
  intros Ha. revert l. induction ring as [|seed ring IH]; intros l Hl Hs; [cbn [foldl length]; lia|].
  cbn [foldl length] in *. destruct (credit_sum now amount l seed) as [Hc Hf]; [done|done|nia|].
  rewrite IH; [lia|done|]. lia.
Qed.

Lemma credit_nodup now amount l seed :
  NoDup (be_address <$> l) → NoDup (be_address <$> credit now amount l seed).
Proof. apply upsert_nodup; done. Qed.

(** C16. Locking the ring shares out the reward without losing or inventing
    units: the balances grow in total by exactly (number of seeds) times the
    share, which is at most 1000 and leaves less than one unit per seed of it;
    no node gets a second account. *)
Theorem distribute_conserves now ring balances :
  Forall (fun b => in_u 64 (be_balance b)) balances → sum_balances balances + total_reward < 2 ^ 64 →
  let share := per_witness (length ring) in
  sum_balances (distribute now ring balances) = sum_balances balances + Z.of_nat (length ring) * share ∧
  Z.of_nat (length ring) * share ≤ total_reward ∧
  (ring ≠ [] → total_reward - Z.of_nat (length ring) * share < Z.of_nat (length ring)) ∧
  (NoDup (be_address <$> balances) → NoDup (be_address <$> distribute now ring balances)).
Proof.
  intros Hf Hs. cbn zeta. destruct (per_witness_bound ring) as [H0 H1]. split_and!; [|done| |].
  - apply distribute_sum; (done || lia).
  - intros Hr. unfold per_witness, total_reward in *. destruct ring as [|s ring]; [done|].
    cbn [length Nat.ltb Nat.leb] in *.
    pose proof (Z.mod_pos_bound 1000 (Z.of_nat (S (length ring))) ltac:(lia)) as Hm.
    pose proof (Z.div_mod 1000 (Z.of_nat (S (length ring))) ltac:(lia)). lia.
  - unfold distribute. generalize (per_witness (length ring)). intros amount Hn. clear Hf Hs H0 H1.
    revert balances Hn. induction ring as [|s ring IH]; intros l Hn; [done|]. apply IH. by apply credit_nodup.
Qed.

(** ** The witness list *)

Lemma upsert_witness_keys w l :
  we_address <$> upsert_witness w l =
  if bool_decide (we_address w ∈ we_address <$> l) then we_address <$> l else (we_address <$> l) ++ [we_address w].
Proof. by apply (upsert_keys we_address). Qed.

Lemma upsert_witness_has w l : NoDup (we_address <$> l) →
  w ∈ upsert_witness w l ∧ (∀ x, x ∈ upsert_witness w l → we_address x = we_address w → x = w).
Proof.
  unfold upsert_witness. induction l as [|y l IH]; cbn; intros Hn; [set_solver|].
  apply NoDup_cons in Hn as [Hy Hn]. destruct (IH Hn) as [H1 H2]. case_bool_decide as E.
  - split; [set_solver|]. intros x [->|Hx]%elem_of_cons Ex; [done|]. exfalso. apply Hy.
    rewrite E, <- Ex. apply list_elem_of_fmap. eauto.
  - split; [set_solver|]. intros x [->|Hx]%elem_of_cons Ex; [done|by apply H2].
Qed.

Lemma upsert_witness_other w l x :
  we_address x ≠ we_address w → x ∈ upsert_witness w l ↔ x ∈ l.
Proof. intros Hx. by apply (upsert_other we_address (we_address w)). Qed.

Lemma upsert_witness_nodup w l : NoDup (we_address <$> l) → NoDup (we_address <$> upsert_witness w l).
Proof. by apply (upsert_nodup we_address (we_address w)). Qed.

Lemma upsert_witnesses_other now i ring l x :
  (∀ s, s ∈ ring → sr_node_address s ≠ we_address x) → x ∈ upsert_witnesses now i ring l ↔ x ∈ l.
Proof.
  revert i l. induction ring as [|s ring IH]; intros i l Hx; [done|]. cbn [upsert_witnesses].
  rewrite IH by set_solver. apply upsert_witness_other. intros E. apply (Hx s); [set_solver|]. by rewrite E.
Qed.

Lemma upsert_witnesses_nodup now i ring l :
  NoDup (we_address <$> l) → NoDup (we_address <$> upsert_witnesses now i ring l).
Proof.
  revert i l. induction ring as [|s ring IH]; intros i l Hn; [done|]. by apply IH, upsert_witness_nodup.
Qed.

Lemma upsert_witnesses_last now i ring l pre s post :
  NoDup (we_address <$> l) → ring = pre ++ s :: post →
  (∀ s', s' ∈ post → sr_node_address s' ≠ sr_node_address s) →
  ∀ x, x ∈ upsert_witnesses now i ring l ∧ we_address x = sr_node_address s ↔
       x = witness_of now (i + length pre) s.
Proof.
  intros Hn -> Hpost. revert i l Hn. induction pre as [|p pre IH]; intros i l Hn x.
  - cbn [app upsert_witnesses length]. rewrite Nat.add_0_r.
    pose proof (upsert_witness_has (witness_of now i s) l Hn) as [Hin Huniq]. split.
    + intros [Hx Ex]. apply Huniq; [|done].
      apply upsert_witnesses_other in Hx; [done|]. intros s' Hs'. rewrite Ex. by apply Hpost.
    + intros ->. split; [|done]. apply upsert_witnesses_other; [|done]. intros s' Hs'. cbn. by apply Hpost.
  - cbn [app upsert_witnesses length]. replace (i + S (length pre))%nat with (S i + length pre)%nat by lia.
    apply IH. by apply upsert_witness_nodup.
Qed.

(** The witness list after a lock: a node of the ring has exactly one
    entry, active, whose seed address and rank are those of its last seed in
    the ring; nodes outside the ring keep theirs; no node is listed twice. *)
Theorem lock_updates_witnesses now ring l :
  NoDup (we_address <$> l) →
  NoDup (we_address <$> upsert_witnesses now 0 ring l) ∧
  (∀ pre s post, ring = pre ++ s :: post → (∀ s', s' ∈ post → sr_node_address s' ≠ sr_node_address s) →
     ∀ x, x ∈ upsert_witnesses now 0 ring l ∧ we_address x = sr_node_address s ↔ x = witness_of now (length pre) s) ∧
  (∀ x, (∀ s, s ∈ ring → sr_node_address s ≠ we_address x) → x ∈ upsert_witnesses now 0 ring l ↔ x ∈ l).
Proof.
  intros Hn. split_and!.
  - by apply upsert_witnesses_nodup.
  - intros pre s post Hr Hp x. by apply (upsert_witnesses_last now 0 ring l pre s post).
  - intros x Hx. by apply upsert_witnesses_other.
Qed.

(** ** Stability and dialling *)

Section behaviour.
Context `{Crates, !FrameCodecs, !HandshakeCodecs, !Codec TickCommand}.

Lemma run_note_stable_new h w :
  g_ring_hash (w_g w) ≠ Some h →
  note_stable h w = (false, set_w_g (set_g_ring_hash (Some h) (set_g_stable_count (Some 1) (w_g w))) w).
Proof.
  intros Hh. unfold note_stable. rewrite run_bind. cbn. by rewrite decide_False.
Qed.

(** A ring is locked at the second agreeing tick in a row, not at the
    first: a hash other than the remembered one starts the count over, the
    same hash again completes it, and any other hash in between undoes it. *)
Theorem stable_after_two_rounds (h h' : bytes) w :
  g_ring_hash (w_g w) ≠ Some h → h' ≠ h →
  let w1 := exec (note_stable h) w in
  eval (note_stable h) w = false ∧
  eval (note_stable h) w1 = true ∧
  eval (note_stable h') w1 = false ∧
  eval (note_stable h) (exec (note_stable h') w1) = false.
Proof.
  intros Hh Hne. cbn zeta. unfold exec, eval.
  rewrite (run_note_stable_new h w Hh). cbn [fst snd]. set (w1 := set_w_g _ w).
  assert (Hw1 : g_ring_hash (w_g w1) = Some h) by done.
  rewrite (run_note_stable_new h' w1) by (rewrite Hw1; congruence). cbn [fst snd].
  split; [done|]. split.
  - unfold note_stable. rewrite run_bind. cbn. by rewrite decide_True.
  - split; [done|]. rewrite run_note_stable_new; [done|]. cbn. congruence.
Qed.

(** A tick dials whom the handshake would not: a seed whose node is not
    marked connected is dialled, whoever it is, while the same seed in a
    gossip is left alone when it is this very node or when the tie-breaker
    leaves the call to the other side. *)
Theorem tick_ignores_tie_breaker c seed addr h w r :
  reg_of w = Some r → parse_sock (sr_address seed) = Some addr →
  is_connected (sr_node_address seed) r = false →
  w_tasks (exec (sync_witness_ring c (mk_seeds [seed] h)) w) =
    w_tasks w ++ [TConnect c addr (sr_node_address seed)] ∧
  (may_initiate (g_address (w_g w)) r (sr_node_address seed) = false →
   w_tasks (exec (connect_seed c seed) w) = w_tasks w).
Proof.
  intros Hr Hp Hc. split.
  2: { intros Hm. unfold connect_seed. do 2 (rewrite exec_bind; cbv beta).
       change (eval get_registry w) with (reg_of w). rewrite Hr.
       change (eval (get_g g_address) (exec get_registry w)) with (g_address (w_g w)). by rewrite Hm. }
  unfold sync_witness_ring. rewrite exec_bind.
  change (exec get_registry w) with w. change (eval get_registry w) with (reg_of w). rewrite Hr.
  cbn [sc_seeds for_each]. rewrite exec_bind. cbv beta. set (local := _ <$> _).
  assert (E : ∃ r', reg_of (exec (tick_register local seed ≫= fun _ => mret tt) w) = Some r' ∧
    is_connected (sr_node_address seed) r' = false ∧
    w_tasks (exec (tick_register local seed ≫= fun _ => mret tt) w) = w_tasks w).
  { rewrite exec_bind. change (exec (mret tt) ?x) with x. unfold tick_register, register_seed.
    case_bool_decide; [by exists r|]. rewrite Hp. unfold reg_of in Hr.
    destruct w as [[] ? ? ? ? ? ? ?]; cbn in Hr. destruct g_node as [n|]; [|done]. injection Hr as <-.
    eexists. split; [reflexivity|]. split; [|done].
    exact (eq_trans (is_connected_register _ _ _ _ Unknown _ _) Hc). }
  destruct E as (r' & Hr' & Hc' & Ht). set (w1 := exec _ w) in *.
  rewrite exec_bind. change (exec (mret tt) ?x) with x. unfold tick_connect. rewrite exec_bind.
  change (exec get_registry w1) with w1. change (eval get_registry w1) with (reg_of w1).
  rewrite Hr'. cbn [fmap option_fmap option_map default from_option]. rewrite Hc', Hp. cbn. by rewrite Ht.
Qed.
End behaviour.
