(* ===== verification/NodeSync.v ===== *)
(** * Node sync and witness validation

    - src/src/protocols/commands/node_sync.rs: a request is answered with what
      the application behind [REQUEST_SENDER] provides, or with a failure; a
      successful response is handed to the application;
    - src/src/protocols/commands/witness_validate.rs: a validation request is
      echoed, an echo becomes a [ValidationEvent].

    The channels are the statics in [Process]. *)

From S2P Require Import Prelude NetAddr External Command NodeRegistry Seeds World Frame Evolution Handshake.
Open Scope Z_scope.
Open Scope stdpp_scope.

Record WitnessValidateRequest := mk_validate_request { vq_sender_id : string; vq_nonce : bytes }.
Record WitnessValidateResponse := mk_validate_response { vp_sender_id : string; vp_nonce : bytes }.

Class SyncCodecs : Type := {
  #[global] codec_node_sync_request :: Codec NodeSyncRequest;
  #[global] codec_node_sync_response :: Codec NodeSyncResponse;
  #[global] codec_validate_request :: Codec WitnessValidateRequest;
  #[global] codec_validate_response :: Codec WitnessValidateResponse;
}.

(** The response when the application gives none. *)
Definition failure_response (request_id : string) : NodeSyncResponse :=
  mk_node_sync_response request_id false [] [] [] [] [].

Section definitions.
Context `{Crates, !FrameCodecs, !SyncCodecs}.

Definition node_sync_response_for (request_id : string) : M NodeSyncResponse :=
  tx ← get_process pr_request;
  mret match tx with
       | Some answer => default (failure_response request_id) (answer request_id)
       | None => failure_response request_id
       end.

Definition node_sync_handler (c : ctx_id) (frame : P2PFrame) (cmd : P2PCommand) : M unit :=
  match decode (T := NodeSyncRequest) (cmd_data cmd) with
  | Err _ => mret tt
  | Ok request =>
      response ← node_sync_response_for (nq_request_id request);
      send_ c (Some response) Node Command.NodeSyncResponse false
  end.

Definition node_sync_response_handler (c : ctx_id) (frame : P2PFrame) (cmd : P2PCommand) : M unit :=
  match decode (T := NodeSyncResponse) (cmd_data cmd) with
  | Err _ => mret tt
  | Ok response =>
      if negb (np_success response) then mret tt
      else mod_process (fun p => mk_process (pr_request p)
                                   ((fun l => l ++ [response]) <$> pr_response p) (pr_validation p))
  end.

Definition request_node_sync (c : ctx_id) (node_id sync_type : string) : M (result unit) :=
  request_id ← draw_uuid;
  send c (Some (mk_node_sync_request request_id node_id sync_type)) Node Command.NodeSyncRequest false.

Definition set_request_sender (tx : string → option NodeSyncResponse) : M unit :=
  mod_process (fun p => mk_process (Some tx) (pr_response p) (pr_validation p)).
Definition set_response_sender : M unit :=
  mod_process (fun p => mk_process (pr_request p) (Some []) (pr_validation p)).

(** [OnceCell::set]: the first registration stays. *)
Definition set_validation_event_sender (capacity : nat) : M unit :=
  mod_process (fun p => match pr_validation p with
                        | Some _ => p
                        | None => mk_process (pr_request p) (pr_response p) (Some (capacity, []))
                        end).

Definition witness_validate_handler (c : ctx_id) (frame : P2PFrame) (cmd : P2PCommand) : M unit :=
  match decode (T := WitnessValidateRequest) (cmd_data cmd) with
  | Err _ => mret tt
  | Ok req =>
      let sender_id := fb_address (pf_body frame) in
      send_ c (Some (mk_validate_response sender_id (vq_nonce req))) Witness ValidateAck false
  end.

(** [tx.try_send(event)]: a full channel drops the event. *)
Definition witness_validate_ack_handler (c : ctx_id) (frame : P2PFrame) (cmd : P2PCommand) : M unit :=
  match decode (T := WitnessValidateResponse) (cmd_data cmd) with
  | Err _ => mret tt
  | Ok resp =>
      mod_process (fun p => match pr_validation p with
                            | Some (capacity, l) =>
                                if (length l <? capacity)%nat
                                then mk_process (pr_request p) (pr_response p)
                                       (Some (capacity, l ++ [mk_validation_event (vp_sender_id resp) true]))
                                else p
                            | None => p
                            end)
  end.

Definition send_validate_request (c : ctx_id) (sender_id : string) (nonce : bytes) : M (result unit) :=
  send c (Some (mk_validate_request sender_id nonce)) Witness Validate false.

(** The closure [online_handler] spawns; the error is logged. *)
Definition run_node_sync (c : ctx_id) (peer : string) : M unit :=
  request_node_sync c peer "full" ;; mret tt.
End definitions.

Section steps.
Context `{Crates, !FrameCodecs, !SyncCodecs}.

Lemma respects_mod_process f : respects world_le (mod_process f).
Proof. intros w. by split. Qed.
#[local] Hint Resolve respects_mod_process : respects.
Lemma io_node_sync_handler c f cmd : respects io_step (node_sync_handler c f cmd).
Proof.
  unfold node_sync_handler, node_sync_response_for, get_process. destruct (decode _); respects_tac.
Qed.
Lemma world_node_sync_response_handler c f cmd : respects world_le (node_sync_response_handler c f cmd).
Proof. unfold node_sync_response_handler. destruct (decode _); respects_tac. Qed.
Lemma io_run_node_sync c p : respects io_step (run_node_sync c p).
Proof. unfold run_node_sync, request_node_sync. respects_tac. Qed.
Lemma io_witness_validate_handler c f cmd : respects io_step (witness_validate_handler c f cmd).
Proof. unfold witness_validate_handler. destruct (decode _); respects_tac. Qed.
Lemma world_witness_validate_ack_handler c f cmd : respects world_le (witness_validate_ack_handler c f cmd).
Proof. unfold witness_validate_ack_handler. destruct (decode _); respects_tac. Qed.
End steps.
#[export] Hint Resolve io_node_sync_handler world_node_sync_response_handler io_run_node_sync
  io_witness_validate_handler world_witness_validate_ack_handler : respects.

(** ** Properties *)

Section properties.
Context `{Crates, !FrameCodecs, !SyncCodecs}.

(** A send whose error is dropped: nothing, or one frame to one connection. *)
Definition sent_one {C} `{Codec C} (c : ctx_id) (x : C) (e : Entity) (a : Action) (w w' : World) : Prop :=
  w_ctx w' = w_ctx w ∨
  ∃ addr pay f raw, g_address (w_g w) = Some addr ∧ encode x = Ok pay ∧ verify_bytes raw = Ok f ∧
    frame_carries addr (mk_command e a pay) 1 f ∧
    ctx_out (w_ctx w' c) = ctx_out (w_ctx w c) ++ (if ctx_writer (w_ctx w c) then [raw] else []) ∧
    ∀ c', c' ≠ c → w_ctx w' c' = w_ctx w c'.

Lemma send_one `{!FrameCodecsLaws, !AccountLaws} {C} `{Codec C} c (x : C) e a w :
  sent_one c x e a w (exec (send_ c (Some x) e a false) w).
Proof.
  unfold send_. rewrite exec_bind. change (exec (mret tt) ?y) with y.
  destruct (send c (Some x) e a false w) as [r w'] eqn:E. unfold exec. rewrite E. cbn [snd].
  destruct (send_effect _ _ _ _ _ _ _ _ E) as [Hr _]. destruct r as [[]|err]; [|by left].
  destruct Hr as (addr & data & pay & f & raw & Ha & Hd & Hp & Hv & Hf & Ho & Hc). right.
  unfold sent_payload in Hp. cbn in Hd.
  assert (data = pay) as -> by (destruct (g_psk (w_g w)); congruence).
  by exists addr, pay, f, raw.
Qed.

(** A sync request is answered with one response on its own connection:
    the one the application gives, and otherwise a failure that carries the
    request's id and no data; the handler leaves the node's state alone. *)
Theorem node_sync_answers `{!FrameCodecsLaws, !AccountLaws} c frame cmd request w :
  decode (cmd_data cmd) = Ok request →
  let w' := exec (node_sync_handler c frame cmd) w in
  let id := nq_request_id request in
  ∃ response, sent_one c response Node Command.NodeSyncResponse w w' ∧
    (response = failure_response id ∨ ∃ answer, pr_request (w_process w) = Some answer ∧ answer id = Some response) ∧
    (pr_request (w_process w) = None → response = failure_response id) ∧
    g_node (w_g w') = g_node (w_g w).
Proof.
  intros Hd. cbn zeta. unfold node_sync_handler. rewrite Hd, exec_bind.
  change (exec (node_sync_response_for _) w) with w. set (response := eval _ w).
  exists response. split; [apply send_one|]. split; [|split].
  - unfold response, node_sync_response_for. rewrite eval_bind.
    change (eval (get_process pr_request) w) with (pr_request (w_process w)).
    destruct (pr_request (w_process w)) as [answer|]; [|by left]. cbn.
    destruct (answer (nq_request_id request)) eqn:E; [right|by left]. by exists answer.
  - intros Hn. unfold response, node_sync_response_for. rewrite eval_bind.
    change (eval (get_process pr_request) w) with (pr_request (w_process w)). by rewrite Hn.
  - pose proof (io_g _ _ _ (respects_send_ c (Some response) Node Command.NodeSyncResponse false w)) as Hg.
    by apply (f_equal g_node) in Hg.
Qed.

(** Validation proves nothing about the validated node: the answer to a
    request names the node that asked, because it takes the name from the
    request's own frame; and any acknowledgement, with any nonce and from
    any connection, is reported as a success of whatever node it names. *)
Theorem validation_is_unbound `{!FrameCodecsLaws, !AccountLaws} c frame cmd w :
  (∀ req, decode (cmd_data cmd) = Ok req →
     sent_one c (mk_validate_response (fb_address (pf_body frame)) (vq_nonce req)) Witness ValidateAck w
       (exec (witness_validate_handler c frame cmd) w)) ∧
  (∀ resp capacity l, decode (cmd_data cmd) = Ok resp → pr_validation (w_process w) = Some (capacity, l) →
     (length l < capacity)%nat →
     pr_validation (w_process (exec (witness_validate_ack_handler c frame cmd) w)) =
       Some (capacity, l ++ [mk_validation_event (vp_sender_id resp) true])).
Proof.
  split.
  - intros req Hd. unfold witness_validate_handler. rewrite Hd. apply send_one.
  - intros resp capacity l Hd Hp Hl. unfold witness_validate_ack_handler. rewrite Hd.
    unfold exec, mod_process, modify. cbn [snd w_process set_w_process]. rewrite Hp.
    by rewrite (proj2 (Nat.ltb_lt _ _) Hl).
Qed.
End properties.
