(* ===== verification/SyncChannel.v ===== *)
(** * The channel between node_sync_handler and the application

    src/src/protocols/commands/node_sync.rs passes a request to the
    application over a channel of capacity one, with a channel of its own for
    the answer, and waits. [NodeSync] takes that for one step; here are the
    steps in between: any number of handlers at once, an application that
    receives, answers, forgets and may go away. What the handlers answer is
    what the one step answers, no request gets the answer of another, and
    nobody waits for ever on an application that goes on. *)

From S2P Require Import Prelude External World Frame NodeSync.
Open Scope Z_scope.
Open Scope stdpp_scope.

(** [SyncRequest]: the request id and the handler that owns the receiving end
    of [response_tx]. *)
Record SyncRequest := mk_sync_request { sq_request_id : string; sq_response_tx : nat }.

(** How far the handler of a request is. *)
Inductive stage :=
| Called
| Sending
| Waiting
| Answered (response : NodeSyncResponse).

(** A oneshot channel: the sender still there, a value sent, the sender
    dropped without. *)
Inductive oneshot := Open | Sent (response : NodeSyncResponse) | Closed.

Record Channels := mk_channels {
  (** the request ids of the handlers and how far they are *)
  ch_handlers : list (string * stage);
  ch_oneshots : list oneshot;
  (** [mpsc::channel(1)]: what is in it, and whether the receiver is there *)
  ch_queue : list SyncRequest;
  ch_receiver : bool;
  (** requests the application has received and not settled *)
  ch_held : list SyncRequest;
}.

(** [get_request_receiver], [get_response_receiver] *)
Definition CAPACITY : nat := 1.
Definition get_request_receiver (ids : list string) : Channels :=
  mk_channels ((fun id => (id, Called)) <$> ids) ((fun _ => Open) <$> ids) [] true [].

Definition set_stage (i : nat) (s : stage) (l : list (string * stage)) : list (string * stage) :=
  alter (fun h => (h.1, s)) i l.
Definition drop_sender (q : SyncRequest) (l : list oneshot) : list oneshot := <[sq_response_tx q := Closed]> l.

(** [tx_option]: whether [REQUEST_SENDER] is set when the handler looks;
    [answers]: what the application may answer to a request id. *)
Inductive channel_step (answers : string → NodeSyncResponse → Prop) (s : Channels) : Channels → Prop :=
| look_none i id :
    ch_handlers s !! i = Some (id, Called) →
    channel_step answers s (mk_channels (set_stage i (Answered (failure_response id)) (ch_handlers s))
      (ch_oneshots s) (ch_queue s) (ch_receiver s) (ch_held s))
| look_some i id :
    ch_handlers s !! i = Some (id, Called) →
    channel_step answers s (mk_channels (set_stage i Sending (ch_handlers s))
      (ch_oneshots s) (ch_queue s) (ch_receiver s) (ch_held s))
| send_refused i id :
    ch_handlers s !! i = Some (id, Sending) → ch_receiver s = false →
    channel_step answers s (mk_channels (set_stage i (Answered (failure_response id)) (ch_handlers s))
      (ch_oneshots s) (ch_queue s) (ch_receiver s) (ch_held s))
| send_request i id :
    ch_handlers s !! i = Some (id, Sending) → ch_receiver s = true → (length (ch_queue s) < CAPACITY)%nat →
    channel_step answers s (mk_channels (set_stage i Waiting (ch_handlers s))
      (ch_oneshots s) (ch_queue s ++ [mk_sync_request id i]) true (ch_held s))
| receive_request q rest :
    ch_receiver s = true → ch_queue s = q :: rest →
    channel_step answers s (mk_channels (ch_handlers s) (ch_oneshots s) rest true (q :: ch_held s))
| close_receiver :
    ch_receiver s = true →
    channel_step answers s (mk_channels (ch_handlers s) (foldr drop_sender (ch_oneshots s) (ch_queue s)) [] false (ch_held s))
| answer_request l1 q l2 r :
    ch_held s = l1 ++ q :: l2 → answers (sq_request_id q) r →
    channel_step answers s (mk_channels (ch_handlers s) (<[sq_response_tx q := Sent r]> (ch_oneshots s))
      (ch_queue s) (ch_receiver s) (l1 ++ l2))
| drop_request l1 q l2 :
    ch_held s = l1 ++ q :: l2 →
    channel_step answers s (mk_channels (ch_handlers s) (drop_sender q (ch_oneshots s))
      (ch_queue s) (ch_receiver s) (l1 ++ l2))
| response_received i id r :
    ch_handlers s !! i = Some (id, Waiting) → ch_oneshots s !! i = Some (Sent r) →
    channel_step answers s (mk_channels (set_stage i (Answered r) (ch_handlers s))
      (ch_oneshots s) (ch_queue s) (ch_receiver s) (ch_held s))
| sender_dropped i id :
    ch_handlers s !! i = Some (id, Waiting) → ch_oneshots s !! i = Some Closed →
    channel_step answers s (mk_channels (set_stage i (Answered (failure_response id)) (ch_handlers s))
      (ch_oneshots s) (ch_queue s) (ch_receiver s) (ch_held s)).

(** ** The abstract handler: one step from the call to the answer *)

Definition answer_of (s : stage) : option NodeSyncResponse := match s with Answered r => Some r | _ => None end.
Definition abstract (s : Channels) : list (string * option NodeSyncResponse) :=
  (fun h => (h.1, answer_of h.2)) <$> ch_handlers s.

Inductive answer_step (answers : string → NodeSyncResponse → Prop) (l : list (string * option NodeSyncResponse)) :
    list (string * option NodeSyncResponse) → Prop :=
| answered_with i id r :
    l !! i = Some (id, None) → r = failure_response id ∨ answers id r →
    answer_step answers l (<[i := (id, Some r)]> l).

(** ** The invariant *)

Definition pending (s : Channels) : list SyncRequest := ch_queue s ++ ch_held s.

Record channel_inv (answers : string → NodeSyncResponse → Prop) (s : Channels) : Prop := {
  ci_pending q : q ∈ pending s →
    ch_handlers s !! sq_response_tx q = Some (sq_request_id q, Waiting) ∧ ch_oneshots s !! sq_response_tx q = Some Open;
  ci_nodup : NoDup (sq_response_tx <$> pending s);
  ci_early i id st : ch_handlers s !! i = Some (id, st) → st = Called ∨ st = Sending → ch_oneshots s !! i = Some Open;
  ci_waiting i id : ch_handlers s !! i = Some (id, Waiting) →
    ∃ o, ch_oneshots s !! i = Some o ∧ (o = Open → i ∈ sq_response_tx <$> pending s) ∧
         ∀ r, o = Sent r → answers id r;
  ci_answered i id r : ch_handlers s !! i = Some (id, Answered r) → r = failure_response id ∨ answers id r;
  ci_capacity : (length (ch_queue s) ≤ CAPACITY)%nat;
  ci_closed : ch_receiver s = false → ch_queue s = [];
}.

Lemma set_stage_at i st id st0 l : l !! i = Some (id, st0) → set_stage i st l !! i = Some (id, st).
Proof. intros E. unfold set_stage. by rewrite list_lookup_alter_eq, E. Qed.
Lemma set_stage_ne i j st l : i ≠ j → set_stage i st l !! j = l !! j.
Proof. apply list_lookup_alter_ne. Qed.
Lemma set_stage_inv i st id st0 l j x :
  l !! i = Some (id, st0) → set_stage i st l !! j = Some x → (j = i ∧ x = (id, st)) ∨ (j ≠ i ∧ l !! j = Some x).
Proof.
  intros E Ej. destruct (decide (j = i)) as [->|Hne]; [left|right; by rewrite set_stage_ne in Ej].
  rewrite (set_stage_at _ _ _ _ _ E) in Ej. by injection Ej as <-.
Qed.

Lemma oneshot_at i o o' (l : list oneshot) : l !! i = Some o → <[i := o']> l !! i = Some o'.
Proof. intros E. apply list_lookup_insert_eq. by eapply lookup_lt_Some. Qed.

Section steps.
Context (answers : string → NodeSyncResponse → Prop).

Lemma inv_init ids : channel_inv answers (get_request_receiver ids).
Proof.
  assert (H : ∀ i id st, (((fun id => (id, Called)) <$> ids) : list (string * stage)) !! i = Some (id, st) →
    st = Called ∧ ((fun _ => Open) <$> ids) !! i = Some Open).
  { intros i id st. rewrite !list_lookup_fmap. destruct (ids !! i); [|done]. by intros [= <- <-]. }
  split; cbn.
  - by intros q ?%elem_of_nil.
  - constructor.
  - intros i id st E _. by apply H in E as [_ ->].
  - intros i id E. by apply H in E as [? _].
  - intros i id r E. by apply H in E as [? _].
  - lia.
  - done.
Qed.

(** A handler that is not waiting moves on. *)
Lemma inv_move s i id st st' :
  channel_inv answers s → ch_handlers s !! i = Some (id, st) → st ≠ Waiting → st' ≠ Waiting → st' ≠ Called →
  (st = Called ∨ st = Sending ∨ st' ≠ Sending) →
  (∀ r, st' = Answered r → r = failure_response id ∨ answers id r) →
  channel_inv answers (mk_channels (set_stage i st' (ch_handlers s)) (ch_oneshots s) (ch_queue s) (ch_receiver s) (ch_held s)).
Proof.
  intros [Hp Hn He Hw Ha Hc Hr] E Hst Hst' Hnc Hse Hans. unfold pending in *. split; cbn [ch_handlers ch_oneshots ch_queue ch_receiver ch_held]; unfold pending;
    cbn [ch_handlers ch_oneshots ch_queue ch_receiver ch_held]; try done.
  - intros q Hq. destruct (Hp q Hq) as [Eq Eo]. split; [|done]. rewrite set_stage_ne; [done|]. intros ->. congruence.
  - intros j id' st2 Ej Hj. apply (set_stage_inv _ _ _ _ _ _ _ E) in Ej as [[-> [= -> ->]]|[_ Ej]]; [|by eapply He].
    destruct Hj as [->| ->]; [done|]. destruct Hse as [Hs|[Hs|Hs]]; [by eapply He; [|left]|by eapply He; [|right]|done].
  - intros j id' Ej. apply (set_stage_inv _ _ _ _ _ _ _ E) in Ej as [[-> [= -> <-]]|[_ Ej]]; [done|by apply Hw].
  - intros j id' r Ej. apply (set_stage_inv _ _ _ _ _ _ _ E) in Ej as [[-> [= -> <-]]|[_ Ej]]; [by apply Hans|by eapply Ha].
Qed.

(** A waiting handler takes what its oneshot says. *)
Lemma inv_settle s i id r :
  channel_inv answers s → ch_handlers s !! i = Some (id, Waiting) → ch_oneshots s !! i ≠ Some Open →
  r = failure_response id ∨ answers id r →
  channel_inv answers (mk_channels (set_stage i (Answered r) (ch_handlers s)) (ch_oneshots s) (ch_queue s) (ch_receiver s) (ch_held s)).
Proof.
  intros [Hp Hn He Hw Ha Hc Hr] E Ho Hans. split; unfold pending in *; cbn [ch_handlers ch_oneshots ch_queue ch_receiver ch_held] in *; try done.
  - intros q Hq. destruct (Hp q Hq) as [Eq Eo]. split; [|done]. rewrite set_stage_ne; [done|]. intros ->. congruence.
  - intros j id' st2 Ej Hj. apply (set_stage_inv _ _ _ _ _ _ _ E) in Ej as [[-> [= -> ->]]|[_ Ej]]; [naive_solver|by eapply He].
  - intros j id' Ej. apply (set_stage_inv _ _ _ _ _ _ _ E) in Ej as [[-> [= ->]]|[_ Ej]]; by apply Hw.
  - intros j id' r' Ej. apply (set_stage_inv _ _ _ _ _ _ _ E) in Ej as [[-> [= -> ->]]|[_ Ej]]; [done|by eapply Ha].
Qed.

(** A pending request is settled, by an answer or by being dropped. *)
Lemma inv_resolve s q o queue receiver held :
  channel_inv answers s → pending s ≡ₚ q :: queue ++ held → o ≠ Open → (∀ r, o = Sent r → answers (sq_request_id q) r) →
  (length queue ≤ CAPACITY)%nat → (receiver = false → queue = []) →
  channel_inv answers (mk_channels (ch_handlers s) (<[sq_response_tx q := o]> (ch_oneshots s)) queue receiver held).
Proof.
  intros [Hp Hn He Hw Ha _ _] Hperm Ho Hans Hc Hr.
  assert (Hq : q ∈ pending s) by (rewrite Hperm; left). destruct (Hp q Hq) as [Eq Eo].
  rewrite Hperm, fmap_cons in Hn. apply NoDup_cons in Hn as [Hnq Hn].
  split; unfold pending; cbn [ch_handlers ch_oneshots ch_queue ch_receiver ch_held]; try done.
  - intros q' Hq'. assert (Hne : sq_response_tx q ≠ sq_response_tx q') by (intros Eqq; apply Hnq; rewrite Eqq; by apply list_elem_of_fmap_2).
    destruct (Hp q') as [Eq' Eo']; [rewrite Hperm; by right|]. split; [done|]. by rewrite list_lookup_insert_ne.
  - intros i id st Ei Hst. destruct (decide (sq_response_tx q = i)) as [<-|Hne]; [naive_solver|].
    rewrite list_lookup_insert_ne by done. by eapply He.
  - intros i id Ei. destruct (decide (sq_response_tx q = i)) as [<-|Hne].
    + exists o. rewrite (oneshot_at _ _ _ _ Eo). split_and!; [done|done|]. intros r ->. rewrite Eq in Ei. injection Ei as <-. by apply Hans.
    + destruct (Hw i id Ei) as (o' & Eo' & Hopen & Hsent). exists o'. rewrite list_lookup_insert_ne by done. split_and!; [done| |done].
      intros Hop. specialize (Hopen Hop). rewrite Hperm, fmap_cons in Hopen. by apply elem_of_cons in Hopen as [->|].
Qed.

(** The request goes into the channel. *)
Lemma inv_send s i id :
  channel_inv answers s → ch_handlers s !! i = Some (id, Sending) → ch_receiver s = true →
  (length (ch_queue s) < CAPACITY)%nat →
  channel_inv answers (mk_channels (set_stage i Waiting (ch_handlers s)) (ch_oneshots s)
    (ch_queue s ++ [mk_sync_request id i]) true (ch_held s)).
Proof.
  intros [Hp Hn He Hw Ha Hc Hr] E Hrec Hlen. assert (Eo : ch_oneshots s !! i = Some Open) by (eapply He; [done|by right]).
  assert (Hi : i ∉ sq_response_tx <$> pending s).
  { intros (q & -> & Hq)%list_elem_of_fmap. destruct (Hp q Hq) as [Eq _]. congruence. }
  assert (Hperm : (ch_queue s ++ [mk_sync_request id i]) ++ ch_held s ≡ₚ mk_sync_request id i :: pending s).
  { unfold pending. rewrite <- (assoc_L (++)). cbn. by rewrite <- Permutation_middle. }
  split; unfold pending; cbn [ch_handlers ch_oneshots ch_queue ch_receiver ch_held].
  - intros q. rewrite Hperm. intros [->|Hq]%elem_of_cons; [cbn; by rewrite (set_stage_at _ _ _ _ _ E)|].
    destruct (Hp q Hq) as [Eq Eoq]. split; [|done]. rewrite set_stage_ne; [done|]. intros ->. congruence.
  - rewrite Hperm. cbn. by constructor.
  - intros j id' st Ej Hj. apply (set_stage_inv _ _ _ _ _ _ _ E) in Ej as [[-> [= -> ->]]|[_ Ej]]; [naive_solver|by eapply He].
  - intros j id' Ej. apply (set_stage_inv _ _ _ _ _ _ _ E) in Ej as [[-> [= ->]]|[_ Ej]].
    + exists Open. split_and!; [done|intros _; rewrite Hperm, fmap_cons; left|done].
    + destruct (Hw j id' Ej) as (o & Eo' & Ho & Hs). exists o. split_and!; [done| |done]. intros Hop. rewrite Hperm, fmap_cons. right. by apply Ho.
  - intros j id' r Ej. apply (set_stage_inv _ _ _ _ _ _ _ E) in Ej as [[-> [= ]]|[_ Ej]]. by eapply Ha.
  - rewrite length_app. cbn. lia.
  - done.
Qed.

(** Requests on their way to the application stay pending. *)
Lemma inv_pass s queue held :
  channel_inv answers s → pending s ≡ₚ queue ++ held → (length queue ≤ CAPACITY)%nat → (ch_receiver s = false → queue = []) →
  ∀ receiver, (receiver = false → queue = []) →
  channel_inv answers (mk_channels (ch_handlers s) (ch_oneshots s) queue receiver held).
Proof.
  intros [Hp Hn He Hw Ha _ _] Hperm Hc _ receiver Hr. split; unfold pending; cbn [ch_handlers ch_oneshots ch_queue ch_receiver ch_held]; try done.
  - intros q Hq. apply Hp. by rewrite Hperm.
  - by rewrite <- Hperm.
  - intros i id Ei. destruct (Hw i id Ei) as (o & Eo & Ho & Hs). exists o. by rewrite <- Hperm.
Qed.

Lemma inv_step s s' : channel_inv answers s → channel_step answers s s' → channel_inv answers s'.
Proof.
  intros Hi [i id E|i id E|i id E Hr|i id E Hr Hl|q rest Hr Eq|Hr|l1 q l2 r Eh Ha|l1 q l2 Eh|i id r E Eo|i id E Eo].
  - eapply inv_move; eauto; [naive_solver..|]. intros r [= <-]. by left.
  - eapply inv_move; eauto; naive_solver.
  - eapply inv_move; eauto; [naive_solver..|]. intros r [= <-]. by left.
  - by apply inv_send.
  - pose proof (ci_capacity _ _ Hi) as Hc. rewrite Eq in Hc. cbn in Hc.
    apply inv_pass; [done| |lia|congruence|done]. unfold pending. rewrite Eq. cbn. apply Permutation_middle.
  - pose proof (ci_capacity _ _ Hi) as Hc. destruct (ch_queue s) as [|q [|q' l]] eqn:Eq; [| |cbn in Hc; unfold CAPACITY in Hc; lia]; cbn.
    + apply inv_pass; [done|unfold pending; by rewrite Eq|cbn; lia|done|done].
    + apply inv_resolve; [done|unfold pending; by rewrite Eq|done|done|cbn; lia|done].
  - apply inv_resolve; [done| |done|by intros ? [= <-]|by eapply ci_capacity|by eapply ci_closed].
    unfold pending. by rewrite Eh, <- !Permutation_middle.
  - apply inv_resolve; [done| |done|done|by eapply ci_capacity|by eapply ci_closed].
    unfold pending. by rewrite Eh, <- !Permutation_middle.
  - apply (inv_settle s i id r Hi E); [congruence|]. right. destruct (ci_waiting _ _ Hi i id E) as (o & Eo' & _ & Hs). apply Hs. congruence.
  - apply (inv_settle s i id _ Hi E); [congruence|by left].
Qed.

(** ** Refinement *)

Lemma abstract_move s i id st0 st q o b h :
  ch_handlers s !! i = Some (id, st0) →
  abstract (mk_channels (set_stage i st (ch_handlers s)) o q b h) = <[i := (id, answer_of st)]> (abstract s).
Proof.
  intros E. unfold abstract. cbn. apply list_eq. intros j. destruct (decide (j = i)) as [->|Hne].
  - rewrite list_lookup_insert_eq by (rewrite length_fmap; by eapply lookup_lt_Some).
    by rewrite list_lookup_fmap, (set_stage_at _ _ _ _ _ E).
  - rewrite list_lookup_insert_ne by done. by rewrite !list_lookup_fmap, set_stage_ne.
Qed.

Lemma abstract_lookup s i id st : ch_handlers s !! i = Some (id, st) → abstract s !! i = Some (id, answer_of st).
Proof. intros E. unfold abstract. by rewrite list_lookup_fmap, E. Qed.

Lemma abstract_still s i id st0 st q o b h :
  ch_handlers s !! i = Some (id, st0) → answer_of st0 = None → answer_of st = None →
  abstract (mk_channels (set_stage i st (ch_handlers s)) o q b h) = abstract s.
Proof.
  intros E H0 H1. rewrite (abstract_move _ _ _ _ _ _ _ _ _ E), H1. apply list_insert_id.
  by rewrite (abstract_lookup _ _ _ _ E), H0.
Qed.

Lemma abstract_answer s i id st0 r q o b h :
  ch_handlers s !! i = Some (id, st0) → answer_of st0 = None → r = failure_response id ∨ answers id r →
  answer_step answers (abstract s) (abstract (mk_channels (set_stage i (Answered r) (ch_handlers s)) o q b h)).
Proof.
  intros E H0 Hr. rewrite (abstract_move _ _ _ _ _ _ _ _ _ E). apply answered_with; [|done].
  by rewrite (abstract_lookup _ _ _ _ E), H0.
Qed.

Lemma step_simulated s s' :
  channel_inv answers s → channel_step answers s s' → abstract s' = abstract s ∨ answer_step answers (abstract s) (abstract s').
Proof.
  intros Hi [i id E|i id E|i id E Hr|i id E Hr Hl|q rest Hr Eq|Hr|l1 q l2 r Eh Ha|l1 q l2 Eh|i id r E Eo|i id E Eo];
    try (by left); try (left; by eapply abstract_still); right; eapply abstract_answer; eauto.
  right. destruct (ci_waiting _ _ Hi i id E) as (o & Eo' & _ & Hs). apply Hs. congruence.
Qed.

(** ** Progress *)

Definition weight (st : stage) : nat := match st with Called => 6 | Sending => 5 | Waiting => 1 | Answered _ => 0 end.
Definition measure (s : Channels) : nat :=
  sum_list_with (fun h => weight h.2) (ch_handlers s) + 2 * length (ch_queue s) + length (ch_held s) +
  (if ch_receiver s then 1 else 0).

Lemma weight_moved i id st0 st l :
  l !! i = Some (id, st0) →
  (sum_list_with (fun h => weight h.2) (set_stage i st l) + weight st0 = sum_list_with (fun h => weight h.2) l + weight st)%nat.
Proof.
  revert i. induction l as [|h l IH]; intros [|i]; cbn; [done|done| |].
  - intros [= ->]. cbn. lia.
  - intros E. specialize (IH i E). unfold set_stage in IH. lia.
Qed.

Lemma measure_init ids : measure (get_request_receiver ids) = (6 * length ids + 1)%nat.
Proof.
  unfold measure, get_request_receiver. cbn [ch_handlers ch_queue ch_held ch_receiver length].
  assert (E : sum_list_with (fun h => weight h.2) ((fun id => (id, Called)) <$> ids) = (6 * length ids)%nat); [|lia].
  induction ids as [|id ids IH]; [done|]. rewrite fmap_cons. cbn [sum_list_with weight snd length]. lia.
Qed.

Lemma step_measure s s' : channel_step answers s s' → (measure s' < measure s)%nat.
Proof.
  unfold measure. intros [i id E|i id E|i id E Hr|i id E Hr Hl|q rest Hr Eq|Hr|l1 q l2 r Eh Ha|l1 q l2 Eh|i id r E Eo|i id E Eo];
    cbn [ch_handlers ch_oneshots ch_queue ch_receiver ch_held];
    try (match goal with |- context [set_stage i ?st _] => pose proof (weight_moved _ _ _ st _ E) as Hm; cbn [weight] in Hm end);
    rewrite ?length_app; cbn [length]; try (rewrite Hr in *); try (rewrite Eq in *); try (rewrite Eh, ?length_app in *); cbn [length] in *; try lia.
Qed.

(** Unless every handler has answered there is a step, also without the
    application going away. *)
Lemma step_possible s i id st :
  channel_inv answers s → ch_handlers s !! i = Some (id, st) → answer_of st = None → ∃ s', channel_step answers s s'.
Proof.
  intros Hi E Hst. destruct st as [| | |r]; [by eexists; eapply look_some| | |done].
  - destruct (ch_receiver s) eqn:Hr; [|by eexists; eapply send_refused].
    destruct (ch_queue s) as [|q l] eqn:Eq; [|by eexists; eapply receive_request].
    eexists. eapply send_request; [done|done|]. rewrite Eq. cbn. unfold CAPACITY. lia.
  - destruct (ci_waiting _ _ Hi i id E) as (o & Eo & Hopen & _). destruct o as [|r|].
    + specialize (Hopen eq_refl). unfold pending in Hopen. rewrite fmap_app in Hopen. apply elem_of_app in Hopen as [Hq|Hh].
      * destruct (ch_queue s) as [|q l] eqn:Eq; [by apply elem_of_nil in Hq|]. destruct (ch_receiver s) eqn:Hr.
        -- by eexists; eapply receive_request.
        -- pose proof (ci_closed _ _ Hi Hr). congruence.
      * apply list_elem_of_fmap in Hh as (q & _ & Hq). apply list_elem_of_split in Hq as (l1 & l2 & Eh).
        by eexists; eapply drop_request.
    + by eexists; eapply response_received.
    + by eexists; eapply sender_dropped.
Qed.
End steps.

(** ** Every run *)

Section runs.
Context `{Crates, !FrameCodecs, !SyncCodecs} (answers : string → NodeSyncResponse → Prop).

Lemma run_inv k s s' : nsteps (channel_step answers) k s s' → channel_inv answers s →
  channel_inv answers s' ∧ rtc (answer_step answers) (abstract s) (abstract s') ∧ (k + measure s' ≤ measure s)%nat.
Proof.
  induction 1 as [s|k s s1 s2 Hs Hk IH]; intros Hi; [split_and!; [done|done|lia]|].
  destruct (IH (inv_step _ _ _ Hi Hs)) as (Hi2 & Hr & Hm). pose proof (step_measure _ _ _ Hs).
  split_and!; [done| |lia]. destruct (step_simulated _ _ _ Hi Hs) as [<-|Ha]; [done|by eapply rtc_l].
Qed.

Lemma answers_keep_ids l l' : rtc (answer_step answers) l l' → l'.*1 = l.*1.
Proof.
  induction 1 as [|l l1 l2 [i id r E _] _ IH]; [done|]. rewrite IH, list_fmap_insert. apply list_insert_id.
  by rewrite list_lookup_fmap, E.
Qed.

Definition called (ids : list string) : list (string * option NodeSyncResponse) := (fun id => (id, None)) <$> ids.

(** C12. The channel keeps the promise of the one-step handler. Whatever handlers
    and application do, in whatever order: the handlers are a run of handlers
    that each answer in one step, with the failure or with an answer of the
    application to their own request - what [node_sync_response_for] gives for
    some registered application; the channel never holds more than one
    request; there are at most six steps for each handler and one for the
    application going away; and when nothing can happen any more every handler
    has answered. *)
Theorem sync_channel_refines ids k s :
  nsteps (channel_step answers) k (get_request_receiver ids) s →
  rtc (answer_step answers) (called ids) (abstract s) ∧
  (length (ch_queue s) ≤ 1)%nat ∧ (k ≤ 6 * length ids + 1)%nat ∧
  ((∀ s', ¬ channel_step answers s s') → ∀ i id, ids !! i = Some id → ∃ r, abstract s !! i = Some (id, Some r)) ∧
  (∀ i id r, abstract s !! i = Some (id, Some r) → ids !! i = Some id ∧
     ∃ p, (∀ answer j x, pr_request p = Some answer → answer j = Some x → answers j x) ∧
          ∀ w, eval (node_sync_response_for id) (set_w_process p w) = r).
Proof.
  intros Hk. destruct (run_inv _ _ _ Hk (inv_init answers ids)) as (Hi & Hr & Hm).
  assert (E0 : abstract (get_request_receiver ids) = called ids) by (unfold abstract, called; cbn; by rewrite <- list_fmap_compose).
  pose proof (measure_init ids) as Em.
  rewrite E0 in Hr. pose proof (answers_keep_ids _ _ Hr) as Eids.
  assert (Hid : ∀ i, ids !! i = (abstract s).*1 !! i) by (intros i; rewrite Eids; unfold called; by rewrite <- list_fmap_compose, list_fmap_id).
  split_and!; [done|by apply Hi|lia| |].
  - intros Hstuck i id Ei. rewrite Hid, list_lookup_fmap in Ei. destruct (abstract s !! i) as [[id' o]|] eqn:E; [|done].
    injection Ei as ->. destruct o as [r|]; [by exists r|]. unfold abstract in E. rewrite list_lookup_fmap in E.
    destruct (ch_handlers s !! i) as [[id' st]|] eqn:Eh; [|done]. injection E as -> Est.
    destruct (step_possible _ _ _ _ _ Hi Eh Est) as [s' Hs']. by destruct (Hstuck s').
  - intros i id r E. split; [by rewrite Hid, list_lookup_fmap, E|]. unfold abstract in E. rewrite list_lookup_fmap in E.
    destruct (ch_handlers s !! i) as [[id' st]|] eqn:Eh; [|done]. injection E as -> Est. destruct st; try done. injection Est as ->.
    destruct (ci_answered _ _ Hi _ _ _ Eh) as [->|Ha].
    + exists (mk_process None None None). split; [done|]. by intros w.
    + exists (mk_process (Some (fun j => if decide (j = id) then Some r else None)) None None). cbn. split.
      * intros answer j x [= <-]. case_decide as Ej; [|done]. intros [= <-]. by rewrite Ej.
      * intros w. unfold node_sync_response_for. rewrite eval_bind. cbn. by rewrite decide_True.
Qed.
End runs.
