(* ===== verification/Interleave.v ===== *)
(** * Message handlers side by side

    Every connection runs its handlers in a task of its own, so that several
    messages and acknowledgements are handled at once and may overtake each
    other wherever a handler waits. [Message] takes a handler for one step;
    here it is cut at every [await] of src/src/protocols/commands/message.rs,
    the pieces of any number of handlers run in any order, among other
    operations of the node. *)

From S2P Require Import Prelude NetAddr External Command NodeRegistry Seeds World Frame Message.
Open Scope Z_scope.
Open Scope stdpp_scope.

Section interleave.
Context `{Crates, !FrameCodecs}.

(** Where a handler stands: what it does next, and with what. *)
Inductive progress :=
(** message_handler: decrypt and decode; look the key up and put it down; ask
    for the own address; spawn the acknowledgement; hand the message over *)
| MCalled (frame : P2PFrame) (cmd : P2PCommand)
| MOpened (m : MessageCommand)
| MFresh (m : MessageCommand)
| MOurs (m : MessageCommand)
| MDeliver (m : MessageCommand)
(** message_ack_handler: decrypt and decode; the key; the pending requests;
    the connections; one send after the other *)
| ACalled (frame : P2PFrame) (cmd : P2PCommand)
| AOpened (ack : MessageAckCommand)
| AFresh (ack : MessageAckCommand)
| AForward (ack : MessageAckCommand)
| ASending (ack : MessageAckCommand) (l : list (ConnectionEntry AexNode))
| Finished.

Definition piece (st : progress) : M progress :=
  match st with
  | MCalled frame cmd =>
      o ← open_command (C := MessageCommand) frame cmd;
      mret match o with Some m => MOpened m | None => Finished end
  | MOpened m => fresh ← note_seen (message_key m); mret (if fresh : bool then MFresh m else Finished)
  | MFresh m =>
      address ← get_g g_address;
      mret match address with
           | None => Finished
           | Some address =>
               if decide (mc_sender m = addr_to_string address) then Finished
               else if decide (mc_receiver m = addr_to_string address) then MOurs m
               else Finished
           end
  | MOurs m => spawn_ack (mc_sender m) (mc_request_id m) ;; mret (MDeliver m)
  | MDeliver m => deliver m ;; mret Finished
  | ACalled frame cmd =>
      o ← open_command (C := MessageAckCommand) frame cmd;
      mret match o with Some ack => AOpened ack | None => Finished end
  | AOpened ack => fresh ← note_seen (ack_key (ma_request_id ack)); mret (if fresh : bool then AFresh ack else Finished)
  | AFresh ack => is_for_us ← take_pending (ma_request_id ack); mret (if is_for_us : bool then Finished else AForward ack)
  | AForward ack => m ← get_g g_manager; mret (ASending ack (mgr_entries m))
  | ASending ack [] => mret Finished
  | ASending ack (entry :: l) =>
      (match entry_ctx entry with Some c => send_ c (Some ack) Message MessageAck true | None => mret tt end) ;;
      mret (ASending ack l)
  | Finished => mret Finished
  end.

(** A handler left alone: so many pieces of it. *)
Fixpoint alone (k : nat) (p : progress * World) : progress * World :=
  match k with
  | O => p
  | S k' => alone k' (piece p.1 p.2)
  end.

Lemma alone_finished k w : alone k (Finished, w) = (Finished, w).
Proof. induction k as [|k IH]; [done|exact IH]. Qed.

(** Left alone it does what the handler does. *)
Lemma message_alone c frame cmd w :
  alone 5 (MCalled frame cmd, w) = (Finished, exec (message_handler c frame cmd) w).
Proof.
  unfold message_handler, exec. rewrite run_bind.
  change (alone 5 (MCalled frame cmd, w)) with (alone 4 (piece (MCalled frame cmd) w)).
  cbn [piece]. rewrite run_bind. destruct (open_command frame cmd w) as [[m|] w1]; [|apply (alone_finished 4)].
  change (alone 4 _) with (alone 3 (piece (MOpened m) w1)). cbn [piece].
  rewrite !run_bind. destruct (note_seen (message_key m) w1) as [[] w2]; [|apply (alone_finished 3)].
  change (alone 3 _) with (alone 2 (piece (MFresh m) w2)). cbn [piece negb].
  rewrite !run_bind. cbn [get_g gets]. destruct (g_address (w_g w2)) as [address|]; [|apply (alone_finished 2)].
  case_decide; [apply (alone_finished 2)|]. case_decide; [|apply (alone_finished 2)].
  change (alone 2 _) with (alone 1 (piece (MOurs m) w2)). cbn [piece].
  rewrite !run_bind. destruct (spawn_ack (mc_sender m) (mc_request_id m) w2) as [[] w3].
  change (alone 1 _) with (piece (MDeliver m) w3). cbn [piece]. rewrite run_bind. by destruct (deliver m w3) as [[] w4].
Qed.

Lemma sending_alone ack l w :
  alone (S (length l)) (ASending ack l, w) =
  (Finished, exec (for_each_connection l (fun c => send_ c (Some ack) Message MessageAck true)) w).
Proof.
  revert w. induction l as [|e l IH]; intros w; [done|].
  change (alone (S (length (e :: l))) (ASending ack (e :: l), w)) with (alone (S (length l)) (piece (ASending ack (e :: l)) w)).
  cbn [piece]. rewrite run_bind. unfold for_each_connection. cbn [for_each]. rewrite exec_bind. unfold exec at 2.
  match goal with |- context [?m w] => destruct (m w) as [[] w1] end. apply IH.
Qed.

Lemma ack_alone c frame cmd w :
  ∃ k, alone k (ACalled frame cmd, w) = (Finished, exec (message_ack_handler c frame cmd) w).
Proof.
  unfold message_ack_handler, exec. rewrite run_bind.
  destruct (open_command (C := MessageAckCommand) frame cmd w) as [[ack|] w1] eqn:E1.
  2: { exists 1%nat. cbn [alone fst snd piece]. by rewrite run_bind, E1. }
  rewrite run_bind. destruct (note_seen (ack_key (ma_request_id ack)) w1) as [[] w2] eqn:E2.
  2: { exists 2%nat. cbn [alone fst snd piece]. rewrite run_bind, E1. cbn [fst snd mret state_ret piece]. by rewrite run_bind, E2. }
  cbn [negb]. rewrite run_bind. destruct (take_pending (ma_request_id ack) w2) as [[] w3] eqn:E3.
  { exists 3%nat. cbn [alone fst snd piece]. rewrite run_bind, E1. cbn [fst snd mret state_ret piece].
    rewrite run_bind, E2. cbn [fst snd mret state_ret piece]. by rewrite run_bind, E3. }
  exists (4 + S (length (mgr_entries (g_manager (w_g w3)))))%nat. cbn [Nat.add alone fst snd piece negb].
  rewrite run_bind, E1. cbn [fst snd mret state_ret piece]. rewrite run_bind, E2.
  cbn [fst snd mret state_ret piece]. rewrite run_bind, E3. cbn [fst snd mret state_ret piece].
  rewrite run_bind. cbn [get_g gets fst snd mret state_ret]. exact (sending_alone ack (mgr_entries (g_manager (w_g w3))) w3).
Qed.

(** Whatever it stands at, it comes to its end. *)
Lemma alone_more j k p : alone (j + k) p = alone k (alone j p).
Proof. revert p. induction j as [|j IH]; intros p; [done|apply IH]. Qed.

Lemma alone_step st w st' w' :
  piece st w = (st', w') → (∃ k w2, alone k (st', w') = (Finished, w2)) → ∃ k w2, alone k (st, w) = (Finished, w2).
Proof. intros E (k & w2 & Hk). exists (S k), w2. cbn [alone fst snd]. by rewrite E. Qed.

Lemma sending_ends ack l w : ∃ k w2, alone k (ASending ack l, w) = (Finished, w2).
Proof. eexists _, _. apply sending_alone. Qed.

(** ** Any number of them *)

(** What the rest of the node does meanwhile: it may send, and all else, but
    has no hand in the slots these handlers work on. *)
Definition elsewhere (w w' : World) : Prop :=
  g_address (w_g w') = g_address (w_g w) ∧ g_seen (w_g w') = g_seen (w_g w) ∧ g_inbox (w_g w') = g_inbox (w_g w) ∧
  g_pending (w_g w') = g_pending (w_g w) ∧ w_confirmed w' = w_confirmed w.

(** The handlers that were called, the node, and the messages opened so
    far. *)
Record Pool := mk_pool { po_handlers : list progress; po_world : World; po_opened : list MessageCommand }.

Definition opens (st st' : progress) : list MessageCommand :=
  match st, st' with MCalled _ _, MOpened m => [m] | _, _ => [] end.

Inductive pool_step : Pool → Pool → Prop :=
| pool_handler l1 st l2 w st' w' opened :
    piece st w = (st', w') →
    pool_step (mk_pool (l1 ++ st :: l2) w opened) (mk_pool (l1 ++ st' :: l2) w' (opened ++ opens st st'))
| pool_elsewhere l w w' opened :
    elsewhere w w' → pool_step (mk_pool l w opened) (mk_pool l w' opened).

Definition call (i : input) : progress :=
  match i with InMessage _ frame cmd => MCalled frame cmd | InAck _ frame cmd => ACalled frame cmd end.

(** ** What one piece does *)

Lemma elsewhere_refl w : elsewhere w w.
Proof. done. Qed.

Lemma elsewhere_psk p w : elsewhere w (set_w_g (set_g_psk p (w_g w)) w).
Proof. done. Qed.

Lemma elsewhere_io {A} (x : M A) w : respects io_step x → elsewhere w (x w).2.
Proof.
  intros Hx. destruct (Hx w) as [Hg _ _ _ _ Hc _ _]. unfold exec in *. split_and!; [..|done];
    [apply (f_equal g_address) in Hg|apply (f_equal g_seen) in Hg|apply (f_equal g_inbox) in Hg|apply (f_equal g_pending) in Hg]; done.
Qed.

Lemma open_elsewhere {C} `{Codec C} frame cmd w : elsewhere w (open_command (C := C) frame cmd w).2.
Proof. destruct (open_command_psk (C := C) frame cmd w) as [p E]. unfold exec in E. rewrite E. apply elsewhere_psk. Qed.

(** The slots after a look at the keys seen. *)
Definition seen_only (key : string) (w w' : World) : Prop :=
  g_seen (w_g w') = seen_after (w_g w) key ∧ g_address (w_g w') = g_address (w_g w) ∧
  g_inbox (w_g w') = g_inbox (w_g w) ∧ g_pending (w_g w') = g_pending (w_g w) ∧ w_confirmed w' = w_confirmed w.

Lemma piece_effect st w :
  let '(st', w') := piece st w in
  match st with
  | MCalled _ _ => elsewhere w w' ∧ (st' = Finished ∨ ∃ m, st' = MOpened m)
  | MOpened m => seen_only (message_key m) w w' ∧ st' = (if is_new (w_g w) (message_key m) then MFresh m else Finished)
  | MFresh m => w' = w ∧ st' = (if for_us (w_g w) m then MOurs m else Finished)
  | MOurs m => elsewhere w w' ∧ st' = MDeliver m
  | MDeliver m => w' = set_w_g (set_g_inbox ((fun l => l ++ [incoming_of m]) <$> g_inbox (w_g w)) (w_g w)) w ∧ st' = Finished
  | ACalled _ _ => elsewhere w w' ∧ (st' = Finished ∨ ∃ ack, st' = AOpened ack)
  | AOpened ack => seen_only (ack_key (ma_request_id ack)) w w' ∧
      st' = (if is_new (w_g w) (ack_key (ma_request_id ack)) then AFresh ack else Finished)
  | AFresh ack => w' = (take_pending (ma_request_id ack) w).2 ∧ (st' = Finished ∨ st' = AForward ack)
  | AForward ack => w' = w ∧ ∃ l, st' = ASending ack l
  | ASending ack _ => elsewhere w w' ∧ (st' = Finished ∨ ∃ l, st' = ASending ack l)
  | Finished => w' = w ∧ st' = Finished
  end.
Proof.
  destruct st as [frame cmd|m|m|m|m|frame cmd|ack|ack|ack|ack [|e l]|]; cbn [piece].
  - rewrite run_bind. pose proof (open_elsewhere (C := MessageCommand) frame cmd w) as He.
    destruct (open_command frame cmd w) as [[m|] w']; cbn; eauto.
  - rewrite run_bind, run_note_seen. cbn. by destruct (is_new _ _).
  - rewrite run_bind. cbn. unfold for_us. destruct (g_address (w_g w)) as [b|]; [|done].
    split; [done|]. by repeat case_decide; repeat case_bool_decide.
  - rewrite run_bind, run_spawn_ack. done.
  - rewrite run_bind, run_deliver. done.
  - rewrite run_bind. pose proof (open_elsewhere (C := MessageAckCommand) frame cmd w) as He.
    destruct (open_command frame cmd w) as [[m|] w']; cbn; eauto.
  - rewrite run_bind, run_note_seen. cbn. by destruct (is_new _ _).
  - rewrite run_bind. destruct (take_pending (ma_request_id ack) w) as [[] w']; cbn; eauto.
  - rewrite run_bind. cbn. eauto.
  - cbn. split; [apply elsewhere_refl|by left].
  - rewrite run_bind.
    match goal with |- context [?m w] => match type of m with M unit => set (x := m) end end.
    assert (He : elsewhere w (x w).2).
    { apply elsewhere_io. subst x. destruct (entry_ctx e); [apply respects_send_|apply respects_ret, _]. }
    destruct (x w) as [[] w']. cbn. eauto.
  - done.
Qed.

Ltac next_piece := match goal with |- ∃ _ _, alone _ (?st, ?w) = _ =>
  let H := fresh in pose proof (piece_effect st w) as H; destruct (piece st w) as [st' w'] eqn:?;
  destruct H as [_ H]; eapply alone_step; [eassumption|] end.

(** Each handler comes to its end, whatever the others did before. *)
Lemma progress_ends st w : ∃ k w2, alone k (st, w) = (Finished, w2).
Proof.
  assert (E0 : ∀ w, ∃ k w2, alone k (Finished, w) = (Finished, w2)) by (intros w0; by exists 0%nat, w0).
  assert (Hs : ∀ ack l w, ∃ k w2, alone k (ASending ack l, w) = (Finished, w2)) by (intros; apply sending_ends).
  assert (E1 : ∀ m w, ∃ k w2, alone k (MDeliver m, w) = (Finished, w2)) by (intros; next_piece; by subst).
  assert (E2 : ∀ m w, ∃ k w2, alone k (MOurs m, w) = (Finished, w2)) by (intros; next_piece; by subst).
  assert (E3 : ∀ m w, ∃ k w2, alone k (MFresh m, w) = (Finished, w2)) by (intros; next_piece; subst; by destruct (for_us _ _)).
  assert (E4 : ∀ m w, ∃ k w2, alone k (MOpened m, w) = (Finished, w2)) by (intros; next_piece; subst; by destruct (is_new _ _)).
  assert (E5 : ∀ m w, ∃ k w2, alone k (AForward m, w) = (Finished, w2)) by (intros; next_piece; naive_solver).
  assert (E6 : ∀ m w, ∃ k w2, alone k (AFresh m, w) = (Finished, w2)) by (intros; next_piece; naive_solver).
  assert (E7 : ∀ m w, ∃ k w2, alone k (AOpened m, w) = (Finished, w2)) by (intros; next_piece; subst; by destruct (is_new _ _)).
  destruct st; try done; next_piece; naive_solver.
Qed.

(** ** The invariant *)

(** Not past the look at the keys seen. *)
Definition before (st : progress) : nat :=
  match st with MCalled _ _ | MOpened _ | ACalled _ _ | AOpened _ => 1 | _ => 0 end.
(** Past it, and not done. *)
Definition in_flight (st : progress) : list string :=
  match st with MFresh m | MOurs m | MDeliver m => [message_key m] | _ => [] end.

Context (a : Address).
Definition ours (m : MessageCommand) : Prop := mc_sender m ≠ addr_to_string a ∧ mc_receiver m = addr_to_string a.

(** Keys of messages delivered or on their way. *)
Definition taken (got : list IncomingMessage) (l : list progress) : list string := (l ≫= in_flight) ++ delivered_keys a got.
#[local] Arguments taken : simpl never.

Lemma taken_at got l1 st l2 : taken got (l1 ++ st :: l2) ≡ₚ in_flight st ++ taken got (l1 ++ l2).
Proof. unfold taken. rewrite !bind_app, bind_cons. solve_Permutation. Qed.

Lemma ours_key m :
  ours m → dedup_key (im_from (incoming_of m)) (addr_to_string a) (im_content (incoming_of m)) (im_timestamp (incoming_of m)) = message_key m.
Proof. intros [_ E]. unfold message_key. by rewrite E. Qed.

Lemma taken_deliver got m l : ours m → taken (got ++ [incoming_of m]) l ≡ₚ message_key m :: taken got l.
Proof.
  intros Hm. unfold taken, delivered_keys. rewrite fmap_app. cbn [fmap list_fmap]. rewrite (ours_key m Hm). solve_Permutation.
Qed.

(** The set of keys seen, against what was opened and what is taken. *)
Record slots (opened : list MessageCommand) (l : list string) (s : gset string) : Prop := {
  sl_nodup : NoDup l;
  sl_seen k : k ∈ l → k ∈ s;
  sl_cover k : k ∈ s → (∃ m, m ∈ opened ∧ message_key m = k ∧ (ours m → k ∈ l)) ∨ ∃ id, k = ack_key id;
}.

Lemma slots_perm opened opened' l l' s : l ≡ₚ l' → opened ⊆ opened' → slots opened l s → slots opened' l' s.
Proof.
  intros El Eo [Hn Hs Hc]. split.
  - by rewrite <- El.
  - intros k. rewrite <- El. apply Hs.
  - intros k Hk. destruct (Hc k Hk) as [(m & Hm & E & Ho)|?]; [left|by right].
    exists m. split; [by apply Eo|]. split; [done|]. by rewrite <- El.
Qed.

Lemma slots_fresh opened l s m :
  m ∈ opened → message_key m ∉ s → slots opened l s → slots opened (message_key m :: l) ({[message_key m]} ∪ s).
Proof.
  intros Hm Hk [Hn Hs Hc]. split.
  - constructor; [|done]. intros ?%Hs. done.
  - intros k [->|?%Hs]%elem_of_cons; set_solver.
  - intros k [->%elem_of_singleton|Hin]%elem_of_union; [left; exists m; set_solver|].
    destruct (Hc k Hin) as [(m' & ? & ? & ?)|?]; [left; exists m'; set_solver|by right].
Qed.

Lemma slots_ack opened l s id : slots opened l s → slots opened l ({[ack_key id]} ∪ s).
Proof.
  intros [Hn Hs Hc]. split; [done| |].
  - intros k ?%Hs. set_solver.
  - intros k [->%elem_of_singleton|Hin]%elem_of_union; [right; eauto|by apply Hc].
Qed.

Lemma slots_drop opened l s m : m ∈ opened → ¬ ours m → slots opened (message_key m :: l) s → slots opened l s.
Proof.
  intros Hm Ho [[Hk Hn]%NoDup_cons Hs Hc]. split; [done| |].
  - intros k Hin. apply Hs. by right.
  - intros k Hin. destruct (Hc k Hin) as [(m' & Hm' & E & Ho')|?]; [|by right]. left.
    destruct (decide (k = message_key m)) as [->|Hne]; [by exists m|].
    exists m'. split; [done|]. split; [done|]. intros Hours. by destruct (proj1 (elem_of_cons _ _ _) (Ho' Hours)).
Qed.

Definition good (opened : list MessageCommand) (st : progress) : Prop :=
  match st with
  | MOpened m | MFresh m => m ∈ opened
  | MOurs m | MDeliver m => m ∈ opened ∧ ours m
  | _ => True
  end.

(** [P]: the requests that waited; [done_before]: what was confirmed. *)
Record pool_inv (P : gset Z) (done_before : list Z) (p : Pool) : Prop := {
  pi_address : g_address (w_g (po_world p)) = Some a;
  pi_slots : ∃ s got, g_seen (w_g (po_world p)) = Some s ∧ g_inbox (w_g (po_world p)) = Some got ∧
    Z.of_nat (size s + sum_list_with before (po_handlers p)) ≤ SEEN_MESSAGES_MAX ∧
    slots (po_opened p) (taken got (po_handlers p)) s ∧
    (∀ m, m ∈ po_opened p → message_key m ∈ s ∨ MOpened m ∈ po_handlers p) ∧
    (∀ x, x ∈ got → ∃ m, m ∈ po_opened p ∧ ours m ∧ x = incoming_of m);
  pi_good : Forall (good (po_opened p)) (po_handlers p);
  pi_confirmed : ∃ new, w_confirmed (po_world p) = done_before ++ new ∧ NoDup new ∧ (∀ id, id ∈ new → id ∈ P) ∧
    g_pending (w_g (po_world p)) = Some (P ∖ list_to_set new);
}.

Lemma inv_elsewhere P c l w w' opened :
  elsewhere w w' → pool_inv P c (mk_pool l w opened) → pool_inv P c (mk_pool l w' opened).
Proof.
  intros (E1 & E2 & E3 & E4 & E5) [Ha Hs Hg Hc]. cbn in *. split; cbn; [congruence| |done|].
  - destruct Hs as (s & got & Hs & Hi & H'). exists s, got. split; [congruence|]. split; [congruence|done].
  - destruct Hc as (new & Hn & H' & H'' & Hp). exists new. split; [congruence|]. split; [done|]. split; [done|congruence].
Qed.

Lemma good_more opened opened' st : opened ⊆ opened' → good opened st → good opened' st.
Proof. destruct st; cbn; naive_solver. Qed.

(** A handler moves on and leaves the slots as they are. *)
Lemma inv_quiet P c l1 st l2 w st' opened :
  in_flight st' = in_flight st → (before st' ≤ before st)%nat →
  (∀ m, st = MOpened m → ∀ s, g_seen (w_g w) = Some s → message_key m ∈ s) →
  good (opened ++ opens st st') st' →
  pool_inv P c (mk_pool (l1 ++ st :: l2) w opened) → pool_inv P c (mk_pool (l1 ++ st' :: l2) w (opened ++ opens st st')).
Proof.
  intros Ef Eb Ho Hst [Ha (s & got & Hs & Hi & Hn & Hsl & Hl & Hg) Hf Hc]. cbn in *.
  assert (Hsub : opened ⊆ opened ++ opens st st') by set_solver.
  split; cbn; [done| | |done].
  - exists s, got. split; [done|]. split; [done|]. rewrite sum_list_with_app in *. cbn in *. split; [lia|].
    split; [|split; [|set_solver]].
    + refine (slots_perm _ _ _ _ _ _ Hsub Hsl). by rewrite !taken_at, Ef.
    + intros m [Hm|Hm]%elem_of_app.
      * destruct (Hl m Hm) as [?|[?|[<-|?]%elem_of_cons]%elem_of_app]; [by left|right; set_solver|left; by apply (Ho m)|right; set_solver].
      * right. destruct st, st'; cbn in Hm; try (by apply elem_of_nil in Hm). set_solver.
  - rewrite Forall_app, Forall_cons in *. destruct Hf as (H1 & _ & H2).
    split_and!; [eapply Forall_impl; [exact H1|]|done|eapply Forall_impl; [exact H2|]]; intros x; by apply good_more.
Qed.

Lemma opens_none st st' : (∀ frame cmd, st ≠ MCalled frame cmd) → opens st st' = [].
Proof. destruct st; naive_solver. Qed.

(** A handler moves on and works on the slots. *)
Lemma pool_move P c l1 st l2 w st' w' opened s got s' got' :
  g_address (w_g w') = g_address (w_g w) → g_pending (w_g w') = g_pending (w_g w) → w_confirmed w' = w_confirmed w →
  g_seen (w_g w) = Some s → g_inbox (w_g w) = Some got → g_seen (w_g w') = Some s' → g_inbox (w_g w') = Some got' →
  (Z.of_nat (size s + before st) ≤ SEEN_MESSAGES_MAX → (size s' + before st' ≤ size s + before st)%nat) →
  (Z.of_nat (size s + before st) ≤ SEEN_MESSAGES_MAX → s ⊆ s') →
  (Z.of_nat (size s + before st) ≤ SEEN_MESSAGES_MAX → good opened st →
     slots opened (in_flight st ++ taken got (l1 ++ l2)) s →
     slots opened (in_flight st' ++ taken got' (l1 ++ l2)) s' ∧ good opened st' ∧
     (∀ m, st = MOpened m → message_key m ∈ s') ∧
     (∀ x, x ∈ got' → x ∈ got ∨ ∃ m, m ∈ opened ∧ ours m ∧ x = incoming_of m)) →
  pool_inv P c (mk_pool (l1 ++ st :: l2) w opened) → pool_inv P c (mk_pool (l1 ++ st' :: l2) w' opened).
Proof.
  intros E1 E2 E3 Es Ei Es' Ei' Hsz Hsub Hcase [Ha (s0 & got0 & Hs & Hi & Hn & Hsl & Hl & Hg) Hf Hc]. cbn in *.
  assert (s0 = s) as -> by congruence. assert (got0 = got) as -> by congruence.
  rewrite sum_list_with_app in Hn. cbn in Hn.
  assert (Hsmall : Z.of_nat (size s + before st) ≤ SEEN_MESSAGES_MAX) by lia.
  rewrite Forall_app, Forall_cons in Hf. destruct Hf as (H1 & Hst & H2).
  destruct (Hcase Hsmall Hst) as (Hsl' & Hst' & Hop & Hg'); [by refine (slots_perm _ _ _ _ _ (taken_at _ _ _ _) _ Hsl)|].
  specialize (Hsz Hsmall). specialize (Hsub Hsmall).
  split; cbn; [congruence| |by rewrite Forall_app, Forall_cons|by rewrite E2, E3].
  exists s', got'. split; [done|]. split; [done|]. rewrite sum_list_with_app. cbn. split; [lia|].
  split; [by refine (slots_perm _ _ _ _ _ (symmetry (taken_at _ _ _ _)) _ Hsl')|]. split.
  - intros m Hm. destruct (Hl m Hm) as [?|[?|[<-|?]%elem_of_cons]%elem_of_app]; set_solver.
  - intros x [?|?]%Hg'; [by apply Hg|done].
Qed.

Lemma seen_insert_cases key (s : gset string) :
  (Z.of_nat (size s + 1) ≤ SEEN_MESSAGES_MAX) →
  (key ∈ s ∧ (seen_insert key s) = (false, s)) ∨ (key ∉ s ∧ (seen_insert key s) = (true, {[key]} ∪ s)).
Proof.
  intros Hs. pose proof (seen_insert_room key s ltac:(lia)) as E. pose proof (seen_insert_false key s) as Hf.
  destruct (seen_insert key s) as [[] s']; cbn in *; subst; [right|left].
  - split; [|done]. intros Hk%Hf. done.
  - assert (key ∈ s) by by apply Hf. split; [done|]. f_equal. set_solver.
Qed.

Lemma inv_message_key P c l1 m l2 w w' opened :
  seen_only (message_key m) w w' →
  pool_inv P c (mk_pool (l1 ++ MOpened m :: l2) w opened) →
  pool_inv P c (mk_pool (l1 ++ (if is_new (w_g w) (message_key m) then MFresh m else Finished) :: l2) w' opened).
Proof.
  intros (E1 & E2 & E3 & E4 & E5) Hinv.
  destruct (pi_slots _ _ _ Hinv) as (s & got & Hs & Hi & _). cbn in Hs, Hi.
  unfold is_new, seen_after in *. rewrite Hs in *. cbn in E1. rewrite Hi in E3.
  refine (pool_move _ _ _ _ _ _ _ _ _ s got _ got E2 E4 E5 Hs Hi E1 E3 _ _ _ Hinv); cbn [before];
    intros Hn; destruct (seen_insert_cases (message_key m) s Hn) as [[Hk ->]|[Hk ->]]; cbn [before fst snd]; try done; try lia.
  - rewrite size_seen_union by done. lia.
  - set_solver.
  - intros Hm Hsl. split_and!; [done|done|naive_solver|by left].
  - intros Hm Hsl. split_and!; [by apply slots_fresh|done|set_solver|by left].
Qed.

Lemma inv_ack_key P c l1 ack l2 w w' opened :
  seen_only (ack_key (ma_request_id ack)) w w' →
  pool_inv P c (mk_pool (l1 ++ AOpened ack :: l2) w opened) →
  pool_inv P c (mk_pool (l1 ++ (if is_new (w_g w) (ack_key (ma_request_id ack)) then AFresh ack else Finished) :: l2) w' opened).
Proof.
  intros (E1 & E2 & E3 & E4 & E5) Hinv.
  destruct (pi_slots _ _ _ Hinv) as (s & got & Hs & Hi & _). cbn in Hs, Hi.
  unfold is_new, seen_after in *. rewrite Hs in *. cbn in E1. rewrite Hi in E3.
  refine (pool_move _ _ _ _ _ _ _ _ _ s got _ got E2 E4 E5 Hs Hi E1 E3 _ _ _ Hinv); cbn [before];
    intros Hn; destruct (seen_insert_cases (ack_key (ma_request_id ack)) s Hn) as [[Hk ->]|[Hk ->]]; cbn [before fst snd]; try done; try lia.
  - rewrite size_seen_union by done. lia.
  - set_solver.
  - intros _ Hsl. split_and!; [done|done|done|by left].
  - intros _ Hsl. split_and!; [by apply slots_ack|done|done|by left].
Qed.

Lemma inv_receiver P c l1 m l2 w opened :
  pool_inv P c (mk_pool (l1 ++ MFresh m :: l2) w opened) →
  pool_inv P c (mk_pool (l1 ++ (if for_us (w_g w) m then MOurs m else Finished) :: l2) w opened).
Proof.
  intros Hinv. destruct (pi_slots _ _ _ Hinv) as (s & got & Hs & Hi & _). cbn in Hs, Hi.
  assert (Hus : for_us (w_g w) m = bool_decide (ours m)).
  { unfold for_us, ours. pose proof (pi_address _ _ _ Hinv) as Ha. cbn in Ha. rewrite Ha. symmetry. apply bool_decide_and. }
  rewrite Hus.
  refine (pool_move _ _ _ _ _ _ _ _ _ s got s got eq_refl eq_refl eq_refl Hs Hi Hs Hi _ _ _ Hinv); cbn [before];
    intros _; case_bool_decide; try done; try lia; intros Hm Hsl.
  - split_and!; [done|done|done|by left].
  - split_and!; [by apply (slots_drop _ _ _ m)|done|done|by left].
Qed.

Lemma inv_deliver P c l1 m l2 w opened :
  pool_inv P c (mk_pool (l1 ++ MDeliver m :: l2) w opened) →
  pool_inv P c (mk_pool (l1 ++ Finished :: l2)
    (set_w_g (set_g_inbox ((fun l => l ++ [incoming_of m]) <$> g_inbox (w_g w)) (w_g w)) w) opened).
Proof.
  intros Hinv. destruct (pi_slots _ _ _ Hinv) as (s & got & Hs & Hi & _). cbn in Hs, Hi. rewrite Hi. cbn [fmap option_fmap option_map].
  set (w' := set_w_g _ w).
  refine (pool_move _ _ _ _ _ w _ w' _ s got s (got ++ [incoming_of m]) eq_refl eq_refl eq_refl Hs Hi Hs eq_refl _ _ _ Hinv);
    cbn [before]; intros _; try done; try lia. intros [Hm Hus] Hsl. split_and!; [|done|done|].
  - refine (slots_perm _ _ _ _ _ _ _ Hsl); [|done]. cbn. by rewrite taken_deliver.
  - intros x Hx. apply elem_of_app in Hx as [?|Hx]; [by left|]. apply list_elem_of_singleton in Hx as ->. right. eauto.
Qed.

Lemma inv_take P c l w id opened :
  pool_inv P c (mk_pool l w opened) → pool_inv P c (mk_pool l (take_pending id w).2 opened).
Proof.
  intros [Ha Hs Hg (new & Hc & Hnd & Hin & Hp)]. cbn in *. rewrite run_take_pending. cbn [snd].
  destruct (waits id (w_g w)) eqn:Hw; [|by split; eauto 6].
  split; cbn; [done|done|done|]. exists (new ++ [id]). unfold waits in Hw. rewrite Hp in Hw.
  apply bool_decide_eq_true in Hw. split_and!.
  - by rewrite Hc, app_assoc.
  - apply NoDup_app. split; [done|]. split; [set_solver|apply NoDup_singleton].
  - set_solver.
  - unfold pending_after. rewrite Hp. cbn. f_equal. rewrite list_to_set_app_L. set_solver.
Qed.

Lemma inv_next P c l1 st l2 w st' opened :
  in_flight st' = in_flight st → (before st' ≤ before st)%nat →
  (∀ frame cmd, st ≠ MCalled frame cmd) → (∀ m, st ≠ MOpened m) → (good opened st → good opened st') →
  pool_inv P c (mk_pool (l1 ++ st :: l2) w opened) → pool_inv P c (mk_pool (l1 ++ st' :: l2) w opened).
Proof.
  intros Ef Eb Hc Hm Hg Hinv. pose proof (inv_quiet P c l1 st l2 w st' opened Ef Eb) as H'.
  rewrite (opens_none st st' Hc), app_nil_r in H'. apply H'; [naive_solver| |done].
  pose proof (pi_good _ _ _ Hinv) as Hf. cbn in Hf. rewrite Forall_app, Forall_cons in Hf. by apply Hg, Hf.
Qed.

Ltac move_on := match goal with H : pool_inv _ _ _ |- _ =>
  refine (inv_next _ _ _ _ _ _ _ _ _ _ _ _ _ H); try done; cbn; lia || done end.

Lemma pool_step_inv P c p p' : pool_step p p' → pool_inv P c p → pool_inv P c p'.
Proof.
  intros Hstep Hinv. destruct Hstep as [l1 st l2 w st' w' opened E|l w w' opened He]; [|by eapply inv_elsewhere].
  pose proof (piece_effect st w) as Heff. rewrite E in Heff.
  destruct st as [frame cmd|m|m|m|m|frame cmd|ack|ack|ack|ack l|]; destruct Heff as [Hw Hst];
    try (rewrite opens_none, app_nil_r by done).
  - apply (inv_elsewhere _ _ _ w); [done|]. destruct Hst as [->|[m ->]]; apply inv_quiet; cbn; (done || lia || set_solver).
  - subst. by apply inv_message_key.
  - subst. by apply inv_receiver.
  - subst. apply (inv_elsewhere _ _ _ w); [done|]. move_on.
  - subst. by apply inv_deliver.
  - apply (inv_elsewhere _ _ _ w); [done|]. destruct Hst as [->|[ack ->]]; move_on.
  - subst. by apply inv_ack_key.
  - subst w'. apply inv_take. destruct Hst as [->| ->]; move_on.
  - subst. destruct Hst as [l ->]. move_on.
  - apply (inv_elsewhere _ _ _ w); [done|]. destruct Hst as [->|[l' ->]]; move_on.
  - by subst.
Qed.

Lemma pool_inv_start inputs w P :
  g_address (w_g w) = Some a → g_seen (w_g w) = Some ∅ → g_inbox (w_g w) = Some [] → g_pending (w_g w) = Some P →
  Z.of_nat (length inputs) ≤ SEEN_MESSAGES_MAX → pool_inv P (w_confirmed w) (mk_pool (call <$> inputs) w []).
Proof.
  intros Ha Hs Hi Hp Hn. split; cbn; [done| | |].
  - exists ∅, []. split; [done|]. split; [done|]. split; [|split; [|set_solver]].
    + rewrite size_empty. replace (sum_list_with before (call <$> inputs)) with (length inputs); [lia|].
      clear. induction inputs as [|[] l IH]; cbn; lia.
    + assert (E : taken [] (call <$> inputs) = []).
      { unfold taken. rewrite app_nil_r. clear. induction inputs as [|[] l IH]; cbn; done. }
      rewrite E. split; [constructor|set_solver|set_solver].
  - apply Forall_fmap, Forall_true. by intros [].
  - exists []. rewrite app_nil_r. split_and!; [done|constructor|set_solver|]. rewrite Hp. f_equal. set_solver.
Qed.

(** ** Everyone comes to an end *)

Lemma pool_alone k l1 st l2 w opened st' w' :
  alone k (st, w) = (st', w') → ∃ opened', rtc pool_step (mk_pool (l1 ++ st :: l2) w opened) (mk_pool (l1 ++ st' :: l2) w' opened').
Proof.
  revert st w opened. induction k as [|k IH]; intros st w opened.
  - intros [= -> ->]. by exists opened.
  - cbn. destruct (piece st w) as [st1 w1] eqn:E. intros [o Ho]%(IH _ _ (opened ++ opens st st1)).
    exists o. eapply rtc_l; [by apply pool_handler|done].
Qed.

Lemma pool_finishes l1 l2 w opened :
  Forall (eq Finished) l1 →
  ∃ p, rtc pool_step (mk_pool (l1 ++ l2) w opened) p ∧ Forall (eq Finished) (po_handlers p).
Proof.
  revert l1 w opened. induction l2 as [|st l2 IH]; intros l1 w opened Hf.
  - rewrite app_nil_r. by eexists.
  - destruct (progress_ends st w) as (k & w1 & Hk). destruct (pool_alone k l1 st l2 w opened _ _ Hk) as [o Ho].
    destruct (IH (l1 ++ [Finished]) w1 o) as (p & Hp & Hfin).
    + apply Forall_app. split; [done|]. by apply Forall_singleton.
    + exists p. split; [|done]. rewrite <- app_assoc in Hp. cbn in Hp. by etrans.
Qed.

(** The run in which the handlers take a piece each in the given order. *)
Fixpoint take_turns (order : list nat) (p : Pool) : Pool :=
  match order with
  | [] => p
  | i :: order' =>
      match po_handlers p !! i with
      | Some st => let '(st', w') := piece st (po_world p) in
          take_turns order' (mk_pool (<[i := st']> (po_handlers p)) w' (po_opened p ++ opens st st'))
      | None => take_turns order' p
      end
  end.

Lemma take_turns_run order p : rtc pool_step p (take_turns order p).
Proof.
  revert p. induction order as [|i order IH]; intros p; [done|]. cbn.
  destruct (po_handlers p !! i) as [st|] eqn:Ei; [|apply IH].
  destruct (piece st (po_world p)) as [st' w'] eqn:E. eapply rtc_l; [|apply IH].
  destruct p as [l w opened]. cbn in *. rewrite insert_take_drop by (by eapply lookup_lt_Some).
  rewrite <- (take_drop_middle l i st Ei) at 1. by apply pool_handler.
Qed.

Lemma message_key_not_ack m id : message_key m ≠ ack_key id.
Proof.
  unfold message_key, dedup_key, ack_key. destruct (sha256 _) as [|x [|y b]]; cbn; [done|done|].
  intros [= _ _ E _]. apply (f_equal (char_digit 16)) in E.
  pose proof (Z_of_byte_bound y). unfold hex_digit in E.
  rewrite char_digit_of_digit in E; [done|by right|].
  split; [apply Z.div_pos; lia|apply Z.div_lt_upper_bound; lia].
Qed.

(** Messages with one key are the same but for their request ids. *)
Definition keys_apart (l : list MessageCommand) : Prop :=
  ∀ m m', m ∈ l → m' ∈ l → message_key m = message_key m' →
    mc_sender m = mc_sender m' ∧ mc_receiver m = mc_receiver m' ∧ incoming_of m = incoming_of m'.

Lemma all_delivered P c p got :
  pool_inv P c p → Forall (eq Finished) (po_handlers p) → keys_apart (po_opened p) →
  g_inbox (w_g (po_world p)) = Some got →
  ∀ m, m ∈ po_opened p → ours m → incoming_of m ∈ got.
Proof.
  intros [_ (s & got' & _ & Hi & _ & [_ _ Hc] & Hl & Hg) _ _] Hfin Hkeys Hgot m Hm Hus.
  assert (got' = got) as -> by congruence.
  assert (E : taken got (po_handlers p) = delivered_keys a got).
  { unfold taken. replace (po_handlers p ≫= in_flight) with (@nil string); [done|].
    clear -Hfin. induction Hfin as [|? ? <- _ IH]; [done|exact IH]. }
  rewrite E in Hc. destruct (Hl m Hm) as [Hk|Hop].
  - destruct (Hc _ Hk) as [(m' & Hm' & Ek & Ho)|[id Eid]]; [|by apply message_key_not_ack in Eid].
    destruct (Hkeys m m' Hm Hm' (eq_sym Ek)) as (E1 & E2 & _).
    assert (Hin : message_key m ∈ delivered_keys a got) by (apply Ho; destruct Hus; split; congruence).
    apply list_elem_of_fmap in Hin as (x & Ex & Hx). destruct (Hg x Hx) as (m2 & Hm2 & Hus2 & ->).
    rewrite (ours_key m2 Hus2) in Ex. by destruct (Hkeys m m2 Hm Hm2 Ex) as (_ & _ & ->).
  - rewrite Forall_forall in Hfin. by specialize (Hfin _ Hop).
Qed.
End interleave.

(** C3. Exactly once, in any order: however the handlers of up to 10000 messages
    and acknowledgements overtake each other at their awaits, among other work
    of the node, the application receives no text twice and none that was not
    sent to it, a waiter is answered at most once and only if it waited; and
    when the handlers have come to their ends, which they can from wherever
    they stand, every message opened that is for this node was delivered,
    provided different messages have different keys. *)
Theorem interleaved_delivery `{Crates, !FrameCodecs} (inputs : list input) (a : Address) (P : gset Z) w p :
  g_address (w_g w) = Some a → g_seen (w_g w) = Some ∅ → g_inbox (w_g w) = Some [] → g_pending (w_g w) = Some P →
  Z.of_nat (length inputs) ≤ SEEN_MESSAGES_MAX →
  rtc pool_step (mk_pool (call <$> inputs) w []) p →
  (∃ got, g_inbox (w_g (po_world p)) = Some got ∧ NoDup got ∧
     (∀ x, x ∈ got → ∃ m, m ∈ po_opened p ∧ ours a m ∧ x = incoming_of m) ∧
     (Forall (eq Finished) (po_handlers p) → keys_apart (po_opened p) →
      ∀ m, m ∈ po_opened p → ours a m → incoming_of m ∈ got)) ∧
  (∃ new, w_confirmed (po_world p) = w_confirmed w ++ new ∧ NoDup new ∧ (∀ id, id ∈ new → id ∈ P) ∧
     g_pending (w_g (po_world p)) = Some (P ∖ list_to_set new)) ∧
  ∃ p', rtc pool_step p p' ∧ Forall (eq Finished) (po_handlers p').
Proof.
  intros Ha Hs Hi Hp Hn Hrun.
  assert (Hinv : pool_inv a P (w_confirmed w) p).
  { revert p Hrun. apply rtc_ind_r; [by apply pool_inv_start|]. intros ? ? _ Hstep. by apply pool_step_inv. }
  split; [|split].
  - destruct (pi_slots _ _ _ _ Hinv) as (s & got & _ & Hgot & _ & [Hnd _ _] & _ & Hin).
    exists got. split; [done|]. split; [|split; [done|by intros; eapply all_delivered]].
    apply NoDup_app in Hnd as (_ & _ & Hnd). by apply NoDup_fmap_1 in Hnd.
  - apply (pi_confirmed _ _ _ _ Hinv).
  - destruct p as [l w' opened]. by apply (pool_finishes []).
Qed.
