(* ===== verification/Pieces.v ===== *)
(** * Handlers cut at their awaits

    A task that waits in between is a sequence of pieces, each of which runs
    undisturbed and decides what comes next. Here is what holds of any such
    tasks side by side: a piece is looked at under what the others leave
    alone, its rely, and keeps its guarantee. *)

From S2P Require Import Prelude.
Open Scope stdpp_scope.

Section pieces.
Context {S : Type}.

(** What is left of a task. *)
Inductive proc : Type :=
| Done
| Piece {A : Type} (m : state S A) (k : A → proc).

(** A task left alone. *)
Fixpoint run_alone (p : proc) : state S unit :=
  match p with
  | Done => mret tt
  | Piece m k => m ≫= fun a => run_alone (k a)
  end.

Lemma alone_piece {A} (m : state S A) k s : exec (run_alone (Piece m k)) s = exec (run_alone (k (eval m s))) (exec m s).
Proof. exact (exec_bind m (fun a => run_alone (k a)) s). Qed.

(** Tasks side by side, among what else happens. *)
Inductive run_step (others : relation S) : list proc * S → list proc * S → Prop :=
| run_piece l i {A} (m : state S A) k s :
    l !! i = Some (Piece m k) → run_step others (l, s) (<[i := k (eval m s)]> l, exec m s)
| run_other l s s' : others s s' → run_step others (l, s) (l, s').

(** A loop, the pieces of its body one after the other. *)
Lemma alone_loop {A} (l : list A) (f : A → proc → proc) (g : A → state S unit) k s :
  (∀ x p s, x ∈ l → exec (run_alone (f x p)) s = exec (run_alone p) (exec (g x) s)) →
  exec (run_alone (foldr f k l)) s = exec (run_alone k) (exec (for_each l g) s).
Proof.
  revert s. induction l as [|x l IH]; intros s Hf; [done|]. cbn [foldr for_each].
  rewrite Hf, exec_bind by set_solver. apply IH. set_solver.
Qed.

(** ** Rely and guarantee *)

Definition stable (R : relation S) (P : S → Prop) : Prop := ∀ s s', R s s' → P s → P s'.

(** From [P] on, every piece keeps [G], and [Q] holds at the end, as long as
    the others keep [R]. *)
Fixpoint sound (R G : relation S) (p : proc) (P Q : S → Prop) : Prop :=
  match p with
  | Done => ∀ s, P s → Q s
  | @Piece A m k =>
      ∃ mid : A → S → Prop,
        (∀ s, P s → G s (exec m s) ∧ mid (eval m s) (exec m s)) ∧
        (∀ a, stable R (mid a)) ∧ ∀ a, sound R G (k a) (mid a) Q
  end.

Lemma sound_weaken R G p (P P' Q : S → Prop) : (∀ s, P' s → P s) → sound R G p P Q → sound R G p P' Q.
Proof.
  destruct p as [|A m k]; cbn; [by eauto|]. intros HP (mid & Hm & Hs & Hk). exists mid. eauto.
Qed.

Lemma sound_post R G p (P Q Q' : S → Prop) : (∀ s, Q s → Q' s) → sound R G p P Q → sound R G p P Q'.
Proof.
  intros HQ. revert P. induction p as [|A m k IH]; intros P; cbn; [by eauto|].
  intros (mid & Hm & Hs & Hk). exists mid. eauto.
Qed.

(** A loop keeps what every turn of it keeps. *)
Lemma sound_loop {A} R G (l : list A) (f : A → proc → proc) k (P Q : S → Prop) :
  (∀ x p, x ∈ l → sound R G p P Q → sound R G (f x p) P Q) → sound R G k P Q → sound R G (foldr f k l) P Q.
Proof. intros Hf Hk. induction l as [|x l IH]; [done|]. cbn. apply Hf; [set_solver|]. apply IH. set_solver. Qed.

(** Tasks that rely on what all others guarantee. *)
Section run.
Context (others : relation S) (R G : nat → relation S) (Q : nat → S → Prop).
Context (Hothers : ∀ i s s', others s s' → R i s s').
Context (Hapart : ∀ i j s s', i ≠ j → G j s s' → R i s s').

Definition on_course (x : list proc * S) : Prop :=
  ∀ i p, x.1 !! i = Some p → ∃ P : S → Prop, P x.2 ∧ stable (R i) P ∧ sound (R i) (G i) p P (Q i).

Lemma on_course_step x x' :
  run_step others x x' → on_course x → on_course x' ∧ (others x.2 x'.2 ∨ ∃ i, i < length x.1 ∧ G i x.2 x'.2)%nat.
Proof.
  intros Hstep Hc. destruct Hstep as [l i A m k s Hi|l s s' Ho]; cbn [fst snd].
  - destruct (Hc i _ Hi) as (P & HP & _ & mid & Hm & Hst & Hk). cbn in Hm, Hk.
    destruct (Hm s HP) as [HG Hmid]. split; [|right; exists i; split; [by eapply lookup_lt_Some|done]].
    intros j p Hj. cbn [fst snd] in *. apply list_lookup_insert_Some in Hj as [(-> & <- & _)|[Hne Hj]].
    + exists (mid (eval m s)). eauto.
    + destruct (Hc j p Hj) as (P' & HP' & Hst' & Hs'). exists P'. split_and!; [|done|done].
      eapply Hst'; [|done]. by apply (Hapart j i).
  - split; [|by left]. intros j p Hj. destruct (Hc j p Hj) as (P & HP & Hst & Hs). exists P. split_and!; [|done|done].
    eapply Hst; [|done]. by apply Hothers.
Qed.

Lemma on_course_end x i : on_course x → x.1 !! i = Some Done → Q i x.2.
Proof. intros Hc Hi. destruct (Hc i Done Hi) as (P & HP & _ & Hs). by apply Hs. Qed.
End run.

(** ** Coming to an end *)

Lemma run_step_length others x x' : run_step others x x' → length x'.1 = length x.1.
Proof. intros []; cbn; [by rewrite length_insert|done]. Qed.

Lemma one_ends others i p l s : l !! i = Some p → rtc (run_step others) (l, s) (<[i := Done]> l, exec (run_alone p) s).
Proof.
  revert l s. induction p as [|A m k IH]; intros l s Hi.
  - by rewrite list_insert_id.
  - eapply rtc_l; [by apply run_piece|]. rewrite alone_piece.
    pose proof (IH (eval m s) (<[i := k (eval m s)]> l) (exec m s)) as Hr. rewrite list_insert_insert_eq in Hr.
    apply Hr, list_lookup_insert_eq. by eapply lookup_lt_Some.
Qed.

(** From anywhere the tasks can all end. *)
Lemma all_end others l s : ∃ s', rtc (run_step others) (l, s) (replicate (length l) Done, s').
Proof.
  assert (Hn : ∀ n, (n ≤ length l)%nat → ∃ s', rtc (run_step others) (l, s) (replicate n Done ++ drop n l, s')).
  { induction n as [|n IH]; intros Hle; [by exists s; rewrite drop_0|]. destruct IH as [s1 H1']; [lia|].
    destruct (lookup_lt_is_Some_2 l n) as [p Hp]; [lia|].
    assert (Hi : (replicate n Done ++ drop n l) !! n = Some p).
    { rewrite lookup_app_r, length_replicate, Nat.sub_diag, lookup_drop by (by rewrite length_replicate). by rewrite Nat.add_0_r. }
    exists (exec (run_alone p) s1). etrans; [exact H1'|]. pose proof (one_ends others n p _ s1 Hi) as H2'.
    rewrite (drop_S l p n Hp) in H2' |- *. rewrite insert_app_r_alt, length_replicate, Nat.sub_diag in H2' by (by rewrite length_replicate).
    cbn in H2'. by rewrite replicate_S_end, <- app_assoc. }
  destruct (Hn (length l) ltac:(lia)) as [s' Hs]. exists s'. by rewrite drop_all, app_nil_r in Hs.
Qed.
End pieces.
Arguments proc S : clear implicits.

Notation "x <~ m ; k" := (Piece m (fun x => k))
  (at level 20, m at level 100, k at level 200, only parsing) : stdpp_scope.
