(* ===== verification/Overtake.v ===== *)
(** * Handshakes side by side

    The handlers of src/src/protocols/commands/online.rs and ack.rs cut
    wherever they wait or touch what other threads share, and any number of
    them run at once. [Handshake] takes a handler for one step; left alone it
    does the same here. A step on one shared map - an operation of the
    registry, of the session keys under their lock, of the manager with the
    lookup before it - is one piece; so is sending a frame. *)

From S2P Require Import Prelude NetAddr External Command NodeRegistry Seeds World Frame Evolution Handshake Pieces.
Open Scope Z_scope.
Open Scope stdpp_scope.

Section definitions.
Context `{Crates, !FrameCodecs, !HandshakeCodecs}.
Implicit Types k : proc World.

Definition register_pieces (seed : SeedRecord) k : proc World :=
  match parse_sock (sr_address seed) with
  | Some addr => _ <~ reg_register (sr_node_address seed) addr; k
  | None => k
  end.

(** Whether a seed may be dialled is asked in three steps; the address of the
    node is read twice. *)
Definition connect_pieces (c : ctx_id) (seed : SeedRecord) k : proc World :=
  let na := sr_node_address seed in
  r <~ get_registry;
  if default true (is_connected na <$> r) then k
  else
    local <~ get_g g_address;
    if default false ((fun a => bool_decide (na = addr_to_string a)) <$> local) then k
    else
      local <~ get_g g_address;
      if default false ((fun a => str_ltb na (addr_to_string a)) <$> local) then k
      else
        match parse_sock (sr_address seed) with
        | Some addr => _ <~ spawn (TConnect c addr na); k
        | None => k
        end.

Definition propagate_pieces (c : ctx_id) (before : nat) k : proc World :=
  after <~ seed_count;
  if (before <? after)%nat then cmd <~ all_seeds_command; _ <~ spawn (TBroadcast c cmd); k else k.

(** ** online_handler *)

Definition gossip_seed_pieces (c : ctx_id) (seed : SeedRecord) k : proc World :=
  r <~ get_registry;
  if default false (is_registered (sr_node_address seed) <$> r) then connect_pieces c seed k
  else register_pieces seed (connect_pieces c seed k).

Definition gossip_merge_pieces (c : ctx_id) (online : OnlineCommand) : proc World :=
  match on_seeds online with
  | Some cmd =>
      if seeds_command_verify cmd then
        r <~ get_registry;
        match r with
        | Some _ =>
            before <~ seed_count;
            foldr (gossip_seed_pieces c) (propagate_pieces c before Done) (sc_seeds cmd)
        | None => Done
        end
      else Done
  | None => Done
  end.

Definition gossip_pieces (c : ctx_id) (frame : P2PFrame) (online : OnlineCommand) : proc World :=
  _ <~ store_peer_node c [Servers; Clients] (on_node online);
  r <~ get_registry;
  match r with
  | Some _ =>
      peer_sock <~ get_ctx c ctx_addr;
      _ <~ reg_register (fb_address (pf_body frame)) (sock_new (sock_ip peer_sock) (an_port (on_node online)));
      gossip_merge_pieces c online
  | None => gossip_merge_pieces c online
  end.

Definition return_connect_pieces (c : ctx_id) (online : OnlineCommand) k : proc World :=
  peer_sock <~ get_ctx c ctx_addr;
  m <~ get_g g_manager;
  let peer_addr := sock_new (sock_ip peer_sock) (an_port (on_node online)) in
  if already_connected m peer_sock peer_addr then k
  else
    local_node <~ get_g g_local_node;
    created <~ use_psk (fun p => psk_create p false);
    match created with
    | Some (session_id, eph_pub) =>
        _ <~ spawn (TReturnConnect peer_addr (mk_online session_id local_node eph_pub [] [] None)); k
    | None => k
    end.

Definition followup_pieces (c : ctx_id) (frame : P2PFrame) (online : OnlineCommand) : proc World :=
  let from := fb_address (pf_body frame) in
  return_connect_pieces c online (
    cmd <~ all_seeds_command;
    _ <~ spawn (TBroadcast c cmd);
    _ <~ publish (PeerOnlineEvent from (on_intranet_ips online) (on_wan_ips online));
    _ <~ spawn (TNodeSync c from);
    peer_sock <~ get_ctx c ctx_addr;
    _ <~ spawn (TWatch peer_sock from);
    Done).

Definition merge_pieces (online : OnlineCommand) k : proc World :=
  match on_seeds online with
  | Some cmd =>
      if seeds_command_verify cmd then
        r <~ get_registry;
        match r with Some _ => foldr register_pieces k (sc_seeds cmd) | None => k end
      else k
  | None => k
  end.

(** From the keys on; the address of the node is read before and after. *)
Definition reply_pieces (c : ctx_id) (frame : P2PFrame) (online : OnlineCommand) (is_return_conn : bool) : proc World :=
  let from := fb_address (pf_body frame) in
  psk <~ get_g g_psk;
  match psk with
  | None => Done
  | Some _ =>
      local <~ get_g g_address;
      match local with
      | None => Done
      | Some local =>
          key <~ (if is_return_conn then online_key from (addr_to_string local) online
                  else online_key from (addr_to_string local) online);
          match key with
          | None => Done
          | Some key =>
              address <~ get_g g_address;
              match address with
              | None => Done
              | Some address =>
                  node <~ get_g g_local_node;
                  merge_pieces online (
                    seeds <~ all_seeds_command;
                    let '(intranet_ips, wan_ips) := local_ips node in
                    sent <~ send c (Some (mk_online_ack (on_session_id online) (addr_to_string address) node key
                                            intranet_ips wan_ips (Some seeds))) Node OnLineAck false;
                    match sent with
                    | Err _ => Done
                    | Ok _ => followup_pieces c frame online
                    end)
              end
          end
      end
  end.

Definition handshake_pieces (c : ctx_id) (frame : P2PFrame) (online : OnlineCommand) : proc World :=
  let from := fb_address (pf_body frame) in
  let admitted is_return_conn :=
    _ <~ ctx_set_peer c from;
    _ <~ store_peer_node c [Clients; Servers] (on_node online);
    reply_pieces c frame online is_return_conn in
  node <~ get_registry;
  match node with
  | Some _ =>
      first <~ reg_try_connect from;
      peer_sock <~ get_ctx c ctx_addr;
      _ <~ reg_register_dir from (sock_new (sock_ip peer_sock) (an_port (on_node online))) Inbound;
      admitted (negb first)
  | None => admitted false
  end.

Definition online_pieces (c : ctx_id) (frame : P2PFrame) (cmd : P2PCommand) : proc World :=
  match decode (T := OnlineCommand) (cmd_data cmd) with
  | Err _ => Done
  | Ok online =>
      match on_session_id online with
      | [] => gossip_pieces c frame online
      | _ => handshake_pieces c frame online
      end
  end.

(** ** onlineack_handler *)

Definition ip_pieces (peer_addr : SocketAddr) (peer : string) (ip : string) k : proc World :=
  if ip_text_is_loopback ip then k
  else
    let seed_addr := default peer_addr (parse_sock (ip +:+ ":" +:+ show_u (sock_port peer_addr))) in
    r <~ get_registry;
    match r with Some _ => _ <~ reg_add_seed peer seed_addr; k | None => k end.

Definition ack_seeds_pieces (c : ctx_id) (ack : OnlineAckCommand) : proc World :=
  match oa_seeds ack with
  | Some cmd =>
      if seeds_command_verify cmd then
        r <~ get_registry;
        match r with
        | Some _ =>
            before <~ seed_count;
            foldr register_pieces
              (propagate_pieces c before (foldr (connect_pieces c) Done (sc_seeds cmd))) (sc_seeds cmd)
        | None => Done
        end
      else Done
  | None => Done
  end.

Definition onlineack_pieces (c : ctx_id) (frame : P2PFrame) (cmd : P2PCommand) : proc World :=
  match decode (T := OnlineAckCommand) (cmd_data cmd) with
  | Err _ => Done
  | Ok ack =>
      psk <~ get_g g_psk;
      match psk with
      | None => Done
      | Some _ =>
          local <~ get_g g_address;
          match local with
          | None => Done
          | Some address =>
              _ <~ ack_establish (fb_address (pf_body frame)) (addr_to_string address) ack;
              peer_addr <~ get_ctx c ctx_addr;
              let peer := oa_address ack in
              let registered :=
                _ <~ ctx_set_peer c peer;
                _ <~ store_peer_node c [Servers] (oa_node ack);
                _ <~ (m ← get_g g_manager; mod_g (set_g_manager (mgr_mark_active m peer_addr false)));
                foldr (ip_pieces peer_addr peer) (ack_seeds_pieces c ack) (oa_intranet_ips ack ++ oa_wan_ips ack) in
              r <~ get_registry;
              match r with
              | Some _ => _ <~ reg_try_connect peer; _ <~ reg_register_dir peer peer_addr Outbound; registered
              | None => registered
              end
          end
      end
  end.

(** A call of one of the handlers. *)
Record HandlerCall := mk_call { hc_ack : bool; hc_ctx : ctx_id; hc_frame : P2PFrame; hc_cmd : P2PCommand }.
Definition call_pieces (h : HandlerCall) : proc World :=
  (if hc_ack h then onlineack_pieces else online_pieces) (hc_ctx h) (hc_frame h) (hc_cmd h).
Definition call_handler (h : HandlerCall) : M unit :=
  (if hc_ack h then onlineack_handler else online_handler) (hc_ctx h) (hc_frame h) (hc_cmd h).
End definitions.

(** ** Left alone *)

Section run_alone.
Context `{Crates, !FrameCodecs, !HandshakeCodecs}.

Lemma run_get_g {A} (f : Gctx → A) w : exec (get_g f) w = w ∧ eval (get_g f) w = f (w_g w).
Proof. done. Qed.
Lemma run_get_ctx {A} c (f : Ctx → A) w : exec (get_ctx c f) w = w ∧ eval (get_ctx c f) w = f (w_ctx w c).
Proof. done. Qed.
Lemma run_get_registry w : exec get_registry w = w ∧ eval get_registry w = reg_of w.
Proof. done. Qed.
Lemma run_seed_count w : exec seed_count w = w.
Proof. done. Qed.
End run_alone.

(** Both sides take their next step. *)
Ltac next :=
  rewrite ?alone_piece, ?exec_bind, ?eval_bind; cbv beta;
  rewrite ?(proj1 (run_get_g _ _)), ?(proj2 (run_get_g _ _)), ?(proj1 (run_get_ctx _ _ _)), ?(proj2 (run_get_ctx _ _ _)),
    ?(proj1 (run_get_registry _)), ?(proj2 (run_get_registry _)), ?run_seed_count;
  cbv beta iota.

Section run_alone.
Context `{Crates, !FrameCodecs, !HandshakeCodecs}.

Lemma alone_register seed k w : exec (run_alone (register_pieces seed k)) w = exec (run_alone k) (exec (register_seed seed) w).
Proof. unfold register_pieces, register_seed. destruct (parse_sock _); [by next|done]. Qed.

Lemma alone_connect c seed k w : exec (run_alone (connect_pieces c seed k)) w = exec (run_alone k) (exec (connect_seed c seed) w).
Proof.
  unfold connect_pieces, connect_seed. do 2 next. unfold may_initiate.
  destruct (reg_of w) as [r|]; [|done]. cbn [from_option id fmap option_fmap option_map].
  destruct (is_connected _ r); [done|]. next.
  destruct (g_address (w_g w)) as [a|] eqn:Ea; cbn [from_option id fmap option_fmap option_map].
  - destruct (bool_decide _); [done|]. next. rewrite Ea. cbn [from_option id fmap option_fmap option_map].
    destruct (str_ltb _ _); [done|]. cbn [negb andb]. destruct (parse_sock _); [by next|done].
  - next. rewrite Ea. cbn [from_option id fmap option_fmap option_map negb andb]. destruct (parse_sock _); [by next|done].
Qed.

Lemma alone_propagate c before k w :
  exec (run_alone (propagate_pieces c before k)) w = exec (run_alone k) (exec (propagate_if_grown c before) w).
Proof. unfold propagate_pieces, propagate_if_grown. next. destruct (_ <? _)%nat; [|done]. by do 2 next. Qed.

Lemma alone_gossip_seed c seed k w :
  exec (run_alone (gossip_seed_pieces c seed k)) w = exec (run_alone k) (exec (gossip_seed c seed) w).
Proof.
  unfold gossip_seed_pieces, gossip_seed. next. destruct (default false _); [by rewrite alone_connect|].
  by rewrite alone_register, alone_connect.
Qed.

Lemma alone_merge online k w : exec (run_alone (merge_pieces online k)) w = exec (run_alone k) (exec (merge_announced online) w).
Proof.
  unfold merge_pieces, merge_announced. destruct (on_seeds online) as [cmd|]; [|done].
  destruct (seeds_command_verify cmd); [|done]. unfold with_node. next. destruct (reg_of w); [|done].
  apply alone_loop. intros. apply alone_register.
Qed.

Lemma alone_gossip c frame online w : exec (run_alone (gossip_pieces c frame online)) w = exec (online_gossip c frame online) w.
Proof.
  assert (Hm : ∀ w, exec (run_alone (gossip_merge_pieces c online)) w =
    exec (match on_seeds online with
          | Some cmd => if seeds_command_verify cmd then with_node (gossip_merge c cmd) else mret tt
          | None => mret tt end) w).
  { clear w. intros w. unfold gossip_merge_pieces. destruct (on_seeds online) as [cmd|]; [|done].
    destruct (seeds_command_verify cmd); [|done]. unfold with_node. next. destruct (reg_of w); [|done].
    unfold gossip_merge. next. rewrite (alone_loop _ _ (gossip_seed c)) by (intros; apply alone_gossip_seed).
    next. by rewrite alone_propagate. }
  unfold gossip_pieces, online_gossip, with_node. do 3 next. destruct (reg_of _); next; apply Hm.
Qed.

Lemma alone_followup c frame online w :
  exec (run_alone (followup_pieces c frame online)) w = exec (online_followup c frame online) w.
Proof.
  unfold followup_pieces, return_connect_pieces, online_followup, plan_return_connect. do 2 next.
  destruct (already_connected _ _ _); [by do 6 next|]. do 2 next.
  destruct (eval (use_psk _) w) as [[]|]; by do 7 next.
Qed.

Lemma address_online_key from local online w :
  g_address (w_g (exec (online_key from local online) w)) = g_address (w_g w).
Proof.
  pose proof (io_g _ _ _ (io_online_key from local online w)) as E. by apply (f_equal g_address) in E.
Qed.

Lemma alone_reply c frame online b w :
  exec (run_alone (reply_pieces c frame online b)) w = exec (online_reply c frame online b) w.
Proof.
  unfold reply_pieces, online_reply. next. destruct (g_psk (w_g w)); [|done]. next.
  destruct (g_address (w_g w)) as [a|] eqn:Ea; [|done]. next.
  replace (if b then _ else _) with (online_key (fb_address (pf_body frame)) (addr_to_string a) online) by (by destruct b).
  destruct (eval (online_key _ _ _) w) as [key|]; [|done]. do 2 next. rewrite address_online_key, Ea. next.
  rewrite alone_merge. unfold online_ack. do 4 next.
  destruct (local_ips _) as [ips ips']. next.
  destruct (eval (send _ _ _ _ _) _); [apply alone_followup|done].
Qed.

Lemma alone_handshake c frame online w :
  exec (run_alone (handshake_pieces c frame online)) w = exec (online_handshake c frame online) w.
Proof.
  unfold handshake_pieces, online_handshake, online_admit. do 2 next.
  destruct (reg_of w).
  - do 5 next. apply alone_reply.
  - do 3 next. apply alone_reply.
Qed.

Lemma alone_ip pa peer ip k w :
  exec (run_alone (ip_pieces pa peer ip k)) w = exec (run_alone k) (exec (ack_store_ip pa peer ip) w).
Proof.
  unfold ip_pieces, ack_store_ip, with_node. destruct (ip_text_is_loopback ip); [done|]. next.
  destruct (reg_of w); [by next|done].
Qed.

Lemma alone_ack_seeds c ack w :
  exec (run_alone (ack_seeds_pieces c ack)) w =
  exec (match oa_seeds ack with Some cmd => ack_seeds c cmd | None => mret tt end) w.
Proof.
  unfold ack_seeds_pieces, ack_seeds. destruct (oa_seeds ack) as [cmd|]; [|done].
  destruct (seeds_command_verify cmd); [|done]. unfold with_node. next. destruct (reg_of w); [|done]. next.
  rewrite (alone_loop _ _ register_seed) by (intros; apply alone_register). next. rewrite alone_propagate.
  by rewrite (alone_loop _ _ (connect_seed c)) by (intros; apply alone_connect).
Qed.

Lemma alone_onlineack c frame cmd w : exec (run_alone (onlineack_pieces c frame cmd)) w = exec (onlineack_handler c frame cmd) w.
Proof.
  unfold onlineack_pieces, onlineack_handler. destruct (decode _) as [ack|]; [|done]. next.
  destruct (g_psk (w_g w)); [|done]. next. destruct (g_address (w_g w)) as [a|]; [|done]. do 3 next.
  unfold with_node. next.
  set (w1 := exec (ack_establish _ _ _) w). destruct (reg_of w1); do 5 next;
    rewrite (alone_loop _ _ (ack_store_ip (ctx_addr (w_ctx w1 c)) (oa_address ack))) by (intros; apply alone_ip);
    apply alone_ack_seeds.
Qed.

Lemma alone_call h w : exec (run_alone (call_pieces h)) w = exec (call_handler h) w.
Proof.
  unfold call_pieces, call_handler. destruct (hc_ack h); [apply alone_onlineack|].
  unfold online_pieces, online_handler. destruct (decode _) as [online|]; [|done].
  destruct (on_session_id online); [apply alone_gossip|apply alone_handshake].
Qed.
End run_alone.

(** ** Side by side *)

Section side_by_side.
Context `{Crates, !FrameCodecs, !HandshakeCodecs}.

(** What a handler on the connection [c] relies on of the others, and what it
    keeps: the registry grows, no flag is taken back, only the name of its own
    connection is changed, and it plans only connections that were allowed
    when all began. *)
Variables (w0 : World) (n0 : P2pNode).
Hypothesis Hn0 : g_node (w_g w0) = Some n0.

Definition grows (w w' : World) : Prop := world_le w w' ∧ flags_le (reg_of w) (reg_of w').
Definition rely (c : ctx_id) (w w' : World) : Prop :=
  grows w w' ∧ ctx_peer (w_ctx w' c) = ctx_peer (w_ctx w c).
Definition guarantee (c : ctx_id) (w w' : World) : Prop :=
  grows w w' ∧ (∀ c', c' ≠ c → ctx_peer (w_ctx w' c') = ctx_peer (w_ctx w c')) ∧
  ∃ l, w_tasks w' = w_tasks w ++ l ∧ Forall (task_ok w0) l.
#[local] Notation holds c p K Q := (sound (rely c) (guarantee c) p K Q).

Lemma flags_le_trans o1 o2 o3 : flags_le o1 o2 → flags_le o2 o3 → flags_le o1 o3.
Proof. destruct o1, o2, o3; cbn; naive_solver. Qed.
#[local] Instance grows_preorder : PreOrder grows.
Proof.
  split; [intros w; split; [done|apply flags_le_refl]|].
  intros x y z [] []. split; [by etrans|by eapply flags_le_trans].
Qed.

Lemma policy_keeps c {A} (m : M A) w : respects policy m → respects world_le m → grows w0 w →
  guarantee c w (exec m w) ∧ rely c w (exec m w).
Proof.
  intros Hp Hw [H0w Hf]. destruct (Hp w) as [Hf' _ Hpe (l & Ht & Hl)]. unfold guarantee, rely, grows.
  split_and!; try done. exists l. split; [done|]. eapply Forall_impl; [exact Hl|]. intros t.
  apply task_ok_earlier; [done|apply H0w].
Qed.

(** ** Assertions *)

Class Assertion (c : ctx_id) (K : World → Prop) : Prop := {
  as_grows w : K w → grows w0 w;
  as_stable : stable (rely c) K;
}.
Definition connected_to (a : string) (w : World) : Prop := ∃ r, reg_of w = Some r ∧ is_connected a r = true.
Definition seen_at (a : string) (s : SocketAddr) (d : ConnectionDirection) (w : World) : Prop :=
  ∃ r, reg_of w = Some r ∧ knows r a s d.
Definition filed (a : string) (s : SocketAddr) (d : ConnectionDirection) (w : World) : Prop :=
  connected_to a w ∧ seen_at a s d w.
Definition named (c : ctx_id) (a : string) (w : World) : Prop := ctx_peer (w_ctx w c) = Some a.

Lemma stable_connected c a : stable (rely c) (connected_to a).
Proof.
  intros w w' [[_ Hf] _] (r & Hr & Hc). unfold connected_to. rewrite Hr in Hf.
  destruct (reg_of w') as [r'|]; [|done]. exists r'. split; [done|by apply Hf].
Qed.
Lemma stable_seen c a s d : stable (rely c) (seen_at a s d).
Proof.
  intros w w' [[Hw _] _] (r & Hr & Hk). pose proof (wl_node _ _ Hw) as Hn. unfold seen_at, reg_of in *.
  destruct (g_node (w_g w)) as [n|]; [|done]. injection Hr as <-. destruct (g_node (w_g w')) as [n'|]; [|done].
  exists (pn_registry n'). split; [done|]. by eapply knows_step.
Qed.
Lemma stable_named c a : stable (rely c) (named c a).
Proof. intros w w' [_ E]. unfold named. by rewrite E. Qed.

Lemma stable_grows c : stable (rely c) (grows w0).
Proof. intros w w' [Hg _] Hw. by etrans. Qed.
#[local] Instance as_start c : Assertion c (grows w0).
Proof. split; [done|apply stable_grows]. Qed.
Lemma as_and c K (F : World → Prop) : Assertion c K → stable (rely c) F → Assertion c (fun w => K w ∧ F w).
Proof.
  intros [Hg Hs] HF. split; [by intros w [Hk _]; apply Hg|].
  intros w w' Hr [Hk Hf]. split; [by eapply Hs|by eapply HF].
Qed.
#[local] Instance as_pure c K (φ : Prop) : Assertion c K → Assertion c (fun w => K w ∧ φ).
Proof. intros Hk. apply (as_and c K (fun _ => φ)); [done|by intros ? ? ?]. Qed.
#[local] Instance as_connected c K a : Assertion c K → Assertion c (fun w => K w ∧ connected_to a w).
Proof. intros Hk. apply (as_and c K (connected_to a)); [done|apply stable_connected]. Qed.
#[local] Instance as_seen c K a s d : Assertion c K → Assertion c (fun w => K w ∧ seen_at a s d w).
Proof. intros Hk. apply (as_and c K (seen_at a s d)); [done|apply stable_seen]. Qed.
#[local] Instance as_named c K a : Assertion c K → Assertion c (fun w => K w ∧ named c a w).
Proof. intros Hk. apply (as_and c K (named c a)); [done|apply stable_named]. Qed.

(** ** Pieces *)

Section rules.
Context (c : ctx_id) (K Q : World → Prop) `{!Assertion c K} {A : Type} (m : M A) (k : A → proc World).
Context (Hp : respects policy m) (Hw : respects world_le m).

Lemma sound_learn (φ : A → Prop) :
  (∀ w, grows w0 w → φ (eval m w)) → (∀ a, holds c (k a) (fun w => K w ∧ φ a) Q) → holds c (Piece m k) K Q.
Proof.
  intros Hφ Hk. exists (fun a w => K w ∧ φ a). split; [|split; [intros a; apply (as_stable (c := c))|done]].
  intros w HK. pose proof (as_grows (Assertion := ltac:(eassumption)) w HK) as Hg. destruct (policy_keeps c m w Hp Hw Hg) as [HG HR].
  split; [done|]. split; [by eapply as_stable|by apply Hφ].
Qed.

Lemma sound_keep : (∀ a, holds c (k a) K Q) → holds c (Piece m k) K Q.
Proof.
  intros Hk. apply (sound_learn (fun _ => True)); [done|]. intros a. eapply sound_weaken; [|apply Hk]. by intros w [? _].
Qed.

Lemma sound_do (F : World → Prop) :
  (∀ w, grows w0 w → F (exec m w)) → stable (rely c) F → (∀ a, holds c (k a) (fun w => K w ∧ F w) Q) →
  holds c (Piece m k) K Q.
Proof.
  intros HF Hst Hk. exists (fun _ w => K w ∧ F w). split; [|split; [intros _; apply (as_and c K F); done|done]].
  intros w HK. pose proof (as_grows (Assertion := ltac:(eassumption)) w HK) as Hg. destruct (policy_keeps c m w Hp Hw Hg) as [HG HR].
  split; [done|]. split; [by eapply as_stable|by apply HF].
Qed.
End rules.

Lemma sound_absurd c p (K Q : World → Prop) : (∀ w, ¬ K w) → holds c p K Q.
Proof.
  intros HK. revert K HK. induction p as [|A m k IH]; intros K HK; [by intros w Hk; destruct (HK w)|].
  exists (fun _ _ => False). split; [by intros w Hk; destruct (HK w)|]. split; [by intros a x y _ []|].
  intros a. apply IH. by intros w [].
Qed.

(** What only keeps the assertion. *)
#[local] Ltac kept :=
  repeat (cbv beta iota zeta;
    first
      [ done
      | match goal with
        | |- sound _ _ (Piece _ _) _ _ =>
            apply sound_keep; [typeclasses eauto|solve [eauto with respects]|solve [eauto with respects]|intros ?]
        | |- sound _ _ (match ?x with _ => _ end) _ _ => destruct x
        end ]).

Section pieces_keep.
Context (c : ctx_id) (K Q : World → Prop) `{!Assertion c K} (k : proc World) (Hk : holds c k K Q).

Lemma sound_register seed : holds c (register_pieces seed k) K Q.
Proof. unfold register_pieces. kept. Qed.
Lemma sound_propagate before : holds c (propagate_pieces c before k) K Q.
Proof. unfold propagate_pieces. kept. Qed.
Lemma sound_ip pa peer ip : holds c (ip_pieces pa peer ip k) K Q.
Proof. unfold ip_pieces. kept. Qed.
Lemma sound_return_connect online : holds c (return_connect_pieces c online k) K Q.
Proof. unfold return_connect_pieces. kept. Qed.

Lemma not_connected_before r na w : grows w0 w → reg_of w = Some r → is_connected na r = false → is_connected na (pn_registry n0) = false.
Proof.
  intros [_ Hf] Hr Hc. unfold reg_of in *. rewrite Hn0 in Hf. cbn in Hf. rewrite Hr in Hf. specialize (Hf na).
  destruct (is_connected na (pn_registry n0)); [|done]. by rewrite Hf in Hc.
Qed.

(** A connection that is planned was allowed when all began, although its
    node may be connected meanwhile. *)
Lemma sound_connect seed : holds c (connect_pieces c seed k) K Q.
Proof.
  unfold connect_pieces. set (na := sr_node_address seed).
  apply (sound_learn c K Q) with (φ := fun r => default true (is_connected na <$> r) = false → is_connected na (pn_registry n0) = false);
    [eauto with respects..| |].
  { intros w Hg. change (eval get_registry w) with (reg_of w). intros E. destruct (reg_of w) as [r|] eqn:Er; [|done].
    by eapply not_connected_before. }
  intros r. destruct (default true _); [eapply sound_weaken; [|exact Hk]; by intros w []|].
  assert (Haddr : ∀ w, grows w0 w → eval (get_g g_address) w = g_address (w_g w0)) by (intros w [Hw _]; apply (wl_address _ _ Hw)).
  apply sound_learn with (φ := fun l => l = g_address (w_g w0)); [typeclasses eauto|eauto with respects..|done|].
  intros l. destruct (default false _) eqn:E1; [eapply sound_weaken; [|exact Hk]; by intros w [[] _]|].
  apply sound_learn with (φ := fun l => l = g_address (w_g w0)); [typeclasses eauto|eauto with respects..|done|].
  intros l'. destruct (default false ((fun a => str_ltb na (addr_to_string a)) <$> l')) eqn:E2;
    [eapply sound_weaken; [|exact Hk]; by intros w [[[] _] _]|].
  destruct (parse_sock _) as [addr|]; [|eapply sound_weaken; [|exact Hk]; by intros w [[[] _] _]].
  exists (fun _ => K). split; [|split; [intros _; apply as_stable|by intros []]].
  intros w [[[HK Hc] ->] ->]. pose proof (respects_spawn (TConnect c addr na) w) as Hw.
  assert (Hg : grows w (exec (spawn (TConnect c addr na)) w)) by (split; [exact Hw|apply flags_le_refl]).
  split; [|by eapply (as_stable (c := c)); [split; [exact Hg|]|exact HK]]. split; [exact Hg|]. split; [done|].
  exists [TConnect c addr na]. split; [done|]. constructor; [|done]. exists (pn_registry n0). unfold reg_of. rewrite Hn0.
  split; [done|]. unfold may_initiate. rewrite Hc by done. destruct (g_address (w_g w0)) as [a|]; [|done]. cbn in E1, E2.
  by rewrite E1, E2.
Qed.
End pieces_keep.

Section handlers_keep.
Context (c : ctx_id) (K Q : World → Prop) `{!Assertion c K} (HQ : ∀ w, K w → Q w).

Lemma sound_merge online k : holds c k K Q → holds c (merge_pieces online k) K Q.
Proof. intros Hk. unfold merge_pieces. kept. apply sound_loop; [|done]. intros. by apply sound_register. Qed.

Lemma sound_followup frame online : holds c (followup_pieces c frame online) K Q.
Proof. unfold followup_pieces. apply sound_return_connect; [typeclasses eauto|]. kept. Qed.

Lemma sound_reply frame online b : holds c (reply_pieces c frame online b) K Q.
Proof.
  unfold reply_pieces. destruct b; kept; apply sound_merge; kept; apply sound_followup.
Qed.

Lemma sound_ack_seeds ack : holds c (ack_seeds_pieces c ack) K Q.
Proof.
  unfold ack_seeds_pieces. kept. apply sound_loop; [intros; by apply sound_register|]. apply sound_propagate; [typeclasses eauto|].
  apply sound_loop; [intros; by apply sound_connect|done].
Qed.

Lemma sound_gossip frame online : holds c (gossip_pieces c frame online) K Q.
Proof.
  assert (Hm : holds c (gossip_merge_pieces c online) K Q); [|unfold gossip_pieces; kept].
  unfold gossip_merge_pieces. kept. apply sound_loop; [|by apply sound_propagate].
  intros seed p _ Hp'. unfold gossip_seed_pieces. kept; [by apply sound_connect|]. apply sound_register; [typeclasses eauto|].
  by apply sound_connect.
Qed.
End handlers_keep.

(** ** What a handler leaves *)

Lemma stable_filed c a s d : stable (rely c) (filed a s d).
Proof. intros w w' Hr [Hc Hs]. split; [by eapply stable_connected|by eapply stable_seen]. Qed.
#[local] Instance as_filed c K a s d : Assertion c K → Assertion c (fun w => K w ∧ filed a s d w).
Proof. intros Hk. apply (as_and c K (filed a s d)); [done|apply stable_filed]. Qed.

Lemma registry_there w : grows w0 w → is_Some (g_node (w_g w)).
Proof. intros [Hw _]. pose proof (wl_node _ _ Hw) as Hn. rewrite Hn0 in Hn. by destruct (g_node (w_g w)). Qed.

Lemma try_connect_connects a w : grows w0 w → connected_to a (exec (reg_try_connect a) w).
Proof.
  intros [n Hn]%registry_there. destruct w as [[] ? ? ? ? ? ? ?]; cbn in Hn; subst.
  eexists (try_connect _ a (pn_registry n)).2. split; [reflexivity|]. by rewrite is_connected_try_connect, bool_decide_true.
Qed.
Lemma register_dir_seen a s d w : grows w0 w → seen_at a s d (exec (reg_register_dir a s d) w).
Proof.
  intros [n Hn]%registry_there. destruct w as [[] ? ? ? ? ? ? ?]; cbn in Hn; subst.
  eexists (register_with_direction _ a s (scope_from_ip (sock_ip s)) d (pn_registry n)). split; [reflexivity|].
  apply register_with_direction_effect. by left.
Qed.

Lemma address_stays c w : grows w0 w → eval (get_ctx c ctx_addr) w = ctx_addr (w_ctx w0 c).
Proof. intros [Hw _]. by destruct (wl_ctx _ _ Hw c). Qed.

(** Filed, and then named. *)
Lemma sound_set_peer c a s d (K Q : World → Prop) k :
  (∀ w, K w → grows w0 w ∧ filed a s d w) → holds c (k tt) (fun w => (grows w0 w ∧ filed a s d w) ∧ named c a w) Q →
  holds c (Piece (ctx_set_peer c a) k) K Q.
Proof.
  intros HK Hk. exists (fun _ w => (grows w0 w ∧ filed a s d w) ∧ named c a w).
  split; [|split; [intros _; apply (as_stable (c := c))|by intros []]].
  intros w Hw. destruct (HK w Hw) as [Hg Hf].
  assert (Hg' : grows w (exec (ctx_set_peer c a) w)) by (split; [apply respects_ctx_set_peer|apply flags_le_refl]).
  split; [|split; [split; [by etrans|exact Hf]|]].
  - split; [exact Hg'|]. split; [|exists []; cbn; by rewrite app_nil_r].
    intros c' Hc'. cbn. by rewrite fn_lookup_insert_ne.
  - unfold named. cbn. by rewrite fn_lookup_insert.
Qed.

Lemma sound_handshake c frame online :
  let from := fb_address (pf_body frame) in
  let listen := sock_new (sock_ip (ctx_addr (w_ctx w0 c))) (an_port (on_node online)) in
  holds c (handshake_pieces c frame online) (grows w0) (fun w => filed from listen Inbound w ∧ named c from w).
Proof.
  intros from listen. unfold handshake_pieces. fold from.
  apply (sound_learn c (grows w0) _) with (φ := is_Some); [eauto with respects..| |].
  { intros w Hg. change (eval get_registry w) with (reg_of w). apply registry_there in Hg as [n Hn]. unfold reg_of. by rewrite Hn. }
  intros [r|]; [|apply sound_absurd; by intros w [_ []]].
  apply sound_do with (F := connected_to from); [typeclasses eauto|eauto with respects..|apply try_connect_connects|apply stable_connected|].
  intros first. apply sound_learn with (φ := fun s => s = ctx_addr (w_ctx w0 c)); [typeclasses eauto|eauto with respects..|apply address_stays|].
  intros sock. apply sound_do with (F := seen_at from (sock_new (sock_ip sock) (an_port (on_node online))) Inbound);
    [typeclasses eauto|eauto with respects..|intros w; apply register_dir_seen|apply stable_seen|].
  intros []. cbv beta iota. apply (sound_set_peer c from listen Inbound).
  { by intros w [[[[Hg _] Hc] ->] Hs]. }
  kept. apply sound_reply; [typeclasses eauto|]. by intros w [[_ Hf] Hn].
Qed.

Lemma sound_onlineack c frame cmd ack :
  decode (T := OnlineAckCommand) (cmd_data cmd) = Ok ack →
  holds c (onlineack_pieces c frame cmd) (grows w0) (fun w =>
    is_Some (g_psk (w_g w0)) → is_Some (g_address (w_g w0)) →
    filed (oa_address ack) (ctx_addr (w_ctx w0 c)) Outbound w ∧ named c (oa_address ack) w).
Proof.
  intros Hd. unfold onlineack_pieces. rewrite Hd. set (peer := oa_address ack).
  apply (sound_learn c (grows w0) _) with (φ := fun p => is_Some p ↔ is_Some (g_psk (w_g w0))); [eauto with respects..| |].
  { intros w [Hg _]. apply (wl_psk _ _ Hg). }
  intros [p|]; [|by intros w [_ Hp] Hs%Hp _; destruct Hs].
  apply sound_learn with (φ := fun l => l = g_address (w_g w0)); [typeclasses eauto|eauto with respects..| |].
  { intros w [Hg _]. apply (wl_address _ _ Hg). }
  intros [a|]; [|by intros w [_ <-] _ [? ?]].
  apply sound_keep; [typeclasses eauto|eauto with respects..|]. intros _.
  apply sound_learn with (φ := fun s => s = ctx_addr (w_ctx w0 c)); [typeclasses eauto|eauto with respects..|apply address_stays|].
  intros sock. cbv zeta. apply sound_learn with (φ := is_Some); [typeclasses eauto|eauto with respects..| |].
  { intros w Hg. change (eval get_registry w) with (reg_of w). apply registry_there in Hg as [n Hn]. unfold reg_of. by rewrite Hn. }
  intros [r|]; [|apply sound_absurd; by intros w [_ []]].
  apply sound_do with (F := connected_to peer); [typeclasses eauto|eauto with respects..|apply try_connect_connects|apply stable_connected|].
  intros first. apply sound_do with (F := seen_at peer sock Outbound);
    [typeclasses eauto|eauto with respects..|intros w; apply register_dir_seen|apply stable_seen|].
  intros []. apply (sound_set_peer c peer (ctx_addr (w_ctx w0 c)) Outbound).
  { by intros w [[[[[[Hg _] _] ->] _] Hc] Hs]. }
  kept. apply sound_keep; [typeclasses eauto|respects_tac|respects_tac|]. intros _.
  apply sound_loop; [intros; apply sound_ip; [typeclasses eauto|done]|].
  apply sound_ack_seeds; [typeclasses eauto|]. by intros w [[_ Hf] Hn] _ _.
Qed.

(** What the handler of a call leaves recorded, when it goes that far. *)
Definition leaves (h : HandlerCall) (w : World) : Prop :=
  let c := hc_ctx h in
  let addr := ctx_addr (w_ctx w0 c) in
  if hc_ack h then
    ∀ ack, decode (T := OnlineAckCommand) (cmd_data (hc_cmd h)) = Ok ack →
      is_Some (g_psk (w_g w0)) → is_Some (g_address (w_g w0)) →
      filed (oa_address ack) addr Outbound w ∧ named c (oa_address ack) w
  else
    ∀ online, decode (T := OnlineCommand) (cmd_data (hc_cmd h)) = Ok online → on_session_id online ≠ [] →
      let from := fb_address (pf_body (hc_frame h)) in
      filed from (sock_new (sock_ip addr) (an_port (on_node online))) Inbound w ∧ named c from w.

Lemma sound_call h : holds (hc_ctx h) (call_pieces h) (grows w0) (leaves h).
Proof.
  unfold call_pieces, leaves. destruct (hc_ack h).
  - destruct (decode (T := OnlineAckCommand) (cmd_data (hc_cmd h))) as [ack|e] eqn:Hd.
    + eapply sound_post; [|by apply sound_onlineack]. intros w Hw ? [= <-]. exact Hw.
    + unfold onlineack_pieces. by rewrite Hd.
  - unfold online_pieces. destruct (decode (T := OnlineCommand) _) as [online|e]; [|by intros w _].
    destruct (on_session_id online) eqn:Es.
    + apply sound_gossip; [typeclasses eauto|]. intros w _ ? [= <-]. by rewrite Es.
    + eapply sound_post; [|by apply sound_handshake]. intros w Hw ? [= <-] _. exact Hw.
Qed.
End side_by_side.

(** ** All calls *)

Section calls.
Context `{Crates, !FrameCodecs, !HandshakeCodecs}.
Variables (hs : list HandlerCall) (others : relation World) (w0 : World) (n0 : P2pNode).
Hypothesis Hnd : NoDup (hc_ctx <$> hs).
Hypothesis Hn0 : g_node (w_g w0) = Some n0.
Hypothesis Hothers : ∀ w w', others w w' → policy w w' ∧ world_le w w'.

Definition relies (i : nat) : relation World := match hs !! i with Some h => rely (hc_ctx h) | None => grows end.
Definition guarantees (i : nat) : relation World :=
  match hs !! i with Some h => guarantee w0 (hc_ctx h) | None => fun _ _ => False end.
Definition ends (i : nat) (w : World) : Prop := ∀ h, hs !! i = Some h → leaves w0 h w.

(** The tasks spawned since the beginning were allowed then. *)
Definition allowed_since (w : World) : Prop := ∃ t, w_tasks w = w_tasks w0 ++ t ∧ Forall (task_ok w0) t.
Record calls_inv (x : list (proc World) * World) : Prop := {
  ci_length : length x.1 = length hs;
  ci_course : on_course relies guarantees ends x;
  ci_grows : grows w0 x.2;
  ci_tasks : allowed_since x.2;
}.

Lemma others_keep i w w' : others w w' → relies i w w'.
Proof.
  intros [Hp Hw]%Hothers. assert (Hg : grows w w') by (split; [done|by apply po_flags]).
  unfold relies. destruct (hs !! i); [|done]. split; [done|by apply po_peer].
Qed.
Lemma calls_apart i j w w' : i ≠ j → guarantees j w w' → relies i w w'.
Proof.
  intros Hne. unfold guarantees, relies. destruct (hs !! j) as [hj|] eqn:Ej; [|done]. intros (Hg & Hp & _).
  destruct (hs !! i) as [hi|] eqn:Ei; [|done]. split; [done|]. apply Hp. intros E. apply Hne.
  apply (NoDup_lookup (hc_ctx <$> hs) i j (hc_ctx hi) Hnd); rewrite list_lookup_fmap; [by rewrite Ei|by rewrite Ej, E].
Qed.

Lemma allowed_more w w' t :
  w_tasks w' = w_tasks w ++ t → Forall (task_ok w0) t → allowed_since w → allowed_since w'.
Proof. intros E Ht (t0 & E0 & Ht0). exists (t0 ++ t). rewrite E, E0, app_assoc. split; [done|]. by apply Forall_app. Qed.

Lemma calls_inv_step x x' : run_step others x x' → calls_inv x → calls_inv x'.
Proof.
  intros Hstep [Hl Hc Hg Ht].
  destruct (on_course_step others relies guarantees ends others_keep calls_apart x x' Hstep Hc) as [Hc' Hs].
  destruct Hs as [Ho|(i & _ & HG)].
  - destruct (Hothers _ _ Ho) as [Hp Hw]. destruct (po_tasks _ _ Hp) as (t & Et & Hok). split; [| |split|].
    + by rewrite (run_step_length _ _ _ Hstep).
    + done.
    + etrans; [apply Hg|done].
    + eapply flags_le_trans; [apply Hg|by apply po_flags].
    + eapply allowed_more; [done| |done]. eapply Forall_impl; [exact Hok|]. intros k. destruct Hg as [Hg Hf].
      apply task_ok_earlier; [done|by apply wl_address].
  - unfold guarantees in HG. destruct (hs !! i); [|done]. destruct HG as (Hg' & _ & t & Et & Hok). split.
    + by rewrite (run_step_length _ _ _ Hstep).
    + done.
    + by eapply (PreOrder_Transitive (PreOrder := grows_preorder)).
    + by eapply allowed_more.
Qed.

Lemma calls_inv_start : calls_inv (call_pieces <$> hs, w0).
Proof.
  split; cbn [fst snd].
  - apply length_fmap.
  - intros i p Hi. cbn [fst snd] in *. rewrite list_lookup_fmap in Hi. unfold relies, guarantees, ends.
    destruct (hs !! i) as [h|]; [|done]. injection Hi as <-. exists (grows w0). split; [split; [done|apply flags_le_refl]|]. split.
    + apply stable_grows.
    + eapply sound_post; [|apply (sound_call w0 n0 Hn0)]. by intros w Hw ? [= <-].
  - split; [done|apply flags_le_refl].
  - exists []. by rewrite app_nil_r.
Qed.
End calls.

(** C7. However handshakes overtake each other. The handlers of online.rs and
    ack.rs for any calls, each on a connection of its own, are cut wherever
    they wait or touch what is shared, and run among any other steps that take
    back no connected flag. Left alone each does what [Handshake] says in one
    step. Side by side they only make the registry grow; every connection they
    plan is to a node that was not connected when all began, is not this node
    and is not left to the other side by the tie-breaker; whoever has ended
    has its peer on record: connected, seen at the right address in the right
    direction, and named on its connection, whatever the others did meanwhile;
    and from anywhere all of them can end. *)
Theorem handshakes_overtake `{Crates, !FrameCodecs, !HandshakeCodecs} (hs : list HandlerCall) (others : relation World) w0 n0 :
  NoDup (hc_ctx <$> hs) → g_node (w_g w0) = Some n0 →
  (∀ w w', others w w' → policy w w' ∧ world_le w w') →
  (∀ h w, exec (run_alone (call_pieces h)) w = exec (call_handler h) w) ∧
  ∀ l w, rtc (run_step others) (call_pieces <$> hs, w0) (l, w) →
    (∃ n, g_node (w_g w) = Some n ∧ rtc registry_step (pn_registry n0) (pn_registry n)) ∧
    (∀ c addr na, planned w0 w (TConnect c addr na) →
       is_connected na (pn_registry n0) = false ∧
       ∀ a, g_address (w_g w0) = Some a → na ≠ addr_to_string a ∧ str_leb (addr_to_string a) na = true) ∧
    (∀ i h, hs !! i = Some h → l !! i = Some Done → leaves w0 h w) ∧
    ∃ w', rtc (run_step others) (l, w) (replicate (length hs) Done, w').
Proof.
  intros Hnd Hn0 Ho. split; [intros; apply alone_call|]. intros l w Hrun.
  assert (Hinv : calls_inv hs w0 (l, w)).
  { revert Hrun. generalize (l, w). apply rtc_ind_r; [by eapply calls_inv_start|]. intros ? ? _ Hst. by eapply calls_inv_step. }
  destruct Hinv as [Hl Hc [Hw _] (t & Et & Ht)]. cbn [fst snd] in *. split_and!.
  - pose proof (wl_node _ _ Hw) as Hn. rewrite Hn0 in Hn. destruct (g_node (w_g w)) as [n|]; [|done]. by exists n.
  - intros c addr na (t' & E & Hin). rewrite Et in E. apply app_inv_head in E as <-. rewrite Forall_forall in Ht.
    destruct (Ht _ Hin) as (r & Hr & Hm). unfold reg_of in Hr. rewrite Hn0 in Hr. injection Hr as <-. by apply may_initiate_allowed.
  - intros i h Hi Hd. exact (on_course_end _ _ _ _ i Hc Hd h Hi).
  - rewrite <- Hl. apply all_end.
Qed.
