(* ===== verification/Router.v ===== *)
(** * The router and the running node

    src/src/protocols/registry.rs: which handler is filed under which command
    id, and the dispatch of a decoded command; and the closures the handlers
    spawn. The node they run in is the step relation of [Running]. *)

From S2P Require Import Prelude NetAddr External Command NodeRegistry Seeds World Frame Evolution Message.
From S2P Require Import Handshake SeedSync Tick NodeSync.
Open Scope Z_scope.
Open Scope stdpp_scope.

Class WireCodecs `{Crates} : Type := {
  #[global] wire_frame :: FrameCodecs;
  #[global] wire_handshake :: HandshakeCodecs;
  #[global] wire_seed_sync :: SeedSyncCodecs;
  #[global] wire_sync :: SyncCodecs;
  #[global] wire_tick :: Codec TickCommand;
}.

(** One name per registered closure. *)
Inductive Handler :=
| HOnline | HOffline | HOnlineAck | HMessage | HMessageAck | HTick | HValidate | HValidateAck
| HNodeSync | HNodeSyncResponse | HSeedSyncRequest | HSeedSyncResponse | HSeedSyncCommit.
#[export] Instance Handler_eq_dec : EqDecision Handler.
Proof. solve_decision. Defined.

(** The calls [router.on(P2PCommand::to_u32(entity, action), handler, _)]. *)
Definition registrations : list (Entity * Action * Handler) :=
  [(Node, OnLine, HOnline);
   (Node, OffLine, HOffline);
   (Node, OnLineAck, HOnlineAck);
   (Message, SendText, HMessage);
   (Message, MessageAck, HMessageAck);
   (Witness, Tick, HTick);
   (Witness, Validate, HValidate);
   (Witness, ValidateAck, HValidateAck);
   (Node, Command.NodeSyncRequest, HNodeSync);
   (Node, Command.NodeSyncResponse, HNodeSyncResponse);
   (Node, Command.SeedSyncRequest, HSeedSyncRequest);
   (Node, Command.SeedSyncResponse, HSeedSyncResponse);
   (Node, Command.SeedSyncCommit, HSeedSyncCommit)].

(** [router.handlers]: a later registration of an id replaces an earlier one. *)
Definition handlers : list (Z * Handler) :=
  foldl (fun t '(e, a, h) => (to_u32 e a, h) :: List.filter (fun p => negb (p.1 =? to_u32 e a)) t) [] registrations.

(** [extract_p2p_cmd_id] *)
Definition extract_p2p_cmd_id (cmd : P2PCommand) : Z := to_u32 (cmd_entity cmd) (cmd_action cmd).

Definition handler_for (id : Z) : option Handler := snd <$> List.find (fun p => p.1 =? id) handlers.

Section router.
Context `{Crates, !WireCodecs}.

Definition run_handler (h : Handler) (c : ctx_id) (frame : P2PFrame) (cmd : P2PCommand) : M unit :=
  match h with
  | HOnline => online_handler c frame cmd
  | HOffline => offline_handler c frame cmd
  | HOnlineAck => onlineack_handler c frame cmd
  | HMessage => message_handler c frame cmd
  | HMessageAck => message_ack_handler c frame cmd
  | HTick => tick_handler c frame cmd
  | HValidate => witness_validate_handler c frame cmd
  | HValidateAck => witness_validate_ack_handler c frame cmd
  | HNodeSync => node_sync_handler c frame cmd
  | HNodeSyncResponse => node_sync_response_handler c frame cmd
  | HSeedSyncRequest => seed_sync_request_handler c frame cmd
  | HSeedSyncResponse => seed_sync_response_handler c frame cmd
  | HSeedSyncCommit => seed_sync_commit_handler c frame cmd
  end.

Definition dispatch (c : ctx_id) (frame : P2PFrame) (cmd : P2PCommand) : M unit :=
  match handler_for (extract_p2p_cmd_id cmd) with
  | Some h => run_handler h c frame cmd
  | None => mret tt
  end.

Definition run_task (t : Task) : M unit :=
  match t with
  | TConnect _ addr na => run_connect addr na
  | TBroadcast _ cmd => broadcast_seeds_to_peers cmd
  | TReturnConnect addr cmd => run_return_connect addr cmd
  | TNodeSync c peer => run_node_sync c peer
  | TWatch sock na => watch_round sock na ;; mret tt
  | TAckDirect sender id to => run_ack_direct sender id to
  | TAckBroadcast sender id => run_ack_broadcast sender id
  end.

End router.

(** ** The table *)

Definition known (h : Handler) : Entity * Action :=
  match h with
  | HOnline => (Node, OnLine) | HOffline => (Node, OffLine) | HOnlineAck => (Node, OnLineAck)
  | HMessage => (Message, SendText) | HMessageAck => (Message, MessageAck)
  | HTick => (Witness, Tick) | HValidate => (Witness, Validate) | HValidateAck => (Witness, ValidateAck)
  | HNodeSync => (Node, Command.NodeSyncRequest) | HNodeSyncResponse => (Node, Command.NodeSyncResponse)
  | HSeedSyncRequest => (Node, Command.SeedSyncRequest) | HSeedSyncResponse => (Node, Command.SeedSyncResponse)
  | HSeedSyncCommit => (Node, Command.SeedSyncCommit)
  end.

Lemma handler_for_known e a h : handler_for (to_u32 e a) = Some h ↔ known h = (e, a).
Proof.
  split.
  - destruct e, a; vm_compute; intros [=]; by subst.
  - destruct h; cbn; intros [= <- <-]; by vm_compute.
Qed.

Section table.
Context `{Crates, !WireCodecs}.

(** Dispatch is exact: a command runs the handler registered for its
    entity and action - no two registrations share an id - and a command
    that is registered for nothing changes nothing. *)
Theorem dispatch_spec c frame cmd w :
  let id := (cmd_entity cmd, cmd_action cmd) in
  (∀ h, known h = id → dispatch c frame cmd w = run_handler h c frame cmd w) ∧
  ((∀ h, known h ≠ id) → dispatch c frame cmd w = (tt, w)) ∧
  NoDup handlers.*1.
Proof.
  cbn zeta. unfold dispatch, extract_p2p_cmd_id. split_and!.
  - intros h Hh. by rewrite (proj2 (handler_for_known _ _ h) Hh).
  - intros Hn. destruct (handler_for _) as [h|] eqn:E; [|done].
    apply handler_for_known in E. by destruct (Hn h).
  - apply (bool_decide_unpack (NoDup handlers.*1)). by vm_compute.
Qed.

Lemma exec_host w : ∃ n, exec build_tick_command w = set_w_clock n w.
Proof.
  unfold build_tick_command, get_witness_ring. rewrite exec_bind. change (exec (mret ?x) ?y) with y.
  rewrite exec_bind. change (exec get_registry w) with w.
  destruct (eval get_registry w) as [r|]; [|exists (w_clock w); by destruct w].
  apply exec_seed_records.
Qed.

Lemma send_tick_stages c w w' r :
  send_tick c w = (r, w') →
  ∃ tick w1, respects io_step build_tick_command ∧ w1 = exec build_tick_command w ∧
    send (C := TickCommand) c (Some tick) Node Tick false w1 = (r, w').
Proof.
  unfold send_tick. rewrite run_bind. destruct (build_tick_command w) as [tick w1] eqn:E. intros Hs.
  exists tick, w1. split; [unfold build_tick_command; respects_tac|]. unfold exec. by rewrite E.
Qed.

(** Ticks never arrive: the frame [send_tick] puts on a connection is
    addressed to the node entity, for which the router has no tick handler,
    so that the node that receives it - verifying it and decoding its
    command - drops it without a trace; only a command addressed to the
    witness entity, which nobody sends, would reach [tick_handler]. *)
Theorem ticks_are_dropped `{!FrameCodecsLaws, !AccountLaws} c w w' :
  send_tick c w = (Ok tt, w') → ctx_writer (w_ctx w c) = true →
  ∃ f raw cmd, ctx_out (w_ctx w' c) = ctx_out (w_ctx w c) ++ [raw] ∧
    verify_bytes raw = Ok f ∧ command_from_data (pf_body f) = Ok cmd ∧
    (∀ c' w'', dispatch c' f cmd w'' = (tt, w'')) ∧
    (∀ c' frame data w'', dispatch c' frame (command_new Witness Tick data) w'' =
       tick_handler c' frame (command_new Witness Tick data) w'').
Proof.
  intros Hs Hw. destruct (send_tick_stages c w w' _ Hs) as (tick & w1 & Hb & -> & Hs').
  destruct (send_effect _ _ _ _ _ _ _ _ Hs') as [(a & data & pay & f & raw & _ & _ & _ & Hv & Hf & Ho & _) _].
  destruct Hf as (_ & _ & _ & _ & Hc).
  destruct (exec_host w) as [n E]. rewrite E in Ho. cbn in Ho. rewrite Hw in Ho.
  exists f, raw, (mk_command Node Tick pay). split_and!; try done.
Qed.
End table.

(** ** What every handler and task guarantees *)

Section steps.
Context `{Crates, !WireCodecs}.

Lemma world_message_handler c f cmd : respects world_le (message_handler c f cmd).
Proof.
  intros w. rewrite run_message_handler. cbv zeta.
  destruct (open_command_psk (C := MessageCommand) f cmd w) as [p Hp].
  assert (Hio : world_le w (exec (open_command (C := MessageCommand) f cmd) w)).
  { apply respects_io. unfold open_command. respects_tac. }
  destruct (eval _ w) as [m|]; [|done]. etrans; [exact Hio|]. rewrite Hp.
  unfold message_result. destruct (accepts (w_g w) m); split; cbn; try done.
  - destruct (g_inbox (w_g w)) as [l|]; cbn; [by apply prefix_app_r|done].
  - by apply prefix_app_r.
Qed.

Lemma world_note_seen k : respects world_le (note_seen k).
Proof. unfold note_seen. respects_tac. Qed.
Lemma world_take_pending k : respects world_le (take_pending k).
Proof. unfold take_pending. respects_tac. Qed.
Lemma io_open {C} `{Codec C} f cmd : respects io_step (open_command (C := C) f cmd).
Proof. unfold open_command. respects_tac. Qed.
#[local] Hint Resolve world_note_seen world_take_pending io_open : respects.
Lemma world_message_ack_handler c f cmd : respects world_le (message_ack_handler c f cmd).
Proof. unfold message_ack_handler. respects_tac. Qed.
#[local] Hint Resolve world_message_handler world_message_ack_handler : respects.

Lemma io_send_message_ack s id c : respects io_step (send_message_ack s id c).
Proof. apply respects_send. Qed.
#[local] Hint Resolve io_send_message_ack : respects.
Lemma io_ack_direct m s id l : respects io_step (ack_direct m s id l).
Proof. induction l as [|a l IH]; cbn; respects_tac. Qed.
Lemma io_ack_fallback s id to l n : respects io_step (ack_fallback s id to n l).
Proof. revert n. induction l as [|e l IH]; intros n; cbn; respects_tac. Qed.
#[local] Hint Resolve io_ack_direct io_ack_fallback : respects.
Lemma io_run_ack_direct s id to : respects io_step (run_ack_direct s id to).
Proof. unfold run_ack_direct. respects_tac. Qed.
Lemma io_run_ack_broadcast s id : respects io_step (run_ack_broadcast s id).
Proof. unfold run_ack_broadcast. apply respects_forward. intros c. respects_tac. Qed.
#[local] Hint Resolve io_run_ack_direct io_run_ack_broadcast : respects.

Lemma world_run_handler h c f cmd : respects world_le (run_handler h c f cmd).
Proof. destruct h; cbn; eauto with respects. Qed.
Lemma world_dispatch c f cmd : respects world_le (dispatch c f cmd).
Proof. unfold dispatch. destruct (handler_for _); [apply world_run_handler|respects_tac]. Qed.
Lemma world_run_task t : respects world_le (run_task t).
Proof. destruct t; cbn; respects_tac. Qed.

End steps.

(** ** Two nodes *)

Section two_nodes.
Context `{Crates, !WireCodecs, !FrameCodecsLaws, !FrameCodecsTotal, !AccountLaws}.
Context `{!CodecLaws OnlineCommand, !CodecTotal OnlineCommand, !CodecLaws OnlineAckCommand, !CodecTotal OnlineAckCommand}.

(** What a node records of a peer once it knows it: under [name], marked
    connected, at [addr] in direction [d], and as the name of connection
    [c]. *)
Definition recorded (w : World) (c : ctx_id) (name : string) (addr : SocketAddr) (d : ConnectionDirection) : Prop :=
  ∃ r, reg_of w = Some r ∧ is_connected name r = true ∧ knows r name addr d ∧ ctx_peer (w_ctx w c) = Some name.

(** A node that can take part: registry, session keys, address [a], and a
    connection it can write to. *)
Definition ready (w : World) (c : ctx_id) (a : Address) : Prop :=
  is_Some (g_node (w_g w)) ∧ is_Some (g_psk (w_g w)) ∧ g_address (w_g w) = Some a ∧
  ctx_writer (w_ctx w c) = true.

Lemma dispatch_online c f pay w :
  dispatch c f (mk_command Node OnLine pay) w = online_handler c f (mk_command Node OnLine pay) w.
Proof. reflexivity. Qed.
Lemma dispatch_online_ack c f pay w :
  dispatch c f (mk_command Node OnLineAck pay) w = onlineack_handler c f (mk_command Node OnLineAck pay) w.
Proof. reflexivity. Qed.

(** C1. The handshake end to end, over the bytes on the wire. Node [a] sends
    an announcement with a session id to node [b], both with registry, session
    keys, address and a connection that can be written to. What [b] receives
    verifies and is dispatched, and [b] then has [a] on record: connected,
    inbound, at [a]'s advertised port. Unless [b]'s key exchange refuses, it
    answers: what [a] receives verifies, is dispatched, carries the session id
    and the key of the exchange, and [a] then has [b] on record: connected,
    outbound, at the address it dialled. *)
Theorem two_node_handshake ca cb a b online wa wb :
  ready wa ca a → ready wb cb b → on_session_id online ≠ [] →
  let wa1 := exec (send ca (Some online) Node OnLine false) wa in
  ∃ f raw cmd,
    ctx_out (w_ctx wa1 ca) = ctx_out (w_ctx wa ca) ++ [raw] ∧
    verify_bytes raw = Ok f ∧ command_from_data (pf_body f) = Ok cmd ∧
    let wb1 := exec (dispatch cb f cmd) wb in
    recorded wb1 cb (addr_to_string a)
      (sock_new (sock_ip (ctx_addr (w_ctx wb cb))) (an_port (on_node online))) Inbound ∧
    ∀ key, key_offered (addr_to_string a) online wb = Some key →
     ∃ f' raw' cmd' ack,
       ctx_out (w_ctx wb1 cb) = ctx_out (w_ctx wb cb) ++ [raw'] ∧
       verify_bytes raw' = Ok f' ∧ command_from_data (pf_body f') = Ok cmd' ∧
       decode (cmd_data cmd') = Ok ack ∧ oa_session_id ack = on_session_id online ∧ oa_ephemeral ack = key ∧
       recorded (exec (dispatch ca f' cmd') wa1) ca (addr_to_string b) (ctx_addr (w_ctx wa ca)) Outbound.
Proof.
  intros (HnA & HpA & HaA & HwA) (HnB & HpB & HaB & HwB) Hsid. cbv zeta.
  destruct (encode_total online) as [pay Hd].
  assert (Hplain : sent_payload ca OnLine (addr_to_string a) pay false wa = Ok pay)
    by (unfold sent_payload; by destruct (g_psk (w_g wa))).
  pose proof (send_total ca online Node OnLine false wa a pay pay HaA Hd Hplain) as Hok.
  destruct (send ca (Some online) Node OnLine false wa) as [r wa1] eqn:Hs. unfold eval in Hok. rewrite Hs in Hok. cbn in Hok. subst r.
  assert (Ewa1 : exec (send ca (Some online) Node OnLine false) wa = wa1) by (unfold exec; by rewrite Hs). rewrite Ewa1. clear Ewa1.
  destruct (send_effect _ _ _ _ _ _ _ _ Hs) as [(a' & data & pay' & f & raw & Ha' & Hd' & Hp & Hv & Hf & Ho & _) Hio].
  assert (a' = a) as -> by congruence. rewrite HwA in Ho. rewrite Hplain in Hp || (cbn in Hd'; rewrite Hd in Hd'; injection Hd' as <-; rewrite Hplain in Hp).
  injection Hp as <-. destruct Hf as (Hfa & _ & _ & _ & Hfc).
  exists f, raw, (mk_command Node OnLine pay). split; [done|]. split; [done|]. split; [done|].
  assert (Eb : exec (dispatch cb f (mk_command Node OnLine pay)) wb = exec (online_handshake cb f online) wb).
  { unfold exec. rewrite dispatch_online. unfold online_handler. cbn [cmd_data].
    rewrite (decode_encode _ _ Hd). by destruct (on_session_id online). }
  rewrite Eb. destruct HnB as [nb HnB]. split.
  - destruct (online_handshake_outcome cb f online wb nb HnB) as (r' & Hr & Hc & Hk & Hpe).
    rewrite Hfa in *. by exists r'.
  - intros key Hkey. pose proof (online_handshake_answers cb f online wb) as Hrep. cbv zeta in Hrep. rewrite Hfa, Hkey in Hrep.
    destruct Hrep as (b' & ack & pay' & f' & raw' & l & Hb' & (Hsame & Hname & _) & Heph & He & Hv' & Hf' & Ho' & _).
    assert (b' = b) as -> by congruence. rewrite HwB in Ho'. destruct Hf' as (_ & _ & _ & _ & Hfc').
    pose proof (decode_encode _ _ He) as Hdec.
    exists f', raw', (mk_command Node OnLineAck pay'), ack. repeat (split; [done|]).
    assert (Ea : exec (dispatch ca f' (mk_command Node OnLineAck pay')) wa1 =
                 exec (onlineack_handler ca f' (mk_command Node OnLineAck pay')) wa1) by done.
    rewrite Ea. destruct HnA as [na HnA]. destruct Hio as [Hg Hpsk Hc _ _ _ _ _].
    assert (HnA1 : g_node (w_g wa1) = Some na) by (apply (f_equal g_node) in Hg; cbn in Hg; congruence).
    assert (HaA1 : g_address (w_g wa1) = Some a) by (apply (f_equal g_address) in Hg; cbn in Hg; congruence).
    destruct (proj2 Hpsk HpA) as [pA HpA1].
    destruct (onlineack_records ca f' (mk_command Node OnLineAck pay') ack wa1 na pA a Hdec HnA1 HpA1 HaA1)
      as (r' & Hr' & Hcn & Hk & Hpe).
    destruct (Hc ca) as (o & Eo & _). rewrite Eo in Hk. cbn in Hk. rewrite Hname in *. by exists r'.
Qed.
End two_nodes.
