(* ===== verification/Record.v ===== *)
(** * Node records

    src/src/record.rs: what a node remembers of an endpoint across runs - when
    it was seen, its periods of activity, its successes and failures - and the
    persistent set of records.

    Instants ([DateTime<Utc>]) are nanoseconds; every reading of the clock is
    an argument. A [HashSet<NodeRecord>] compares records by their endpoint
    alone, so it is a map from endpoints. *)

From S2P Require Import Prelude NetAddr.
Open Scope Z_scope.
Open Scope stdpp_scope.

Inductive Protocol := Http | Tcp | OtherProtocol (name : string).
#[export] Instance Protocol_eq_dec : EqDecision Protocol.
Proof. solve_decision. Defined.
#[export] Instance Protocol_countable : Countable Protocol.
Proof.
  refine (inj_countable'
    (fun p => match p with Http => inl true | Tcp => inl false | OtherProtocol s => inr s end)
    (fun x => match x with inl true => Http | inl false => Tcp | inr s => OtherProtocol s end) _).
  by intros [].
Defined.

Record NodeRecord := mk_record {
  endpoint : SocketAddr;
  protocols : gset Protocol;
  first_seen : Z;
  last_seen : Z;
  periods : list (Z * Z);
  tries : Z * Z;
  is_available : bool;
}.

Definition MAX_VALID_DAYS : Z := 5.
Definition ns_per_minute : Z := 60 * 10 ^ 9.
Definition ns_per_day : Z := 86400 * 10 ^ 9.

(** [signed_duration_since] and [num_minutes], [num_days], which truncate. *)
Definition minutes_since (now t : Z) : Z := Z.quot (now - t) ns_per_minute.
Definition days_since (now t : Z) : Z := Z.quot (now - t) ns_per_day.

(** [NodeRecord::new] *)
Definition record_new (now : Z) (e : SocketAddr) : NodeRecord :=
  mk_record e {[Http; Tcp]} now now [] (0, 0) true.

(** [update_periods]: extend the last period or start one. *)
Fixpoint update_periods (now : Z) (l : list (Z * Z)) : list (Z * Z) :=
  match l with
  | [] => [(now, now)]
  | [(s, e)] => if minutes_since now e <? 60 then [(s, now)] else [(s, e); (now, now)]
  | p :: l' => p :: update_periods now l'
  end.

Definition update_status (now : Z) (success : bool) (r : NodeRecord) : NodeRecord :=
  if success then
    mk_record (endpoint r) (protocols r) (first_seen r) now (update_periods now (periods r))
      (wrap_u 64 ((tries r).1 + 1), (tries r).2) true
  else
    mk_record (endpoint r) (protocols r) (first_seen r) (last_seen r) (periods r)
      ((tries r).1, wrap_u 64 ((tries r).2 + 1)) (is_available r).

Definition is_expired (now : Z) (r : NodeRecord) : bool := MAX_VALID_DAYS <=? days_since now (last_seen r).

Definition set_available (b : bool) (r : NodeRecord) : NodeRecord :=
  mk_record (endpoint r) (protocols r) (first_seen r) (last_seen r) (periods r) (tries r) b.
Definition check_expiry (now : Z) (r : NodeRecord) : NodeRecord :=
  if MAX_VALID_DAYS <=? days_since now (last_seen r) then set_available false r else r.

(** [sync_metadata]; [last_active] is the entry's counter of seconds,
    [in_chrono_range] says whether it makes a [DateTime]. The status update
    that follows reads the clock again. *)
Definition sync_metadata (in_chrono_range : Z → bool) (now last_active : Z) (r : NodeRecord) : NodeRecord :=
  let r1 := if in_chrono_range last_active
            then mk_record (endpoint r) (protocols r) (first_seen r) (last_active * 10 ^ 9) (periods r) (tries r)
                   (is_available r)
            else r in
  update_status now true (set_available true r1).

(** ** The persistent set *)

Abbreviation records := (gmap SocketAddr NodeRecord).

(** [self.nodes.take(&NodeRecord::new(e)).unwrap_or_else(|| NodeRecord::new(e))] *)
Definition take_or_new (now : Z) (e : SocketAddr) (s : records) : NodeRecord :=
  default (record_new now e) (s !! e).

Definition upsert (now_new now : Z) (e : SocketAddr) (success : bool) (s : records) : records :=
  <[e := update_status now success (take_or_new now_new e s)]> s.

Definition get_available_nodes (now : Z) (s : records) : list NodeRecord :=
  List.filter (fun r => is_available r && negb (is_expired now r)) (map_to_list s).*2.

(** [on_startup_maintenance]; [NodeRegistry::new] runs it. *)
Definition on_startup_maintenance (now : Z) (s : records) : records := check_expiry now <$> s.
Definition record_registry_new (now : Z) (s : records) : records := on_startup_maintenance now s.

(** ** Periods *)

(** Each period starts no later than it ends, and an hour or more lies between
    two of them. *)
Definition hour : Z := 60 * ns_per_minute.
Definition apart (p q : Z * Z) : Prop := p.2 + hour ≤ q.1.
Definition periods_wf (l : list (Z * Z)) : Prop := Forall (fun p => p.1 ≤ p.2) l ∧ Sorted apart l.

(** The end of the last period, 0 before the first. *)
Definition last_end (l : list (Z * Z)) : option Z := snd <$> last l.
Definition after_all (now : Z) (l : list (Z * Z)) : Prop := ∀ t, last_end l = Some t → t ≤ now.

Lemma minutes_lt_60 now e : e ≤ now → minutes_since now e < 60 ↔ now < e + hour.
Proof.
  intros He. unfold minutes_since, hour, ns_per_minute.
  rewrite Z.quot_div_nonneg by lia. split; intros Hm.
  - destruct (Z.lt_ge_cases now (e + 60 * (60 * 10 ^ 9))) as [|Hge]; [lia|].
    assert (60 ≤ (now - e) / (60 * 10 ^ 9)) by (apply Z.div_le_lower_bound; lia). lia.
  - apply Z.div_lt_upper_bound; lia.
Qed.

Lemma update_periods_last now l : last_end (update_periods now l) = Some now.
Proof.
  induction l as [|[s e] l IH]; [done|]. destruct l as [|q l].
  - cbn. by destruct (_ <? _).
  - change (update_periods now ((s, e) :: q :: l)) with ((s, e) :: update_periods now (q :: l)).
    unfold last_end in *. rewrite last_cons. destruct (last (update_periods now (q :: l))); done.
Qed.

Lemma update_periods_head now l :
  head (update_periods now l) = match l with
                                | [] => Some (now, now)
                                | [(s, e)] => Some (s, if minutes_since now e <? 60 then now else e)
                                | p :: _ => Some p
                                end.
Proof. destruct l as [|[s e] [|q l]]; [done| |done]. cbn. by destruct (_ <? _). Qed.

Lemma update_periods_wf now l : after_all now l → periods_wf l → periods_wf (update_periods now l).
Proof.
  induction l as [|[s e] l IH]; intros Hn [Hf Hs].
  - split; [constructor; [cbn; lia|constructor]|repeat constructor].
  - apply Forall_cons in Hf as [Hse Hf]. cbn in Hse. destruct l as [|q l].
    + specialize (Hn e eq_refl). cbn. destruct (Z.ltb_spec (minutes_since now e) 60) as [Hm|Hm].
      * split; [constructor; [cbn; lia|constructor]|repeat constructor].
      * assert (e + hour ≤ now).
        { pose proof (minutes_lt_60 now e Hn). lia. }
        split; [repeat constructor; cbn; lia|]. repeat constructor. done.
    + change (update_periods now ((s, e) :: q :: l)) with ((s, e) :: update_periods now (q :: l)).
      apply Sorted_inv in Hs as [Hs Hhd]. inversion Hhd as [|? ? Ha]; subst.
      destruct IH as [IHf IHs]; [|by split|].
      { intros t Ht. apply Hn. unfold last_end in *. rewrite last_cons.
        destruct (last (q :: l)); [done|discriminate]. }
      split; [by constructor|]. constructor; [done|].
      pose proof (update_periods_head now (q :: l)) as Hh.
      destruct (update_periods now (q :: l)) as [|q' l']; [constructor|].
      constructor. cbn in Hh. unfold apart in *. destruct q as [qs qe]. destruct l; injection Hh as ->; done.
Qed.

(** ** A record over time *)

(** The life of a record: status updates and expiry checks at given times. *)
Inductive record_op := OpStatus (now : Z) (success : bool) | OpExpiry (now : Z).
Definition run_op (r : NodeRecord) (o : record_op) : NodeRecord :=
  match o with
  | OpStatus now success => update_status now success r
  | OpExpiry now => check_expiry now r
  end.
Definition op_time (o : record_op) : Z := match o with OpStatus now _ | OpExpiry now => now end.

Record record_wf (now : Z) (r : NodeRecord) : Prop := {
  rw_periods : periods_wf (periods r);
  rw_after : after_all now (periods r);
  rw_seen : first_seen r ≤ last_seen r ≤ now;
  rw_last : ∀ t, last_end (periods r) = Some t → t = last_seen r;
}.

Lemma record_wf_op t r o : record_wf t r → t ≤ op_time o → record_wf (op_time o) (run_op r o).
Proof.
  intros [Hp Ha Hs Hl] Ht. destruct o as [now [|]|now]; cbn [op_time run_op] in *.
  - split; cbn [periods first_seen last_seen update_status]; [|intros x; rewrite update_periods_last; intros [= <-]; lia|lia|].
    + apply update_periods_wf; [|done]. intros x Hx. specialize (Ha x Hx). lia.
    + intros x. rewrite update_periods_last. congruence.
  - split; cbn; [done| |lia|done]. intros x Hx. specialize (Ha x Hx). lia.
  - assert (record_wf now r). { split; [done| |lia|done]. intros x Hx. specialize (Ha x Hx). lia. }
    unfold check_expiry. destruct (_ <=? _); [|done]. by split; destruct H.
Qed.

(** C19. The life of a record, under a clock that does not run backwards: its
    periods of activity never overlap, each starts no later than it ends, two
    of them are an hour or more apart - closer contacts extend the last one -
    the last one ends when the node was last seen, and it was first seen no
    later than last. *)
Theorem record_periods_invariant t0 e (ops : list record_op) :
  Sorted Z.le (t0 :: (op_time <$> ops)) →
  let r := foldl run_op (record_new t0 e) ops in
  periods_wf (periods r) ∧ first_seen r ≤ last_seen r ∧ endpoint r = e ∧
  (∀ t, last_end (periods r) = Some t → t = last_seen r).
Proof.
  assert (G : ∀ ops t r, record_wf t r → Sorted Z.le (t :: (op_time <$> ops)) →
    ∃ t', record_wf t' (foldl run_op r ops)).
  { clear. intros ops. induction ops as [|o ops IH]; intros t r Hr Hs; [by exists t|].
    cbn in Hs. apply Sorted_inv in Hs as [Hs Hh]. inversion Hh; subst.
    apply (IH (op_time o)); [by apply (record_wf_op t)|done]. }
  intros Hs. cbn zeta. destruct (G ops t0 (record_new t0 e)) as [t' [Hp _ Hse Hl]]; [|done|].
  - split; cbn; [by split|done|lia|done].
  - split_and!; try done; [lia|]. clear. generalize (record_new t0 e), (eq_refl : endpoint (record_new t0 e) = e).
    induction ops as [|o ops IH]; intros r Hr; [done|]. apply IH.
    destruct o as [now []|now]; cbn; try done. unfold check_expiry. by destruct (_ <=? _).
Qed.

(** ** The set *)

(** Updating an endpoint touches that record alone: a success makes it
    available, seen now and counts one success, a failure counts one failure
    and changes nothing else; the first sighting is kept; a new endpoint gets
    a record. *)
Theorem upsert_spec now_new now e success (s : records) :
  let old := take_or_new now_new e s in
  ∃ r, upsert now_new now e success s !! e = Some r ∧
    (∀ e', e' ≠ e → upsert now_new now e success s !! e' = s !! e') ∧
    first_seen r = first_seen old ∧
    (if success then is_available r = true ∧ last_seen r = now ∧ (tries r).2 = (tries old).2 ∧
                     (tries r).1 = wrap_u 64 ((tries old).1 + 1) ∧ periods r ≠ []
     else is_available r = is_available old ∧ last_seen r = last_seen old ∧ (tries r).1 = (tries old).1 ∧
          (tries r).2 = wrap_u 64 ((tries old).2 + 1) ∧ periods r = periods old).
Proof.
  cbn zeta. unfold upsert. eexists. rewrite lookup_insert_eq. split; [done|].
  split; [intros e' Hne; by rewrite lookup_insert_ne|]. destruct success; cbn; split_and!; try done.
  destruct (periods _) as [|[a b] [|q l]]; cbn; [done|by destruct (_ <? _)|done].
Qed.

Lemma days_since_mono t now now' : t ≤ now → now ≤ now' → days_since now t ≤ days_since now' t.
Proof. intros H1 H2. unfold days_since. apply Z.quot_le_mono; [done|lia]. Qed.

(** Expiry: the available nodes are exactly those that are marked
    available and were seen less than five days ago; the maintenance at
    startup clears the mark of the others and nothing else, so that it does
    not change what is available then or later; and one success brings any
    node back. *)
Theorem expiry_spec now (s : records) :
  (∀ r, r ∈ get_available_nodes now s ↔
     ∃ e, s !! e = Some r ∧ is_available r = true ∧ days_since now (last_seen r) < MAX_VALID_DAYS) ∧
  (∀ now' r, (∀ e r, s !! e = Some r → last_seen r ≤ now) → now ≤ now' →
     r ∈ get_available_nodes now' (record_registry_new now s) ↔ r ∈ get_available_nodes now' s) ∧
  (∀ now_new e, ∃ r, upsert now_new now e true (record_registry_new now s) !! e = Some r ∧
     r ∈ get_available_nodes now (upsert now_new now e true (record_registry_new now s))).
Proof.
  assert (Hav : ∀ now s r, r ∈ get_available_nodes now s ↔
     ∃ e, s !! e = Some r ∧ is_available r = true ∧ days_since now (last_seen r) < MAX_VALID_DAYS).
  { clear. intros now s r. unfold get_available_nodes. rewrite list_elem_of_In, filter_In, <- list_elem_of_In.
    rewrite list_elem_of_fmap. unfold is_expired. split.
    - intros [([e r'] & -> & Hin) Ha]. exists e. apply elem_of_map_to_list in Hin.
      apply andb_prop in Ha as [Ha Hb]. apply negb_true_iff, Z.leb_gt in Hb. done.
    - intros (e & He & Ha & Hd). split; [exists (e, r); split; [done|by apply elem_of_map_to_list]|].
      rewrite Ha. by apply negb_true_iff, Z.leb_gt. }
  split_and!; [apply Hav| |].
  - intros now' r Hseen Hle. rewrite !Hav. unfold record_registry_new, on_startup_maintenance.
    setoid_rewrite lookup_fmap. unfold check_expiry. split.
    + intros (e & He & Ha & Hd). exists e. destruct (s !! e) as [r0|] eqn:E; [|done]. cbn in He.
      destruct (_ <=? _); injection He as <-; done.
    + intros (e & He & Ha & Hd). exists e. rewrite He. cbn. split; [|done].
      pose proof (days_since_mono (last_seen r) now now' (Hseen e r He) Hle) as Hm.
      destruct (Z.leb_spec MAX_VALID_DAYS (days_since now (last_seen r))); [lia|done].
  - intros now_new e. eexists. split; [apply lookup_insert_eq|]. apply Hav. exists e.
    split; [apply lookup_insert_eq|]. split; [done|]. cbn. unfold days_since. by rewrite Z.sub_diag.
Qed.
