(* ===== verification/P2PNode.v ===== *)
(** * The node

    src/src/node.rs: bringing a node up, dialling the recorded endpoints,
    taking over metadata from live connections, dialling one peer on request.

    [NodeState] holds the two persistent registries of a [Node] and what
    [save_registries] last wrote; the rest of the node is the [World] its
    handlers share. [start] and [start_with_web] are in [Serve]. *)

From S2P Require Import Prelude NetAddr External Command NodeRegistry Seeds World Frame Evolution Handshake Record.
Open Scope Z_scope.
Open Scope stdpp_scope.

Record NodeState := mk_node_state {
  ns_addr : SocketAddr;
  ns_inner : records;
  ns_external : records;
  (** the files of [save_registries] *)
  ns_saved : option (records * records);
}.

Definition save_registries (n : NodeState) : NodeState :=
  mk_node_state (ns_addr n) (ns_inner n) (ns_external n) (Some (ns_inner n, ns_external n)).

(** [inner.upsert(addr, true); external.upsert(addr, true)], each reading the
    clock. *)
Definition upsert_both (t1 t2 : Z) (addr : SocketAddr) (n : NodeState) : NodeState :=
  mk_node_state (ns_addr n) (upsert t1 t2 addr true (ns_inner n)) (upsert t1 t2 addr true (ns_external n)) (ns_saved n).

Section node.
Context `{Crates, !FrameCodecs, !HandshakeCodecs}.

(** [Node::init]: the seeds a node registers for itself. *)
Definition self_seeds (now : Z) (addr : SocketAddr) (self_address : string) (all_ips : list IpAddr)
    (r : registry) : registry :=
  let r := if negb (is_loopback (sock_ip addr))
           then register now self_address addr (scope_from_ip (sock_ip addr)) r else r in
  foldl (fun r ip =>
           if bool_decide (ip = sock_ip addr) then r
           else if is_loopback ip then r
           else register now self_address (sock_new ip (sock_port addr)) (scope_from_ip ip) r) r all_ips.

(** The rest of [init]: the registries as loaded, then the seeds of the
    command line upserted and saved. [inner] and [external] are what the
    storage held. *)
Definition init_state (t1 t2 : Z) (addr : SocketAddr) (inner external : records)
    (seeds : option (list SocketAddr)) : NodeState :=
  let n := mk_node_state addr (record_registry_new t1 inner) (record_registry_new t1 external) None in
  match seeds with
  | Some l => save_registries (foldl (fun n s => upsert_both t1 t2 s n) n l)
  | None => n
  end.

(** The callback of [connect]: announce this node on a new connection. *)
Definition announce (c : ctx_id) : M unit :=
  created ← use_psk (fun p => psk_create p false);
  match created with
  | None => mret tt
  | Some (id, key) =>
      local ← get_g g_local_node;
      self ← get_g g_addr;
      let aex_node := an_from_system (sock_port self) (an_id local) 1 in
      seeds ← all_seeds_command;
      let '(intranet_ips, wan_ips) := local_ips aex_node in
      send_ c (Some (mk_online id aex_node key intranet_ips wan_ips (Some seeds))) Node OnLine false
  end.

(** [manager.connect(addr, _, callback, Some(10))] *)
Definition dial (addr : SocketAddr) (callback : ctx_id → M unit) : M (result unit) :=
  m ← get_g g_manager;
  let '(r, m') := mgr_connect m addr 10 in
  mod_g (set_g_manager m') ;;
  match r with
  | Ok c => callback c ;; mret (Ok tt)
  | Err e => mret (Err e)
  end.

(** [Node::connect] over the endpoints of the inner registry. *)
Definition initiates (local_addr endpoint : SocketAddr) : bool := negb (sock_geb local_addr endpoint).
Definition connect (n : NodeState) : M unit :=
  for_each (map_to_list (ns_inner n)).*1 (fun endpoint =>
    if initiates (ns_addr n) endpoint then dial endpoint announce ;; mret tt else mret tt).

(** [Node::connect_to] *)
Definition connect_to (t1 t2 : Z) (peer_addr : string) (n : NodeState) : M (result unit * NodeState) :=
  match parse_sock peer_addr with
  | None => mret (Err "invalid socket address syntax", n)
  | Some endpoint =>
      let n1 := upsert_both t1 t2 endpoint n in
      r ← dial endpoint (fun _ => mret tt);
      match r with
      | Err e => mret (Err e, n1)
      | Ok _ => mret (Ok tt, save_registries n1)
      end
  end.

(** [Node::stop], but for the shutdown of the connections, which is aex's. *)
Definition stop (n : NodeState) : NodeState := save_registries n.

(** [Node::sync_from_connections]: [info] is the protocols of the entry's
    node, when it is known. The clone whose last period is extended is
    dropped; a record without periods would get one. *)
Definition sync_periods (now : Z) (l : list (Z * Z)) : list (Z * Z) :=
  match l !! (length l - 1)%nat with
  | Some _ => l
  | None => l ++ [(now, now)]
  end.
Definition sync_record (t_new now : Z) (addr : SocketAddr) (info : option (list Protocol)) (s : records) : records :=
  let r := take_or_new t_new addr s in
  let r := update_status now true r in
  let r := match info with
           | Some ps => mk_record (endpoint r) (list_to_set ps ∪ protocols r) (first_seen r) (last_seen r)
                          (sync_periods now (periods r)) (tries r) (is_available r)
           | None => r
           end in
  <[addr := r]> s.
(** The future of [save_registries] is dropped unpolled: nothing is saved. *)
Definition sync_from_connections (t_new now : Z) (connections : list (SocketAddr * option (list Protocol)))
    (n : NodeState) : NodeState :=
  foldl (fun n '(addr, info) =>
           match scope_from_ip (sock_ip addr) with
           | Extranet => mk_node_state (ns_addr n) (ns_inner n) (sync_record t_new now addr info (ns_external n)) (ns_saved n)
           | Intranet => mk_node_state (ns_addr n) (sync_record t_new now addr info (ns_inner n)) (ns_external n) (ns_saved n)
           end) n connections.
End node.

(** ** Properties *)

Section properties.
Context `{Crates, !FrameCodecs, !HandshakeCodecs}.

(** Dialling at startup: of two nodes with different addresses that have
    each other on record exactly one dials the other, and a node never dials
    its own address. *)
Theorem startup_tie_breaker (a b : SocketAddr) :
  sock_wf a → sock_wf b →
  (a ≠ b → initiates a b = negb (initiates b a)) ∧ initiates a a = false.
Proof.
  intros Ha Hb. unfold initiates. split.
  - intros Hne. rewrite (sock_geb_total a b) by done. by rewrite negb_involutive.
  - unfold sock_geb, sock_compare. assert (E : ∀ l, lex_compare l l = Eq).
    { induction l as [|x l IH]; cbn; [done|]. by rewrite Z.compare_refl. }
    by rewrite E.
Qed.

Lemma register_seeds_of now a seed s r a' seed' :
  has_seed (register now a seed s r) a' seed' ↔ (a' = a ∧ seed' = seed) ∨ has_seed r a' seed'.
Proof.
  unfold has_seed, register. setoid_rewrite lookup_insert. destruct (decide (a = a')) as [->|Hne].
  - split.
    + intros (e & [= <-] & Hs). cbn in Hs. unfold insert_direction in Hs. rewrite lookup_insert in Hs.
      case_decide; [by left|right]. destruct (r !! a') as [e|] eqn:E; cbn in Hs; [by exists e|].
      rewrite lookup_empty in Hs. by destruct Hs.
    + intros Hor. eexists. split; [done|]. cbn. unfold insert_direction. rewrite lookup_insert.
      case_decide; [done|]. destruct Hor as [[_ ->]|(e & E & Hs)]; [done|]. by rewrite E.
  - split; [by right|]. intros [[-> _]|Hs]; [done|done].
Qed.

(** A fresh node knows exactly itself: the seeds [init] registers are
    under its own address, at its own port, at the configured address and
    the addresses of the system, and never at a loopback address. *)
Theorem self_seeds_spec now addr self_address all_ips a seed :
  has_seed (self_seeds now addr self_address all_ips new_registry) a seed ↔
  a = self_address ∧ is_loopback (sock_ip seed) = false ∧
  (seed = addr ∨ ∃ ip, ip ∈ all_ips ∧ ip ≠ sock_ip addr ∧ seed = sock_new ip (sock_port addr)).
Proof.
  unfold self_seeds. set (r0 := if negb _ then _ else _).
  assert (Hr0 : has_seed r0 a seed ↔ a = self_address ∧ seed = addr ∧ is_loopback (sock_ip addr) = false).
  { unfold r0. destruct (is_loopback (sock_ip addr)) eqn:E; cbn.
    - split; [|naive_solver]. intros (e & He & _). by unfold new_registry in He; rewrite lookup_empty in He.
    - rewrite register_seeds_of. split; [|naive_solver].
      intros [[-> ->]|(e & He & _)]; [done|]. by unfold new_registry in He; rewrite lookup_empty in He. }
  assert (G : ∀ l r, has_seed (foldl (fun r ip =>
           if bool_decide (ip = sock_ip addr) then r else if is_loopback ip then r
           else register now self_address (sock_new ip (sock_port addr)) (scope_from_ip ip) r) r l) a seed ↔
    has_seed r a seed ∨ (a = self_address ∧ ∃ ip, ip ∈ l ∧ ip ≠ sock_ip addr ∧ is_loopback ip = false ∧
                         seed = sock_new ip (sock_port addr))).
  { induction l as [|ip l IH]; intros r; cbn [foldl].
    { split; [by left|]. intros [Hr|(_ & ip & Hin & _)]; [done|]. by apply elem_of_nil in Hin. }
    rewrite IH. clear IH.
    assert (Hcons : ∀ P : IpAddr → Prop, (∃ x, x ∈ ip :: l ∧ P x) ↔ P ip ∨ ∃ x, x ∈ l ∧ P x).
    { intros P. setoid_rewrite elem_of_cons. split; [intros (x & [->|?] & ?); eauto|].
      intros [?|(x & ? & ?)]; eauto. }
    rewrite (Hcons (fun ip => ip ≠ sock_ip addr ∧ is_loopback ip = false ∧ seed = sock_new ip (sock_port addr))).
    case_bool_decide as E; [tauto|]. destruct (is_loopback ip) eqn:El; [|rewrite register_seeds_of; tauto].
    assert (¬ (ip ≠ sock_ip addr ∧ true = false ∧ seed = sock_new ip (sock_port addr))) by (by intros (_ & ? & _)).
    tauto. }
  rewrite G, Hr0. split.
  - intros [(-> & -> & ?)|(-> & ip & ? & ? & ? & ->)]; [by auto|]. split; [done|].
    rewrite sock_ip_new. split; [done|]. right. by exists ip.
  - intros (-> & Hl & [->|(ip & ? & ? & ->)]); [by left|right]. rewrite sock_ip_new in Hl. split; [done|].
    by exists ip.
Qed.

(** Taking over the metadata of a live connection: its endpoint's record
    is filed by scope, available and seen now, gains the peer's protocols,
    and its periods are those of an ordinary success - the extra period
    handling has no effect, and its index never underflows; the other
    records stay; and nothing reaches the disk. *)
Theorem sync_from_connections_spec t_new now addr info (n : NodeState) :
  let n' := sync_from_connections t_new now [(addr, info)] n in
  let intranet := bool_decide (scope_from_ip (sock_ip addr) = Intranet) in
  let before := if intranet then ns_inner n else ns_external n in
  let after := if intranet then ns_inner n' else ns_external n' in
  ns_saved n' = ns_saved n ∧
  (if intranet then ns_external n' = ns_external n else ns_inner n' = ns_inner n) ∧
  (∀ a, a ≠ addr → after !! a = before !! a) ∧
  ∃ r, after !! addr = Some r ∧ is_available r = true ∧ last_seen r = now ∧
    periods r = update_periods now (periods (take_or_new t_new addr before)) ∧ periods r ≠ [] ∧
    protocols r = list_to_set (default [] info) ∪ protocols (take_or_new t_new addr before).
Proof.
  cbn zeta.
  assert (Hne : ∀ l, update_periods now l ≠ []).
  { intros [|[a b] [|q l]]; cbn; [done|by destruct (_ <? _)|done]. }
  assert (Hsync : ∀ l, sync_periods now (update_periods now l) = update_periods now l).
  { intros l. unfold sync_periods. destruct (update_periods now l) as [|q l'] eqn:E; [by destruct (Hne l)|].
    destruct (lookup_lt_is_Some_2 (q :: l') (length (q :: l') - 1)) as [x ->]; [cbn; lia|done]. }
  assert (G : ∀ s, (∀ a, a ≠ addr → sync_record t_new now addr info s !! a = s !! a) ∧
    ∃ r, sync_record t_new now addr info s !! addr = Some r ∧ is_available r = true ∧ last_seen r = now ∧
      periods r = update_periods now (periods (take_or_new t_new addr s)) ∧ periods r ≠ [] ∧
      protocols r = list_to_set (default [] info) ∪ protocols (take_or_new t_new addr s)).
  { intros s. split; [intros a Ha; unfold sync_record; by rewrite lookup_insert_ne|].
    eexists. split; [apply lookup_insert_eq|]. destruct info as [ps|]; cbn; rewrite ?Hsync; split_and!; try done.
    set_solver. }
  unfold sync_from_connections. cbn [foldl].
  destruct (scope_from_ip (sock_ip addr)); cbn; split_and!; try done; apply G.
Qed.
End properties.
