(* ===== verification/Sql.v ===== *)
(** * Database tables

    The stores under src/src/db/entity/ are written against the query builder
    of the crate sea-orm. [Sql] is its part they use, for one table: select
    with a filter, insert with a generated key, update and delete by key, and
    transactions. [SqlLaws] says what the documentation of sea-orm and SQLite
    says of them; a statement that fails changes nothing, and a client can
    rely on nothing else. [Table] at the end is an instance in memory.

    A store method is an operation on the table that can fail; the clock
    reading a method takes is its argument. *)

From S2P Require Import Prelude.
Open Scope Z_scope.
Open Scope stdpp_scope.

(** What the schema says of a row type: its primary key, and which rows a
    unique column keeps from standing together. *)
Class Row (R : Type) : Type := {
  row_id : R → Z;
  row_conflict : R → R → bool;
}.
#[global] Arguments row_id {R Row} : simpl never.
#[global] Arguments row_conflict {R Row} : simpl never.

Class Sql (T R : Type) : Type := {
  (** [Entity::find().filter(p).all(db)]: in no particular order *)
  sql_find : T → (R → bool) → result (list R);
  (** [am.insert(db)] with the key [NotSet]: the row for the generated key *)
  sql_insert : T → (Z → R) → result (R * T);
  (** [am.update(db)] *)
  sql_update : T → R → result (R * T);
  (** [DELETE FROM t WHERE p] *)
  sql_delete : T → (R → bool) → result T;
  (** [db.begin()] and [tx.commit()] *)
  sql_begin : T → result T;
  sql_commit : T → result T;
}.

(** Generated keys grow ([AUTOINCREMENT]), so the rows of a table stand in the
    order of their keys. *)
Class SqlLaws (T R : Type) `{Row R, Sql T R} : Type := {
  sql_rows : T → list R;
  sql_rows_sorted t : StronglySorted Z.lt (row_id <$> sql_rows t);
  sql_find_ok t p l : sql_find t p = Ok l → l ≡ₚ List.filter p (sql_rows t);
  sql_insert_ok t f r t' : (∀ id, row_id (f id) = id) → sql_insert t f = Ok (r, t') →
    ∃ id, r = f id ∧ sql_rows t' = sql_rows t ++ [f id] ∧
      Forall (fun x => row_conflict x (f id) = false) (sql_rows t);
  sql_update_ok t r r' t' : sql_update t r = Ok (r', t') →
    r' = r ∧ sql_rows t' = (fun x => if decide (row_id x = row_id r) then r else x) <$> sql_rows t;
  sql_delete_ok t p t' : sql_delete t p = Ok t' → sql_rows t' = List.filter (fun x => negb (p x)) (sql_rows t);
  sql_begin_ok t t' : sql_begin t = Ok t' → sql_rows t' = sql_rows t;
  sql_commit_ok t t' : sql_commit t = Ok t' → sql_rows t' = sql_rows t;
}.

(** A database that is there: only what the schema forbids fails. *)
Class SqlReliable (T R : Type) `{SqlLaws T R} : Prop := {
  find_total t p : is_ok (sql_find t p) = true;
  insert_total t f : (∀ id, row_id (f id) = id) → (∀ id, Forall (fun x => row_conflict x (f id) = false) (sql_rows t)) →
    is_ok (sql_insert t f) = true;
  update_total t r : row_id r ∈ row_id <$> sql_rows t → is_ok (sql_update t r) = true;
  delete_total t p : is_ok (sql_delete t p) = true;
  begin_total t : is_ok (sql_begin t) = true;
  commit_total t : is_ok (sql_commit t) = true;
}.

Section queries.
Context {T R : Type} `{Sql T R}.

(** A step of the database; on an error it stays as it was. *)
Definition statement {A} (f : T → result (A * T)) : state T (result A) :=
  fun t => match f t with Ok (a, t') => (Ok a, t') | Err e => (Err e, t) end.

Definition find_all (p : R → bool) : state T (result (list R)) := fun t => (sql_find t p, t).
(** [.one(db)] *)
Definition find_one (p : R → bool) : state T (result (option R)) :=
  l ←? find_all p; mret (Ok (head l)).
(** [.order_by(..).all(db)] *)
Definition find_sorted (leb : R → R → bool) (p : R → bool) : state T (result (list R)) :=
  l ←? find_all p; mret (Ok (sort_by leb l)).
Definition insert_row (f : Z → R) : state T (result R) := statement (fun t => sql_insert t f).
Definition update_row (r : R) : state T (result R) := statement (fun t => sql_update t r).
Definition delete_rows (p : R → bool) : state T (result unit) :=
  statement (fun t => t' ← sql_delete t p; Ok (tt, t')).

(** [find().filter(p).one(db)?.ok_or(err)?], made an active model, changed and
    updated. An active model that comes from a row writes the columns that
    were set; the others are those just read. *)
Definition update_found (p : R → bool) (err : string) (f : R → R) : state T (result R) :=
  record ←? find_one p;
  match record with
  | Some x => update_row (f x)
  | None => mret (Err err)
  end.

(** [let tx = db.begin()?; body; tx.commit()?]: leaving the body early drops
    the transaction, which rolls it back. *)
Definition transaction {A} (body : state T (result A)) : state T (result A) :=
  fun t =>
    match sql_begin t with
    | Err e => (Err e, t)
    | Ok tx =>
        match body tx with
        | (Err e, _) => (Err e, t)
        | (Ok a, tx') => match sql_commit tx' with Ok t' => (Ok a, t') | Err e => (Err e, t) end
        end
    end.

Context `{!Row R}.
(** [order_by_asc(Column::Id)], [order_by_desc(Column::Id)] *)
Definition id_asc (a b : R) : bool := row_id a <=? row_id b.
Definition id_desc (a b : R) : bool := row_id b <=? row_id a.
End queries.

(** ** What the operations do to the rows *)

Lemma filter_sublist_fmap {A B} (f : A → B) (p : A → bool) (l : list A) :
  f <$> List.filter p l `sublist_of` f <$> l.
Proof. induction l as [|x l IH]; cbn; [constructor|]. by destruct (p x); constructor. Qed.

(** A column without duplicates is a key. *)
Lemma nodup_key {A B} (f : A → B) (l : list A) x y : NoDup (f <$> l) → x ∈ l → y ∈ l → f x = f y → x = y.
Proof.
  intros Hn Hx Hy E. apply list_elem_of_lookup in Hx as [i Hx]. apply list_elem_of_lookup in Hy as [j Hy].
  assert (i = j) as <-; [|congruence].
  apply (NoDup_lookup (f <$> l) i j (f x) Hn); rewrite list_lookup_fmap; [by rewrite Hx|by rewrite Hy, E].
Qed.

Lemma nodup_key_snoc {A B} (f : A → B) (l : list A) x : NoDup (f <$> l) → f x ∉ f <$> l → NoDup (f <$> l ++ [x]).
Proof.
  intros Hn Hx. rewrite fmap_app. apply NoDup_app. split_and!; [done| |apply NoDup_singleton].
  by intros y Hy ->%list_elem_of_singleton.
Qed.

Lemma elem_of_filter_b {A} (p : A → bool) l x : x ∈ List.filter p l ↔ x ∈ l ∧ p x = true.
Proof. by rewrite !list_elem_of_In, filter_In. Qed.

#[export] Instance filter_b_perm {A} (p : A → bool) : Proper ((≡ₚ) ==> (≡ₚ)) (List.filter p).
Proof.
  induction 1; cbn; try done.
  - destruct (p x); by try constructor.
  - destruct (p x), (p y); try done. constructor.
  - by etransitivity.
Qed.

Lemma filter_filter_b {A} (p q : A → bool) l : List.filter p (List.filter q l) = List.filter (fun x => q x && p x) l.
Proof. induction l as [|x l IH]; cbn; [done|]. destruct (q x); cbn; [|done]. destruct (p x); by rewrite IH. Qed.

Lemma filter_b_strongly_sorted {A} (R : A → A → Prop) p l : StronglySorted R l → StronglySorted R (List.filter p l).
Proof.
  induction 1 as [|x l _ IH Hx]; cbn; [constructor|]. destruct (p x); [|done]. constructor; [done|].
  rewrite Forall_forall in *. intros y [Hy _]%elem_of_filter_b. by apply Hx.
Qed.

(** The first of a sorted list comes before all others. *)
Lemma head_strongly_sorted {A} (R : A → A → Prop) l x y :
  StronglySorted R l → head l = Some x → y ∈ l → y = x ∨ R x y.
Proof.
  intros Hs. destruct l as [|z l]; [done|]. intros [= ->] [->|Hy]%elem_of_cons; [by left|right].
  apply StronglySorted_inv in Hs as [_ Hs]. rewrite Forall_forall in Hs. by apply Hs.
Qed.

Lemma run_statement {T A} (f : T → result (A * T)) t r t' :
  statement f t = (r, t') → match r with Ok a => f t = Ok (a, t') | Err _ => t' = t end.
Proof. unfold statement. destruct (f t) as [[a t2]|e]; intros [= <- <-]; done. Qed.

Section laws.
Context {T R : Type} `{SqlLaws T R}.

Lemma run_find_all p t r t' :
  find_all p t = (r, t') → t' = t ∧ ∀ l, r = Ok l → l ≡ₚ List.filter p (sql_rows t).
Proof. intros [= <- <-]. split; [done|]. intros l. apply sql_find_ok. Qed.

Lemma run_find_one p t r t' :
  find_one p t = (r, t') → t' = t ∧
  match r with
  | Ok (Some x) => x ∈ sql_rows t ∧ p x = true
  | Ok None => ∀ x, x ∈ sql_rows t → p x = false
  | Err _ => True
  end.
Proof.
  unfold find_one. rewrite run_try_bind. destruct (find_all p t) as [[l|e] t1] eqn:E; intros [= <- <-];
    apply run_find_all in E as [-> E]; split; try done.
  specialize (E l eq_refl). destruct l as [|x l]; cbn.
  - intros x Hx. apply not_true_iff_false. intros Hp.
    apply (elem_of_nil x). rewrite E. by apply elem_of_filter_b.
  - assert (Hx : x ∈ List.filter p (sql_rows t)) by (rewrite <- E; set_solver).
    by apply elem_of_filter_b in Hx.
Qed.

Lemma run_find_sorted leb p t r t' :
  find_sorted leb p t = (r, t') → t' = t ∧
  ∀ l, r = Ok l → ∃ l0, l0 ≡ₚ List.filter p (sql_rows t) ∧ l = sort_by leb l0.
Proof.
  unfold find_sorted. rewrite run_try_bind. destruct (find_all p t) as [[l|e] t1] eqn:E; intros [= <- <-];
    apply run_find_all in E as [-> E]; split; try done.
  intros ? [= <-]. eauto.
Qed.

Lemma run_insert_row f t r t' :
  (∀ id, row_id (f id) = id) → insert_row f t = (r, t') →
  match r with
  | Ok x => ∃ id, x = f id ∧ sql_rows t' = sql_rows t ++ [f id] ∧
      Forall (fun x => row_conflict x (f id) = false) (sql_rows t)
  | Err _ => t' = t
  end.
Proof. unfold insert_row. intros Hf E. apply run_statement in E. destruct r; [by apply sql_insert_ok|done]. Qed.

Definition replace_row (r : R) (l : list R) : list R :=
  (fun x => if decide (row_id x = row_id r) then r else x) <$> l.

Lemma run_update_row r0 t r t' :
  update_row r0 t = (r, t') →
  match r with Ok x => x = r0 ∧ sql_rows t' = replace_row r0 (sql_rows t) | Err _ => t' = t end.
Proof. unfold update_row. intros E. apply run_statement in E. destruct r; [by apply sql_update_ok|done]. Qed.

Lemma run_update_found p err f t r t' :
  update_found p err f t = (r, t') →
  match r with
  | Ok y => ∃ x, x ∈ sql_rows t ∧ p x = true ∧ y = f x ∧ sql_rows t' = replace_row (f x) (sql_rows t)
  | Err _ => t' = t
  end.
Proof.
  unfold update_found. rewrite run_try_bind. destruct (find_one p t) as [[o|e] t1] eqn:E;
    apply run_find_one in E as [-> E]; [|by intros [= <- <-]].
  destruct o as [x|]; [|by intros [= <- <-]]. intros Eu. apply run_update_row in Eu. destruct r; [|done].
  destruct Eu as [-> Eu]. destruct E. eauto.
Qed.

Lemma run_delete_rows p t r t' :
  delete_rows p t = (r, t') →
  match r with Ok _ => sql_rows t' = List.filter (fun x => negb (p x)) (sql_rows t) | Err _ => t' = t end.
Proof.
  unfold delete_rows. intros E. apply run_statement in E. destruct r; [|done].
  apply result_bind_ok in E as (t2 & E & [= _ ->]). by apply sql_delete_ok.
Qed.

Lemma run_transaction {A} (body : state T (result A)) t r t' :
  transaction body t = (r, t') →
  match r with
  | Ok a => ∃ tx tx', sql_rows tx = sql_rows t ∧ body tx = (Ok a, tx') ∧ sql_rows t' = sql_rows tx'
  | Err _ => t' = t
  end.
Proof.
  unfold transaction. destruct (sql_begin t) as [tx|] eqn:Eb; [|by intros [= <- <-]].
  destruct (body tx) as [[a|e] tx'] eqn:Ebody; [|by intros [= <- <-]].
  destruct (sql_commit tx') as [t2|] eqn:Ec; intros [= <- <-]; [|done].
  exists tx, tx'. split_and!; [by apply sql_begin_ok|done|by apply sql_commit_ok].
Qed.

(** ** Keys *)

Lemma rows_nodup t : NoDup (row_id <$> sql_rows t).
Proof.
  pose proof (sql_rows_sorted t) as Hs. revert Hs. generalize (row_id <$> sql_rows t).
  induction 1 as [|x l _ IH Hx]; constructor; [|done].
  intros Hin. rewrite Forall_forall in Hx. specialize (Hx x Hin). lia.
Qed.

Lemma rows_same_id t x y : x ∈ sql_rows t → y ∈ sql_rows t → row_id x = row_id y → x = y.
Proof.
  intros. eapply (nodup_key row_id); eauto using rows_nodup.
Qed.

Lemma replace_row_ids r l : row_id <$> replace_row r l = row_id <$> l.
Proof.
  unfold replace_row. rewrite <- list_fmap_compose. apply list_fmap_ext.
  intros i x _. cbn. by case_decide.
Qed.

Lemma replace_row_fmap {A} (f : R → A) r x t :
  x ∈ sql_rows t → row_id r = row_id x → f r = f x → f <$> replace_row r (sql_rows t) = f <$> sql_rows t.
Proof.
  intros Hx Hid Hf. unfold replace_row. rewrite <- list_fmap_compose. apply list_fmap_ext.
  intros i y Hy. cbn. case_decide as E; [|done]. rewrite Hf. f_equal.
  apply (rows_same_id t); [done|by eapply list_elem_of_lookup_2|congruence].
Qed.

Lemma replace_row_filter {A} (f : R → A) p r x t :
  x ∈ sql_rows t → row_id r = row_id x → f r = f x → p r = p x →
  f <$> List.filter p (replace_row r (sql_rows t)) = f <$> List.filter p (sql_rows t).
Proof.
  intros Hx Hid Hf Hp.
  assert (Hsame : ∀ y, y ∈ sql_rows t → row_id y = row_id r → y = x) by (intros; apply (rows_same_id t); congruence).
  clear Hx. unfold replace_row. induction (sql_rows t) as [|y l IH]; [done|]. rewrite fmap_cons. cbn [List.filter].
  specialize (IH ltac:(set_solver)). case_decide as E.
  - rewrite (Hsame y) by set_solver. rewrite Hp. destruct (p x); [|done]. rewrite !fmap_cons. congruence.
  - destruct (p y); [|done]. rewrite !fmap_cons. congruence.
Qed.

Lemma elem_of_replace_row r x t y :
  x ∈ sql_rows t → row_id r = row_id x →
  y ∈ replace_row r (sql_rows t) ↔ y = r ∨ (y ∈ sql_rows t ∧ y ≠ x).
Proof.
  intros Hx Hid. unfold replace_row. rewrite list_elem_of_fmap. split.
  - intros (z & -> & Hz). case_decide as E; [by left|]. right. split; [done|]. intros ->. congruence.
  - intros [->|[Hy Hne]].
    + exists x. by rewrite decide_True by done.
    + exists y. split; [|done]. rewrite decide_False; [done|]. intros E. apply Hne.
      apply (rows_same_id t); [done|done|congruence].
Qed.

(** Update the row with a key, or insert one: what such an operation does, and
    that keys stay unique. *)
Lemma run_upsert {K} (key : R → K) (p : R → bool) (f : R → R) (g : Z → R) k t r t' :
  (∀ m, p m = true ↔ key m = k) →
  (∀ m, row_id (f m) = row_id m ∧ key (f m) = key m) → (∀ id, row_id (g id) = id ∧ key (g id) = k) →
  (record ←? find_one p; match record with Some x => update_row (f x) | None => insert_row g end) t = (r, t') →
  match r with
  | Ok m =>
      ((∃ x, x ∈ sql_rows t ∧ key x = k ∧ m = f x ∧ sql_rows t' = replace_row m (sql_rows t)) ∨
       (k ∉ key <$> sql_rows t ∧ ∃ id, m = g id ∧ sql_rows t' = sql_rows t ++ [m])) ∧
      (NoDup (key <$> sql_rows t) → NoDup (key <$> sql_rows t'))
  | Err _ => t' = t
  end.
Proof.
  intros Hp Hf Hg. rewrite run_try_bind. destruct (find_one _ t) as [[o|e] t1] eqn:E;
    apply run_find_one in E as [-> E]; [|by intros [= <- <-]].
  destruct o as [x|]; intros Er.
  - destruct E as [Hx Hk%Hp]. apply run_update_row in Er. destruct r as [m|]; [|done].
    destruct Er as [-> Er], (Hf x) as [Hid He]. split; [left; eauto|].
    by rewrite Er, (replace_row_fmap key (f x) x t Hx Hid He).
  - apply run_insert_row in Er; [|intros; apply Hg]. destruct r as [m|]; [|done]. destruct Er as (id & -> & Er & _).
    assert (Hno : k ∉ key <$> sql_rows t).
    { intros (x & Hx & Hin)%list_elem_of_fmap. symmetry in Hx. apply Hp in Hx. by rewrite (E x Hin) in Hx. }
    split; [right; eauto|]. intros Hu. rewrite Er. apply nodup_key_snoc; [done|]. by rewrite (proj2 (Hg id)).
Qed.

(** Where such an operation leaves the other rows. *)
Lemma upsert_others {K} (key : R → K) k t m x t' :
  key m = k →
  (x ∈ sql_rows t ∧ row_id m = row_id x ∧ key x = k ∧ sql_rows t' = replace_row m (sql_rows t)) ∨
  sql_rows t' = sql_rows t ++ [m] →
  m ∈ sql_rows t' ∧ ∀ y, key y ≠ k → y ∈ sql_rows t' ↔ y ∈ sql_rows t.
Proof.
  intros Hm [(Hx & Hid & Hk & E)|E]; rewrite E.
  - split; [rewrite (elem_of_replace_row m x); auto|]. intros y Hy. rewrite (elem_of_replace_row m x) by done.
    split; [intros [->|[]]; done|]. intros Hyt. right. split; [done|]. by intros ->.
  - split; [set_solver|]. intros y Hy. rewrite elem_of_app, list_elem_of_singleton. split; [|by left].
    by intros [Hyt| ->].
Qed.

Lemma filter_sorted p t : StronglySorted Z.lt (row_id <$> List.filter p (sql_rows t)).
Proof.
  generalize (sql_rows_sorted t). induction (sql_rows t) as [|x l IH]; cbn; [done|].
  intros Hs. apply StronglySorted_inv in Hs as [Hs Hx]. destruct (p x); cbn; [|by apply IH].
  constructor; [by apply IH|]. rewrite Forall_forall in *. intros i Hi. apply Hx.
  apply list_elem_of_fmap in Hi as (y & -> & Hy).
  apply elem_of_filter_b in Hy as [Hy _]. by apply list_elem_of_fmap_2.
Qed.

(** Sorting by the key gives the rows back in the order they came in. *)
Lemma sort_id_asc l p t : l ≡ₚ List.filter p (sql_rows t) → sort_by id_asc l = List.filter p (sql_rows t).
Proof.
  intros Hl. eapply (StronglySorted_unique_strong (fun a b => id_asc a b = true)).
  - intros x y Hx Hy Hxy Hyx. unfold id_asc in *.
    assert (Hin : ∀ z, z ∈ sort_by id_asc l → z ∈ sql_rows t).
    { intros z Hz. rewrite sort_by_perm, Hl in Hz.
      by apply elem_of_filter_b in Hz as [Hz _]. }
    apply (rows_same_id t); [by apply Hin| |lia].
    apply Hin. rewrite sort_by_perm, Hl. done.
  - apply sort_by_sorted; unfold id_asc; intros; lia.
  - generalize (filter_sorted p t). generalize (List.filter p (sql_rows t)).
    intros l0. induction l0 as [|x l0 IH]; cbn; [constructor|].
    intros Hs. apply StronglySorted_inv in Hs as [Hs Hx]. constructor; [by apply IH|].
    rewrite Forall_fmap in Hx. eapply Forall_impl; [exact Hx|]. cbn. unfold id_asc. intros; lia.
  - by rewrite sort_by_perm, Hl.
Qed.

Lemma sort_id_desc l p t :
  l ≡ₚ List.filter p (sql_rows t) → sort_by id_desc l = reverse (List.filter p (sql_rows t)).
Proof.
  intros Hl. eapply (StronglySorted_unique_strong (fun a b => id_desc a b = true)).
  - intros x y Hx Hy Hxy Hyx. unfold id_desc in *.
    assert (Hin : ∀ z, z ∈ sort_by id_desc l → z ∈ sql_rows t).
    { intros z Hz. rewrite sort_by_perm, Hl in Hz.
      by apply elem_of_filter_b in Hz as [Hz _]. }
    apply (rows_same_id t); [by apply Hin| |lia].
    apply Hin. rewrite elem_of_reverse in Hy. by rewrite sort_by_perm, Hl.
  - apply sort_by_sorted; unfold id_desc; intros; lia.
  - generalize (filter_sorted p t). generalize (List.filter p (sql_rows t)).
    intros l0. induction l0 as [|x l0 IH]; intros Hs; [constructor|].
    rewrite fmap_cons in Hs. apply StronglySorted_inv in Hs as [Hs Hx]. rewrite reverse_cons.
    apply StronglySorted_app_2; [|by apply IH|by repeat constructor].
    intros y z Hy ->%list_elem_of_singleton. rewrite elem_of_reverse in Hy.
    rewrite Forall_fmap, Forall_forall in Hx. specialize (Hx y Hy). cbn in Hx. unfold id_desc. lia.
  - by rewrite sort_by_perm, Hl, reverse_Permutation.
Qed.
End laws.

(** ** On a reliable database *)

Section reliable.
Context {T R : Type} `{SqlReliable T R}.

Lemma find_all_total p t : ∃ l, find_all p t = (Ok l, t) ∧ l ≡ₚ List.filter p (sql_rows t).
Proof.
  pose proof (find_total t p) as Hf. unfold find_all.
  destruct (sql_find t p) as [l|] eqn:E; [|done]. exists l. split; [done|]. by apply sql_find_ok.
Qed.

Lemma find_one_total p t :
  ∃ o, find_one p t = (Ok o, t) ∧
  match o with
  | Some x => x ∈ sql_rows t ∧ p x = true
  | None => ∀ x, x ∈ sql_rows t → p x = false
  end.
Proof.
  destruct (find_all_total p t) as (l & E & _).
  assert (E1 : find_one p t = (Ok (head l), t)) by (unfold find_one; by rewrite run_try_bind, E).
  exists (head l). split; [done|]. by apply run_find_one in E1 as [_ E1].
Qed.

Lemma insert_row_total f t :
  (∀ id, row_id (f id) = id) → (∀ id, Forall (fun x => row_conflict x (f id) = false) (sql_rows t)) →
  ∃ id t', insert_row f t = (Ok (f id), t') ∧ sql_rows t' = sql_rows t ++ [f id].
Proof.
  intros Hf Hc. pose proof (insert_total t f Hf Hc) as Hi. unfold insert_row, statement.
  destruct (sql_insert t f) as [[r t']|] eqn:E; [|done].
  apply sql_insert_ok in E as (id & -> & E & _); [|done]. eauto.
Qed.

Lemma update_row_total r x t :
  x ∈ sql_rows t → row_id r = row_id x → ∃ t', update_row r t = (Ok r, t') ∧ sql_rows t' = replace_row r (sql_rows t).
Proof.
  intros Hx Hid. assert (Hu : is_ok (sql_update t r) = true).
  { apply update_total. rewrite Hid. by apply list_elem_of_fmap_2. }
  unfold update_row, statement. destruct (sql_update t r) as [[r' t']|] eqn:E; [|done].
  apply sql_update_ok in E as [-> E]. eauto.
Qed.
End reliable.

(** ** An instance in memory *)

(** Whether keys grow strictly along a list. *)
Fixpoint ids_grow (last : Z) (l : list Z) : bool :=
  match l with
  | [] => true
  | i :: l' => (last <? i) && ids_grow i l'
  end.

Record Table (R : Type) `{Row R} := mk_table {
  tb_rows : list R;
  (** the last generated key *)
  tb_seq : Z;
  tb_wf : ids_grow 0 ((row_id <$> tb_rows) ++ [tb_seq + 1]) = true;
}.
Arguments mk_table {R _}.
Arguments tb_rows {R _}.
Arguments tb_seq {R _}.

Section table.
Context {R : Type} `{Row R}.

Definition table_check (rows : list R) (seq : Z) : result (Table R) :=
  (if ids_grow 0 ((row_id <$> rows) ++ [seq + 1]) as b
      return ids_grow 0 ((row_id <$> rows) ++ [seq + 1]) = b → result (Table R)
   then fun E => Ok (mk_table rows seq E) else fun _ => Err "constraint failed") eq_refl.

Definition table_new : Table R := mk_table [] 0 eq_refl.

#[export] Instance table_sql : Sql (Table R) R := {
  sql_find t p := Ok (List.filter p (tb_rows t));
  sql_insert t f :=
    let r := f (tb_seq t + 1) in
    if existsb (fun x => row_conflict x r) (tb_rows t) then Err "UNIQUE constraint failed"
    else if decide (row_id r = tb_seq t + 1)
         then t' ← table_check (tb_rows t ++ [r]) (tb_seq t + 1); Ok (r, t')
         else Err "constraint failed";
  sql_update t r :=
    if decide (row_id r ∈ row_id <$> tb_rows t)
    then t' ← table_check ((fun x => if decide (row_id x = row_id r) then r else x) <$> tb_rows t) (tb_seq t);
         Ok (r, t')
    else Err "None of the records are updated";
  sql_delete t p := table_check (List.filter (fun x => negb (p x)) (tb_rows t)) (tb_seq t);
  sql_begin t := Ok t;
  sql_commit t := Ok t;
}.

Lemma table_check_ok rows seq t : table_check rows seq = Ok t → tb_rows t = rows ∧ tb_seq t = seq.
Proof.
  unfold table_check. generalize (eq_refl (ids_grow 0 ((row_id <$> rows) ++ [seq + 1]))).
  destruct (ids_grow 0 _) at 2 3; intros e; [|done]. by intros [= <-].
Qed.

Lemma table_check_total rows seq :
  ids_grow 0 ((row_id <$> rows) ++ [seq + 1]) = true → is_ok (table_check rows seq) = true.
Proof.
  intros E. unfold table_check. generalize (eq_refl (ids_grow 0 ((row_id <$> rows) ++ [seq + 1]))).
  destruct (ids_grow 0 _) at 2 3; intros e; [done|]. congruence.
Qed.

Lemma ids_grow_spec z l : ids_grow z l = true ↔ StronglySorted Z.lt (z :: l).
Proof.
  revert z. induction l as [|i l IH]; intros z; cbn; [split; [repeat constructor|done]|].
  rewrite andb_true_iff, Z.ltb_lt, IH. split.
  - intros [Hz Hs]. constructor; [done|]. apply StronglySorted_inv in Hs as [_ Hi].
    constructor; [done|]. eapply Forall_impl; [exact Hi|]. cbn. lia.
  - intros Hs. apply StronglySorted_inv in Hs as [Hs Hz]. inversion Hz; subst. done.
Qed.

Lemma strongly_sorted_sub z (l l' : list Z) m :
  l' `sublist_of` l → StronglySorted Z.lt (z :: l ++ [m]) → StronglySorted Z.lt (z :: l' ++ [m]).
Proof.
  intros Hl Hs. assert (Hsub : z :: l' ++ [m] `sublist_of` z :: l ++ [m]).
  { constructor. by apply sublist_app. }
  clear Hl. revert Hs. induction Hsub as [|x k k' Hk IH|x k k' Hk IH]; intros Hs; [done|..];
    apply StronglySorted_inv in Hs as [Hs Hx].
  - constructor; [by apply IH|]. rewrite Forall_forall in *. intros y Hy. apply Hx.
    by eapply elem_of_sublist.
  - by apply IH.
Qed.

#[export] Instance table_laws : SqlLaws (Table R) R.
Proof.
  refine {| sql_rows := tb_rows |}.
  - intros [rows seq E]. cbn. apply ids_grow_spec, StronglySorted_inv in E as [E _].
    by apply StronglySorted_app_1_l in E.
  - by intros t p l [= <-].
  - intros t f r t' Hf E. cbn in E. destruct (existsb _ _) eqn:Ex; [done|]. case_decide as Ei; [|done].
    apply result_bind_ok in E as (t2 & E & [= <- <-]). apply table_check_ok in E as [E _].
    exists (tb_seq t + 1). split_and!; [done|done|]. apply Forall_forall. intros x Hx.
    destruct (row_conflict x (f (tb_seq t + 1))) eqn:Ec; [|done].
    assert (existsb (fun x => row_conflict x (f (tb_seq t + 1))) (tb_rows t) = true); [|congruence].
    apply existsb_exists. exists x. split; [by apply list_elem_of_In|done].
  - intros t r r' t' E. cbn in E. case_decide; [|done].
    apply result_bind_ok in E as (t2 & E & [= <- <-]). by apply table_check_ok in E as [-> _].
  - intros t p t' E. cbn in E. by apply table_check_ok in E as [-> _].
  - by intros t t' [= <-].
  - by intros t t' [= <-].
Defined.

#[export] Instance table_reliable : SqlReliable (Table R) R.
Proof.
  split; try done.
  - intros t f Hf Hc. cbn. destruct (existsb _ _) eqn:Ex.
    { apply existsb_exists in Ex as (x & Hx & Ex). specialize (Hc (tb_seq t + 1)).
      rewrite Forall_forall in Hc. rewrite Hc in Ex; [done|by apply list_elem_of_In]. }
    rewrite decide_True by apply Hf.
    assert (Hok : is_ok (table_check (tb_rows t ++ [f (tb_seq t + 1)]) (tb_seq t + 1)) = true).
    { apply table_check_total, ids_grow_spec. rewrite fmap_app. cbn. rewrite Hf.
      pose proof (tb_wf _ t) as E. apply ids_grow_spec in E.
      change (StronglySorted Z.lt ((0 :: (row_id <$> tb_rows t) ++ [tb_seq t + 1]) ++ [tb_seq t + 1 + 1])).
      apply StronglySorted_app_2; [|done|by repeat constructor].
      intros x y Hx ->%list_elem_of_singleton.
      change (0 :: (row_id <$> tb_rows t) ++ [tb_seq t + 1]) with ((0 :: (row_id <$> tb_rows t)) ++ [tb_seq t + 1]) in *.
      apply elem_of_app in Hx as [Hx| ->%list_elem_of_singleton]; [|lia].
      eapply StronglySorted_app_1_elem_of in E; [|exact Hx|by apply list_elem_of_singleton]. lia. }
    by destruct (table_check _ _).
  - intros t r Hr. cbn. rewrite decide_True by done.
    assert (Hok : is_ok (table_check (replace_row r (tb_rows t)) (tb_seq t)) = true).
    { apply table_check_total. rewrite replace_row_ids. apply (tb_wf _ t). }
    unfold replace_row in Hok. by destruct (table_check _ _).
  - intros t p. apply table_check_total, ids_grow_spec. eapply strongly_sorted_sub; [apply filter_sublist_fmap|].
    apply ids_grow_spec, (tb_wf _ t).
Qed.
End table.
