(* ===== verification/Database.v ===== *)
(** * The database

    src/src/db/store.rs and src/src/db/defines.rs: running a body in a
    transaction, and creating the tables. That a statement text creates the
    table of an entity is the business of sea-orm; [SchemaLaws] is what [CREATE
    TABLE IF NOT EXISTS] is documented to do. *)

From S2P Require Import Prelude Sql.
Open Scope Z_scope.
Open Scope stdpp_scope.

(** The entities db/entity/mod.rs declares with a store. *)
Inductive DbEntity : Type :=
  | EMeta | EBalance | ETransaction | ETransactionSet | EPublicServer | EWitnessTickRecord | EEpoch | EEpochReward
  | EEpochAllocation | EContact | EChatMessage | EEncryptedMessage | EWitness | EWitnessSeed.
#[export] Instance DbEntity_eq_dec : EqDecision DbEntity.
Proof. solve_decision. Defined.
Definition entity_index (e : DbEntity) : nat :=
  match e with
  | EMeta => 0 | EBalance => 1 | ETransaction => 2 | ETransactionSet => 3 | EPublicServer => 4 | EWitnessTickRecord => 5
  | EEpoch => 6 | EEpochReward => 7 | EEpochAllocation => 8 | EContact => 9 | EChatMessage => 10
  | EEncryptedMessage => 11 | EWitness => 12 | EWitnessSeed => 13
  end%nat.
Definition entities : list DbEntity :=
  [EMeta; EBalance; ETransaction; ETransactionSet; EPublicServer; EWitnessTickRecord; EEpoch; EEpochReward;
   EEpochAllocation; EContact; EChatMessage; EEncryptedMessage; EWitness; EWitnessSeed].
#[export] Program Instance DbEntity_countable : Countable DbEntity :=
  inj_countable entity_index (fun i => entities !! i) _.
Next Obligation. by intros []. Qed.

Inductive DatabaseBackend : Type := Sqlite | MySql | Postgres.
Inductive QueryBuilder : Type := SqliteQueryBuilder | MysqlQueryBuilder | PostgresQueryBuilder.

Class Schema (D : Type) : Type := {
  TableStmt : Type;
  get_database_backend : D → DatabaseBackend;
  create_table_from_entity : DatabaseBackend → DbEntity → TableStmt;
  if_not_exists : TableStmt → TableStmt;
  stmt_to_string : QueryBuilder → TableStmt → string;
  (** [db.execute(Statement::from_string(backend, sql))]; an error is its
      text *)
  execute : DatabaseBackend → string → D → result D;
  (** the text of [DbErr::Custom] *)
  db_custom : string → string;
}.

Section create_table.
Context {D : Type} `{Schema D}.

Definition builder_of (backend : DatabaseBackend) : QueryBuilder :=
  match backend with
  | Sqlite => SqliteQueryBuilder
  | MySql => MysqlQueryBuilder
  | Postgres => PostgresQueryBuilder
  end.
Definition create_table_sql (backend : DatabaseBackend) (e : DbEntity) : string :=
  stmt_to_string (builder_of backend) (if_not_exists (create_table_from_entity backend e)).
Definition create_table (e : DbEntity) (db : D) : result D :=
  let backend := get_database_backend db in
  execute backend (create_table_sql backend e) db.
End create_table.

(** The statement the schema makes of an entity, in the dialect of the
    database, with [IF NOT EXISTS]. *)
Class SchemaLaws (D : Type) `{Schema D} : Type := {
  tables : D → gset DbEntity;
  execute_create e d d' : let b := get_database_backend d in
    execute b (create_table_sql b e) d = Ok d' → tables d' = {[e]} ∪ tables d;
  execute_if_not_exists e d : let b := get_database_backend d in
    e ∈ tables d → execute b (create_table_sql b e) d = Ok d;
}.

(** ** create_entities! and create_all_table *)

Section create.
Context {D : Type} `{Schema D}.

(** One arm of the macro: a failure is kept, and the next table is tried. *)
Definition create_or_note (e : DbEntity) (s : option string * D) : option string * D :=
  match create_table e s.2 with
  | Ok d' => (s.1, d')
  | Err err => (Some err, s.2)
  end.
Definition create_entities (l : list DbEntity) : state D (result unit) := fun d =>
  let '(last_err, d') := foldl (fun s e => create_or_note e s) (None, d) l in
  (match last_err with Some err => Err (db_custom err) | None => Ok tt end, d').

Definition created_entities : list DbEntity :=
  [EMeta; EBalance; ETransaction; ETransactionSet; EPublicServer; EWitnessTickRecord; EEpoch; EEpochReward;
   EEpochAllocation].
Definition create_all_table : state D (result unit) := create_entities created_entities.
End create.

(** ** with_transaction *)

Section with_transaction.
Context {T R : Type} `{Sql T R}.
(** [txn.rollback()] *)
Context (rollback : T → result unit).

(** A transaction that is dropped, or whose rollback fails, is rolled back all
    the same. *)
Definition with_transaction {A} (f : state T (result A)) : state T (result unit) := fun db =>
  match sql_begin db with
  | Err e => (Err e, db)
  | Ok txn =>
      match f txn with
      | (Ok _, txn') => match sql_commit txn' with Ok db' => (Ok tt, db') | Err e => (Err e, db) end
      | (Err e, txn') => match rollback txn' with Ok _ => (Err e, db) | Err e' => (Err e', db) end
      end
  end.
End with_transaction.

(** ** What they do *)

(** All or nothing: if it succeeds the body did, and its rows are the rows;
    otherwise nothing changed. On a database that is there the answer is that
    of the body. *)
Theorem transaction_all_or_nothing {T R A} `{SqlLaws T R} (rollback : T → result unit) (f : state T (result A)) t r t' :
  with_transaction rollback f t = (r, t') →
  (r = Ok tt → ∃ tx a tx', sql_rows tx = sql_rows t ∧ f tx = (Ok a, tx') ∧ sql_rows t' = sql_rows tx') ∧
  (r ≠ Ok tt → t' = t) ∧
  (SqlReliable T R → (∀ tx, rollback tx = Ok tt) →
   ∃ tx, sql_rows tx = sql_rows t ∧ r = match (f tx).1 with Ok _ => Ok tt | Err e => Err e end).
Proof.
  intros E. unfold with_transaction in E. split_and!.
  - destruct (sql_begin t) as [tx|] eqn:Eb; [|by injection E as <- <-]. destruct (f tx) as [[a|e] tx'] eqn:Ef.
    + destruct (sql_commit tx') as [t2|] eqn:Ec; injection E as <- <-; [|done]. intros _.
      exists tx, a, tx'. split_and!; [by apply sql_begin_ok|done|by apply sql_commit_ok].
    + destruct (rollback tx'); by injection E as <- <-.
  - destruct (sql_begin t) as [tx|]; [|by injection E as <- <-]. destruct (f tx) as [[a|e] tx'].
    + destruct (sql_commit tx'); by injection E as <- <-.
    + destruct (rollback tx'); by injection E as <- <-.
  - intros Hr Hroll. pose proof (begin_total t) as Hb. destruct (sql_begin t) as [tx|] eqn:Eb; [|done].
    exists tx. split; [by apply sql_begin_ok|]. destruct (f tx) as [[a|e] tx'].
    + pose proof (commit_total tx') as Hc. destruct (sql_commit tx'); [|done]. by injection E as <- <-.
    + rewrite Hroll in E. by injection E as <- <-.
Qed.

Section laws.
Context {D : Type} `{SchemaLaws D}.

(** Which tables are there after a run of the macro, and whether a failure was
    noted. *)
Lemma create_fold (l : list DbEntity) s :
  let s' := foldl (fun s e => create_or_note e s) s l in
  tables s.2 ⊆ tables s'.2 ∧
  (∀ e, e ∈ tables s'.2 → e ∈ tables s.2 ∨ e ∈ l) ∧
  (s'.1 = None → s.1 = None ∧ ∀ e, e ∈ l → e ∈ tables s'.2) ∧
  (∀ e, e ∈ l → (∀ d, is_ok (create_table e d) = true) → e ∈ tables s'.2) ∧
  (∀ x, s'.1 = Some x → s.1 = Some x ∨ ∃ e d, e ∈ l ∧ create_table e d = Err x).
Proof.
  revert s. induction l as [|e l IH]; intros [err d]; cbn [foldl]; cbv zeta.
  { split_and!; cbn; try done; [by intros ?; left|intros ->; split; [done|set_solver]|set_solver|by intros ?; left]. }
  destruct (create_table e d) as [d'|err'] eqn:E;
    [replace (create_or_note e (err, d)) with (err, d') by (unfold create_or_note; cbn; by rewrite E)
    |replace (create_or_note e (err, d)) with (Some err', d) by (unfold create_or_note; cbn; by rewrite E)];
    (match goal with |- context [foldl _ ?s1 l] => destruct (IH s1) as (I1 & I2 & I3 & I4 & I5) end);
    cbn [fst snd] in *.
  - pose proof (execute_create _ _ _ E) as Et. rewrite Et in I1. split_and!.
    + set_solver.
    + intros x Hx. destruct (I2 x Hx); set_solver.
    + intros Hn. destruct (I3 Hn) as [-> I]. split; [done|]. intros x [->|Hx]%elem_of_cons; [set_solver|by apply I].
    + intros x [->|Hx]%elem_of_cons Hc; [set_solver|by apply I4].
    + intros x Hx. destruct (I5 x Hx) as [|(y & dy & Hy & Ey)]; [by left|right]. exists y, dy. split; [set_solver|done].
  - split_and!; [done| | | |].
    + intros x Hx. destruct (I2 x Hx); set_solver.
    + intros Hn. by destruct (I3 Hn).
    + intros x [->|Hx]%elem_of_cons Hc; [specialize (Hc d); by rewrite E in Hc|by apply I4].
    + intros x Hx. right. destruct (I5 x Hx) as [[= <-]|(y & dy & Hy & Ey)]; [exists e, d|exists y, dy]; split; set_solver.
Qed.

(** Creating the tables: success means that all nine are there; a failure is
    reported with the text of one, and does not keep the others from being
    created; no table is lost and none but the nine is added - so the tables
    of contacts, chats, encrypted messages, witnesses and witness seeds are
    never created; and where all are there it changes nothing. *)
Theorem tables_created d r d' :
  create_all_table d = (r, d') →
  (r = Ok tt → list_to_set created_entities ⊆ tables d') ∧
  (∀ x, r = Err x → ∃ e dx y, e ∈ created_entities ∧ create_table e dx = Err y ∧ x = db_custom y) ∧
  (∀ e, e ∈ created_entities → (∀ dx, is_ok (create_table e dx) = true) → e ∈ tables d') ∧
  tables d ⊆ tables d' ⊆ tables d ∪ list_to_set created_entities ∧
  (list_to_set created_entities ⊆ tables d → r = Ok tt ∧ d' = d).
Proof.
  unfold create_all_table, create_entities. pose proof (create_fold created_entities (None, d)) as (F1 & F2 & F3 & F4 & F5).
  destruct (foldl _ _ _) as [err d2] eqn:E; cbn [fst snd] in *. intros [= <- <-]. split_and!.
  - destruct err; [done|]. intros _ e He. apply F3; [done|]. by apply elem_of_list_to_set in He.
  - destruct err as [y|]; [|done]. intros x [= <-]. destruct (F5 y eq_refl) as [|(e & dx & He & Ee)]; [done|].
    by exists e, dx, y.
  - done.
  - done.
  - intros e He. apply elem_of_union. rewrite elem_of_list_to_set. by apply F2.
  - intros Hall. clear -E Hall.
    assert (Hl : ∀ l, (∀ e, e ∈ l → e ∈ tables d) → foldl (fun s e => create_or_note e s) (None, d) l = (None, d)).
    { induction l as [|e l IH]; intros Hl; [done|]. cbn [foldl]. unfold create_or_note at 2. cbn [fst snd].
      unfold create_table; rewrite execute_if_not_exists by (apply Hl; left). apply IH. intros x Hx. apply Hl. by right. }
    rewrite Hl in E; [by injection E as <- <-|]. intros e He. apply Hall. by apply elem_of_list_to_set.
Qed.
End laws.

(** ** A database in memory: its tables, and those that cannot be created *)

Record Catalog := mk_catalog { ca_tables : gset DbEntity; ca_broken : list DbEntity }.
#[export] Instance catalog_schema : Schema Catalog := {|
  TableStmt := DbEntity * bool;
  get_database_backend _ := Sqlite;
  create_table_from_entity _ e := (e, false);
  if_not_exists s := (s.1, true);
  stmt_to_string _ s := (if s.2 then "+" else "-") +:+ show_u (Z.of_nat (entity_index s.1));
  execute _ sql c :=
    match find (fun e => bool_decide (sql = "+" +:+ show_u (Z.of_nat (entity_index e)))) entities with
    | None => Err "syntax error"
    | Some e =>
        if decide (e ∈ ca_tables c) then Ok c
        else if decide (e ∈ ca_broken c) then Err "no space"
        else Ok (mk_catalog ({[e]} ∪ ca_tables c) (ca_broken c))
    end;
  db_custom e := "Custom Error: " +:+ e;
|}.
Lemma catalog_finds b (e : DbEntity) :
  find (fun e' => bool_decide (create_table_sql (D := Catalog) b e = "+" +:+ show_u (Z.of_nat (entity_index e')))) entities = Some e.
Proof. by destruct e; vm_compute. Qed.
#[export] Instance catalog_laws : SchemaLaws Catalog.
Proof.
  refine {| tables := ca_tables |}; intros e d; [intros d'|]; cbn [execute catalog_schema]; cbv zeta;
    rewrite catalog_finds.
  - case_decide; [intros [= <-]; set_solver|]. case_decide; [done|]. by intros [= <-].
  - intros He. by rewrite decide_True.
Defined.

(** One table fails, those after it are created, and the contacts are not. *)
Example catalog_run :
  let s := create_all_table (mk_catalog ∅ [EBalance]) in
  s.1 = Err "Custom Error: no space" ∧
  (fun e => bool_decide (e ∈ ca_tables s.2)) <$> [EMeta; EBalance; EEpochAllocation; EContact] = [true; false; true; false].
Proof. split; vm_compute; reflexivity. Qed.
