(* ===== verification/Chain.v ===== *)
(** * Hash chains in a table

    Several stores give every row the hash of the row before it: transactions,
    transaction sets, epoch allocations and tick snapshots. Here is what they
    share: rows that are linked from a first hash on, and the query for the
    newest row. *)

From S2P Require Import Prelude Sql.
From Stdlib Require Import Ascii.
Open Scope Z_scope.
Open Scope stdpp_scope.

(** ["0".repeat(n)] *)
Definition zeros (n : nat) : string := foldr String EmptyString (replicate n "0"%char).

(** consts.rs *)
Definition PRE_HASH : string := zeros 32.

Section chain.
Context {R : Type} (pre_hash hash : R → string).

(** Every row names the hash of the row before it, the first one [prev]. *)
Fixpoint linked (prev : string) (l : list R) : Prop :=
  match l with
  | [] => True
  | r :: l' => pre_hash r = prev ∧ linked (hash r) l'
  end.

(** The hash the next row has to name. *)
Definition tip (prev : string) (l : list R) : string := default prev (hash <$> last l).

Lemma linked_snoc prev l r : linked prev (l ++ [r]) ↔ linked prev l ∧ pre_hash r = tip prev l.
Proof.
  revert prev. induction l as [|x l IH]; intros prev; cbn; [unfold tip; cbn; naive_solver|].
  rewrite IH. replace (tip (hash x) l) with (tip prev (x :: l)); [tauto|].
  unfold tip. rewrite last_cons. by destruct (last l).
Qed.

(** The loop that compares neighbours. *)
Lemma linked_neighbours prev l :
  linked prev l ↔
  (∀ r, head l = Some r → pre_hash r = prev) ∧
  (∀ i a b, l !! i = Some a → l !! S i = Some b → pre_hash b = hash a).
Proof.
  revert prev. induction l as [|x l IH]; intros prev; cbn; [naive_solver|]. rewrite IH. split.
  - intros (Hx & Hh & Hn). split; [naive_solver|]. intros [|i] a b; cbn; [|by apply Hn].
    intros [= ->] Hb. apply Hh. by destruct l.
  - intros [Hx Hn]. split_and!; [by apply Hx| |].
    + intros r Hr. apply (Hn 0%nat x r); [done|]. by destruct l.
    + intros i a b. apply (Hn (S i) a b).
Qed.
End chain.

(** [find().filter(p).order_by_desc(Id).one(db)] *)
Definition newest {T R} `{Sql T R, !Row R} (p : R → bool) : state T (result (option R)) :=
  l ←? find_sorted id_desc p; mret (Ok (head l)).

Lemma run_newest {T R} `{SqlLaws T R} p t r t' :
  newest p t = (r, t') → t' = t ∧ ∀ o, r = Ok o → o = last (List.filter p (sql_rows t)).
Proof.
  unfold newest. rewrite run_try_bind. destruct (find_sorted id_desc p t) as [[l|e] t1] eqn:E; cbn;
    intros [= <- <-]; apply run_find_sorted in E as [-> E]; split; try done.
  destruct (E l eq_refl) as (l0 & Hl & ->). intros ? [= <-].
  by rewrite (sort_id_desc l0 p t Hl), head_reverse.
Qed.

Lemma filter_all {R} (l : list R) : List.filter (fun _ => true) l = l.
Proof. induction l; cbn; congruence. Qed.
