(* ===== verification/Balance.v ===== *)
(** * Account balances

    src/src/db/entity/balance/: the table of balances, with its reading,
    overwriting and transfer. The abstract view of a table is the ledger, a
    map from addresses to amounts, which the operations implement. *)

From S2P Require Import Prelude Sql.
Open Scope Z_scope.
Open Scope stdpp_scope.

Record Model := mk_model {
  bm_id : Z;
  bm_address : string;
  bm_balance : string;
  bm_updated_at : Z;
}.

#[export] Instance model_row : Row Model := {
  row_id := bm_id;
  row_conflict a b := bool_decide (bm_address a = bm_address b);
}.

Section store.
Context {T : Type} `{!Sql T Model}.

Definition of_address (a : string) (m : Model) : bool := bool_decide (bm_address m = a).

Definition get (address : string) : state T (result Z) :=
  record ←? find_one (of_address address);
  mret match record with Some m => parse_u 64 (bm_balance m) | None => Ok 0 end.

Definition set (now : Z) (address : string) (amount : Z) : state T (result unit) :=
  record ←? find_one (of_address address);
  match record with
  | Some existing =>
      _ ←? update_row (mk_model (bm_id existing) (bm_address existing) (show_u amount) (bm_updated_at existing));
      mret (Ok tt)
  | None => _ ←? insert_row (fun id => mk_model id address (show_u amount) now); mret (Ok tt)
  end.

Definition transfer (now : Z) (from_addr to_addr : string) (amount : Z) : state T (result unit) :=
  if amount =? 0 then mret (Err "transfer amount must > 0")
  else transaction (
    from_balance ←? get from_addr;
    if from_balance <? amount then mret (Err "insufficient funds")
    else
      to_balance ←? get to_addr;
      _ ←? set now from_addr (wrap_u 64 (from_balance - amount));
      set now to_addr (wrap_u 64 (to_balance + amount))).

Definition get_all : state T (result (list (string * Z))) :=
  rows ←? find_all (fun _ => true);
  mret (Ok ((fun m => (bm_address m, unwrap_or 0 (parse_u 64 (bm_balance m)))) <$> rows)).
End store.

(** ** The ledger *)

Definition entry_of (m : Model) : string * Z := (bm_address m, unwrap_or 0 (parse_u 64 (bm_balance m))).
Definition ledger_of (rows : list Model) : gmap string Z := list_to_map (entry_of <$> rows).
Definition supply (l : gmap string Z) : Z := map_fold (fun _ v acc => v + acc) 0 l.
Definition account (a : string) (l : gmap string Z) : Z := default 0 (l !! a).

(** What a transfer is, on the ledger. *)
Definition ledger_transfer (from to : string) (amount : Z) (l : gmap string Z) : gmap string Z :=
  <[to := wrap_u 64 (account to l + amount)]> (<[from := account from l - amount]> l).

(** One row for an address, and an amount of 64 bits in it. *)
Record rows_wf (rows : list Model) : Prop := {
  wf_unique : NoDup (bm_address <$> rows);
  wf_amounts : Forall (fun m => ∃ n, in_u 64 n ∧ bm_balance m = show_u n) rows;
}.

Lemma supply_insert a v l : supply (<[a := v]> l) = supply l - account a l + v.
Proof.
  unfold supply, account. rewrite <- (insert_delete_eq l a v).
  rewrite map_fold_insert_L by (try apply lookup_delete_eq; intros; lia).
  destruct (l !! a) as [x|] eqn:E; cbn.
  - rewrite (map_fold_delete_L _ _ a x l) by (done || intros; lia). lia.
  - rewrite delete_id by done. lia.
Qed.

Lemma account_insert a b v l : account a (<[b := v]> l) = if decide (b = a) then v else account a l.
Proof. unfold account. rewrite lookup_insert. by case_decide. Qed.

Lemma supply_nonneg l : (∀ k v, l !! k = Some v → 0 ≤ v) → 0 ≤ supply l.
Proof.
  unfold supply. intros Hl. apply (map_fold_weak_ind (fun acc m => (∀ k v, m !! k = Some v → 0 ≤ v) → 0 ≤ acc));
    [done| |done].
  intros i x m acc Hi IH Hm. assert (0 ≤ x) by (apply (Hm i); apply lookup_insert_eq).
  assert (0 ≤ acc); [|lia]. apply IH. intros k v Hk. apply (Hm k). rewrite lookup_insert_ne; [done|]. congruence.
Qed.

Lemma accounts_le_supply a b l :
  a ≠ b → (∀ k v, l !! k = Some v → 0 ≤ v) → account a l + account b l ≤ supply l.
Proof.
  intros Hab Hl. pose proof (supply_insert a 0 l) as E1. pose proof (supply_insert b 0 (<[a := 0]> l)) as E2.
  rewrite account_insert, decide_False in E2 by done.
  assert (0 ≤ supply (<[b := 0]> (<[a := 0]> l))); [|lia].
  apply supply_nonneg. intros k v. rewrite !lookup_insert. repeat case_decide; try naive_solver lia.
Qed.

Section laws.
Context {T : Type} `{!Sql T Model, !SqlLaws T Model}.

Definition ledger (t : T) : gmap string Z := ledger_of (sql_rows t).
Definition wf (t : T) : Prop := rows_wf (sql_rows t).

Lemma entries_nodup rows : rows_wf rows → NoDup (entry_of <$> rows).*1.
Proof. intros [Hn _]. by rewrite <- list_fmap_compose. Qed.

Lemma ledger_lookup t m : wf t → m ∈ sql_rows t →
  ∃ n, in_u 64 n ∧ parse_u 64 (bm_balance m) = Ok n ∧ ledger t !! bm_address m = Some n.
Proof.
  intros Hwf Hm. pose proof (wf_amounts _ Hwf) as Ha. rewrite Forall_forall in Ha.
  destruct (Ha m Hm) as (n & Hn & E). exists n.
  assert (Ep : parse_u 64 (bm_balance m) = Ok n) by (rewrite E; by apply parse_u_show).
  split_and!; [done|done|]. unfold ledger, ledger_of.
  apply elem_of_list_to_map; [by apply entries_nodup|].
  replace (bm_address m, n) with (entry_of m); [by apply list_elem_of_fmap_2|].
  unfold entry_of. by rewrite Ep.
Qed.

Lemma ledger_lookup_none t a : (∀ m, m ∈ sql_rows t → of_address a m = false) → ledger t !! a = None.
Proof.
  intros Hno. apply not_elem_of_list_to_map. rewrite <- list_fmap_compose. intros (m & -> & Hm)%list_elem_of_fmap.
  specialize (Hno m Hm). unfold of_address in Hno. by rewrite bool_decide_true in Hno.
Qed.

Lemma run_get a t r t' : wf t → get a t = (r, t') → t' = t ∧ ∀ n, r = Ok n → n = account a (ledger t).
Proof.
  intros Hwf. unfold get. rewrite run_try_bind. destruct (find_one (of_address a) t) as [[o|e] t1] eqn:E; cbn;
    intros [= <- <-]; apply run_find_one in E as [-> E]; split; try done.
  destruct o as [m|]; intros n Hn; unfold account.
  - destruct E as [Hm E]. apply bool_decide_eq_true in E as <-.
    destruct (ledger_lookup t m Hwf Hm) as (n' & _ & En & ->). cbn. congruence.
  - rewrite ledger_lookup_none by done. cbn. congruence.
Qed.

Lemma ledger_of_replace (x r : Model) (rows : list Model) :
  NoDup (row_id <$> rows) → NoDup (bm_address <$> rows) → x ∈ rows → row_id r = row_id x →
  bm_address r = bm_address x →
  ledger_of (replace_row r rows) = <[bm_address x := (entry_of r).2]> (ledger_of rows).
Proof.
  intros Hids Hadr Hx Hid Ha. unfold ledger_of, replace_row.
  induction rows as [|y rows IH]; [set_solver|].
  rewrite !fmap_cons in *. apply NoDup_cons in Hids as [Hy Hids]. apply NoDup_cons in Hadr as [Hya Hadr].
  cbn [list_to_map foldr]. apply elem_of_cons in Hx as [->|Hx].
  - rewrite decide_True by done. cbn. rewrite insert_insert_eq, Ha. f_equal.
    f_equal. f_equal. rewrite <- (list_fmap_id rows) at 2. apply list_fmap_ext. intros i z Hz.
    change ((if decide (row_id z = row_id r) then r else z) = z).
    rewrite decide_False; [done|]. intros E. apply Hy. rewrite <- Hid, <- E.
    by eapply list_elem_of_fmap_2, list_elem_of_lookup_2.
  - rewrite decide_False; [|intros E; apply Hy; rewrite E, Hid; by apply list_elem_of_fmap_2].
    cbn. rewrite IH by done. rewrite insert_insert_ne; [done|].
    intros E. apply Hya. rewrite E. by apply list_elem_of_fmap_2.
Qed.

Lemma rows_wf_replace (x r : Model) (rows : list Model) :
  rows_wf rows → bm_address <$> replace_row r rows = bm_address <$> rows →
  (∃ n, in_u 64 n ∧ bm_balance r = show_u n) → rows_wf (replace_row r rows).
Proof.
  intros [Hn Ha] E Hr. split; [by rewrite E|]. unfold replace_row. rewrite Forall_fmap.
  eapply Forall_impl; [exact Ha|]. cbn. intros y Hy. by case_decide.
Qed.

Lemma run_set now a n t r t' :
  wf t → in_u 64 n → set now a n t = (r, t') →
  match r with Ok _ => wf t' ∧ ledger t' = <[a := n]> (ledger t) | Err _ => t' = t end.
Proof.
  intros Hwf Hn. unfold set. rewrite run_try_bind.
  destruct (find_one (of_address a) t) as [[o|e] t1] eqn:E; cbn;
    apply run_find_one in E as [-> E]; [|by intros [= <- <-]].
  destruct o as [m|]; cbn.
  - destruct E as [Hm E]. apply bool_decide_eq_true in E as <-.
    rewrite run_try_bind. destruct (update_row _ t) as [[x|e] t2] eqn:Eu; cbn; intros [= <- <-];
      apply run_update_row in Eu; [|done].
    destruct Eu as [-> Eu]. unfold wf, ledger. rewrite Eu. split.
    + apply (rows_wf_replace m); [done|by apply (replace_row_fmap _ _ m)|by exists n].
    + rewrite (ledger_of_replace m); try done; [|apply rows_nodup|apply Hwf].
      cbn. by rewrite parse_u_show by apply Hn.
  - rewrite run_try_bind. destruct (insert_row _ t) as [[x|e] t2] eqn:Ei; cbn; intros [= <- <-];
      apply run_insert_row in Ei; [|done..].
    destruct Ei as (id & _ & Ei & _). unfold wf, ledger. rewrite Ei.
    assert (Hfresh : a ∉ bm_address <$> sql_rows t).
    { intros (m & -> & Hm)%list_elem_of_fmap. specialize (E m Hm).
      unfold of_address in E. by rewrite bool_decide_true in E. }
    split.
    + destruct Hwf as [Hu Ha]. split.
      * rewrite fmap_app. apply NoDup_app. split_and!; [done| |apply NoDup_singleton].
        intros y Hy ->%list_elem_of_singleton. done.
      * apply Forall_app. split; [done|]. constructor; [by exists n|constructor].
    + unfold ledger_of. rewrite fmap_app. unfold entry_of at 2. cbn [fmap list_fmap bm_address bm_balance].
      rewrite parse_u_show by apply Hn. apply list_to_map_snoc. by rewrite <- list_fmap_compose.
Qed.

Lemma account_in_u t a : wf t → in_u 64 (account a (ledger t)).
Proof.
  intros Hwf. unfold account. destruct (ledger t !! a) as [n|] eqn:E; cbn; [|done].
  unfold ledger, ledger_of in E.
  apply elem_of_list_to_map in E; [|by apply entries_nodup].
  apply list_elem_of_fmap in E as (m & E & Hm). destruct (ledger_lookup t m Hwf Hm) as (n' & Hn' & En & _).
  unfold entry_of in E. rewrite En in E. by injection E as _ ->.
Qed.

Lemma amounts_nonneg t : wf t → ∀ k v, ledger t !! k = Some v → 0 ≤ v.
Proof.
  intros Hwf k v E. pose proof (account_in_u t k Hwf) as Hin. unfold account in Hin. rewrite E in Hin. apply Hin.
Qed.

Lemma run_transfer now a b n t r t' :
  wf t → in_u 64 n → transfer now a b n t = (r, t') →
  match r with
  | Ok _ => wf t' ∧ 0 < n ≤ account a (ledger t) ∧ ledger t' = ledger_transfer a b n (ledger t)
  | Err _ => t' = t
  end.
Proof.
  intros Hwf Hn. unfold transfer. case_match eqn:Ez; [by intros [= <- <-]|].
  intros E. apply run_transaction in E. destruct r as [u|e]; [|done].
  destruct E as (tx & tx' & Htx & E & Ht').
  assert (Hw : wf tx) by (unfold wf; by rewrite Htx).
  assert (Hl : ledger tx = ledger t) by (unfold ledger; by rewrite Htx).
  rewrite run_try_bind in E. destruct (get a tx) as [[fb|?] ?] eqn:Ea; [|done].
  apply (run_get _ _ _ _ Hw) in Ea as [-> Ea]. specialize (Ea fb eq_refl) as ->.
  case_match eqn:El; [done|]. rewrite run_try_bind in E.
  destruct (get b tx) as [[tb|?] ?] eqn:Eb; [|done].
  apply (run_get _ _ _ _ Hw) in Eb as [-> Eb]. specialize (Eb tb eq_refl) as ->.
  pose proof (account_in_u tx a Hw) as Hin. unfold in_u in *.
  rewrite (wrap_u_small 64 (account a (ledger tx) - n)) in E by (unfold in_u; lia).
  rewrite run_try_bind in E. destruct (set now a _ tx) as [[?|?] t1] eqn:E1; [|done].
  apply run_set in E1 as [Hw1 E1]; [|done|unfold in_u; lia].
  apply run_set in E as [Hw2 E2]; [|done|by apply wrap_u_in].
  unfold wf, ledger in *. rewrite Ht'. split_and!; [done|lia|rewrite <- Hl; lia|].
  unfold ledger_transfer. by rewrite E2, E1, <- Hl.
Qed.

(** ** On a reliable database *)

Context `{!SqlReliable T Model}.

Lemma get_total a t : wf t → get a t = (Ok (account a (ledger t)), t).
Proof.
  intros Hwf. destruct (get a t) as [r t'] eqn:E. pose proof (run_get _ _ _ _ Hwf E) as [-> Hr].
  revert E. unfold get. rewrite run_try_bind. destruct (find_one_total (of_address a) t) as (o & -> & Ho).
  intros [= E]. f_equal. destruct r as [n|e]; [by rewrite (Hr n)|exfalso].
  destruct o as [m|]; [|done]. destruct (ledger_lookup t m Hwf (proj1 Ho)) as (n & _ & En & _). by rewrite En in E.
Qed.

Lemma set_total now a n t : (set now a n t).1 = Ok tt.
Proof.
  unfold set. rewrite run_try_bind. destruct (find_one_total (of_address a) t) as (o & -> & E).
  destruct o as [m|]; rewrite run_try_bind.
  - by destruct (update_row_total (mk_model (bm_id m) (bm_address m) (show_u n) (bm_updated_at m)) m t (proj1 E))
      as (t' & -> & _).
  - destruct (insert_row_total (fun id => mk_model id a (show_u n) now) t) as (id & t' & -> & _); [done| |done].
    intros id. apply Forall_forall. intros x Hx. apply bool_decide_eq_false. intros Hc.
    specialize (E x Hx). unfold of_address in E. by rewrite bool_decide_true in E.
Qed.

Lemma transfer_total now a b n t :
  wf t → in_u 64 n → 0 < n ≤ account a (ledger t) → (transfer now a b n t).1 = Ok tt.
Proof.
  intros Hwf Hn Hpay. unfold transfer. rewrite (proj2 (Z.eqb_neq n 0)) by lia. unfold transaction.
  pose proof (begin_total t) as Hb. destruct (sql_begin t) as [tx|] eqn:Eb; [|done].
  apply sql_begin_ok in Eb.
  assert (Hw : wf tx) by (unfold wf; by rewrite Eb).
  assert (Hl : ledger tx = ledger t) by (unfold ledger; by rewrite Eb).
  rewrite run_try_bind, get_total, Hl by done. rewrite (proj2 (Z.ltb_ge _ _)) by lia.
  rewrite run_try_bind, get_total by done. rewrite run_try_bind.
  set (v := wrap_u 64 _). pose proof (set_total now a v tx) as E1.
  destruct (set now a v tx) as [r1 t1]. cbn in E1. subst r1.
  set (v' := wrap_u 64 _). pose proof (set_total now b v' t1) as E2.
  destruct (set now b v' t1) as [r2 t2]. cbn in E2. subst r2.
  pose proof (commit_total t2) as Hc. by destruct (sql_commit t2).
Qed.
End laws.

(** ** Properties *)

Section properties.
Context {T : Type} `{!Sql T Model, !SqlLaws T Model}.

(** C29. The table is a ledger: on rows that are well formed, reading is lookup,
    overwriting is insertion, and a transfer is the ledger's transfer, of a
    positive amount that the payer has; all keep the rows well formed, and
    whatever fails leaves the table as it was. *)
Theorem store_refines_ledger now a b n t :
  wf t → in_u 64 n →
  (∀ r t', get a t = (r, t') → t' = t ∧ ∀ v, r = Ok v → v = account a (ledger t)) ∧
  (∀ r t', set now a n t = (r, t') →
     match r with Ok _ => wf t' ∧ ledger t' = <[a := n]> (ledger t) | Err _ => t' = t end) ∧
  (∀ r t', transfer now a b n t = (r, t') →
     match r with
     | Ok _ => wf t' ∧ 0 < n ≤ account a (ledger t) ∧ ledger t' = ledger_transfer a b n (ledger t)
     | Err _ => t' = t
     end).
Proof.
  intros Hwf Hn. split_and!; intros r t'; [by apply run_get|by apply run_set|by apply run_transfer].
Qed.

(** C30. A transfer between two accounts neither makes nor loses money and touches
    no third account; one that fails changes nothing; and a reliable database
    makes every transfer the payer can afford, and no other. *)
Theorem transfer_conserves `{!SqlReliable T Model} now a b n t :
  wf t → in_u 64 n → a ≠ b → supply (ledger t) < 2 ^ 64 →
  let '(r, t') := transfer now a b n t in
  (r = Ok tt ↔ 0 < n ≤ account a (ledger t)) ∧
  (r = Ok tt → account a (ledger t') = account a (ledger t) - n ∧
               account b (ledger t') = account b (ledger t) + n) ∧
  (r ≠ Ok tt → t' = t) ∧
  supply (ledger t') = supply (ledger t) ∧
  (∀ c, c ≠ a → c ≠ b → account c (ledger t') = account c (ledger t)).
Proof.
  intros Hwf Hn Hab Hs. destruct (transfer now a b n t) as [r t'] eqn:E.
  pose proof (transfer_total now a b n t Hwf Hn) as Htot. rewrite E in Htot. cbn in Htot.
  apply run_transfer in E; [|done..]. destruct r as [[]|e].
  - destruct E as (_ & Hpay & ->). unfold ledger_transfer.
    pose proof (accounts_le_supply a b _ Hab (amounts_nonneg t Hwf)).
    pose proof (account_in_u t b Hwf) as Hb. unfold in_u in Hb, Hn.
    rewrite wrap_u_small by (unfold in_u; lia). split_and!; [done| |done| |].
    + intros _. rewrite !account_insert. repeat case_decide; try done; lia.
    + rewrite !supply_insert, !account_insert. case_decide; try done; lia.
    + intros c Ha Hc. rewrite !account_insert. repeat case_decide; done.
  - subst t'. split_and!; done.
Qed.

(** A transfer to oneself makes money: the amount is added to the balance read
    before it was taken off. *)
Theorem transfer_to_self_mints `{!SqlReliable T Model} now a n t :
  wf t → 0 < n ≤ account a (ledger t) → account a (ledger t) + n < 2 ^ 64 →
  let '(r, t') := transfer now a a n t in
  r = Ok tt ∧ account a (ledger t') = account a (ledger t) + n ∧ supply (ledger t') = supply (ledger t) + n.
Proof.
  intros Hwf Hn Hs. assert (Hin : in_u 64 n) by (pose proof (account_in_u t a Hwf); unfold in_u in *; lia).
  destruct (transfer now a a n t) as [r t'] eqn:E.
  pose proof (transfer_total now a a n t Hwf Hin Hn) as Htot. rewrite E in Htot. cbn in Htot. subst r.
  apply run_transfer in E; [|done..]. destruct E as (_ & _ & ->). unfold ledger_transfer.
  pose proof (account_in_u t a Hwf) as Ha. unfold in_u in Ha. rewrite wrap_u_small by (unfold in_u; lia).
  split_and!; [done|by rewrite account_insert, decide_True by done|].
  rewrite !supply_insert, !account_insert. case_decide; try done; lia.
Qed.
End properties.
