(* ===== verification/Transaction.v ===== *)
(** * Transactions

    src/src/db/entity/transaction/: the table of transactions, each of which
    carries the hash of the one before it, and its listings. *)

From S2P Require Import Prelude External World Sql Chain.
Open Scope Z_scope.
Open Scope stdpp_scope.

Inductive TxType := Transfer | Mint | Burn.
(** [into_value] *)
Definition tx_type_value (t : TxType) : string :=
  match t with Transfer => "transfer" | Mint => "mint" | Burn => "burn" end.

Record Model := mk_model {
  tm_id : Z;
  tm_epoch : Z;
  tm_cycle : Z;
  tm_tx_type : TxType;
  tm_from_address : string;
  tm_to_address : string;
  tm_amount : string;
  tm_timestamp : Z;
  tm_pre_hash : string;
  tm_hash : string;
  tm_shard_key : string;
}.

#[export] Instance model_row : Row Model := { row_id := tm_id; row_conflict _ _ := false }.

(** A random id, after so many draws; nothing calls it. *)
Definition generate_tx_id `{Host} : state nat string := fun drawn => (host_uuid drawn, S drawn).

(** The bytes that are hashed. *)
Definition tx_preimage (pre_hash : string) (epoch cycle : Z) (tx_type : TxType) (from to amount : string) : bytes :=
  as_bytes pre_hash ++ le_bytes 8 epoch ++ le_bytes 8 cycle ++ as_bytes (tx_type_value tx_type) ++
  as_bytes from ++ as_bytes to ++ as_bytes amount.

Section store.
Context {T : Type} `{!Sql T Model, Sha256}.

Definition last_hash : state T (result string) :=
  record ←? newest (fun _ => true);
  mret (Ok (default PRE_HASH (tm_hash <$> record))).

Definition timestamp_leb (a b : Model) : bool := tm_timestamp a <=? tm_timestamp b.
Definition get_by_shard (shard_key : string) : state T (result (list Model)) :=
  find_sorted timestamp_leb (fun m => bool_decide (tm_shard_key m = shard_key)).

Definition get_all : state T (result (list Model)) := find_sorted id_asc (fun _ => true).

(** [saturating_sub(1)] of an unsigned page number; [LIMIT] and [OFFSET]. *)
Definition get_page (page per_page : Z) : state T (result (list Model)) :=
  let offset := wrap_u 64 (Z.max 0 (page - 1) * per_page) in
  l ←? find_sorted id_desc (fun _ => true);
  mret (Ok (take (Z.to_nat per_page) (drop (Z.to_nat offset) l))).

Definition count_all : state T (result Z) :=
  l ←? find_all (fun _ => true); mret (Ok (Z.of_nat (length l))).

Definition reset : state T (result unit) := delete_rows (fun _ => true).

Definition insert_with_next_hash (ts epoch cycle : Z) (tx_type : TxType) (from to : string) (amount : Z)
    (shard_key : string) : state T (result string) :=
  prev_hash ←? last_hash;
  let hash := hex (sha256 (tx_preimage prev_hash epoch cycle tx_type from to (show_i amount))) in
  _ ←? insert_row (fun id => mk_model id epoch cycle tx_type from to (show_i amount) ts prev_hash hash shard_key);
  mret (Ok hash).
End store.

(** What the hash of a row covers, field by field. *)
Definition covered (m : Model) : list bytes :=
  [as_bytes (tm_pre_hash m); le_bytes 8 (tm_epoch m); le_bytes 8 (tm_cycle m); as_bytes (tx_type_value (tm_tx_type m));
   as_bytes (tm_from_address m); as_bytes (tm_to_address m); as_bytes (tm_amount m)].
(** A row whose hash is that of its own fields. *)
Definition sealed `{Sha256} (m : Model) : Prop := tm_hash m = hex (sha256 (concat (covered m))).
Definition chained `{Sha256} (rows : list Model) : Prop :=
  linked tm_pre_hash tm_hash PRE_HASH rows ∧ Forall sealed rows.

Section laws.
Context {T : Type} `{!Sql T Model, !SqlLaws T Model, Sha256}.

Lemma run_last_hash t r t' :
  last_hash t = (r, t') → t' = t ∧ ∀ h, r = Ok h → h = tip tm_hash PRE_HASH (sql_rows t).
Proof.
  unfold last_hash. rewrite run_try_bind. destruct (newest _ t) as [[o|e] t1] eqn:E; cbn;
    intros [= <- <-]; apply run_newest in E as [-> E]; split; try done.
  intros ? [= <-]. rewrite (E o eq_refl), filter_all. done.
Qed.

Lemma run_insert_with_next_hash ts epoch cycle tx_type from to amount shard t r t' :
  insert_with_next_hash ts epoch cycle tx_type from to amount shard t = (r, t') →
  match r with
  | Ok h => ∃ id, sql_rows t' = sql_rows t ++ [mk_model id epoch cycle tx_type from to (show_i amount) ts
                                               (tip tm_hash PRE_HASH (sql_rows t)) h shard] ∧
      h = hex (sha256 (tx_preimage (tip tm_hash PRE_HASH (sql_rows t)) epoch cycle tx_type from to (show_i amount)))
  | Err _ => t' = t
  end.
Proof.
  unfold insert_with_next_hash. rewrite run_try_bind.
  destruct (last_hash t) as [[h|e] t1] eqn:E; cbn; apply run_last_hash in E as [-> E]; [|by intros [= <- <-]].
  specialize (E h eq_refl) as ->. rewrite run_try_bind.
  destruct (insert_row _ t) as [[x|e] t2] eqn:Ei; cbn; intros [= <- <-];
    apply run_insert_row in Ei; [|done..].
  destruct Ei as (id & _ & Ei & _). eauto.
Qed.
End laws.

(** ** Properties *)

(** What [insert_with_next_hash] is asked to record. *)
Record request := mk_request {
  rq_ts : Z; rq_epoch : Z; rq_cycle : Z; rq_type : TxType; rq_from : string; rq_to : string; rq_amount : Z;
  rq_shard : string;
}.
(** The row of a request, after the row with the hash [prev]. *)
Definition row_of (q : request) (id : Z) (prev h : string) : Model :=
  mk_model id (rq_epoch q) (rq_cycle q) (rq_type q) (rq_from q) (rq_to q) (show_i (rq_amount q)) (rq_ts q) prev h
    (rq_shard q).

Section properties.
Context {T : Type} `{!Sql T Model, !SqlLaws T Model, Sha256}.

Definition record (q : request) : state T (result string) :=
  insert_with_next_hash (rq_ts q) (rq_epoch q) (rq_cycle q) (rq_type q) (rq_from q) (rq_to q) (rq_amount q) (rq_shard q).
Definition record_all (l : list request) : state T unit := for_each l (fun q => record q ;; mret tt).

Lemma record_step q t :
  chained (sql_rows t) →
  let '(r, t') := record q t in
  chained (sql_rows t') ∧ ∃ new, sql_rows t' = sql_rows t ++ new ∧
    (∀ h, r = Ok h → ∃ id, new = [row_of q id (tip tm_hash PRE_HASH (sql_rows t)) h]) ∧
    (∀ e, r = Err e → new = []).
Proof.
  intros [Hl Hs]. destruct (record q t) as [r t'] eqn:E. apply run_insert_with_next_hash in E.
  destruct r as [h|e].
  - destruct E as (id & Er & Eh). rewrite Er. split.
    + split; [apply linked_snoc; split; [done|reflexivity]|].
      apply Forall_app. split; [done|]. constructor; [|done]. unfold sealed, covered, row_of. cbn. rewrite app_nil_r. exact Eh.
    + eexists. split; [done|]. split; [|done]. intros h' [= <-]. by exists id.
  - subst t'. split; [done|]. exists []. rewrite app_nil_r. split_and!; done.
Qed.

Lemma record_all_chain l t :
  chained (sql_rows t) →
  chained (sql_rows (exec (record_all l) t)) ∧ ∃ new, sql_rows (exec (record_all l) t) = sql_rows t ++ new.
Proof.
  revert t. induction l as [|q l IH]; intros t Ht; [split; [done|exists []; by rewrite app_nil_r]|].
  change (record_all (q :: l)) with ((record q ;; mret tt) ;; record_all l).
  rewrite !exec_bind. pose proof (record_step q t Ht) as Hq.
  change (exec (mret tt) (exec (record q) t)) with (exec (record q) t).
  unfold exec at 2 4. destruct (record q t) as [r t1]. cbn [snd].
  destruct Hq as (H1 & new & E & _). destruct (IH t1 H1) as (H2 & new' & E2). split; [done|].
  exists (new ++ new'). rewrite app_assoc, <- E. exact E2.
Qed.

(** C31. Whatever transactions are recorded on an empty table, and whichever of
    them the database refuses, the table is one chain: the first row names the
    fixed first hash, every other the hash of the row before it, each hash is
    that of the row's own fields; recorded rows stay; and one more recording
    either adds exactly its row - what was asked for, the hash of the last row
    and the hash it returns - or nothing. *)
Theorem transactions_chain (l l' : list request) (q : request) t :
  sql_rows t = [] →
  let t1 := exec (record_all l) t in
  let t2 := exec (record_all l') t1 in
  chained (sql_rows t2) ∧ (∃ new, sql_rows t2 = sql_rows t1 ++ new) ∧
  let '(r, t3) := record q t2 in
  ∃ new, sql_rows t3 = sql_rows t2 ++ new ∧
    (∀ h, r = Ok h → ∃ id, new = [row_of q id (tip tm_hash PRE_HASH (sql_rows t2)) h]) ∧
    (∀ e, r = Err e → new = []).
Proof.
  intros Ht t1 t2.
  assert (H0 : chained (sql_rows t)) by (rewrite Ht; split; [done|constructor]).
  destruct (record_all_chain l t H0) as [H1 _]. destruct (record_all_chain l' t1 H1) as [H2 Hn].
  split_and!; [done|done|]. pose proof (record_step q t2 H2) as H3.
  destruct (record q t2) as [r t3]. naive_solver.
Qed.

(** ** Listings *)

Definition page_of (page per_page : Z) (rows : list Model) : list Model :=
  take (Z.to_nat per_page) (drop (Z.to_nat ((page - 1) * per_page)) (reverse rows)).

Lemma run_get_page page per_page t r t' :
  1 ≤ page → 0 ≤ per_page → page * per_page < 2 ^ 64 →
  get_page page per_page t = (r, t') → t' = t ∧ ∀ l, r = Ok l → l = page_of page per_page (sql_rows t).
Proof.
  intros Hp Hn Hw. unfold get_page. rewrite run_try_bind.
  destruct (find_sorted id_desc _ t) as [[l|e] t1] eqn:E; cbn;
    intros [= <- <-]; apply run_find_sorted in E as [-> E]; split; try done.
  destruct (E l eq_refl) as (l0 & Hl & ->). intros ? [= <-].
  rewrite (sort_id_desc l0 _ t Hl), filter_all. unfold page_of.
  rewrite Z.max_r, wrap_u_small by (try (unfold in_u; nia); lia). done.
Qed.

Lemma pages_tile {A} (n k : nat) (l : list A) :
  (length l ≤ k * n)%nat → concat ((fun i => take n (drop (i * n) l)) <$> seq 0 k) = l.
Proof.
  intros Hl. assert (Hk : ∀ j, concat ((fun i => take n (drop (i * n) l)) <$> seq 0 j) = take (j * n) l).
  { induction j as [|j IH]; [done|]. rewrite seq_S, fmap_app, concat_app, IH. cbn.
    by rewrite app_nil_r, take_take_drop, Nat.add_comm. }
  rewrite Hk. by apply take_ge.
Qed.
(** Paging: the pages of any positive size, from the first to one past the
    number of rows, put together are the whole table, newest first, with no
    row twice or left out. *)
Theorem pages_cover (n k : nat) (l : nat → list Model) t :
  (0 < n)%nat → (length (sql_rows t) ≤ k * n)%nat → Z.of_nat k * Z.of_nat n < 2 ^ 64 →
  (∀ i, (i < k)%nat → eval (get_page (Z.of_nat i + 1) (Z.of_nat n)) t = Ok (l i)) →
  concat (l <$> seq 0 k) = reverse (sql_rows t).
Proof.
  intros Hn Hk Hw Hl. rewrite <- (pages_tile n k (reverse (sql_rows t))) by (by rewrite length_reverse).
  f_equal. apply list_fmap_ext. intros i j Hj. apply lookup_seq in Hj as [-> Hj]. cbn [plus Nat.add].
  specialize (Hl _ Hj). unfold eval in Hl.
  destruct (get_page (Z.of_nat i + 1) (Z.of_nat n) t) as [r t'] eqn:E. cbn [fst] in Hl. subst r.
  apply run_get_page in E as [_ E]; [|nia..]. rewrite (E _ eq_refl). unfold page_of.
  rewrite Nat2Z.id. do 2 f_equal. nia.
Qed.
End properties.
