(* ===== verification/TransactionSet.v ===== *)
(** * Transaction sets

    src/src/db/entity/transaction_set/: the table of packed transactions, a
    chain of its own over the hashes of its transactions. *)

From S2P Require Import Prelude External Sql Chain Transaction.
Open Scope Z_scope.
Open Scope stdpp_scope.

Record Model := mk_model {
  sm_id : Z;
  sm_epoch : Z;
  sm_cycle : Z;
  sm_set_type : TxType;
  sm_pre_hash : string;
  sm_hash : string;
  sm_tx_hashes : string;
  sm_tx_hash_count : Z;
  sm_total_amount : string;
  sm_shard_key : string;
  sm_packets : string;
  sm_packers : string;
}.

#[export] Instance set_row : Row Model := { row_id := sm_id; row_conflict _ _ := false }.

Definition set_preimage (pre_hash : string) (epoch cycle : Z) (tx_hashes : list string) (packers : string)
    (set_type : TxType) (total_amount : Z) : bytes :=
  as_bytes pre_hash ++ le_bytes 8 epoch ++ le_bytes 8 cycle ++ concat (as_bytes <$> tx_hashes) ++
  as_bytes packers ++ as_bytes (tx_type_value set_type) ++ le_bytes 8 total_amount.

Section store.
Context {T : Type} `{!Sql T Model, Sha256, JsonStrings}.

Definition reset : state T (result unit) := delete_rows (fun _ => true).
Definition get_all : state T (result (list Model)) := find_sorted id_asc (fun _ => true).
Definition last_hash : state T (result string) :=
  record ←? newest (fun _ => true);
  mret (Ok (default PRE_HASH (sm_hash <$> record))).

Definition insert_with_next_hash (epoch cycle : Z) (set_type : TxType) (shard_key packers : string)
    (total_amount : Z) (tx_hashes : list string) : state T (result string) :=
  pre_hash ←? last_hash;
  let hash := hex (sha256 (set_preimage pre_hash epoch cycle tx_hashes packers set_type total_amount)) in
  json ←? mret (json_strings tx_hashes);
  _ ←? insert_row (fun id => mk_model id epoch cycle set_type pre_hash hash json
                               (wrap_u 32 (Z.of_nat (length tx_hashes))) (show_u total_amount) shard_key "[]" packers);
  mret (Ok hash).
End store.

(** ** Properties *)

Section properties.
Context {T : Type} `{!Sql T Model, !SqlLaws T Model, Sha256, JsonStrings}.

Lemma run_last_set_hash t r t' :
  last_hash t = (r, t') → t' = t ∧ ∀ h, r = Ok h → h = tip sm_hash PRE_HASH (sql_rows t).
Proof.
  unfold last_hash. rewrite run_try_bind. destruct (newest _ t) as [[o|e] t1] eqn:E; cbn;
    intros [= <- <-]; apply run_newest in E as [-> E]; split; try done.
  intros ? [= <-]. rewrite (E o eq_refl), filter_all. done.
Qed.

(** A transaction set is appended to the chain: linked before, linked after,
    with the hash of what it packs on top of the previous one; and an error -
    in the query, in the JSON text, or in the insertion - leaves the table as
    it was. *)
Theorem set_chain epoch cycle set_type shard packers total hashes t r t' :
  linked sm_pre_hash sm_hash PRE_HASH (sql_rows t) →
  insert_with_next_hash epoch cycle set_type shard packers total hashes t = (r, t') →
  linked sm_pre_hash sm_hash PRE_HASH (sql_rows t') ∧
  match r with
  | Ok h => ∃ m, sql_rows t' = sql_rows t ++ [m] ∧ sm_hash m = h ∧
      h = hex (sha256 (set_preimage (tip sm_hash PRE_HASH (sql_rows t)) epoch cycle hashes packers set_type total)) ∧
      tip sm_hash PRE_HASH (sql_rows t') = h
  | Err _ => t' = t
  end.
Proof.
  intros Hl. unfold insert_with_next_hash. rewrite run_try_bind.
  destruct (last_hash t) as [[h|e] t1] eqn:E; cbn; apply run_last_set_hash in E as [-> E]; [|by intros [= <- <-]].
  specialize (E h eq_refl) as ->. rewrite run_try_bind. cbn.
  destruct (json_strings hashes) as [js|e]; [|by intros [= <- <-]]. rewrite run_try_bind.
  destruct (insert_row _ t) as [[x|e] t2] eqn:Ei; cbn; intros [= <- <-];
    apply run_insert_row in Ei; try done; [|by subst].
  destruct Ei as (id & _ & Ei & _). rewrite Ei. split; [by apply linked_snoc|].
  eexists. split_and!; [done|done|done|]. unfold tip. by rewrite last_snoc.
Qed.
End properties.
