(* ===== verification/Epoch.v ===== *)
(** * Epochs

    src/src/db/entity/epoch/: one row per day, opened when the day before is
    settled. *)

From S2P Require Import Prelude Sql Chain.
Open Scope Z_scope.
Open Scope stdpp_scope.

Record Model := mk_model {
  em_id : Z;
  em_day : Z;
  em_start_time : Z;
  em_end_time : option Z;
  em_tick_count : Z;
  em_total_reward : string;
  em_settled : bool;
  em_pre_hash : string;
  em_hash : string;
}.
#[export] Instance epoch_row : Row Model := { row_id := em_id; row_conflict _ _ := false }.

(** [Iterator::max_by_key]: the last of the greatest *)
Definition max_by_day (l : list Model) : option Model :=
  foldl (fun acc r => match acc with
                      | None => Some r
                      | Some m => if em_day m <=? em_day r then Some r else Some m
                      end) None l.

Section store.
Context {T : Type} `{!Sql T Model}.

Definition get_by_index (day : Z) : state T (result (option Model)) :=
  find_one (fun m => bool_decide (em_day m = day)).

Definition get_latest : state T (result (option Model)) :=
  records ←? find_all (fun _ => true); mret (Ok (max_by_day records)).

Definition get_current : state T (result (option Model)) :=
  latest ←? get_latest;
  mret (Ok (latest ≫= fun e => if negb (em_settled e) then Some e else None)).

Definition insert (day start_time : Z) : state T (result Model) :=
  insert_row (fun id => mk_model id day start_time None 0 "" false (zeros 32) "").

Definition create (now day : Z) (pre_hash : string) : state T (result Model) :=
  insert_row (fun id => mk_model id day now None 0 "" false pre_hash "").

Definition update_tick_count (day tick_count : Z) : state T (result unit) :=
  record ←? get_by_index day;
  match record with
  | None => mret (Err "Epoch not found")
  | Some e =>
      _ ←? update_row (mk_model (em_id e) (em_day e) (em_start_time e) (em_end_time e) tick_count
                         (em_total_reward e) (em_settled e) (em_pre_hash e) (em_hash e));
      mret (Ok tt)
  end.

Definition finalize (now day : Z) (hash : string) (tick_count : Z) (total_reward : string) : state T (result unit) :=
  record ←? get_by_index day;
  match record with
  | None => mret (Err "Epoch not found")
  | Some e =>
      _ ←? update_row (mk_model (em_id e) (em_day e) (em_start_time e) (Some now) tick_count
                         total_reward true (em_pre_hash e) hash);
      mret (Ok tt)
  end.

Definition get_current_or_create (now : Z) (pre_hash : string) : state T (result Model) :=
  latest ←? get_latest;
  match latest with
  | Some latest =>
      if negb (em_settled latest) then mret (Ok latest)
      else create now (wrap_i 64 (em_day latest + 1)) pre_hash
  | None => create now 0 pre_hash
  end.
End store.

(** ** The life of epochs *)

(** Days count from 0 without a gap, and all but the last are settled. *)
Definition epochs_wf (rows : list Model) : Prop :=
  ∀ i r, rows !! i = Some r → em_day r = Z.of_nat i ∧ (S i < length rows → em_settled r = true)%nat.

Lemma max_by_day_snoc l r :
  max_by_day (l ++ [r]) =
    match max_by_day l with Some m => if em_day m <=? em_day r then Some r else Some m | None => Some r end.
Proof. unfold max_by_day. by rewrite foldl_app. Qed.

Lemma max_by_day_spec l :
  match max_by_day l with
  | Some m => m ∈ l ∧ ∀ r, r ∈ l → em_day r ≤ em_day m
  | None => l = []
  end.
Proof.
  induction l as [|r l IH] using rev_ind; [done|]. rewrite max_by_day_snoc.
  destruct (max_by_day l) as [m|]; [|subst l; split; [set_solver|intros x ->%list_elem_of_singleton; lia]].
  destruct IH as [Hm Hmax]. destruct (em_day m <=? em_day r) eqn:E; (split; [set_solver|]); intros x Hx;
    apply elem_of_app in Hx as [Hx| ->%list_elem_of_singleton]; try specialize (Hmax x Hx); lia.
Qed.

(** The greatest day is the last row's, in whatever order the rows come. *)
Lemma max_by_day_last l rows : epochs_wf rows → l ≡ₚ rows → max_by_day l = last rows.
Proof.
  intros Hwf Hl. pose proof (max_by_day_spec l) as Hs. destruct (max_by_day l) as [m|].
  - destruct Hs as [Hm Hmax]. rewrite Hl in Hm. apply list_elem_of_lookup in Hm as [i Hi].
    rewrite last_lookup. rewrite <- Hi. f_equal.
    pose proof (lookup_lt_Some _ _ _ Hi) as Hlt.
    destruct (lookup_lt_is_Some_2 rows (pred (length rows))) as [z Hz]; [lia|].
    assert (Hzl : z ∈ l) by (rewrite Hl; by eapply list_elem_of_lookup_2).
    specialize (Hmax z Hzl). destruct (Hwf _ _ Hi) as [Di _], (Hwf _ _ Hz) as [Dz _]. lia.
  - subst l. apply Permutation_nil in Hl as ->. done.
Qed.

Section properties.
Context {T : Type} `{!Sql T Model, !SqlLaws T Model}.

Lemma run_get_latest t r t' :
  epochs_wf (sql_rows t) → get_latest t = (r, t') → t' = t ∧ ∀ o, r = Ok o → o = last (sql_rows t).
Proof.
  intros Hwf. unfold get_latest. rewrite run_try_bind. destruct (find_all _ t) as [[l|e] t1] eqn:E; cbn;
    intros [= <- <-]; apply run_find_all in E as [-> E]; split; try done.
  intros ? [= <-]. apply max_by_day_last; [done|]. by rewrite (E l eq_refl), filter_all.
Qed.

Lemma epochs_wf_snoc rows r :
  epochs_wf rows → Forall (fun x => em_settled x = true) rows → em_day r = Z.of_nat (length rows) →
  epochs_wf (rows ++ [r]).
Proof.
  intros Hwf Hall Hr i x Hx. rewrite length_app. cbn. apply lookup_app_Some in Hx as [Hx|[Hge Hx]].
  - split; [by apply (Hwf i x)|]. intros _. rewrite Forall_forall in Hall. apply Hall. by eapply list_elem_of_lookup_2.
  - apply list_lookup_singleton_Some in Hx as [Hi <-]. split; [lia|]. intros; lia.
Qed.

(** When the last epoch is settled, all are. *)
Lemma all_settled rows :
  epochs_wf rows → (∀ r, last rows = Some r → em_settled r = true) → Forall (fun x => em_settled x = true) rows.
Proof.
  intros Hwf Hl. apply Forall_lookup. intros i x Hx. destruct (decide (S i < length rows)%nat) as [|Hge].
  - by apply (Hwf i x).
  - apply Hl. rewrite last_lookup. pose proof (lookup_lt_Some _ _ _ Hx).
    by replace (pred (length rows)) with i by lia.
Qed.

Lemma epochs_wf_replace t x r :
  epochs_wf (sql_rows t) → x ∈ sql_rows t → row_id r = row_id x → em_day r = em_day x →
  (em_settled x = true → em_settled r = true) → epochs_wf (replace_row r (sql_rows t)).
Proof.
  intros Hwf Hx Hid Hday Hset i y. unfold replace_row. rewrite list_lookup_fmap, length_fmap.
  destruct (sql_rows t !! i) as [z|] eqn:Ez; [|done]. cbn. intros [= <-].
  destruct (Hwf i z Ez) as [Dz Sz]. case_decide as E; [|done].
  assert (z = x) as ->; [|rewrite Hday; auto].
  apply (rows_same_id t); [by eapply list_elem_of_lookup_2|done|congruence].
Qed.

Lemma run_create now day pre t r t' :
  create now day pre t = (r, t') →
  match r with
  | Ok m => em_day m = day ∧ em_settled m = false ∧ sql_rows t' = sql_rows t ++ [m]
  | Err _ => t' = t
  end.
Proof. intros E. apply run_insert_row in E; [|done]. destruct r; [|done]. by destruct E as (id & -> & -> & _). Qed.

Lemma run_current_or_create now pre t r t' :
  epochs_wf (sql_rows t) → Z.of_nat (length (sql_rows t)) < 2 ^ 63 →
  get_current_or_create now pre t = (r, t') →
  epochs_wf (sql_rows t') ∧ (length (sql_rows t') ≤ S (length (sql_rows t)))%nat ∧
  match r with
  | Ok m => last (sql_rows t') = Some m ∧ em_settled m = false
  | Err _ => t' = t
  end.
Proof.
  intros Hwf Hlen. unfold get_current_or_create. rewrite run_try_bind.
  destruct (get_latest t) as [[o|e] t1] eqn:E; cbn; apply run_get_latest in E as [-> E]; try done;
    [|intros [= <- <-]; split_and!; [done|lia|done]].
  specialize (E o eq_refl) as ->. destruct (last (sql_rows t)) as [m|] eqn:El.
  - destruct (em_settled m) eqn:Es; cbn; [|intros [= <- <-]; split_and!; [done|lia|done|done]].
    assert (Hm : sql_rows t !! pred (length (sql_rows t)) = Some m) by (by rewrite <- last_lookup).
    destruct (Hwf _ _ Hm) as [Hd _]. pose proof (lookup_lt_Some _ _ _ Hm).
    rewrite wrap_i_small by (unfold in_i; lia).
    intros E. apply run_create in E. destruct r as [m'|e]; [|subst; split_and!; [done|lia|done]].
    destruct E as (Hday & Hs & ->). rewrite length_app, last_snoc. split_and!; [|cbn; lia|done|done].
    apply epochs_wf_snoc; [done| |lia]. apply all_settled; [done|]. intros r' Hr'. by simplify_eq.
  - intros E. apply run_create in E. destruct r as [m'|e]; [|subst; split_and!; [done|lia|done]].
    destruct E as (Hday & Hs & ->). rewrite length_app, last_snoc. apply last_None in El.
    split_and!; [|cbn; lia|done|done]. apply epochs_wf_snoc; [done|rewrite El; constructor|by rewrite El].
Qed.

Lemma run_update_day (f : Model → Model) day t r t' :
  (∀ e, em_id (f e) = em_id e ∧ em_day (f e) = em_day e ∧ (em_settled e = true → em_settled (f e) = true)) →
  epochs_wf (sql_rows t) →
  (record ←? get_by_index day;
   match record with
   | None => mret (Err "Epoch not found")
   | Some e => _ ←? update_row (f e); mret (Ok tt)
   end) t = (r, t') →
  epochs_wf (sql_rows t') ∧ length (sql_rows t') = length (sql_rows t).
Proof.
  intros Hf Hwf. rewrite run_try_bind. destruct (get_by_index day t) as [[o|e] t1] eqn:E; cbn;
    apply run_find_one in E as [-> E]; [|by intros [= <- <-]].
  destruct o as [e|]; cbn; [|by intros [= <- <-]]. destruct E as [He _].
  rewrite run_try_bind. destruct (update_row _ t) as [[?|?] t2] eqn:Eu; cbn; intros [= <- <-];
    apply run_update_row in Eu; [|by subst].
  destruct Eu as [_ ->]. destruct (Hf e) as (Hid & Hd & Hs). split.
  - by apply (epochs_wf_replace t e).
  - unfold replace_row. apply length_fmap.
Qed.

(** What a node does with its epochs. *)
Inductive epoch_op :=
| OpCurrent (now : Z) (pre_hash : string)
| OpTicks (day tick_count : Z)
| OpFinalize (now day : Z) (hash : string) (tick_count : Z) (total_reward : string).
Definition run_op (o : epoch_op) : state T unit :=
  match o with
  | OpCurrent now pre => get_current_or_create now pre ;; mret tt
  | OpTicks day n => update_tick_count day n ;; mret tt
  | OpFinalize now day hash n reward => finalize now day hash n reward ;; mret tt
  end.

Lemma run_op_wf o t :
  epochs_wf (sql_rows t) → Z.of_nat (length (sql_rows t)) < 2 ^ 63 →
  epochs_wf (sql_rows (exec (run_op o) t)) ∧
  (length (sql_rows (exec (run_op o) t)) ≤ S (length (sql_rows t)))%nat.
Proof.
  intros Hwf Hlen. destruct o; cbn; rewrite exec_bind; change (exec (mret tt) ?s) with s; unfold exec.
  - destruct (get_current_or_create _ _ t) as [r t'] eqn:E. apply run_current_or_create in E; tauto.
  - destruct (update_tick_count _ _ t) as [r t'] eqn:E.
    apply (run_update_day (fun e => mk_model (em_id e) (em_day e) (em_start_time e) (em_end_time e) tick_count
             (em_total_reward e) (em_settled e) (em_pre_hash e) (em_hash e))) in E as [Hw Hl];
      [cbn; rewrite Hl; split; [done|lia]|done|done].
  - destruct (finalize _ _ _ _ _ t) as [r t'] eqn:E.
    apply (run_update_day (fun e => mk_model (em_id e) (em_day e) (em_start_time e) (Some now) tick_count
             total_reward true (em_pre_hash e) hash)) in E as [Hw Hl];
      [cbn; rewrite Hl; split; [done|lia]|done|done].
Qed.

Lemma run_ops_wf l t :
  epochs_wf (sql_rows t) → Z.of_nat (length (sql_rows t) + length l) < 2 ^ 63 →
  epochs_wf (sql_rows (exec (for_each l run_op) t)) ∧
  (length (sql_rows (exec (for_each l run_op) t)) ≤ length (sql_rows t) + length l)%nat.
Proof.
  revert t. induction l as [|o l IH]; intros t Hwf Hlen; cbn [length] in *; [split; [done|cbn; lia]|].
  cbn [for_each]. rewrite exec_bind. destruct (run_op_wf o t Hwf) as [Hw Hl]; [lia|].
  destruct (IH _ Hw) as [Hw' Hl']; [lia|]. split; [done|lia].
Qed.

(** C33. The life of epochs: however epochs are asked for, counted and finalized -
    in any order, repeatedly, with failing statements in between - the days
    are 0, 1, 2 and so on in the order of creation, at most the last one is
    open, and asking for the current epoch answers with that last, open one,
    opening the next day if the last was settled. *)
Theorem epoch_lifecycle (l : list epoch_op) now pre t r t' :
  sql_rows t = [] → Z.of_nat (length l) < 2 ^ 63 - 1 →
  get_current_or_create now pre (exec (for_each l run_op) t) = (r, t') →
  epochs_wf (sql_rows t') ∧
  ∀ m, r = Ok m → last (sql_rows t') = Some m ∧ em_settled m = false ∧
    em_day m = Z.of_nat (length (sql_rows t')) - 1.
Proof.
  intros Ht Hl E. destruct (run_ops_wf l t) as [Hw Hlen]; [by rewrite Ht|rewrite Ht; cbn; lia|].
  rewrite Ht in Hlen. cbn in Hlen.
  apply run_current_or_create in E as (Hw' & _ & E); [|done|lia]. split; [done|]. intros m ->.
  destruct E as [El Es]. split_and!; [done|done|]. rewrite last_lookup in El. destruct (Hw' _ _ El) as [-> _].
  pose proof (lookup_lt_Some _ _ _ El). lia.
Qed.
End properties.
