(* ===== verification/EpochAllocation.v ===== *)
(** * Epoch allocations

    src/src/db/entity/epoch_allocation/: what was allocated to whom in an
    epoch, one hash chain per epoch, and the check of a chain. *)

From S2P Require Import Prelude External Sql Chain.
Open Scope Z_scope.
Open Scope stdpp_scope.

Record Model := mk_model {
  am_id : Z;
  am_epoch : Z;
  am_round : Z;
  am_address : string;
  am_weight : string;
  am_amount : string;
  am_pre_hash : string;
  am_hash : string;
  am_created_at : Z;
}.

#[export] Instance allocation_row : Row Model := { row_id := am_id; row_conflict _ _ := false }.

Definition in_epoch (epoch : Z) (m : Model) : bool := bool_decide (am_epoch m = epoch).

(** ["0".repeat(64)] *)
Definition first_hash : string := zeros 64.

Definition allocation_preimage (prev_hash : string) (epoch round : Z) (address weight amount : string) (ts : Z) : bytes :=
  as_bytes prev_hash ++ le_bytes 8 epoch ++ le_bytes 8 round ++ as_bytes address ++ as_bytes weight ++
  as_bytes amount ++ le_bytes 8 ts.

(** The comparisons of [verify_chain], [false] at the first that fails. *)
Fixpoint check_links (prev : Model) (l : list Model) : bool :=
  match l with
  | [] => true
  | r :: l' => if negb (bool_decide (am_pre_hash r = am_hash prev)) then false else check_links r l'
  end.

Section store.
Context {T : Type} `{!Sql T Model, Sha256}.

Definition last_hash (epoch : Z) : state T (result string) :=
  last ←? newest (in_epoch epoch);
  mret (Ok (default first_hash (am_hash <$> last))).

Definition insert (ts epoch round : Z) (address weight amount : string) : state T (result string) :=
  prev_hash ←? last_hash epoch;
  let hash := hex (sha256 (allocation_preimage prev_hash epoch round address weight amount ts)) in
  _ ←? insert_row (fun id => mk_model id epoch round address weight amount prev_hash hash ts);
  mret (Ok hash).

Definition get_by_epoch (epoch : Z) : state T (result (list Model)) := find_sorted id_asc (in_epoch epoch).

Definition verify_chain (epoch : Z) : state T (result bool) :=
  records ←? get_by_epoch epoch;
  mret (Ok match records with
           | [] => true
           | r :: l => if negb (bool_decide (am_pre_hash r = first_hash)) then false else check_links r l
           end).
End store.

(** ** Properties *)

Definition epoch_linked (epoch : Z) (rows : list Model) : Prop :=
  linked am_pre_hash am_hash first_hash (List.filter (in_epoch epoch) rows).

Lemma check_links_spec r l : check_links r l = true ↔ linked am_pre_hash am_hash (am_hash r) l.
Proof.
  revert r. induction l as [|x l IH]; intros r; cbn; [done|].
  case_bool_decide as E; cbn; [rewrite IH; tauto|naive_solver].
Qed.

Section properties.
Context {T : Type} `{!Sql T Model, !SqlLaws T Model, Sha256}.

Lemma run_last_epoch_hash epoch t r t' :
  last_hash epoch t = (r, t') →
  t' = t ∧ ∀ h, r = Ok h → h = tip am_hash first_hash (List.filter (in_epoch epoch) (sql_rows t)).
Proof.
  unfold last_hash. rewrite run_try_bind. destruct (newest _ t) as [[o|e] t1] eqn:E; cbn;
    intros [= <- <-]; apply run_newest in E as [-> E]; split; try done.
  intros ? [= <-]. by rewrite (E o eq_refl).
Qed.

Lemma run_insert ts epoch round address weight amount t r t' :
  insert ts epoch round address weight amount t = (r, t') →
  (∀ e, epoch_linked e (sql_rows t) → epoch_linked e (sql_rows t')) ∧ (∀ e, r = Err e → t' = t).
Proof.
  unfold insert. rewrite run_try_bind.
  destruct (last_hash epoch t) as [[h|e] t1] eqn:E; cbn; apply run_last_epoch_hash in E as [-> E]; [|by intros [= <- <-]].
  specialize (E h eq_refl) as ->. rewrite run_try_bind.
  destruct (insert_row _ t) as [[x|e] t2] eqn:Ei; cbn; intros [= <- <-];
    apply run_insert_row in Ei; try done; [|by subst].
  destruct Ei as (id & _ & Ei & _). split; [|done]. intros e He. unfold epoch_linked. rewrite Ei, List.filter_app.
  cbn. unfold in_epoch at 2. cbn. case_bool_decide as Ee; [|by rewrite app_nil_r].
  subst e. by apply linked_snoc.
Qed.

Lemma run_verify_chain epoch t r t' :
  verify_chain epoch t = (r, t') → t' = t ∧ ∀ b, r = Ok b → b = true ↔ epoch_linked epoch (sql_rows t).
Proof.
  unfold verify_chain, get_by_epoch. rewrite run_try_bind.
  destruct (find_sorted id_asc _ t) as [[l|e] t1] eqn:E; cbn;
    intros [= <- <-]; apply run_find_sorted in E as [-> E]; split; try done.
  destruct (E l eq_refl) as (l0 & Hl & ->). rewrite (sort_id_asc l0 _ t Hl).
  intros ? [= <-]. unfold epoch_linked. destruct (List.filter _ _) as [|x k]; cbn; [done|].
  case_bool_decide; cbn; [rewrite check_links_spec; tauto|naive_solver].
Qed.

Record request := mk_request {
  aq_ts : Z; aq_epoch : Z; aq_round : Z; aq_address : string; aq_weight : string; aq_amount : string;
}.
Definition allocate_all (l : list request) : state T unit :=
  for_each l (fun q => insert (aq_ts q) (aq_epoch q) (aq_round q) (aq_address q) (aq_weight q) (aq_amount q) ;; mret tt).

Lemma allocate_all_linked l e t : epoch_linked e (sql_rows t) → epoch_linked e (sql_rows (exec (allocate_all l) t)).
Proof.
  revert t. induction l as [|q l IH]; intros t Ht; [done|].
  unfold allocate_all. cbn [for_each]. rewrite exec_bind. apply IH. rewrite exec_bind.
  change (exec (mret tt) ?s) with s. unfold exec.
  destruct (insert _ _ _ _ _ _ t) as [r t'] eqn:E. apply run_insert in E as [E _]. by apply E.
Qed.

(** C32. The chain check is sound, complete and passed by everything the program
    writes: its answer is whether the rows of the epoch are linked from the
    first hash on; after any interleaved allocations to any epochs on an empty
    table it accepts every epoch; and it looks at the links alone, so that no
    change of amounts, weights or addresses is noticed. *)
Theorem verify_chain_spec epoch t b t' :
  verify_chain epoch t = (Ok b, t') →
  (b = true ↔ epoch_linked epoch (sql_rows t)) ∧
  (∀ l t0, sql_rows t0 = [] → t = exec (allocate_all l) t0 → b = true) ∧
  (∀ (f : Model → Model) t2 b2 t2',
     (∀ m, am_epoch (f m) = am_epoch m ∧ am_pre_hash (f m) = am_pre_hash m ∧ am_hash (f m) = am_hash m) →
     sql_rows t2 = f <$> sql_rows t → verify_chain epoch t2 = (Ok b2, t2') → b2 = b).
Proof.
  intros E. apply run_verify_chain in E as [-> E]. specialize (E b eq_refl). split_and!; [done| |].
  - intros l t0 H0 ->. apply E, allocate_all_linked. by rewrite H0.
  - intros f t2 b2 t2' Hf Ht2 E2. apply run_verify_chain in E2 as [-> E2]. specialize (E2 b2 eq_refl).
    assert (Hiff : epoch_linked epoch (sql_rows t2) ↔ epoch_linked epoch (sql_rows t)).
    { rewrite Ht2. unfold epoch_linked. generalize first_hash. clear -Hf. generalize (sql_rows t).
      induction l as [|m l IH]; intros p; [done|]. cbn. destruct (Hf m) as (He & Hp & Hh).
      replace (in_epoch epoch (f m)) with (in_epoch epoch m) by (unfold in_epoch; by rewrite He).
      destruct (in_epoch epoch m); cbn; [|apply IH]. by rewrite Hp, Hh, IH. }
    destruct b, b2; try done; tauto || (exfalso; naive_solver).
Qed.
End properties.
