(* ===== verification/EpochReward.v ===== *)
(** * Rewards of an epoch

    src/src/db/entity/epoch_reward/ keeps what every address was paid in an
    epoch, as decimal text. *)

From S2P Require Import Prelude Sql.
Open Scope Z_scope.
Open Scope stdpp_scope.

Record Model := mk_model {
  rm_id : Z;
  rm_epoch_id : Z;
  rm_address : string;
  rm_amount : string;
}.
#[export] Instance reward_row : Row Model := { row_id := rm_id; row_conflict _ _ := false }.

Definition of_epoch (epoch_id : Z) (m : Model) : bool := bool_decide (rm_epoch_id m = epoch_id).
(** [r.amount.parse::<u64>().ok()] *)
Definition amount_of (m : Model) : option Z :=
  match parse_u 64 (rm_amount m) with Ok n => Some n | Err _ => None end.

Section store.
Context {T : Type} `{!Sql T Model}.

Definition insert (epoch_id : Z) (address amount : string) : state T (result Model) :=
  insert_row (fun id => mk_model id epoch_id address amount).

Definition get_by_epoch (epoch_id : Z) : state T (result (list Model)) := find_all (of_epoch epoch_id).

Definition get_by_address_and_epoch (epoch_id : Z) (address : string) : state T (result (option Model)) :=
  find_one (fun m => of_epoch epoch_id m && bool_decide (rm_address m = address)).

Definition get_total_reward_for_epoch (epoch_id : Z) : state T (result Z) :=
  records ←? get_by_epoch epoch_id;
  mret (Ok (foldl (fun total n => wrap_u 64 (total + n)) 0 (omap amount_of records))).
End store.

(** The total of an epoch is the sum, over 64 bits, of the amounts paid in it
    that are numbers, in whatever order the database answers. *)
Theorem total_reward_spec {T} `{!Sql T Model, !SqlLaws T Model} epoch_id t r t' :
  get_total_reward_for_epoch epoch_id t = (r, t') →
  t' = t ∧ ∀ n, r = Ok n → n = sum_list_Z (omap amount_of (List.filter (of_epoch epoch_id) (sql_rows t))) mod 2 ^ 64.
Proof.
  unfold get_total_reward_for_epoch, get_by_epoch. rewrite run_try_bind.
  destruct (find_all _ t) as [[l|e] t1] eqn:E; cbn; intros [= <- <-]; apply run_find_all in E as [-> E]; split; try done.
  intros n [= <-]. specialize (E l eq_refl). change 0 with (wrap_u 64 0). rewrite sum_wrap_u. by rewrite E.
Qed.
