(* ===== verification/ResourcePrice.v ===== *)
(** * Prices of resources

    src/src/db/entity/market_resource_price/entity.rs, with the enumerations of
    types.rs: the weight of a resource from its price and from incomes, in 16
    bits, computed in 32. The module is listed in no module of the crate. *)

From S2P Require Import Prelude Sql.
Open Scope Z_scope.
Open Scope stdpp_scope.

Inductive ResourceType :=
| Cpu | Bandwidth | Ip | Storage | Api | Memory | HotStorage | ColdStorage | ApiRequest | Unknown.
Inductive PricingUnit := TimeBased | QuantityBased.
Inductive ResourceUnit := UnitIp | Gb | Tb | Mbps | Core | Ghz | Request.

Record Model := mk_model {
  rp_id : Z;
  rp_resource_type : ResourceType;
  rp_country : string;
  rp_city : string;
  rp_pricing_unit : PricingUnit;
  rp_unit : ResourceUnit;
  rp_price_per_unit_per_month : Z;
  rp_local_avg_income : Z;
  rp_global_avg_price : Z;
  rp_global_avg_income : Z;
  rp_valid_from_epoch : Z;
  rp_valid_to_epoch : Z;
  rp_pre_hash : string;
  rp_hash : string;
}.
#[export] Instance price_row : Row Model := { row_id := rp_id; row_conflict _ _ := false }.

(** Division of unsigned integers; [None] is the panic at zero. *)
Definition div_u (a b : Z) : option Z := if b =? 0 then None else Some (a / b).

(** [weight as u16] keeps the low 16 bits. *)
Definition base_weight (m : Model) : option Z :=
  wrap_u 16 <$> div_u (wrap_u 32 (rp_global_avg_income m * rp_global_avg_price m)) (rp_local_avg_income m).

Definition compute_weight (days_in_month : Z) (m : Model) : option Z :=
  match rp_pricing_unit m with
  | TimeBased =>
      daily_price ← div_u (rp_price_per_unit_per_month m) days_in_month;
      base ← base_weight m;
      wrap_u 16 <$> div_u (wrap_u 32 (base * daily_price)) (rp_price_per_unit_per_month m)
  | QuantityBased => base_weight m
  end.

Definition days_in_month (year month : Z) : Z :=
  match month with
  | 2 => if (year mod 4 =? 0) && negb (year mod 100 =? 0) || (year mod 400 =? 0) then 29 else 28
  | 4 | 6 | 9 | 11 => 30
  | _ => 31
  end.

(** The year and the month of the clock; an [Ok None] is a panic. *)
Definition get_weight {T} `{!Sql T Model} (year month id : Z) : state T (result (option Z)) :=
  resource ←? find_one (fun m => bool_decide (rp_id m = id));
  match resource with
  | Some m => mret (Ok (compute_weight (days_in_month year month) m))
  | None => mret (Err ("Resource id " +:+ show_i id +:+ " not found"))
  end.

(** ** Properties *)

Record priced (m : Model) : Prop := {
  pr_price : in_u 16 (rp_price_per_unit_per_month m);
  pr_local : in_u 16 (rp_local_avg_income m);
  pr_global_price : in_u 16 (rp_global_avg_price m);
  pr_global_income : in_u 16 (rp_global_avg_income m);
}.

Lemma mul_u16 a b : in_u 16 a → in_u 16 b → wrap_u 32 (a * b) = a * b.
Proof. unfold in_u. intros Ha Hb. apply wrap_u_small. unfold in_u. nia. Qed.

(** Weights of 16 bits: the products fit the 32 bits they are computed in; a
    weight panics exactly when the local income, or the price of a resource
    that is paid by time, is zero; and what is paid by time weighs at most a
    day's share of the base weight. *)
Theorem weights_bounded (m : Model) year month :
  priced m →
  let d := days_in_month year month in
  28 ≤ d ≤ 31 ∧
  base_weight m = (if rp_local_avg_income m =? 0 then None
                   else Some ((rp_global_avg_income m * rp_global_avg_price m / rp_local_avg_income m) mod 2 ^ 16)) ∧
  (compute_weight d m = None ↔
     rp_local_avg_income m = 0 ∨ rp_pricing_unit m = TimeBased ∧ rp_price_per_unit_per_month m = 0) ∧
  (∀ b n, base_weight m = Some b → compute_weight d m = Some n → rp_pricing_unit m = TimeBased →
     n = b * (rp_price_per_unit_per_month m / d) / rp_price_per_unit_per_month m ∧ n * d ≤ b).
Proof.
  intros [Hp Hl Hg Hi]. cbv zeta. set (d := days_in_month year month).
  assert (Hd : 28 ≤ d ≤ 31) by (unfold d, days_in_month; repeat case_match; lia).
  assert (Eb : base_weight m = if rp_local_avg_income m =? 0 then None
    else Some ((rp_global_avg_income m * rp_global_avg_price m / rp_local_avg_income m) mod 2 ^ 16)).
  { unfold base_weight, div_u. rewrite mul_u16 by done. by destruct (_ =? 0). }
  assert (Ed : div_u (rp_price_per_unit_per_month m) d = Some (rp_price_per_unit_per_month m / d)).
  { unfold div_u. by rewrite (proj2 (Z.eqb_neq d 0)) by lia. }
  split_and!; [lia..|exact Eb| |].
  - unfold compute_weight. destruct (rp_pricing_unit m).
    + rewrite Ed, Eb. cbn [mbind option_bind]. destruct (Z.eqb_spec (rp_local_avg_income m) 0); cbn; [tauto|].
      unfold div_u. destruct (Z.eqb_spec (rp_price_per_unit_per_month m) 0); cbn; naive_solver.
    + rewrite Eb. destruct (Z.eqb_spec (rp_local_avg_income m) 0); naive_solver.
  - intros b n Hb Hn Ht. unfold compute_weight in Hn. rewrite Ht, Ed, Hb in Hn. cbn in Hn.
    assert (Hb16 : in_u 16 b).
    { rewrite Eb in Hb. destruct (_ =? 0); [done|]. injection Hb as <-. by apply (wrap_u_in 16). }
    unfold div_u in Hn. destruct (Z.eqb_spec (rp_price_per_unit_per_month m) 0) as [|Hne]; [done|].
    injection Hn as <-. unfold in_u in *. set (p := rp_price_per_unit_per_month m) in *.
    assert (Hq : 0 ≤ p / d ∧ d * (p / d) ≤ p) by (split; [apply Z.div_pos; lia|apply Z.mul_div_le; lia]).
    rewrite (wrap_u_small 32) by (unfold in_u; nia).
    assert (Hr : p * (b * (p / d) / p) ≤ b * (p / d)) by (apply Z.mul_div_le; lia).
    assert (0 ≤ b * (p / d) / p) by (apply Z.div_pos; nia).
    rewrite wrap_u_small by (unfold in_u; nia). split; [done|]. nia.
Qed.
