(* ===== verification/ResourceSnapshot.v ===== *)
(** * Snapshots of resources

    src/src/db/entity/tick_resource_snapshot/: what a node used so far in an
    epoch, as of a tick; the rows of a node in an epoch are a hash chain. The
    row before is the one of the latest tick, not the newest one. The module is
    listed in no module of the crate. *)

From S2P Require Import Prelude External Sql Chain.
Open Scope Z_scope.
Open Scope stdpp_scope.

Record Model := mk_model {
  sn_id : Z;
  sn_node_id : string;
  sn_epoch : Z;
  sn_tick : Z;
  sn_market_resource_id : Z;
  sn_accumulated : Z;
  sn_verified : bool;
  sn_pre_hash : string;
  sn_hash : string;
}.
#[export] Instance snapshot_row : Row Model := { row_id := sn_id; row_conflict _ _ := false }.

Definition of_epoch (epoch : Z) (m : Model) : bool := bool_decide (sn_epoch m = epoch).
Definition of_node (node_id : string) (epoch : Z) (m : Model) : bool :=
  bool_decide (sn_node_id m = node_id) && of_epoch epoch m.
(** [order_by_desc(Column::Tick)] *)
Definition tick_desc (a b : Model) : bool := sn_tick b <=? sn_tick a.

Definition snapshot_preimage (pre_hash node_id : string) (epoch tick market_resource_id accumulated : Z) : bytes :=
  as_bytes pre_hash ++ as_bytes node_id ++ le_bytes 8 epoch ++ le_bytes 8 tick ++
  le_bytes 8 market_resource_id ++ le_bytes 8 accumulated.

Definition set_verified (m : Model) : Model :=
  mk_model (sn_id m) (sn_node_id m) (sn_epoch m) (sn_tick m) (sn_market_resource_id m) (sn_accumulated m) true
    (sn_pre_hash m) (sn_hash m).

Section store.
Context {T : Type} `{!Sql T Model, Sha256}.

Definition get_last_hash (node_id : string) (epoch : Z) : state T (result string) :=
  record ←? find_sorted tick_desc (of_node node_id epoch);
  mret (Ok (default (zeros 64) (sn_hash <$> head record))).

Definition create (node_id : string) (epoch tick market_resource_id accumulated : Z) : state T (result Model) :=
  pre_hash ←? get_last_hash node_id epoch;
  let hash := hex (sha256 (snapshot_preimage pre_hash node_id epoch tick market_resource_id accumulated)) in
  insert_row (fun id => mk_model id node_id epoch tick market_resource_id accumulated false pre_hash hash).

Definition get_by_epoch (epoch : Z) : state T (result (list Model)) := find_all (of_epoch epoch).
Definition get_by_node (node_id : string) (epoch : Z) : state T (result (list Model)) := find_all (of_node node_id epoch).

Definition mark_verified (id : Z) : state T (result unit) :=
  _ ←? update_found (fun m => bool_decide (sn_id m = id)) "Snapshot not found" set_verified;
  mret (Ok tt).

(** The sum wraps, as in a release build. *)
Definition get_total_by_node (node_id : string) (epoch : Z) : state T (result Z) :=
  snapshots ←? get_by_node node_id epoch;
  mret (Ok (foldl (fun total n => wrap_i 64 (total + n)) 0 (sn_accumulated <$> snapshots))).
End store.

(** ** Properties *)

(** The rows of a node in an epoch, ticks growing and hashes linked. *)
Definition chained (node_id : string) (epoch : Z) (rows : list Model) : Prop :=
  let l := List.filter (of_node node_id epoch) rows in
  StronglySorted Z.lt (sn_tick <$> l) ∧ linked sn_pre_hash sn_hash (zeros 64) l.

Lemma latest_is_last (l : list Model) x :
  StronglySorted Z.lt (sn_tick <$> l) → x ∈ l → (∀ y, y ∈ l → sn_tick y ≤ sn_tick x) → last l = Some x.
Proof.
  induction l as [|y l _] using rev_ind; [by intros _ ?%not_elem_of_nil|]. rewrite fmap_app, last_snoc.
  intros Hs [Hx| ->%list_elem_of_singleton]%elem_of_app Hmax; [|done].
  assert (Hlt : sn_tick x < sn_tick y).
  { eapply StronglySorted_app_1_elem_of; [exact Hs|by apply list_elem_of_fmap_2|by apply list_elem_of_singleton]. }
  specialize (Hmax y ltac:(set_solver)). lia.
Qed.

Section properties.
Context {T : Type} `{!Sql T Model, !SqlLaws T Model, Sha256}.

Lemma run_get_last_hash node_id epoch t r t' :
  get_last_hash node_id epoch t = (r, t') →
  let l := List.filter (of_node node_id epoch) (sql_rows t) in
  t' = t ∧ ∀ h, r = Ok h →
    (l = [] ∧ h = zeros 64) ∨ ∃ x, x ∈ l ∧ h = sn_hash x ∧ ∀ y, y ∈ l → sn_tick y ≤ sn_tick x.
Proof.
  unfold get_last_hash. rewrite run_try_bind. destruct (find_sorted _ _ t) as [[k|e] t1] eqn:E; cbn;
    intros [= <- <-]; apply run_find_sorted in E as [-> E]; split; try done.
  destruct (E k eq_refl) as (l0 & Hl & ->). intros ? [= <-].
  pose proof (sort_by_sorted tick_desc) as Hs. specialize (Hs ltac:(unfold tick_desc; intros; lia) ltac:(unfold tick_desc; intros; lia) l0).
  assert (Hp : sort_by tick_desc l0 ≡ₚ List.filter (of_node node_id epoch) (sql_rows t)) by (by rewrite <- Hl, sort_by_perm).
  destruct (sort_by tick_desc l0) as [|x k]; cbn; [left|right].
  - split; [|done]. by apply Permutation_nil_l in Hp.
  - exists x. split_and!; [rewrite <- Hp; set_solver|done|]. intros y. rewrite <- Hp. intros Hy.
    destruct (head_strongly_sorted _ _ x y Hs eq_refl Hy) as [->|Hxy]; [done|]. unfold tick_desc in Hxy. lia.
Qed.

Lemma run_create_snapshot node_id epoch tick res acc t r t' :
  create node_id epoch tick res acc t = (r, t') →
  match r with
  | Ok m =>
      sql_rows t' = sql_rows t ++ [m] ∧ sn_node_id m = node_id ∧ sn_epoch m = epoch ∧ sn_tick m = tick ∧
      (let l := List.filter (of_node node_id epoch) (sql_rows t) in
       (l = [] ∧ sn_pre_hash m = zeros 64) ∨
       ∃ x, x ∈ l ∧ sn_pre_hash m = sn_hash x ∧ ∀ y, y ∈ l → sn_tick y ≤ sn_tick x)
  | Err _ => t' = t
  end.
Proof.
  unfold create. rewrite run_try_bind. destruct (get_last_hash _ _ t) as [[h|e] t1] eqn:E;
    apply run_get_last_hash in E as [-> E]; [|by intros [= <- <-]].
  intros Ei. apply run_insert_row in Ei; [|done]. destruct r as [m|]; [|done].
  destruct Ei as (id & -> & Ei & _). split_and!; [done..|]. by apply (E h).
Qed.

Lemma run_mark_verified id t r t' : mark_verified id t = (r, t') →
  ∀ n e, chained n e (sql_rows t) ↔ chained n e (sql_rows t').
Proof.
  unfold mark_verified. rewrite run_try_bind. destruct (update_found _ _ _ t) as [[m|err] t1] eqn:E; cbn;
    intros [= <- <-] n e; apply run_update_found in E; [|by subst].
  destruct E as (x & Hx & _ & _ & ->).
  pose proof (replace_row_filter (fun m => (sn_tick m, sn_pre_hash m, sn_hash m)) (of_node n e) (set_verified x) x t Hx eq_refl eq_refl eq_refl) as E.
  unfold chained. set (l' := List.filter _ (replace_row _ _)) in *. set (l := List.filter _ (sql_rows t)) in *. clearbody l l'.
  generalize (zeros 64). revert l' E. induction l as [|y l IH]; intros [|y' l'] E p; try done. cbn in E. injection E as Et Ep Eh E.
  specialize (IH l' E (sn_hash y)). cbn. rewrite Ep, Eh, Et. clear Hx.
  assert (Ek : sn_tick <$> l' = sn_tick <$> l).
  { apply (f_equal (fmap (fun z => z.1.1))) in E. by rewrite <- !list_fmap_compose in E. }
  rewrite Ek in *. split; intros [Hs [Hp Hk]]; (split; [done|]); split; try done;
    apply StronglySorted_inv in Hs as [Hs _]; by apply IH.
Qed.

(** A snapshot whose tick is later than those its node has in the epoch keeps
    the chain linked from the first hash on, as it keeps all others, and so
    does marking one as verified. A late one is appended with the hash of the
    latest tick, and so is the one after it: the chain then forks. The total is
    the sum over 64 bits of what the rows say was accumulated, although each
    says what was accumulated up to its tick. *)
Theorem snapshots_chained node_id epoch :
  (∀ tick res acc t m t',
     create node_id epoch tick res acc t = (Ok m, t') →
     (∀ x, x ∈ sql_rows t → of_node node_id epoch x = true → sn_tick x < tick) →
     ∀ n e, chained n e (sql_rows t) → chained n e (sql_rows t')) ∧
  (∀ id t r t', mark_verified id t = (r, t') → ∀ n e, chained n e (sql_rows t) ↔ chained n e (sql_rows t')) ∧
  (∀ x late res acc next res' acc' t m1 t1 m2 t2,
     chained node_id epoch (sql_rows t) → last (List.filter (of_node node_id epoch) (sql_rows t)) = Some x →
     late < sn_tick x →
     create node_id epoch late res acc t = (Ok m1, t1) → create node_id epoch next res' acc' t1 = (Ok m2, t2) →
     sn_pre_hash m1 = sn_hash x ∧ sn_pre_hash m2 = sn_hash x) ∧
  (∀ t n t', get_total_by_node node_id epoch t = (Ok n, t') →
     n = wrap_i 64 (sum_list_Z (sn_accumulated <$> List.filter (of_node node_id epoch) (sql_rows t)))).
Proof.
  split_and!.
  - intros tick res acc t m t' E Hlate n e [Hs Hl]. apply run_create_snapshot in E as (E & <- & <- & <- & Hm).
    unfold chained. rewrite E, List.filter_app. cbn [List.filter].
    destruct (of_node n e m) eqn:Em; [|by rewrite app_nil_r].
    assert (n = sn_node_id m ∧ e = sn_epoch m) as [-> ->].
    { unfold of_node, of_epoch in Em. apply andb_true_iff in Em as [E1%bool_decide_eq_true E2%bool_decide_eq_true]. done. }
    cbv zeta in Hs, Hl |- *. set (l := List.filter _ (sql_rows t)) in *. split.
    + rewrite fmap_app. apply StronglySorted_app_2; [|done|by repeat constructor].
      intros a b (x & -> & [Hx Hf]%elem_of_filter_b)%list_elem_of_fmap ->%list_elem_of_singleton. by apply Hlate.
    + apply linked_snoc. split; [done|]. unfold tip. destruct Hm as [[El ->]|(x & Hx & -> & Hmax)]; [by rewrite El|].
      by rewrite (latest_is_last l x).
  - intros id t r t'. apply run_mark_verified.
  - intros x late res acc next res' acc' t m1 t1 m2 t2 [Hs _] Hx Hlt E1 E2. cbv zeta in Hs.
    apply run_create_snapshot in E1 as (Er & Hn & He & Ht & Hm1). apply run_create_snapshot in E2 as (_ & _ & _ & _ & Hm2).
    set (l := List.filter _ (sql_rows t)) in *. cbv zeta in *.
    assert (Hin : x ∈ l) by (by apply last_Some_elem_of).
    rewrite Er, List.filter_app in Hm2. cbn [List.filter] in Hm2.
    replace (of_node node_id epoch m1) with true in Hm2 by (unfold of_node, of_epoch; by rewrite Hn, He, !bool_decide_true).
    fold l in Hm2. split.
    + destruct Hm1 as [[El _]|(y & Hy & -> & Hmax)]; [rewrite El in Hin; set_solver|].
      rewrite (latest_is_last l y Hs Hy Hmax) in Hx. congruence.
    + destruct Hm2 as [[El _]|(y & Hy & -> & Hmax)]; [by destruct l|].
      assert (Hyl : y ∈ l).
      { apply elem_of_app in Hy as [Hy| ->%list_elem_of_singleton]; [done|].
        specialize (Hmax x ltac:(set_solver)). lia. }
      rewrite (latest_is_last l y Hs Hyl) in Hx; [congruence|]. intros z Hz. apply Hmax. set_solver.
  - intros t n t'. unfold get_total_by_node, get_by_node. rewrite run_try_bind.
    destruct (find_all _ t) as [[l|e] t1] eqn:E; cbn; intros [= <- _]; apply run_find_all in E as [-> E].
    change 0 with (wrap_i 64 0) at 1. rewrite sum_wrap_i. by rewrite (E l eq_refl).
Qed.
End properties.
