(* ===== verification/TickRecord.v ===== *)
(** * Tick records of an epoch

    src/src/db/entity/witness_tick_record/ counts how often every witness
    ticked in an epoch, in a counter of 8 bits. *)

From S2P Require Import Prelude Sql Chain.
Open Scope Z_scope.
Open Scope stdpp_scope.

Record Model := mk_model {
  tm_id : Z;
  tm_epoch : Z;
  tm_address : string;
  tm_tick_count : Z;
  tm_updated_at : Z;
}.
#[export] Instance tick_row : Row Model := { row_id := tm_id; row_conflict _ _ := false }.

(** The key the two filters of a query select. *)
Definition key_of (m : Model) : Z * string := (tm_epoch m, tm_address m).
Definition has_key (epoch : Z) (address : string) (m : Model) : bool :=
  bool_decide (tm_epoch m = epoch) && bool_decide (tm_address m = address).
Definition in_epoch (epoch : Z) (m : Model) : bool := bool_decide (tm_epoch m = epoch).
(** [order_by(TickCount, Desc)] *)
Definition count_desc (a b : Model) : bool := tm_tick_count b <=? tm_tick_count a.

Section store.
Context {T : Type} `{!Sql T Model}.

Definition increment_tick (now epoch : Z) (address : string) : state T (result unit) :=
  record ←? find_one (has_key epoch address);
  match record with
  | Some existing =>
      _ ←? update_row (mk_model (tm_id existing) (tm_epoch existing) (tm_address existing)
                         (wrap_u 8 (tm_tick_count existing + 1)) now);
      mret (Ok tt)
  | None => _ ←? insert_row (fun id => mk_model id epoch address 1 now); mret (Ok tt)
  end.

Definition get_epoch_records (epoch : Z) : state T (result (list Model)) := find_sorted count_desc (in_epoch epoch).

Definition get_max_tick_count (epoch : Z) : state T (result Z) :=
  l ←? find_sorted count_desc (in_epoch epoch);
  mret (Ok (default 0 (tm_tick_count <$> head l))).

Definition get_full_time_addresses (epoch threshold : Z) : state T (result (list string)) :=
  records ←? find_all (fun m => in_epoch epoch m && (threshold <=? tm_tick_count m));
  mret (Ok (tm_address <$> records)).

Definition reset : state T (result unit) := delete_rows (fun _ => true).
End store.

(** ** Properties *)

Lemma has_key_spec e a m : has_key e a m = true ↔ key_of m = (e, a).
Proof. unfold has_key, key_of. rewrite andb_true_iff, !bool_decide_eq_true. naive_solver. Qed.

(** The table is a map from witnesses to how often they ticked, modulo 256. *)
Record counts (n : Z * string → nat) (rows : list Model) : Prop := {
  counts_unique : NoDup (key_of <$> rows);
  counts_rows m : m ∈ rows → (0 < n (key_of m))%nat ∧ tm_tick_count m = Z.of_nat (n (key_of m)) mod 256;
  counts_all k : (0 < n k)%nat → k ∈ key_of <$> rows;
}.

Lemma counts_ext n n' rows : (∀ k, n k = n' k) → counts n rows → counts n' rows.
Proof. intros E [Hu Hr Ha]. split; [done|..]; [intros m; rewrite <- E; auto|intros k; rewrite <- E; auto]. Qed.

Definition incr (k : Z * string) (n : Z * string → nat) (k' : Z * string) : nat :=
  if decide (k' = k) then S (n k') else n k'.

Section properties.
Context {T : Type} `{!Sql T Model, !SqlLaws T Model, !SqlReliable T Model}.

Lemma run_increment n now e a t :
  counts n (sql_rows t) →
  ∃ t', increment_tick now e a t = (Ok tt, t') ∧ counts (incr (e, a) n) (sql_rows t').
Proof.
  intros [Hu Hr Ha]. unfold increment_tick. rewrite run_try_bind.
  destruct (find_one_total (has_key e a) t) as (o & -> & Ho). destruct o as [m|]; rewrite run_try_bind.
  - destruct Ho as [Hm Hk]. apply has_key_spec in Hk.
    set (r := mk_model _ _ _ _ _). destruct (update_row_total r m t Hm eq_refl) as (t' & -> & Et').
    exists t'. split; [done|]. rewrite Et'.
    assert (Ek : key_of <$> replace_row r (sql_rows t) = key_of <$> sql_rows t) by exact (replace_row_fmap key_of r m t Hm eq_refl eq_refl).
    split; [by rewrite Ek| |].
    + intros x Hx. apply (elem_of_replace_row r m t x Hm eq_refl) in Hx as [->|[Hx Hne]].
      * replace (key_of r) with (key_of m) by done. unfold incr. rewrite decide_True by done.
        split; [lia|]. destruct (Hr m Hm) as [_ E]. cbn. rewrite E. unfold wrap_u.
        change (2 ^ 8) with 256. rewrite Nat2Z.inj_succ. by rewrite Zplus_mod_idemp_l.
      * unfold incr. rewrite decide_False; [by apply Hr|]. intros E. apply Hne.
        apply (nodup_key key_of _ _ _ Hu Hx Hm). congruence.
    + intros k Hn. rewrite Ek. unfold incr in Hn. case_decide as Ek'; [|by apply Ha].
      subst k. rewrite <- Hk. by apply list_elem_of_fmap_2.
  - set (f := fun id => mk_model id e a 1 now).
    destruct (insert_row_total f t) as (id & t' & -> & Et'); [done|by intros; apply Forall_true|].
    exists t'. split; [done|]. rewrite Et'.
    assert (Hfresh : (e, a) ∉ key_of <$> sql_rows t).
    { intros (m & E & Hm)%list_elem_of_fmap. symmetry in E. apply has_key_spec in E.
      rewrite (Ho m Hm) in E. done. }
    assert (H0 : n (e, a) = 0%nat) by (destruct (n (e, a)) eqn:E; [done|destruct Hfresh; apply Ha; lia]).
    split.
    + rewrite fmap_app. apply NoDup_app. split_and!; [done| |apply NoDup_singleton].
      intros y Hy ->%list_elem_of_singleton. done.
    + intros m [Hm| ->%list_elem_of_singleton]%elem_of_app; unfold incr.
      * rewrite decide_False; [by apply Hr|]. intros E. apply Hfresh. rewrite <- E. by apply list_elem_of_fmap_2.
      * change (key_of (f id)) with (e, a). rewrite decide_True, H0 by done. split; [lia|done].
    + intros k Hn. rewrite fmap_app, elem_of_app. unfold incr in Hn.
      case_decide as E; [right; subst k; by apply list_elem_of_singleton|left; by apply Ha].
Qed.

Definition tick_all (l : list (Z * Z * string)) : state T unit :=
  for_each l (fun '(now, e, a) => increment_tick now e a ;; mret tt).
(** How often witness [k] ticks in [l]. *)
Definition ticks (l : list (Z * Z * string)) (k : Z * string) : nat :=
  length (List.filter (fun '(now, e, a) => bool_decide ((e, a) = k)) l).

Lemma run_tick_all l n t :
  counts n (sql_rows t) → counts (fun k => n k + ticks l k)%nat (sql_rows (exec (tick_all l) t)).
Proof.
  revert n t. induction l as [|[[now e] a] l IH]; intros n t Hn.
  - revert Hn. apply counts_ext. intros k. unfold ticks. cbn. lia.
  - unfold tick_all. cbn [for_each]. rewrite exec_bind, exec_bind.
    destruct (run_increment n now e a t Hn) as (t' & E & Hn'). unfold exec at 3. rewrite E.
    change (exec (mret tt) ?s) with s. cbn. specialize (IH _ _ Hn'). revert IH.
    apply counts_ext. intros k. unfold ticks, incr. cbn. case_decide; case_bool_decide; subst; cbn; try done; lia.
Qed.

Lemma in_epoch_spec e m : in_epoch e m = true ↔ tm_epoch m = e.
Proof. apply bool_decide_eq_true. Qed.

Lemma head_sorted_max l m :
  head (sort_by count_desc l) = Some m → m ∈ l ∧ ∀ x, x ∈ l → tm_tick_count x ≤ tm_tick_count m.
Proof.
  assert (Hs : StronglySorted (fun a b => count_desc a b = true) (sort_by count_desc l))
    by (apply sort_by_sorted; unfold count_desc; intros; lia).
  pose proof (sort_by_perm count_desc l) as Hp. destruct (sort_by count_desc l) as [|y k]; [done|].
  intros [= ->]. split; [rewrite <- Hp; set_solver|]. intros x. rewrite <- Hp.
  apply StronglySorted_inv in Hs as [_ Hs]. rewrite Forall_forall in Hs.
  intros [->|Hx]%elem_of_cons; [done|]. specialize (Hs x Hx). unfold count_desc in Hs. lia.
Qed.

(** C34. Ticks are counted modulo 256: after any ticks of any witnesses in any
    epochs, in any order, the full-time addresses of an epoch are - each once -
    the witnesses that ticked in it with at least the threshold left over 256,
    and the maximum is the greatest remainder; a witness that ticks 256 times
    is back at 0. *)
Theorem ticks_counted l e threshold t :
  sql_rows t = [] →
  let t' := exec (tick_all l) t in
  let count a := Z.of_nat (ticks l (e, a)) mod 256 in
  ∃ addrs m,
    get_full_time_addresses e threshold t' = (Ok addrs, t') ∧ get_max_tick_count e t' = (Ok m, t') ∧
    NoDup addrs ∧ (∀ a, a ∈ addrs ↔ (0 < ticks l (e, a))%nat ∧ threshold ≤ count a) ∧
    (∀ a, count a ≤ m) ∧ (m = 0 ∨ ∃ a, m = count a).
Proof.
  intros H0 t' count. assert (Hc : counts (ticks l) (sql_rows t')).
  { eapply counts_ext; [|apply (run_tick_all l (fun _ => 0%nat)); rewrite H0; split; [constructor|set_solver|lia]]. done. }
  destruct Hc as [Hu Hr Ha].
  assert (Hat : ∀ a, (0 < ticks l (e, a))%nat → ∃ x, x ∈ sql_rows t' ∧ tm_epoch x = e ∧ tm_address x = a ∧ tm_tick_count x = count a).
  { intros a Hn. apply Ha, list_elem_of_fmap in Hn as (x & Ek & Hx). exists x. destruct (Hr x Hx) as [_ E].
    rewrite <- Ek in E. unfold key_of in Ek. simplify_eq. split_and!; done. }
  destruct (find_all_total (fun m => in_epoch e m && (threshold <=? tm_tick_count m)) t') as (fl & Ef & Hf).
  destruct (find_all_total (in_epoch e) t') as (ml & Em & Hm).
  exists (tm_address <$> fl), (default 0 (tm_tick_count <$> head (sort_by count_desc ml))).
  assert (Hfl : ∀ x, x ∈ fl ↔ x ∈ sql_rows t' ∧ tm_epoch x = e ∧ threshold ≤ tm_tick_count x).
  { intros x. rewrite Hf, elem_of_filter_b, andb_true_iff, in_epoch_spec, Z.leb_le. tauto. }
  assert (Hml : ∀ x, x ∈ ml ↔ x ∈ sql_rows t' ∧ tm_epoch x = e).
  { intros x. by rewrite Hm, elem_of_filter_b, in_epoch_spec. }
  split_and!.
  - unfold get_full_time_addresses. by rewrite run_try_bind, Ef.
  - unfold get_max_tick_count, find_sorted. by rewrite !run_try_bind, Em.
  - apply (NoDup_fmap_1 (pair e)). rewrite <- list_fmap_compose.
    replace ((pair e ∘ tm_address) <$> fl) with (key_of <$> fl).
    2:{ apply list_fmap_ext. intros i x Hx. apply list_elem_of_lookup_2, Hfl in Hx as (_ & <- & _). done. }
    rewrite Hf. eapply sublist_NoDup; [exact Hu|apply filter_sublist_fmap].
  - intros a. rewrite list_elem_of_fmap. split.
    + intros (x & -> & Hx%Hfl). destruct Hx as (Hx & <- & Ht). destruct (Hr x Hx) as [Hp E]. split; [done|]. by rewrite E in Ht.
    + intros [Hp Ht]. destruct (Hat a Hp) as (x & Hx & He & Hxa & E). exists x. split; [done|]. apply Hfl. split_and!; [done..|lia].
  - intros a. destruct (head (sort_by count_desc ml)) as [m|] eqn:Eh; cbn.
    + apply head_sorted_max in Eh as [Hmx Hmax].
      destruct (decide (0 < ticks l (e, a))%nat) as [Hp|Hp].
      * destruct (Hat a Hp) as (x & Hx & He & _ & <-). apply Hmax, Hml. done.
      * apply Hml in Hmx as [Hmx _]. destruct (Hr m Hmx) as [_ ->]. unfold count.
        replace (ticks l (e, a)) with 0%nat by lia. apply Z.mod_pos_bound. lia.
    + destruct (decide (0 < ticks l (e, a))%nat) as [Hp|Hp]; [|unfold count; by replace (ticks l (e, a)) with 0%nat by lia].
      destruct (Hat a Hp) as (x & Hx & He & _ & _). exfalso. assert (Hin : x ∈ sort_by count_desc ml)
        by (rewrite sort_by_perm; by apply Hml).
      destruct (sort_by count_desc ml); [set_solver|done].
  - destruct (head (sort_by count_desc ml)) as [m|] eqn:Eh; cbn; [right|by left].
    apply head_sorted_max in Eh as [Hmx _]. apply Hml in Hmx as [Hmx <-]. exists (tm_address m). by apply Hr.
Qed.
End properties.
