(* ===== verification/Meta.v ===== *)
(** * Settings that are written once

    src/src/db/entity/meta/ and src/src/network_type.rs: the key-value table
    with the mark that the genesis was applied and the network this node is
    on. Marking is a query followed by an insertion, without a transaction; the
    unique column is what makes it happen once. *)

From S2P Require Import Prelude Sql.
Open Scope Z_scope.
Open Scope stdpp_scope.

(** ** Networks *)

Inductive NetworkType := Test | Gray | Main | Future.
#[export] Instance network_eq_dec : EqDecision NetworkType.
Proof. solve_decision. Defined.

Definition network_as_str (n : NetworkType) : string :=
  match n with Test => "test" | Gray => "gray" | Main => "main" | Future => "future" end.
Definition network_is (n v : NetworkType) : bool := bool_decide (n = v).
Definition network_from_str (s : string) : result NetworkType :=
  if bool_decide (s = "test") then Ok Test
  else if bool_decide (s = "gray") then Ok Gray
  else if bool_decide (s = "main") then Ok Main
  else if bool_decide (s = "future") then Ok Future
  else Err ("unknown network state: " +:+ s).

(** ** Keys *)

Inductive MetaKey := GenesisApplied | KeyNetworkType.
#[export] Instance key_eq_dec : EqDecision MetaKey.
Proof. solve_decision. Defined.

Definition key_as_str (k : MetaKey) : string :=
  match k with GenesisApplied => "genesis_applied" | KeyNetworkType => "network_type" end.
Definition key_from_str (s : string) : result MetaKey :=
  if bool_decide (s = "genesis_applied") then Ok GenesisApplied else Err ("unknown meta key: " +:+ s).
Definition META_KEYS : list string := [key_as_str GenesisApplied].

(** ** The table *)

Record Model := mk_model {
  mm_id : Z;
  mm_key : string;
  mm_value : string;
}.
#[export] Instance meta_row : Row Model := {
  row_id := mm_id;
  row_conflict a b := bool_decide (mm_key a = mm_key b);
}.

Definition has_key (key : MetaKey) (m : Model) : bool := bool_decide (mm_key m = key_as_str key).

Section store.
Context {T : Type} `{!Sql T Model}.

Definition find_key (key : MetaKey) : state T (result (option Model)) := find_one (has_key key).
Definition insert_key (key : MetaKey) (value : string) : state T (result unit) :=
  _ ←? insert_row (fun id => mk_model id (key_as_str key) value); mret (Ok tt).

Definition set (key : MetaKey) (value : string) : state T (result unit) :=
  record ←? find_key key;
  match record with
  | Some existing => _ ←? update_row (mk_model (mm_id existing) (mm_key existing) value); mret (Ok tt)
  | None => insert_key key value
  end.

Definition get (key : MetaKey) : state T (result (option string)) :=
  record ←? find_key key; mret (Ok (mm_value <$> record)).

Definition exists_ (key : MetaKey) : state T (result bool) :=
  value ←? get key; mret (Ok (bool_decide (is_Some value))).

(** The query of [mark_genesis_applied] and [set_network], and what follows
    it when it answers. *)
Definition insert_if_absent (key : MetaKey) (value err : string) (record : option Model) : state T (result unit) :=
  match record with
  | Some _ => mret (Err err)
  | None => insert_key key value
  end.

Definition mark_genesis_applied : state T (result unit) :=
  record ←? find_key GenesisApplied;
  insert_if_absent GenesisApplied "true" "genesis already applied" record.

Definition set_network (network : NetworkType) : state T (result unit) :=
  record ←? find_key KeyNetworkType;
  insert_if_absent KeyNetworkType (network_as_str network) "network already set" record.

Definition get_network : state T (result NetworkType) :=
  record ←? find_key KeyNetworkType;
  mret (r ← ok_or "network not set" record; network_from_str (mm_value r)).
End store.

(** ** Properties *)

(** Every network has a text of its own that reads back as it. *)
Theorem network_round_trip n s :
  network_from_str (network_as_str n) = Ok n ∧ (network_from_str s = Ok n → s = network_as_str n).
Proof.
  split; [by destruct n|]. unfold network_from_str. repeat case_bool_decide; intros [= <-]; done.
Qed.

Lemma key_as_str_inj k k' : key_as_str k = key_as_str k' → k = k'.
Proof. by destruct k, k'. Qed.

(** ** Callers that race

    Between the query and the insertion other tasks run: a caller asks, then
    has its answer, then is finished; a schedule says who moves next. *)

Inductive caller := Asking | Answered (record : option Model) | Finished (r : result unit).

Section race.
Context {T : Type} `{!Sql T Model, !SqlLaws T Model}.
Variable (key : MetaKey) (value err : string).

Definition caller_step (c : caller) : state T caller :=
  match c with
  | Asking => r ← find_key key; mret match r with Ok o => Answered o | Err e => Finished (Err e) end
  | Answered record => r ← insert_if_absent key value err record; mret (Finished r)
  | Finished r => mret (Finished r)
  end.

Definition move (i : nat) (ct : list caller * T) : list caller * T :=
  match ct.1 !! i with
  | Some c => let '(c', t') := caller_step c ct.2 in (<[i := c']> ct.1, t')
  | None => ct
  end.
Definition race (schedule : list nat) (ct : list caller * T) : list caller * T :=
  foldl (fun ct i => move i ct) ct schedule.

Definition present (t : T) : Prop := ∃ m, m ∈ sql_rows t ∧ mm_key m = key_as_str key.
Definition succeeded (c : caller) : Prop := c = Finished (Ok tt).

(** At most one success, and the key is in the table if there is one. *)
Record once (ct : list caller * T) : Prop := {
  once_unique i j c d : ct.1 !! i = Some c → ct.1 !! j = Some d → succeeded c → succeeded d → i = j;
  once_present i c : ct.1 !! i = Some c → succeeded c → present ct.2;
}.

(** Who failed, or was told of a row, has seen the key. *)
Definition seen (c : caller) (t : T) : Prop :=
  match c with
  | Answered (Some _) | Finished (Err _) => present t
  | _ => True
  end.

Lemma run_insert_key r t t' :
  insert_key key value t = (r, t') →
  match r with
  | Ok _ => ¬ present t ∧ ∃ id, sql_rows t' = sql_rows t ++ [mk_model id (key_as_str key) value]
  | Err _ => t' = t
  end.
Proof.
  unfold insert_key. rewrite run_try_bind. destruct (insert_row _ t) as [[x|e] t1] eqn:E; cbn; intros [= <- <-];
    apply run_insert_row in E; try done.
  destruct E as (id & _ & E & Hc). split; [|by eauto]. intros (m & Hm & Ek). rewrite Forall_forall in Hc.
  specialize (Hc m Hm). unfold row_conflict in Hc. cbn in Hc. by rewrite bool_decide_true in Hc.
Qed.

Lemma present_snoc t t' m : present t → sql_rows t' = sql_rows t ++ [m] → present t'.
Proof. intros (x & Hx & E) Et. exists x. rewrite Et. set_solver. Qed.

Lemma run_caller_step c t c' t' :
  caller_step c t = (c', t') →
  (present t → present t') ∧
  (succeeded c' → succeeded c ∧ t' = t ∨ ¬ succeeded c ∧ ¬ present t ∧ present t') ∧
  (¬ succeeded c' → t' = t) ∧ (succeeded c → c' = c).
Proof.
  unfold succeeded. destruct c as [|o|r]; cbn.
  - unfold find_key. rewrite run_bind. destruct (find_one _ t) as [[o|e] t1] eqn:E; cbn; intros [= <- <-];
      apply run_find_one in E as [-> _]; naive_solver.
  - rewrite run_bind. destruct o as [m|]; cbn; [intros [= <- <-]; naive_solver|].
    destruct (insert_key key value t) as [r t1] eqn:E. intros [= <- <-]. apply run_insert_key in E.
    destruct r as [[]|e]; [|subst; naive_solver]. destruct E as [Hno [id E]]. split_and!; try done.
    intros _. right. split_and!; [done..|]. eexists. split; [rewrite E; apply elem_of_app; right; by apply list_elem_of_singleton|done].
  - intros [= <- <-]. naive_solver.
Qed.

Lemma move_once i ct : once ct → once (move i ct).
Proof.
  intros [Hu Hp]. unfold move. destruct (ct.1 !! i) as [c|] eqn:Ei; [|done].
  destruct (caller_step c ct.2) as [c' t'] eqn:E. apply run_caller_step in E as (Hmono & Hs & _ & _). split; cbn.
  - intros j k d d' Hj Hk Hd Hd'. apply list_lookup_insert_Some in Hj as [(<- & <- & _)|[Hij Hj]];
      apply list_lookup_insert_Some in Hk as [(<- & <- & _)|[Hik Hk]]; [done|..|by eapply Hu].
    + destruct (Hs Hd) as [[Hc _]|(_ & Hno & _)]; [by eapply Hu|]. destruct Hno. by eapply Hp.
    + destruct (Hs Hd') as [[Hc _]|(_ & Hno & _)]; [by eapply Hu|]. destruct Hno. by eapply Hp.
  - intros j d Hj Hd. apply list_lookup_insert_Some in Hj as [(<- & <- & _)|[Hij Hj]]; [|by eapply Hmono, Hp].
    destruct (Hs Hd) as [[Hc ->]|(_ & _ & Ht)]; [by eapply Hp|done].
Qed.

Lemma move_present i ct : present ct.2 → present (move i ct).2.
Proof.
  intros Hp. unfold move. destruct (ct.1 !! i) as [c|]; [|done].
  destruct (caller_step c ct.2) as [c' t'] eqn:E. apply run_caller_step in E as (Hmono & _). by apply Hmono.
Qed.

(** The key gets there by a success. *)
Lemma move_winner i ct :
  (present ct.2 → ∃ j c, ct.1 !! j = Some c ∧ succeeded c) →
  present (move i ct).2 → ∃ j c, (move i ct).1 !! j = Some c ∧ succeeded c.
Proof.
  intros Hw. unfold move. destruct (ct.1 !! i) as [c|] eqn:Ei; [|done].
  destruct (caller_step c ct.2) as [c' t'] eqn:E. apply run_caller_step in E as (_ & Hs & Hn & Hk). cbn. intros Hp.
  assert (Hlt : (i < length ct.1)%nat) by by eapply lookup_lt_Some.
  destruct c' as [|o|r]; [..|destruct r as [[]|]].
  3:{ exists i, (Finished (Ok tt)). split; [by apply list_lookup_insert_eq|done]. }
  all: rewrite Hn in Hp by done; destruct (Hw Hp) as (j & d & Hj & Hd); destruct (decide (i = j)) as [->|Hij];
    [simplify_eq; specialize (Hk Hd); by rewrite Hd in Hk|exists j, d; split; [by rewrite list_lookup_insert_ne|done]].
Qed.

Lemma step_seen `{!SqlReliable T Model} c t :
  seen c t → seen (caller_step c t).1 (caller_step c t).2.
Proof.
  destruct c as [|o|r]; cbn; [| |done].
  - intros _. rewrite run_bind. unfold find_key. destruct (find_one_total (has_key key) t) as (o & -> & Ho). cbn.
    destruct o as [m|]; [|done]. destruct Ho as [Hm Ho]. apply bool_decide_eq_true in Ho. by exists m.
  - intros Hs. rewrite run_bind. destruct o as [m|]; cbn; [done|].
    destruct (decide (Forall (fun m => mm_key m ≠ key_as_str key) (sql_rows t))) as [Hno|Hyes].
    + unfold insert_key. rewrite run_try_bind.
      destruct (insert_row_total (fun id => mk_model id (key_as_str key) value) t) as (id & t' & -> & _); [done| |done].
      intros id. eapply Forall_impl; [exact Hno|]. intros x Hx. by apply bool_decide_eq_false.
    + apply not_Forall_Exists, Exists_exists in Hyes as (m & Hm & Hk); [|apply _].
      assert (Hp : present t) by (exists m; split; [done|by destruct (decide (mm_key m = key_as_str key))]).
      destruct (insert_key key value t) as [[[]|e] t'] eqn:E; [done|]. apply run_insert_key in E. by subst.
Qed.

Lemma move_seen `{!SqlReliable T Model} i ct :
  (∀ j c, ct.1 !! j = Some c → seen c ct.2) → ∀ j c, (move i ct).1 !! j = Some c → seen c (move i ct).2.
Proof.
  intros Hs j d. pose proof (move_present i ct) as Hmono. unfold move in *.
  destruct (ct.1 !! i) as [c|] eqn:Ei; [|apply Hs].
  pose proof (step_seen c ct.2 (Hs i c Ei)) as Hstep. destruct (caller_step c ct.2) as [c' t']. cbn in *.
  intros [(_ & <- & _)|[_ Hj]]%list_lookup_insert_Some; [done|].
  specialize (Hs j d Hj). destruct d as [|[]|[]]; try done; by apply Hmono.
Qed.

Lemma move_lost i ct :
  present ct.2 → (∀ j c, ct.1 !! j = Some c → ¬ succeeded c) → ∀ j c, (move i ct).1 !! j = Some c → ¬ succeeded c.
Proof.
  intros Hp Hl j d. unfold move. destruct (ct.1 !! i) as [c|] eqn:Ei; [|apply Hl].
  destruct (caller_step c ct.2) as [c' t'] eqn:E. apply run_caller_step in E as (_ & Hs & _). cbn.
  intros [(_ & <- & _)|[_ Hj]]%list_lookup_insert_Some; [|by eapply Hl]. intros Hd.
  destruct (Hs Hd) as [[Hc _]|(_ & Hno & _)]; [by eapply Hl|done].
Qed.

Lemma move_length i ct : length (move i ct).1 = length ct.1.
Proof.
  unfold move. destruct (ct.1 !! i) as [c|]; [|done]. destruct (caller_step c ct.2). cbn. apply length_insert.
Qed.

Lemma race_ind (P : list caller * T → Prop) schedule ct :
  (∀ i ct, P ct → P (move i ct)) → P ct → P (race schedule ct).
Proof. intros Hstep. revert ct. induction schedule as [|i l IH]; intros ct H0; [done|]. by apply IH, Hstep. Qed.
End race.

(** C35. However many tasks mark the genesis, or set the network, at once, and
    however their queries and insertions interleave, at most one succeeds and
    then the key is in the table; none does if it was there; and with a
    reliable database exactly one has when all are through. *)
Theorem marked_once {T} `{!Sql T Model, !SqlLaws T Model} key value err n schedule t0 ct :
  race key value err schedule (replicate n Asking, t0) = ct →
  (∀ i j, ct.1 !! i = Some (Finished (Ok tt)) → ct.1 !! j = Some (Finished (Ok tt)) → i = j ∧ present key ct.2) ∧
  (present key t0 → ∀ i, ct.1 !! i ≠ Some (Finished (Ok tt))) ∧
  (SqlReliable T Model → (0 < n)%nat → ¬ present key t0 → (∀ i c, ct.1 !! i = Some c → ∃ r, c = Finished r) →
   ∃ i, ct.1 !! i = Some (Finished (Ok tt))).
Proof.
  intros <-. set (ct0 := (replicate n Asking, t0)).
  assert (H0 : ∀ i c, ct0.1 !! i = Some c → c = Asking) by (intros i c [-> _]%lookup_replicate; done).
  split_and!.
  - intros i j Hi Hj. assert (Ho : once key (race key value err schedule ct0)).
    { apply race_ind; [intros; by apply move_once|]. split; intros; by apply H0 in H; subst. }
    destruct Ho as [Hu Hp]. split; [by eapply Hu|by eapply Hp].
  - intros Hp i Hi.
    assert (Hr : present key (race key value err schedule ct0).2 ∧
                 ∀ j c, (race key value err schedule ct0).1 !! j = Some c → ¬ succeeded c).
    { apply (race_ind key value err (fun ct => present key ct.2 ∧ ∀ j c, ct.1 !! j = Some c → ¬ succeeded c)).
      - intros j ct [Hpc Hl]. split; [by apply move_present|by apply move_lost].
      - split; [done|]. intros j c Hj. apply H0 in Hj. by subst. }
    by apply (proj2 Hr i _ Hi).
  - intros Hrel Hn Habs Hfin.
    assert (Hr : (present key (race key value err schedule ct0).2 →
                    ∃ j c, (race key value err schedule ct0).1 !! j = Some c ∧ succeeded c) ∧
                 (∀ j c, (race key value err schedule ct0).1 !! j = Some c → seen key c (race key value err schedule ct0).2) ∧
                 length (race key value err schedule ct0).1 = n).
    { apply (race_ind key value err (fun ct => (present key ct.2 → ∃ j c, ct.1 !! j = Some c ∧ succeeded c) ∧
               (∀ j c, ct.1 !! j = Some c → seen key c ct.2) ∧ length ct.1 = n)).
      - intros j ct (Hw & Hs & Hl). split_and!; [by apply move_winner|by apply move_seen|by rewrite move_length].
      - split_and!; [done| |by apply length_replicate]. intros j c Hj. apply H0 in Hj. by subst. }
    destruct Hr as (Hw & Hs & Hl).
    destruct (lookup_lt_is_Some_2 (race key value err schedule ct0).1 0%nat) as [c Hc]; [lia|].
    destruct (Hfin _ _ Hc) as [[[]|e] ->]; [by exists 0%nat|]. specialize (Hs _ _ Hc).
    destruct (Hw Hs) as (j & d & Hj & ->). eauto.
Qed.

(** A caller that nobody disturbs is the whole function. *)
Lemma caller_alone {T} `{!Sql T Model} key value err (t : T) :
  race key value err [0; 0]%nat ([Asking], t) =
    (let '(r, t') := (record ←? find_key key; insert_if_absent key value err record) t in ([Finished r], t')).
Proof.
  unfold race, move. cbn. rewrite run_bind, run_try_bind. destruct (find_key key t) as [[o|e] t1]; cbn; [|done].
  rewrite run_bind. by destruct (insert_if_absent key value err o t1).
Qed.

(** ** The table as a map *)

Section map.
Context {T : Type} `{!Sql T Model, !SqlLaws T Model}.

Definition keys_unique (t : T) : Prop := NoDup (mm_key <$> sql_rows t).
Definition lookup (key : MetaKey) (t : T) : option string := mm_value <$> List.find (has_key key) (sql_rows t).

Lemma lookup_some key t m :
  keys_unique t → m ∈ sql_rows t → mm_key m = key_as_str key → lookup key t = Some (mm_value m).
Proof.
  unfold keys_unique, lookup. intros Hu Hm Hk. induction (sql_rows t) as [|x l IH]; [set_solver|].
  rewrite fmap_cons in Hu. apply NoDup_cons in Hu as [Hx Hu]. cbn. unfold has_key at 1. case_bool_decide as E.
  - apply elem_of_cons in Hm as [->|Hm]; [done|]. destruct Hx. rewrite E, <- Hk. by apply list_elem_of_fmap_2.
  - apply IH; [done|]. apply elem_of_cons in Hm as [->|Hm]; [done|done].
Qed.

Lemma lookup_none key t : (∀ m, m ∈ sql_rows t → mm_key m ≠ key_as_str key) → lookup key t = None.
Proof.
  unfold lookup. intros Hno. destruct (List.find _ _) as [m|] eqn:E; [|done].
  apply find_some in E as [Hm Hk]. apply bool_decide_eq_true in Hk. by destruct (Hno m); [apply list_elem_of_In|].
Qed.

Lemma lookup_iff key t v :
  keys_unique t → lookup key t = Some v ↔ ∃ m, m ∈ sql_rows t ∧ mm_key m = key_as_str key ∧ mm_value m = v.
Proof.
  intros Hu. split.
  - unfold lookup. destruct (List.find _ _) as [m|] eqn:E; [|done]. intros [= <-].
    apply find_some in E as [Hm Hk]. apply bool_decide_eq_true in Hk. exists m. by rewrite list_elem_of_In.
  - intros (m & Hm & Hk & <-). by apply lookup_some.
Qed.

Lemma run_find_key key t r t' :
  keys_unique t → find_key key t = (r, t') → t' = t ∧ ∀ o, r = Ok o →
  lookup key t = mm_value <$> o ∧ (∀ m, o = Some m → m ∈ sql_rows t ∧ mm_key m = key_as_str key).
Proof.
  intros Hu E. apply run_find_one in E as [-> E]. split; [done|]. intros [m|] ->.
  - destruct E as [Hm Hk]. apply bool_decide_eq_true in Hk. split; [by apply lookup_some|]. by intros ? [= <-].
  - split; [|done]. apply lookup_none. intros m Hm Hk. specialize (E m Hm). unfold has_key in E. by rewrite bool_decide_true in E.
Qed.

Lemma run_get_setting key t r t' : keys_unique t → get key t = (r, t') → t' = t ∧ ∀ o, r = Ok o → o = lookup key t.
Proof.
  intros Hu. unfold get. rewrite run_try_bind. destruct (find_key key t) as [[o|e] t1] eqn:E; cbn; intros [= <- <-];
    apply run_find_key in E as [-> E]; try done. split; [done|]. intros ? [= <-]. by destruct (E o eq_refl).
Qed.

Lemma insert_key_map key value t t' :
  keys_unique t → insert_key key value t = (Ok tt, t') →
  keys_unique t' ∧ ∀ k, lookup k t' = if decide (k = key) then Some value else lookup k t.
Proof.
  intros Hu E. apply run_insert_key in E as [Hno [id E]].
  assert (Hu' : keys_unique t').
  { unfold keys_unique. rewrite E, fmap_app. apply NoDup_app. split_and!; [done| |apply NoDup_singleton].
    intros k (m & -> & Hm)%list_elem_of_fmap Hk. apply Hno. exists m. split; [done|]. set_solver. }
  split; [done|]. intros k. case_decide as Ek.
  - subst k. apply lookup_iff; [done|]. eexists. rewrite E. split_and!; [apply elem_of_app; right; by apply list_elem_of_singleton|done..].
  - destruct (lookup k t) as [v|] eqn:El.
    + apply lookup_iff in El as (m & Hm & Hmk & <-); [|done]. apply lookup_iff; [done|]. exists m. rewrite E. set_solver.
    + apply lookup_none. rewrite E. intros m [Hm| ->%list_elem_of_singleton]%elem_of_app Hk.
      * assert (lookup k t = Some (mm_value m)) by by apply lookup_some. congruence.
      * cbn in Hk. apply Ek, key_as_str_inj. congruence.
Qed.

Lemma set_map key value t t' :
  keys_unique t → set key value t = (Ok tt, t') →
  keys_unique t' ∧ ∀ k, lookup k t' = if decide (k = key) then Some value else lookup k t.
Proof.
  intros Hu. unfold set. rewrite run_try_bind. destruct (find_key key t) as [[o|e] t1] eqn:E; [|done].
  apply run_find_key in E as [-> E]; [|done]. destruct (E o eq_refl) as [El Ho]. destruct o as [m|]; [|by apply insert_key_map].
  destruct (Ho m eq_refl) as [Hm Hk]. rewrite run_try_bind. set (r := mk_model _ _ _).
  destruct (update_row r t) as [[x|e] t2] eqn:Eu; cbn; intros [= <-]. apply run_update_row in Eu as [_ Eu].
  assert (Hu' : keys_unique t2).
  { unfold keys_unique. rewrite Eu. by rewrite (replace_row_fmap mm_key r m t Hm eq_refl eq_refl). }
  split; [done|]. intros k. case_decide as Ek.
  - subst k. apply lookup_iff; [done|]. exists r. rewrite Eu, (elem_of_replace_row r m t r Hm eq_refl). auto.
  - apply option_eq. intros v. rewrite !lookup_iff by done. apply exist_proper. intros y.
    rewrite Eu, (elem_of_replace_row r m t y Hm eq_refl). split.
    + intros ([->|[Hy _]] & Hky & Hv); [|done]. destruct Ek. apply key_as_str_inj. cbn in Hky. congruence.
    + intros (Hy & Hky & Hv). split; [right; split; [done|]|done]. intros ->. apply Ek, key_as_str_inj. congruence.
Qed.

(** Settings read back: writing one sets it and no other, in every order of
    rows the database may answer in; and a network that was set stays, and is
    what is read - setting it again answers that it is set. *)
Theorem settings_read_back key value network t t' :
  keys_unique t →
  (set key value t = (Ok tt, t') →
   keys_unique t' ∧ ∀ k r t2, get k t' = (r, t2) →
     t2 = t' ∧ ∀ o, r = Ok o → o = if decide (k = key) then Some value else lookup k t) ∧
  (set_network network t = (Ok tt, t') →
   keys_unique t' ∧ lookup KeyNetworkType t = None ∧
   (∀ r t2, get_network t' = (r, t2) → t2 = t' ∧ (r = Ok network ∨ is_ok (find_key KeyNetworkType t').1 = false)) ∧
   (∀ other r t2, set_network other t' = (r, t2) → t2 = t' ∧ is_ok r = false)).
Proof.
  intros Hu. split.
  - intros E. destruct (set_map _ _ _ _ Hu E) as [Hu' Hl]. split; [done|]. intros k r t2 Hg.
    apply run_get_setting in Hg as [-> Hg]; [|done]. split; [done|]. intros o Ho. rewrite <- Hl. by apply Hg.
  - unfold set_network at 1. rewrite run_try_bind. destruct (find_key _ t) as [[o|e] t1] eqn:E; [|done].
    apply run_find_key in E as [-> E]; [|done]. destruct (E o eq_refl) as [El _]. destruct o as [m|]; [done|]. cbn.
    intros Ei. destruct (insert_key_map _ _ _ _ Hu Ei) as [Hu' Hl].
    specialize (Hl KeyNetworkType). rewrite decide_True in Hl by done. split_and!; [done|done| |].
    + intros r t2. unfold get_network. rewrite run_try_bind.
      destruct (find_key _ t') as [[o|e] t3] eqn:Ef; cbn; intros [= <- <-];
        apply run_find_key in Ef as [-> Ef]; try done; [|by auto]. split; [done|left].
      destruct (Ef o eq_refl) as [Eo _]. rewrite Hl in Eo. destruct o as [m|]; [|done]. injection Eo as Eo. cbn.
      rewrite <- Eo. by destruct network.
    + intros other r t2. unfold set_network. rewrite run_try_bind.
      destruct (find_key _ t') as [[o|e] t3] eqn:Ef; cbn; intros Er;
        apply run_find_key in Ef as [-> Ef]; try done; [|by injection Er as <- <-].
      destruct (Ef o eq_refl) as [Eo _]. rewrite Hl in Eo. destruct o as [m|]; [|done]. by injection Er as <- <-.
Qed.
End map.
