(* ===== verification/PublicServer.v ===== *)
(** * Public servers

    src/src/db/entity/public_server/: the servers a node knows of, one row for
    an address and port, with when each came online. *)

From S2P Require Import Prelude External Sql.
Open Scope Z_scope.
Open Scope stdpp_scope.

Record Model := mk_model {
  ps_id : Z;
  ps_address : string;
  ps_port : Z;
  ps_historical_addresses : option string;
  ps_protocol : string;
  ps_is_active : bool;
  ps_last_seen : Z;
  ps_created_at : Z;
}.
#[export] Instance server_row : Row Model := { row_id := ps_id; row_conflict _ _ := false }.

Definition at_endpoint (address : string) (port : Z) (m : Model) : bool :=
  bool_decide (ps_address m = address) && bool_decide (ps_port m = port).
Definition has_id (id : Z) (m : Model) : bool := bool_decide (ps_id m = id).
Definition seen_desc (a b : Model) : bool := ps_last_seen b <=? ps_last_seen a.

(** The columns [upsert], [update_with_historical] and [mark_inactive] set. *)
Definition with_active (active : bool) (last_seen : Z) (m : Model) : Model :=
  mk_model (ps_id m) (ps_address m) (ps_port m) (ps_historical_addresses m) (ps_protocol m) active last_seen (ps_created_at m).
Definition with_historical (h : option string) (m : Model) : Model :=
  mk_model (ps_id m) (ps_address m) (ps_port m) h (ps_protocol m) (ps_is_active m) (ps_last_seen m) (ps_created_at m).
(** [Result::ok] *)
Definition ok_opt {A} (r : result A) : option A := match r with Ok a => Some a | Err _ => None end.

Section store.
Context {T : Type} `{!Sql T Model, JsonStrings}.

Definition get_all : state T (result (list Model)) := find_sorted seen_desc (fun _ => true).
Definition get_active : state T (result (list Model)) := find_sorted seen_desc ps_is_active.

Definition upsert (now : Z) (address : string) (port : Z) (protocol : string) : state T (result Model) :=
  existing ←? find_one (at_endpoint address port);
  match existing with
  | Some record => update_row (with_active true (if negb (ps_is_active record) then now else ps_last_seen record) record)
  | None => insert_row (fun id => mk_model id address port (ok_opt (json_strings [])) protocol true now now)
  end.

Definition update_with_historical (now : Z) (address : string) (port : Z) (protocol : string)
    (historical : list string) : state T (result Model) :=
  let historical_json := ok_opt (json_strings historical) in
  existing ←? find_one (at_endpoint address port);
  match existing with
  | Some record => update_row (with_historical historical_json (with_active true now record))
  | None => insert_row (fun id => mk_model id address port historical_json protocol true now now)
  end.

Definition mark_inactive (id : Z) : state T (result unit) :=
  _ ←? update_found (has_id id) "Public server not found" (fun m => with_active false (ps_last_seen m) m);
  mret (Ok tt).

Definition remove (id : Z) : state T (result unit) :=
  record ←? find_one (has_id id);
  match record with
  | Some r => delete_rows (has_id (ps_id r))
  | None => mret (Err "Public server not found")
  end.
End store.

(** ** Properties *)

Definition endpoint (m : Model) : string * Z := (ps_address m, ps_port m).

Lemma server_endpoint_spec a p m : at_endpoint a p m = true ↔ endpoint m = (a, p).
Proof. unfold at_endpoint, endpoint. rewrite andb_true_iff, !bool_decide_eq_true. naive_solver. Qed.

Section properties.
Context {T : Type} `{!Sql T Model, !SqlLaws T Model, JsonStrings}.

Definition endpoints_unique (t : T) : Prop := NoDup (endpoint <$> sql_rows t).

(** Reporting a server online keeps one row for every endpoint, marks that row
    active and touches no other; the time it was last seen is moved only when
    it was not active before, so it is the time the server came online; and
    an error changes nothing. *)
Theorem upsert_tracks_online now a p protocol t r t' :
  endpoints_unique t → upsert now a p protocol t = (r, t') →
  endpoints_unique t' ∧
  match r with
  | Ok m =>
      m ∈ sql_rows t' ∧ endpoint m = (a, p) ∧ ps_is_active m = true ∧
      (∀ x, endpoint x ≠ (a, p) → x ∈ sql_rows t' ↔ x ∈ sql_rows t) ∧
      (∀ x, x ∈ sql_rows t → endpoint x = (a, p) →
         ps_last_seen m = if ps_is_active x then ps_last_seen x else now) ∧
      ((∀ x, x ∈ sql_rows t → endpoint x ≠ (a, p)) → ps_last_seen m = now ∧ ps_created_at m = now)
  | Err _ => t' = t
  end.
Proof.
  intros Hu E. apply (run_upsert endpoint _ _ _ (a, p)) in E; [|apply server_endpoint_spec|done|done].
  destruct r as [m|e]; [|by subst]. destruct E as [E Hu']. split; [by apply Hu'|].
  destruct E as [(x & Hx & He & -> & E)|(Hno & id & -> & E)].
  - set (r := with_active _ _ _) in *.
    destruct (upsert_others endpoint (a, p) t r x t') as [Hin Hot]; [done|by left|].
    split_and!; [done..| |].
    + intros y Hy Hey. rewrite (nodup_key endpoint _ y x Hu Hy Hx) by congruence. cbn. by destruct (ps_is_active x).
    + intros Hn. by destruct (Hn x Hx).
  - set (r := mk_model _ _ _ _ _ _ _ _) in *.
    destruct (upsert_others endpoint (a, p) t r r t') as [Hin Hot]; [done|by right|].
    split_and!; [done..| |done]. intros y Hy Hey. destruct Hno. rewrite <- Hey. by apply list_elem_of_fmap_2.
Qed.

(** Going offline keeps the row with the time it was seen; removing takes out
    that row alone; and either refuses an unknown key. *)
Theorem offline_and_removal id t :
  (∀ t', mark_inactive id t = (Ok tt, t') → ∃ x, x ∈ sql_rows t ∧ ps_id x = id ∧
     ∀ m, m ∈ sql_rows t' ↔ m = with_active false (ps_last_seen x) x ∨ (m ∈ sql_rows t ∧ m ≠ x)) ∧
  (∀ t', remove id t = (Ok tt, t') → ∃ x, x ∈ sql_rows t ∧ ps_id x = id ∧
     ∀ m, m ∈ sql_rows t' ↔ m ∈ sql_rows t ∧ m ≠ x) ∧
  ((∀ x, x ∈ sql_rows t → ps_id x ≠ id) →
     is_ok (mark_inactive id t).1 = false ∧ is_ok (remove id t).1 = false).
Proof.
  assert (Hid : ∀ x y, x ∈ sql_rows t → y ∈ sql_rows t → ps_id x = ps_id y → x = y) by (intros; by apply (rows_same_id t)).
  split_and!.
  - intros t'. unfold mark_inactive. rewrite run_try_bind. destruct (update_found _ _ _ t) as [[y|e] t1] eqn:E; intros [= <-].
    apply run_update_found in E as (x & Hx & Hp & _ & E). apply bool_decide_eq_true in Hp. exists x. split_and!; [done..|].
    intros m. rewrite E. by apply elem_of_replace_row.
  - intros t'. unfold remove. rewrite run_try_bind. destruct (find_one _ t) as [[[x|]|e] t1] eqn:E; try done.
    apply run_find_one in E as [-> [Hx Hp]]. apply bool_decide_eq_true in Hp. intros E. apply run_delete_rows in E.
    exists x. split_and!; [done..|]. intros m. rewrite E, elem_of_filter_b. unfold has_id.
    split; intros [Hm Hd]; (split; [done|]).
    + intros ->. by rewrite bool_decide_true in Hd.
    + rewrite bool_decide_false; [done|]. intros Hmx. by apply Hd, Hid.
  - intros Hno. assert (Hf : ∀ o t1, find_one (has_id id) t = (Ok (Some o), t1) → False).
    { intros x t1 E. apply run_find_one in E as [_ [Hx Hp]]. apply bool_decide_eq_true in Hp. by apply (Hno x). }
    split.
    + unfold mark_inactive, update_found. rewrite !run_try_bind.
      destruct (find_one (has_id id) t) as [[[x|]|e] t1]; [by edestruct Hf|done|done].
    + unfold remove. rewrite run_try_bind. destruct (find_one (has_id id) t) as [[[x|]|e] t1]; [by edestruct Hf|done|done].
Qed.
End properties.
