(* ===== verification/Float.v ===== *)
(** * Double precision

    The [f64] of the sources: the [spec_float]s of the Standard Library with 53
    bits, their arithmetic, and [str::parse::<f64>] and [format!("{:.2}")] of
    Rust's core library, both of which round correctly. *)

From S2P Require Import Prelude.
From Stdlib Require Import Ascii SpecFloat.
Open Scope Z_scope.
Open Scope stdpp_scope.

Definition f64 : Type := spec_float.
(** [n as f64] *)
Definition f64_of (n : Z) : f64 := binary_normalize 53 1024 n 0 false.
Definition f64_add (a b : f64) : f64 := SFadd 53 1024 a b.
Definition f64_mul (a b : f64) : f64 := SFmul 53 1024 a b.
Definition f64_div (a b : f64) : f64 := SFdiv 53 1024 a b.
(** [a.max(b)]: of a number and a NaN the number *)
Definition f64_max (a b : f64) : f64 :=
  match a, b with
  | S754_nan, _ => b
  | _, S754_nan => a
  | _, _ => if SFltb a b then b else a
  end.

(** The double next to [m * 10 ^ x], of a sign. *)
Definition f64_of_decimal (negative : bool) (m x : Z) : f64 :=
  match m with
  | Z.pos p =>
      if 0 <=? x then binary_round 53 1024 negative (p * Z.to_pos (10 ^ x)) 0
      else f64_div (S754_finite negative p 0) (S754_finite false (Z.to_pos (10 ^ (- x))) 0)
  | _ => S754_zero negative
  end.

(** ** [str::parse::<f64>] *)

Definition take_sign (s : string) : bool * string :=
  match s with
  | String "-" s' => (true, s')
  | String "+" s' => (false, s')
  | _ => (false, s)
  end.
(** What may follow the digits: an exponent, or nothing. *)
Definition parse_exponent (s : string) : option Z :=
  match s with
  | EmptyString => Some 0
  | String c s' =>
      if bool_decide (c = "e"%char ∨ c = "E"%char) then
        let '(negative, ds) := take_sign s' in
        n ← parse_digits_all ds; Some (if negative then - n else n)
      else None
  end.
Definition parse_decimal (negative : bool) (s : string) : option f64 :=
  let '(whole, s1) := span_digits 10 s in
  let '(part, s2) := match s1 with String "." s' => span_digits 10 s' | _ => ([], s1) end in
  match whole ++ part with
  | [] => None
  | ds => x ← parse_exponent s2;
          Some (f64_of_decimal negative (of_digits 10 0 ds) (x - Z.of_nat (length part)))
  end.
Definition lower_char (c : ascii) : ascii :=
  let n := Z.of_nat (nat_of_ascii c) in
  if (65 <=? n) && (n <=? 90) then ascii_of_nat (Z.to_nat (n + 32)) else c.
Fixpoint lower (s : string) : string :=
  match s with EmptyString => "" | String c s' => String (lower_char c) (lower s') end.
Definition parse_f64 (s : string) : option f64 :=
  let '(negative, body) := take_sign s in
  match parse_decimal negative body with
  | Some v => Some v
  | None =>
      if bool_decide (lower body = "nan") then Some S754_nan
      else if bool_decide (lower body = "inf" ∨ lower body = "infinity") then Some (S754_infinity negative)
      else None
  end.

(** ** [format!("{:.2}", v)] *)

(** [n / d], rounded to the nearest, a tie to the even one *)
Definition div_nearest_even (n d : Z) : Z :=
  match 2 * (n mod d) ?= d with
  | Lt => n / d
  | Gt => n / d + 1
  | Eq => if Z.even (n / d) then n / d else n / d + 1
  end.
Definition hundredths (m : positive) (e : Z) : Z :=
  if 0 <=? e then 100 * Z.pos m * 2 ^ e else div_nearest_even (100 * Z.pos m) (2 ^ (- e)).
Definition show_hundredths (h : Z) : string :=
  show_u (h / 100) +:+ "." +:+ show_digits [(h / 10) mod 10; h mod 10].
Definition sign_text (negative : bool) : string := if negative then "-" else "".
Definition show_f64_2 (v : f64) : string :=
  match v with
  | S754_zero s => sign_text s +:+ show_hundredths 0
  | S754_infinity s => sign_text s +:+ "inf"
  | S754_nan => "NaN"
  | S754_finite s m e => sign_text s +:+ show_hundredths (hundredths m e)
  end.

Example parse_examples :
  (fun s => show_f64_2 <$> parse_f64 s) <$> ["16384.5"; "-.125"; "1e3"; "2.5E-1"; "iNF"; "5."; "1e400"; "4.9e-324"; "-0"] =
  (Some <$> ["16384.50"; "-0.12"; "1000.00"; "0.25"; "inf"; "5.00"; "inf"; "0.00"; "-0.00"]) ∧
  parse_f64 <$> [""; "."; "1e"; "1T"; " 1"; "0x1"; "+-1"] = replicate 7 None ∧
  parse_f64 "0.1" = Some (S754_finite false 7205759403792794 (-56)).
Proof. split_and!; vm_compute; reflexivity. Qed.

(** ** Laws *)

Lemma div_nearest_even_spec n d : 0 < d → 2 * Z.abs (div_nearest_even n d * d - n) ≤ d.
Proof.
  intros Hd. pose proof (Z.div_mod n d ltac:(lia)) as E. pose proof (Z.mod_pos_bound n d Hd). unfold div_nearest_even.
  destruct (Z.compare_spec (2 * (n mod d)) d); [destruct (Z.even (n / d))|..]; nia.
Qed.

(** What is shown is within half a hundredth. *)
Lemma hundredths_spec m e :
  0 ≤ hundredths m e ∧
  (0 ≤ e → hundredths m e = 100 * (Z.pos m * 2 ^ e)) ∧
  (e < 0 → 2 * Z.abs (hundredths m e * 2 ^ (- e) - 100 * Z.pos m) ≤ 2 ^ (- e)).
Proof.
  unfold hundredths. destruct (Z.leb_spec 0 e).
  - pose proof (Z.pow_nonneg 2 e). split_and!; nia.
  - assert (Hd : 0 < 2 ^ (- e)) by (apply Z.pow_pos_nonneg; lia).
    pose proof (div_nearest_even_spec (100 * Z.pos m) (2 ^ (- e)) Hd) as Hb. split_and!; [|lia|done].
    destruct (Z.le_gt_cases 0 (div_nearest_even (100 * Z.pos m) (2 ^ (- e)))); [done|nia].
Qed.


Lemma take_sign_show n : 0 ≤ n → take_sign (show_u n) = (false, show_u n).
Proof.
  intros Hn. destruct (show_head n Hn) as (d & s & Hd & ->).
  assert (Hc : d ∈ Z.of_nat <$> seq 0 10) by (apply list_elem_of_fmap; exists (Z.to_nat d); rewrite elem_of_seq; split; lia).
  cbn in Hc. repeat (apply elem_of_cons in Hc as [->|Hc]; [reflexivity|]). set_solver.
Qed.

(** The text of a whole number is read as the double next to it. *)
Lemma parse_f64_show_u n : 0 ≤ n → parse_f64 (show_u n) = Some (f64_of n).
Proof.
  intros Hn. unfold parse_f64. rewrite take_sign_show by done. unfold parse_decimal, show_u.
  destruct (digits_spec 10 ltac:(lia) n Hn) as (Hv & _ & d & ds & E & _).
  pose proof (span_show 10 n "" ltac:(auto) Hn I) as Es. rewrite string_app_nil_r in Es. rewrite E in *. rewrite Es.
  rewrite app_nil_r, Hv. cbn [parse_exponent mbind option_bind length Z.of_nat]. change (0 - 0) with 0.
  unfold f64_of_decimal, f64_of, binary_normalize. destruct n as [|p|p]; [done| |lia]. cbn [Z.leb Z.compare Z.pow].
  change (Z.to_pos 1) with 1%positive. by rewrite Pos.mul_1_r.
Qed.

Lemma pos_compare_eq_sym m n : Pos.compare_cont Eq m n = CompOpp (Pos.compare_cont Eq n m).
Proof. change ((m ?= n)%positive = CompOpp (n ?= m)%positive). by rewrite Pos.compare_antisym. Qed.

Lemma SFleb_of_not_lt a b : a ≠ S754_nan → b ≠ S754_nan → SFltb a b = false → SFleb b a = true.
Proof.
  unfold SFltb, SFleb. destruct a as [sa|sa| |sa ma ea], b as [sb|sb| |sb mb eb]; try done;
    cbn [SFcompare]; try destruct sa; try destruct sb; try done; intros _ _;
    rewrite (Z.compare_antisym ea eb), (pos_compare_eq_sym ma mb);
    destruct (ea ?= eb); try done; by destruct (Pos.compare_cont Eq mb ma).
Qed.

Lemma SFleb_refl a : a ≠ S754_nan → SFleb a a = true.
Proof.
  intros Ha. apply SFleb_of_not_lt; [done|done|]. unfold SFltb.
  destruct a as [s|s| |s m e]; try done; cbn [SFcompare]; destruct s; try done;
    rewrite Z.compare_refl; change (Pos.compare_cont Eq m m) with (m ?= m)%positive; by rewrite Pos.compare_refl.
Qed.

(** The maximum is no less than either, unless that is no number. *)
Lemma f64_max_above a b : b ≠ S754_nan → SFleb b (f64_max a b) = true.
Proof.
  intros Hb. unfold f64_max.
  assert (Hs : a ≠ S754_nan → SFleb b (if SFltb a b then b else a) = true).
  { intros Ha. destruct (SFltb a b) eqn:E; [by apply SFleb_refl|by apply SFleb_of_not_lt]. }
  destruct a; try (destruct b; try done; by apply Hs). by apply SFleb_refl.
Qed.
