(* ===== verification/WitnessTable.v ===== *)
(** * The witness table

    src/src/db/entity/witness/store.rs: one row per witness address. *)

From S2P Require Import Prelude Sql.
Open Scope Z_scope.
Open Scope stdpp_scope.

Record Model := mk_model {
  wm_id : Z;
  wm_node_id : Z;
  wm_address : string;
  wm_online_seconds : Z;
  wm_weight : Z;
  wm_status : string;
  wm_last_tick_ts : Z;
  wm_resources : option string;
  wm_is_public_ip : bool;
}.
#[export] Instance witness_row : Row Model := { row_id := wm_id; row_conflict _ _ := false }.

Definition of_address (a : string) (m : Model) : bool := bool_decide (wm_address m = a).

Section store.
Context {T : Type} `{!Sql T Model}.

Definition get_by_address (address : string) : state T (result (option Model)) := find_one (of_address address).

Definition upsert (now node_id : Z) (address : string) (online_seconds weight : Z) (resources : option string)
    (is_public_ip : bool) : state T (result Model) :=
  record ←? get_by_address address;
  match record with
  | Some existing =>
      update_row (mk_model (wm_id existing) (wm_node_id existing) (wm_address existing) online_seconds weight
                    (wm_status existing) now resources is_public_ip)
  | None => insert_row (fun id => mk_model id node_id address online_seconds weight "Active" now resources is_public_ip)
  end.

Definition update_online_seconds (now : Z) (address : string) (seconds : Z) : state T (result unit) :=
  _ ←? update_found (of_address address) "Witness not found"
         (fun m => mk_model (wm_id m) (wm_node_id m) (wm_address m) seconds (wm_weight m) (wm_status m) now
                     (wm_resources m) (wm_is_public_ip m));
  mret (Ok tt).

Definition get_active_witnesses : state T (result (list Model)) :=
  find_all (fun m => bool_decide (wm_status m = "Active")).
Definition get_all : state T (result (list Model)) := find_all (fun _ => true).
End store.

(** ** Properties *)

Lemma of_address_spec a m : of_address a m = true ↔ wm_address m = a.
Proof. apply bool_decide_eq_true. Qed.

Section properties.
Context {T : Type} `{!Sql T Model, !SqlLaws T Model}.

Definition addresses_unique (t : T) : Prop := NoDup (wm_address <$> sql_rows t).

(** A witness that is reported has exactly one row, with what was reported; a
    known one keeps its node and its status - one that is not active does not
    become active - and no other witness is touched. *)
Theorem witness_upsert now node_id a online weight resources public t r t' :
  addresses_unique t → upsert now node_id a online weight resources public t = (r, t') →
  addresses_unique t' ∧
  match r with
  | Ok m =>
      m ∈ sql_rows t' ∧ wm_address m = a ∧ wm_online_seconds m = online ∧ wm_weight m = weight ∧
      wm_resources m = resources ∧ wm_is_public_ip m = public ∧ wm_last_tick_ts m = now ∧
      (∀ x, wm_address x ≠ a → x ∈ sql_rows t' ↔ x ∈ sql_rows t) ∧
      (∀ x, x ∈ sql_rows t → wm_address x = a → wm_node_id m = wm_node_id x ∧ wm_status m = wm_status x) ∧
      ((∀ x, x ∈ sql_rows t → wm_address x ≠ a) → wm_node_id m = node_id ∧ wm_status m = "Active")
  | Err _ => t' = t
  end.
Proof.
  intros Hu E. apply (run_upsert wm_address _ _ _ a) in E; [|apply of_address_spec|done|done].
  destruct r as [m|e]; [|by subst]. destruct E as [E Hu']. split; [by apply Hu'|].
  destruct E as [(x & Hx & He & -> & E)|(Hno & id & -> & E)]; set (r := mk_model _ _ _ _ _ _ _ _ _) in *.
  - destruct (upsert_others wm_address a t r x t') as [Hin Hot]; [done|by left|].
    split_and!; [done..| |].
    + intros y Hy Hey. by rewrite (nodup_key wm_address _ y x Hu Hy Hx) by congruence.
    + intros Hn. by destruct (Hn x Hx).
  - destruct (upsert_others wm_address a t r r t') as [Hin Hot]; [done|by right|].
    split_and!; [done..| |done]. intros y Hy Hey. destruct Hno. rewrite <- Hey. by apply list_elem_of_fmap_2.
Qed.
End properties.
