(* ===== verification/WitnessSeed.v ===== *)
(** * The seeds witnesses were seen at

    src/src/db/entity/witness_seed/: one row for an address and port, with how
    often it was seen and a rate in double precision. *)

From S2P Require Import Prelude Sql Float.
From Stdlib Require Import SpecFloat.
Open Scope Z_scope.
Open Scope stdpp_scope.

Record Model := mk_model {
  sm_id : Z;
  sm_ip : string;
  sm_port : Z;
  sm_node_id : string;
  sm_added_at : Z;
  sm_last_seen : Z;
  sm_is_active : bool;
  sm_success_count : Z;
  sm_failure_count : Z;
  sm_online_days : Z;
  sm_offline_days : Z;
  sm_online_rate : f64;
  sm_is_connectable : bool;
  sm_inactive_days : Z;
  sm_is_intranet : bool;
  sm_metadata : string;
}.
#[export] Instance seed_row : Row Model := { row_id := sm_id; row_conflict _ _ := false }.

Definition at_endpoint (ip : string) (port : Z) (m : Model) : bool :=
  bool_decide (sm_ip m = ip) && bool_decide (sm_port m = port).
Definition added_asc (a b : Model) : bool := sm_added_at a <=? sm_added_at b.

(** The row of a seed that is seen again. *)
Definition seen_again (now : Z) (e : Model) : Model :=
  mk_model (sm_id e) (sm_ip e) (sm_port e) (sm_node_id e) (sm_added_at e)
    (if negb (sm_is_active e) then now else sm_last_seen e) true
    (wrap_i 32 (sm_success_count e + 1)) (sm_failure_count e)
    (wrap_i 64 (sm_online_days e + 1)) (sm_offline_days e)
    (f64_div (f64_of (wrap_i 64 (sm_online_days e + 1))) (f64_of (wrap_i 64 (sm_online_days e + sm_offline_days e))))
    (sm_is_connectable e) (sm_inactive_days e) (sm_is_intranet e) (sm_metadata e).
(** The row of a new one. *)
Definition seen_first (now : Z) (ip : string) (port : Z) (node_id : string) (is_intranet : bool) (id : Z) : Model :=
  mk_model id ip port node_id now now true 1 0 1 0 (f64_of 1) true 0 is_intranet "{}".

Section store.
Context {T : Type} `{!Sql T Model}.

Definition find_by_ip_port (ip : string) (port : Z) : state T (result (option Model)) := find_one (at_endpoint ip port).

Definition upsert (now : Z) (ip : string) (port : Z) (node_id : string) (is_intranet : bool) : state T (result unit) :=
  _ ←? (existing ←? find_by_ip_port ip port;
        match existing with
        | Some existing => update_row (seen_again now existing)
        | None => insert_row (seen_first now ip port node_id is_intranet)
        end);
  mret (Ok tt).

Definition get_active_seeds : state T (result (list Model)) := find_sorted added_asc sm_is_active.
Definition clear_all : state T (result unit) := delete_rows (fun _ => true).
Definition reset : state T (result unit) := delete_rows (fun _ => true).
End store.

(** ** Properties *)

Definition endpoint (m : Model) : string * Z := (sm_ip m, sm_port m).

Lemma seed_endpoint_spec a p m : at_endpoint a p m = true ↔ endpoint m = (a, p).
Proof. unfold at_endpoint, endpoint. rewrite andb_true_iff, !bool_decide_eq_true. naive_solver. Qed.

(** A row that was seen [n] times and never offline. *)
Definition seen_times (n : nat) (m : Model) : Prop :=
  sm_is_active m = true ∧ sm_online_days m = Z.of_nat n ∧ sm_success_count m = wrap_i 32 (Z.of_nat n) ∧
  sm_offline_days m = 0 ∧ sm_failure_count m = 0 ∧
  sm_online_rate m = if decide (n = 1%nat) then f64_of 1 else f64_div (f64_of (Z.of_nat n)) (f64_of (Z.of_nat n - 1)).

Section properties.
Context {T : Type} `{!Sql T Model, !SqlLaws T Model}.

(** Sightings, some of which may fail, and how many of a row's endpoint do not. *)
Record sighting := mk_sighting { sg_now : Z; sg_ip : string; sg_port : Z; sg_node : string; sg_intranet : bool }.
Definition sight_all (l : list sighting) : state T unit :=
  for_each l (fun s => upsert (sg_now s) (sg_ip s) (sg_port s) (sg_node s) (sg_intranet s) ;; mret tt).

Record sighted (n : nat) (t : T) : Prop := {
  sighted_unique : NoDup (endpoint <$> sql_rows t);
  sighted_rows m : m ∈ sql_rows t → ∃ k, (1 ≤ k ≤ n)%nat ∧ seen_times k m;
}.

Lemma seen_again_times now n m :
  (1 ≤ n)%nat → Z.of_nat n < 2 ^ 63 - 1 → seen_times n m → seen_times (S n) (seen_again now m).
Proof.
  intros Hn Hb (Ha & Hd & Hs & Ho & Hf & Hr). unfold seen_times, seen_again. cbn [sm_is_active sm_online_days
    sm_success_count sm_offline_days sm_failure_count sm_online_rate].
  rewrite Hd, Hs, Ho, !Z.add_0_r, wrap_i_add. rewrite !wrap_i_small by (unfold in_i; lia).
  rewrite decide_False by lia. replace (Z.of_nat (S n)) with (Z.of_nat n + 1) by lia.
  split_and!; try done.
  replace (Z.of_nat n + 1 - 1) with (Z.of_nat n) by lia. by rewrite (wrap_i_small 64 (Z.of_nat n)) by (unfold in_i; lia).
Qed.

Lemma run_upsert_sighted now ip port node intranet n t r t' :
  sighted n t → Z.of_nat n < 2 ^ 63 - 1 → upsert now ip port node intranet t = (r, t') → sighted (S n) t'.
Proof.
  intros [Hu Hr] Hb. unfold upsert. rewrite run_try_bind.
  destruct ((existing ←? find_by_ip_port ip port;
        match existing with
        | Some existing => update_row (seen_again now existing)
        | None => insert_row (seen_first now ip port node intranet)
        end) t) as [o t1] eqn:E.
  apply (run_upsert endpoint _ _ _ (ip, port)) in E; [|apply seed_endpoint_spec|done|done].
  destruct o as [m|e]; cbn; intros [= <- <-].
  - destruct E as [E Hu']. split; [by apply Hu'|]. intros y Hy.
    destruct E as [(x & Hx & He & -> & E)|(Hno & id & -> & E)]; rewrite E in Hy.
    + apply (elem_of_replace_row _ x) in Hy as [->|[Hy _]]; [| |done..].
      * destruct (Hr x Hx) as (k & Hk & Hs). exists (S k). split; [lia|]. apply seen_again_times; [lia..|done].
      * destruct (Hr y Hy) as (k & Hk & Hs). exists k. split; [lia|done].
    + apply elem_of_app in Hy as [Hy| ->%list_elem_of_singleton].
      * destruct (Hr y Hy) as (k & Hk & Hs). exists k. split; [lia|done].
      * exists 1%nat. split; [lia|done].
  - subst. split; [done|]. intros y Hy. destruct (Hr y Hy) as (k & Hk & Hs). exists k. split; [lia|done].
Qed.

Lemma sight_all_sighted l n t :
  sighted n t → Z.of_nat (n + length l) < 2 ^ 63 → sighted (n + length l) (exec (sight_all l) t).
Proof.
  revert n t. induction l as [|s l IH]; intros n t Hs Hb; cbn [length] in *.
  - by rewrite Nat.add_0_r.
  - unfold sight_all. cbn [for_each]. rewrite !exec_bind. change (exec (mret tt) ?s) with s.
    destruct (upsert (sg_now s) (sg_ip s) (sg_port s) (sg_node s) (sg_intranet s) t) as [r t'] eqn:E.
    unfold exec at 2. rewrite E. cbn [snd]. apply (run_upsert_sighted _ _ _ _ _ n) in E; [|done|lia].
    replace (n + S (length l))%nat with (S n + length l)%nat in * by lia. by apply IH.
Qed.

(** Seeds only ever come online: after any sightings there is one row for an
    endpoint, active, with no offline day and as many online days as it was
    seen; so the rate - online days, the new one counted, over the days before -
    is never a share of the days: at the second sighting it is 2. *)
Theorem online_rate_spec l t :
  sql_rows t = [] → Z.of_nat (length l) < 2 ^ 63 →
  let t' := exec (sight_all l) t in
  NoDup (endpoint <$> sql_rows t') ∧
  ∀ m, m ∈ sql_rows t' → ∃ k, (1 ≤ k ≤ length l)%nat ∧ seen_times k m ∧
    (k = 2%nat → SFcompare (sm_online_rate m) (f64_of 2) = Some Eq ∧ SFltb (f64_of 1) (sm_online_rate m) = true).
Proof.
  intros H0 Hb t'. destruct (sight_all_sighted l 0 t) as [Hu Hr]; [|done|].
  { split; rewrite H0; [constructor|set_solver]. }
  split; [done|]. intros m Hm. destruct (Hr m Hm) as (k & Hk & Hs). exists k. split_and!; [lia|lia|done|].
  intros ->. destruct Hs as (_ & _ & _ & _ & _ & ->). by vm_compute.
Qed.
End properties.
