(* ===== verification/Contact.v ===== *)
(** * Contacts

    src/src/db/entity/contact/: the address book of a user, one row for an
    address. *)

From S2P Require Import Prelude Sql.
Open Scope Z_scope.
Open Scope stdpp_scope.

Record Model := mk_model {
  ct_id : Z;
  ct_name : string;
  ct_address : string;
  ct_created_at : Z;
  ct_updated_at : Z;
}.
#[export] Instance contact_row : Row Model := {
  row_id := ct_id;
  row_conflict a b := bool_decide (ct_address a = ct_address b);
}.

Definition of_address (a : string) (m : Model) : bool := bool_decide (ct_address m = a).
Definition name_asc (a b : Model) : bool := str_leb (ct_name a) (ct_name b).

Section store.
Context {T : Type} `{!Sql T Model}.

Definition add (now : Z) (name address : string) : state T (result Model) :=
  insert_row (fun id => mk_model id name address now now).
Definition get_all : state T (result (list Model)) := find_sorted name_asc (fun _ => true).
Definition find_by_address (address : string) : state T (result (option Model)) := find_one (of_address address).
Definition update_name (now : Z) (address name : string) : state T (result unit) :=
  record ←? find_by_address address;
  match record with
  | Some existing =>
      _ ←? update_row (mk_model (ct_id existing) name (ct_address existing) (ct_created_at existing) now);
      mret (Ok tt)
  | None => mret (Ok tt)
  end.
Definition delete (address : string) : state T (result unit) := delete_rows (of_address address).
End store.

Section properties.
Context {T : Type} `{!Sql T Model, !SqlLaws T Model}.

(** The address book as a map from addresses to names. *)
Definition book (t : T) : gmap string string := list_to_map ((fun m => (ct_address m, ct_name m)) <$> sql_rows t).
Definition one_each (t : T) : Prop := NoDup (ct_address <$> sql_rows t).

Lemma book_lookup a n (t : T) :
  one_each t → book t !! a = Some n ↔ ∃ m, m ∈ sql_rows t ∧ ct_address m = a ∧ ct_name m = n.
Proof.
  intros Hu. unfold book. rewrite <- elem_of_list_to_map.
  - rewrite list_elem_of_fmap. split; [intros (m & [= -> ->] & Hm); eauto|intros (m & Hm & <- & <-); eauto].
  - rewrite <- list_fmap_compose. exact Hu.
Qed.

Lemma book_eq (t' : T) (f : string → option string) :
  one_each t' →
  (∀ a n, f a = Some n ↔ ∃ m, m ∈ sql_rows t' ∧ ct_address m = a ∧ ct_name m = n) → ∀ a, book t' !! a = f a.
Proof. intros Hu Hf a. apply option_eq. intros n. by rewrite book_lookup, Hf. Qed.

(** The address book is a map: an address is added once, renamed where it is,
    and removed; a second entry for an address is refused by the table. *)
Theorem address_book now name address t :
  one_each t →
  (∀ m t', add now name address t = (Ok m, t') →
     book t !! address = None ∧ one_each t' ∧ book t' = <[address := name]> (book t)) ∧
  (∀ t', update_name now address name t = (Ok tt, t') →
     one_each t' ∧ book t' = alter (fun _ => name) address (book t)) ∧
  (∀ t', delete address t = (Ok tt, t') → one_each t' ∧ book t' = base.delete address (book t)).
Proof.
  intros Hu. split_and!.
  - intros m t' E. apply run_insert_row in E as (id & -> & E & Hc); [|done]. rewrite Forall_forall in Hc.
    assert (Hno : ∀ x, x ∈ sql_rows t → ct_address x ≠ address).
    { intros x Hx Ha. specialize (Hc x Hx). unfold row_conflict in Hc. cbn in Hc. by rewrite bool_decide_true in Hc. }
    split_and!.
    + apply eq_None_not_Some. intros [n (x & Hx & Ha & _)%book_lookup]; [|done]. by apply (Hno x).
    + unfold one_each. rewrite E, fmap_app. apply NoDup_app. split_and!; [done| |apply NoDup_singleton].
      intros a (x & -> & Hx)%list_elem_of_fmap Ha%list_elem_of_singleton. by apply (Hno x).
    + unfold book. rewrite E, fmap_app. apply list_to_map_snoc. rewrite <- list_fmap_compose.
      intros (x & Ha & Hx)%list_elem_of_fmap. by apply (Hno x).
  - intros t' E. unfold update_name in E. rewrite run_try_bind in E.
    destruct (find_by_address address t) as [[o|e] t1] eqn:Ef; [|done]. apply run_find_one in Ef as [-> Ef].
    destruct o as [x|].
    + destruct Ef as [Hx Ha]. apply bool_decide_eq_true in Ha. rewrite run_try_bind in E. set (r := mk_model _ _ _ _ _) in E.
      destruct (update_row r t) as [[y|e] t2] eqn:Eu; [|done]. injection E as <-. apply run_update_row in Eu as [_ Eu].
      assert (Hu' : one_each t2) by (unfold one_each; by rewrite Eu, (replace_row_fmap ct_address r x t Hx eq_refl eq_refl)).
      split; [done|]. apply map_eq, book_eq; [done|]. intros a n. rewrite Eu. setoid_rewrite (elem_of_replace_row r x t _ Hx eq_refl).
      destruct (decide (a = address)) as [->|Hne].
      * rewrite lookup_alter_eq. rewrite (proj2 (book_lookup address (ct_name x) t Hu)) by eauto. cbn. split.
        -- intros [= <-]. exists r. split_and!; [by left|done|done].
        -- intros (m & [->|[Hm Hmx]] & Hma & <-); [done|]. destruct Hmx.
           apply (nodup_key ct_address _ _ _ Hu Hm Hx). congruence.
      * rewrite lookup_alter_ne by done. rewrite book_lookup by done. split.
        -- intros (m & Hm & Hma & Hn). exists m. split; [right; split; [done|congruence]|done].
        -- intros (m & [->|[Hm _]] & Hma & Hn); [by cbn in Hma; congruence|eauto].
    + injection E as <-. split; [done|]. rewrite alter_id; [done|]. intros n (x & Hx & Ha & _)%book_lookup; [|done].
      specialize (Ef x Hx). unfold of_address in Ef. by rewrite bool_decide_true in Ef.
  - intros t' E. apply run_delete_rows in E.
    assert (Hu' : one_each t') by (unfold one_each; rewrite E; eapply sublist_NoDup; [exact Hu|apply filter_sublist_fmap]).
    split; [done|]. apply map_eq, book_eq; [done|]. intros a n. rewrite lookup_delete_Some, book_lookup by done. rewrite E.
    split.
    + intros (Hne & m & Hm & Ha & Hn). exists m. split; [|done]. apply elem_of_filter_b.
      split; [done|]. unfold of_address. by rewrite bool_decide_false by congruence.
    + intros (m & Hm & Ha & Hn). apply elem_of_filter_b in Hm as [Hm Hd].
      unfold of_address in Hd. case_bool_decide; [done|]. split; [congruence|eauto].
Qed.
End properties.
