(* ===== verification/Chat.v ===== *)
(** * Conversations

    src/src/db/entity/chat_message/: the plain messages of a user with every
    contact, their unread counts and the list of conversations. A [HashMap] the
    code groups rows in is a [gmap]; [map_to_list] stands for the order it is
    iterated in. *)

From S2P Require Import Prelude Sql Chain.
Open Scope Z_scope.
Open Scope stdpp_scope.

Record Model := mk_model {
  cm_id : Z;
  cm_contact_address : string;
  cm_content : string;
  cm_is_sent : bool;
  cm_status : string;
  cm_timestamp : Z;
}.
#[export] Instance message_row : Row Model := { row_id := cm_id; row_conflict _ _ := false }.

Record ConversationSummary := mk_summary {
  cs_address : string;
  cs_last_message : string;
  cs_last_timestamp : Z;
  cs_unread_count : Z;
}.

Definition of_contact (a : string) (m : Model) : bool := bool_decide (cm_contact_address m = a).
Definition is_unread (m : Model) : bool := negb (cm_is_sent m) && bool_decide (cm_status m = "received").
Definition unread_of (a : string) (m : Model) : bool := of_contact a m && is_unread m.
Definition time_asc (a b : Model) : bool := cm_timestamp a <=? cm_timestamp b.
Definition time_desc (a b : Model) : bool := cm_timestamp b <=? cm_timestamp a.

(** [map.entry(r.contact_address).or_insert(0) += 1] *)
Definition count_unread (records : list Model) : gmap string Z :=
  foldl (fun map r => <[cm_contact_address r := wrap_u 64 (default 0 (map !! cm_contact_address r) + 1)]> map) ∅ records.
Definition count_leb (a b : string * Z) : bool := b.2 <=? a.2.

(** [groups.entry(r.contact_address.clone()).or_default().push(r)] *)
Definition group (records : list Model) : gmap string (list Model) :=
  foldl (fun groups r => <[cm_contact_address r := default [] (groups !! cm_contact_address r) ++ [r]]> groups) ∅ records.
(** The closure over the groups; [None] is the panic of [unwrap] on an empty
    group. *)
Definition summary_of (g : string * list Model) : option ConversationSummary :=
  let '(addr, msgs) := g in
  last ← head msgs;
  Some (mk_summary addr (cm_content last) (cm_timestamp last) (Z.of_nat (length (List.filter is_unread msgs)))).
Definition latest_leb (a b : ConversationSummary) : bool := cs_last_timestamp b <=? cs_last_timestamp a.

Section store.
Context {T : Type} `{!Sql T Model}.

Definition add (now : Z) (contact_address content : string) (is_sent : bool) (status : string) : state T (result Model) :=
  insert_row (fun id => mk_model id contact_address content is_sent status now).

Definition get_by_contact (a : string) : state T (result (list Model)) := find_sorted time_asc (of_contact a).

Definition get_recent (limit : Z) : state T (result (list Model)) :=
  l ←? find_sorted time_desc (fun _ => true); mret (Ok (take (Z.to_nat limit) l)).

Definition get_unread_count (a : string) : state T (result Z) :=
  l ←? find_all (unread_of a); mret (Ok (Z.of_nat (length l))).

Definition with_status (s : string) (m : Model) : Model :=
  mk_model (cm_id m) (cm_contact_address m) (cm_content m) (cm_is_sent m) s (cm_timestamp m).
(** The loop of [mark_as_read]. *)
Fixpoint read_rows (l : list Model) : state T (result unit) :=
  match l with
  | [] => mret (Ok tt)
  | m :: l' => _ ←? update_row (with_status "read" m); read_rows l'
  end.
Definition mark_as_read (a : string) : state T (result unit) :=
  records ←? find_all (unread_of a); read_rows records.

Definition get_all_contacts_with_unread : state T (result (list (string * Z))) :=
  records ←? find_all is_unread;
  mret (Ok (sort_by count_leb (map_to_list (count_unread records)))).

Definition get_conversations : state T (result (list ConversationSummary)) :=
  records ←? find_sorted time_desc (fun _ => true);
  mret (Ok (sort_by latest_leb (omap summary_of (map_to_list (group records))))).
End store.

(** ** Properties *)

Lemma group_lookup l a :
  group l !! a = if decide (List.filter (of_contact a) l = []) then None else Some (List.filter (of_contact a) l).
Proof.
  unfold group. induction l as [|r l IH] using rev_ind; [done|].
  rewrite foldl_app. cbn [foldl]. rewrite List.filter_app. cbn [List.filter].
  destruct (decide (cm_contact_address r = a)) as [<-|Hne].
  - replace (of_contact (cm_contact_address r) r) with true by (unfold of_contact; by rewrite bool_decide_true).
    rewrite lookup_insert_eq, IH. destruct (List.filter _ l); by repeat case_decide.
  - replace (of_contact a r) with false by (unfold of_contact; by rewrite bool_decide_false).
    by rewrite lookup_insert_ne, app_nil_r.
Qed.

Lemma count_unread_lookup l a :
  count_unread l !! a =
    let n := length (List.filter (of_contact a) l) in
    if decide (n = 0%nat) then None else Some (wrap_u 64 (Z.of_nat n)).
Proof.
  unfold count_unread. induction l as [|r l IH] using rev_ind; [done|].
  rewrite foldl_app. cbn [foldl]. rewrite List.filter_app. cbn [List.filter].
  destruct (decide (cm_contact_address r = a)) as [<-|Hne].
  - replace (of_contact (cm_contact_address r) r) with true by (unfold of_contact; by rewrite bool_decide_true).
    rewrite lookup_insert_eq, length_app. cbn [length] in *. rewrite IH. cbv zeta.
    case_decide as E; case_decide as E'; try lia; cbn [default from_option id].
    { destruct (List.filter _ l); [done|cbn in *; lia]. }
    unfold wrap_u. rewrite Zplus_mod_idemp_l. do 2 f_equal. lia.
  - replace (of_contact a r) with false by (unfold of_contact; by rewrite bool_decide_false).
    by rewrite lookup_insert_ne, app_nil_r.
Qed.

Lemma summary_of_group l a msgs s :
  group l !! a = Some msgs → summary_of (a, msgs) = Some s →
  msgs = List.filter (of_contact a) l ∧ ∃ m, head msgs = Some m ∧
  s = mk_summary a (cm_content m) (cm_timestamp m) (Z.of_nat (length (List.filter is_unread msgs))).
Proof.
  rewrite group_lookup. case_decide; [done|]. intros [= <-]. cbn. destruct (head _) as [m|]; [|done].
  intros [= <-]. eauto.
Qed.

(** No group is empty, and none is left out. *)
Lemma summaries_addresses l : cs_address <$> omap summary_of (map_to_list (group l)) = (map_to_list (group l)).*1.
Proof.
  assert (Hne : ∀ g, g ∈ map_to_list (group l) → head g.2 ≠ None).
  { intros [a msgs] Hg. apply elem_of_map_to_list in Hg. rewrite group_lookup in Hg.
    case_decide; [done|]. injection Hg as <-. by destruct (List.filter _ l). }
  induction (map_to_list (group l)) as [|[a msgs] gs IH]; [done|]. cbn.
  specialize (Hne (a, msgs) ltac:(set_solver)) as Ha. cbn in Ha. destruct (head msgs) as [m|]; [|done]. cbn.
  f_equal. apply IH. set_solver.
Qed.

Lemma time_desc_sorted l : StronglySorted (fun a b => time_desc a b = true) (sort_by time_desc l).
Proof. apply sort_by_sorted; unfold time_desc; intros; lia. Qed.

Section properties.
Context {T : Type} `{!Sql T Model, !SqlLaws T Model}.

Definition has_contact (a : string) (t : T) : Prop := ∃ m, m ∈ sql_rows t ∧ cm_contact_address m = a.

(** What a group of the sorted rows says of the table. *)
Lemma group_summary t l0 a msgs s :
  l0 ≡ₚ sql_rows t → group (sort_by time_desc l0) !! a = Some msgs → summary_of (a, msgs) = Some s →
  cs_address s = a ∧
  (∃ m, m ∈ sql_rows t ∧ cm_contact_address m = a ∧ cm_content m = cs_last_message s ∧ cm_timestamp m = cs_last_timestamp s) ∧
  (∀ m, m ∈ sql_rows t → cm_contact_address m = a → cm_timestamp m ≤ cs_last_timestamp s) ∧
  cs_unread_count s = Z.of_nat (length (List.filter (unread_of a) (sql_rows t))).
Proof.
  intros Hl Hg Hs. destruct (summary_of_group _ _ _ _ Hg Hs) as (-> & m & Hh & ->). cbn.
  assert (Hin : ∀ x, x ∈ List.filter (of_contact a) (sort_by time_desc l0) ↔ x ∈ sql_rows t ∧ cm_contact_address x = a).
  { intros x. rewrite elem_of_filter_b, sort_by_perm, Hl. unfold of_contact. by rewrite bool_decide_eq_true. }
  split_and!; [done|..].
  - exists m. assert (Hm : m ∈ List.filter (of_contact a) (sort_by time_desc l0)) by by apply head_Some_elem_of.
    apply Hin in Hm. naive_solver.
  - intros x Hx Ha. eapply (head_strongly_sorted _ _ m x) in Hh as [->|Hh];
      [done| |apply filter_b_strongly_sorted, time_desc_sorted|by apply Hin]. unfold time_desc in Hh. lia.
  - f_equal. apply Permutation_length. rewrite filter_filter_b. by rewrite sort_by_perm, Hl.
Qed.

(** The list of conversations: every contact there is a message with, once,
    the latest conversation first; each with the text and the time of a latest
    message of the contact and the number of its unread ones - whatever the
    order rows and groups come in. *)
Theorem conversations_spec t l t' :
  get_conversations t = (Ok l, t') →
  t' = t ∧ NoDup (cs_address <$> l) ∧ StronglySorted (fun a b => cs_last_timestamp b ≤ cs_last_timestamp a) l ∧
  (∀ a, a ∈ cs_address <$> l ↔ has_contact a t) ∧
  (∀ s, s ∈ l →
     (∃ m, m ∈ sql_rows t ∧ cm_contact_address m = cs_address s ∧ cm_content m = cs_last_message s ∧
           cm_timestamp m = cs_last_timestamp s) ∧
     (∀ m, m ∈ sql_rows t → cm_contact_address m = cs_address s → cm_timestamp m ≤ cs_last_timestamp s) ∧
     cs_unread_count s = Z.of_nat (length (List.filter (unread_of (cs_address s)) (sql_rows t)))).
Proof.
  unfold get_conversations. rewrite run_try_bind. destruct (find_sorted _ _ t) as [[r|e] t1] eqn:E; [|done].
  apply run_find_sorted in E as [-> E]. destruct (E r eq_refl) as (l0 & Hl & ->). rewrite filter_all in Hl.
  intros [= <- <-]. split_and!; [done|..].
  - rewrite (sort_by_perm latest_leb _), summaries_addresses. apply NoDup_fst_map_to_list.
  - generalize (sort_by_sorted latest_leb ltac:(unfold latest_leb; lia) ltac:(unfold latest_leb; lia)
      (omap summary_of (map_to_list (group (sort_by time_desc l0))))).
    induction 1 as [|s l _ IH Hs]; constructor; [done|]. eapply Forall_impl; [exact Hs|].
    unfold latest_leb. cbn. intros; lia.
  - intros a. rewrite (sort_by_perm latest_leb _), summaries_addresses, list_elem_of_fmap. split.
    + intros ([a' msgs] & -> & Hg%elem_of_map_to_list). rewrite group_lookup in Hg.
      case_decide as Hne; [done|]. clear Hg. destruct (List.filter (of_contact a') _) as [|m k] eqn:Ef; [congruence|].
      assert (Hm : m ∈ List.filter (of_contact a') (sort_by time_desc l0)) by (rewrite Ef; set_solver).
      apply elem_of_filter_b in Hm as [Hm Ha]. rewrite sort_by_perm, Hl in Hm. exists m.
      unfold of_contact in Ha. by case_bool_decide.
    + intros (m & Hm & Ha). eexists (a, _). split; [done|]. apply elem_of_map_to_list.
      rewrite group_lookup, decide_False; [done|]. intros Hn.
      assert (Hin : m ∈ List.filter (of_contact a) (sort_by time_desc l0)); [|rewrite Hn in Hin; set_solver].
      apply elem_of_filter_b. rewrite sort_by_perm, Hl. split; [done|by apply bool_decide_eq_true].
  - intros s. rewrite (sort_by_perm latest_leb _). rewrite list_elem_of_omap. intros ([a msgs] & Hg%elem_of_map_to_list & Hs).
    by destruct (group_summary t l0 a msgs s Hl Hg Hs) as (-> & H).
Qed.
End properties.
