(* ===== verification/Mail.v ===== *)
(** * Encrypted messages at rest

    src/src/db/entity/encrypted_message/: the messages a node keeps for their
    sender and their receiver, each of whom reads and deletes on his own. *)

From S2P Require Import Prelude External Sql Chain.
Open Scope Z_scope.
Open Scope stdpp_scope.

Record Model := mk_model {
  mm_id : Z;
  mm_msg_id : string;
  mm_from_address : string;
  mm_to_address : string;
  mm_encrypted_content : bytes;
  mm_nonce : bytes;
  mm_ephemeral_pk : bytes;
  mm_created_at : Z;
  mm_size_bytes : Z;
  mm_status : string;
  mm_deleted_by_sender : bool;
  mm_deleted_by_receiver : bool;
  mm_pre_hash : string;
  mm_hash : string;
}.
#[export] Instance mail_row : Row Model := { row_id := mm_id; row_conflict _ _ := false }.

Definition with_status (s : string) (m : Model) : Model :=
  mk_model (mm_id m) (mm_msg_id m) (mm_from_address m) (mm_to_address m) (mm_encrypted_content m) (mm_nonce m)
    (mm_ephemeral_pk m) (mm_created_at m) (mm_size_bytes m) s (mm_deleted_by_sender m) (mm_deleted_by_receiver m)
    (mm_pre_hash m) (mm_hash m).
Definition with_deleted (by_sender by_receiver : bool) (m : Model) : Model :=
  mk_model (mm_id m) (mm_msg_id m) (mm_from_address m) (mm_to_address m) (mm_encrypted_content m) (mm_nonce m)
    (mm_ephemeral_pk m) (mm_created_at m) (mm_size_bytes m) (mm_status m) by_sender by_receiver
    (mm_pre_hash m) (mm_hash m).

Definition is_msg (msg_id : string) (m : Model) : bool := bool_decide (mm_msg_id m = msg_id).
Definition is_to (a : string) (m : Model) : bool := bool_decide (mm_to_address m = a).
Definition is_from (a : string) (m : Model) : bool := bool_decide (mm_from_address m = a).
Definition is_unread (m : Model) : bool := bool_decide (mm_status m = "unread").
Definition created_asc (a b : Model) : bool := mm_created_at a <=? mm_created_at b.
Definition created_desc (a b : Model) : bool := mm_created_at b <=? mm_created_at a.
(** [iter().map(|r| r.size_bytes).sum()] *)
Definition total_of (l : list Model) : Z := foldl (fun acc n => wrap_i 64 (acc + n)) 0 (mm_size_bytes <$> l).

Section store.
Context {T : Type} `{!Sql T Model, Sha256}.

Definition compute_hash (msg_id from to : string) (content : bytes) (created_at : Z) (pre_hash : string) : string :=
  hex (sha256 (as_bytes msg_id ++ as_bytes from ++ as_bytes to ++ content ++ le_bytes 8 created_at ++ as_bytes pre_hash)).

Definition insert (now : Z) (msg_id from to : string) (content nonce ephemeral_pk : bytes) : state T (result Model) :=
  let hash := compute_hash msg_id from to content now PRE_HASH in
  insert_row (fun id => mk_model id msg_id from to content nonce ephemeral_pk now
                          (wrap_i 64 (Z.of_nat (length content))) "unread" false false PRE_HASH hash).

Definition get_by_id (id : Z) : state T (result (option Model)) := find_one (fun m => bool_decide (mm_id m = id)).
Definition get_by_msg_id (msg_id : string) : state T (result (option Model)) := find_one (is_msg msg_id).

Definition in_inbox (a : string) (m : Model) : bool := is_to a m && negb (mm_deleted_by_receiver m).
Definition in_sent (a : string) (m : Model) : bool := is_from a m && negb (mm_deleted_by_sender m).
Definition get_for_recipient (a : string) : state T (result (list Model)) := find_sorted created_asc (in_inbox a).
Definition get_sent (a : string) : state T (result (list Model)) := find_sorted created_desc (in_sent a).

Definition unread_of (a : string) (m : Model) : bool := is_to a m && is_unread m.
Definition get_unread_count (a : string) : state T (result Z) :=
  l ←? find_all (unread_of a); mret (Ok (Z.of_nat (length l))).

Definition mark_read (msg_id recipient : string) : state T (result unit) :=
  _ ←? update_found (fun m => is_msg msg_id m && is_to recipient m) "message not found" (with_status "read");
  mret (Ok tt).

(** The loop of [mark_read_all]. *)
Fixpoint read_rows (l : list Model) : state T (result unit) :=
  match l with
  | [] => mret (Ok tt)
  | m :: l' => _ ←? update_row (with_status "read" m); read_rows l'
  end.
Definition mark_read_all (a : string) : state T (result unit) :=
  records ←? find_all (unread_of a); read_rows records.

Definition delete_by_sender (msg_id sender : string) : state T (result unit) :=
  _ ←? update_found (fun m => is_msg msg_id m && is_from sender m) "message not found"
         (fun m => with_deleted true (mm_deleted_by_receiver m) m);
  mret (Ok tt).
Definition delete_by_receiver (msg_id receiver : string) : state T (result unit) :=
  _ ←? update_found (fun m => is_msg msg_id m && is_to receiver m) "message not found"
         (fun m => with_deleted (mm_deleted_by_sender m) true m);
  mret (Ok tt).

Definition get_total_size_for_address (a : string) : state T (result Z) :=
  records ←? find_all (is_to a); mret (Ok (total_of records)).

Definition get_message_count_for_epoch (epoch : Z) (a : string) : state T (result (Z * Z)) :=
  let start_ts := wrap_i 64 (epoch * 86400) in
  let end_ts := wrap_i 64 (start_ts + 86400) in
  all ←? find_all (fun m => is_from a m && (start_ts <=? mm_created_at m) && (mm_created_at m <? end_ts));
  mret (Ok (wrap_i 64 (Z.of_nat (length all)), total_of all)).

Definition reset : state T (result unit) := delete_rows (fun _ => true).
End store.

(** ** Properties *)

(** A message moves on: what was written stays, read stays read and deleted
    stays deleted. *)
Record advances (m m' : Model) : Prop := {
  adv_letter : mk_model (mm_id m) (mm_msg_id m) (mm_from_address m) (mm_to_address m) (mm_encrypted_content m)
                 (mm_nonce m) (mm_ephemeral_pk m) (mm_created_at m) (mm_size_bytes m) (mm_status m')
                 (mm_deleted_by_sender m') (mm_deleted_by_receiver m') (mm_pre_hash m) (mm_hash m) = m';
  adv_status : mm_status m' = mm_status m ∨ mm_status m' = "read";
  adv_sender : mm_deleted_by_sender m = true → mm_deleted_by_sender m' = true;
  adv_receiver : mm_deleted_by_receiver m = true → mm_deleted_by_receiver m' = true;
}.
#[export] Instance advances_preorder : PreOrder advances.
Proof.
  split.
  - intros []. split; cbn; auto.
  - intros [] [] [] [E1 S1 D1 R1] [E2 S2 D2 R2]. cbn in *.
    injection E1; injection E2; intros; subst. split; cbn; auto. destruct S2 as [->|]; auto.
Qed.

Lemma advances_id m m' : advances m m' → row_id m' = row_id m.
Proof. intros [<- _ _ _]. done. Qed.

(** Tables of which the second has every row of the first, moved on, in the
    same places. *)
Definition mail_advances (l l' : list Model) : Prop := ∃ k k', l' = k ++ k' ∧ Forall2 advances l k.
#[export] Instance mail_advances_preorder : PreOrder mail_advances.
Proof.
  split.
  - intros l. exists l, []. split; [by rewrite app_nil_r|reflexivity].
  - intros l1 l2 l3 (k & k' & -> & H1) (k2 & k2' & -> & H2).
    apply Forall2_app_inv_l in H2 as (j & j' & H2 & _ & ->). exists j, (j' ++ k2'). rewrite app_assoc.
    split; [done|]. by transitivity k.
Qed.

Section properties.
Context {T : Type} `{!Sql T Model, !SqlLaws T Model, Sha256}.

Definition goes_on (t t' : T) : Prop := mail_advances (sql_rows t) (sql_rows t').
#[local] Instance goes_on_preorder : PreOrder goes_on.
Proof. split; [intros t; unfold goes_on; reflexivity|intros t1 t2 t3; unfold goes_on; by etransitivity]. Qed.

Lemma goes_on_refl t : goes_on t t.
Proof. reflexivity. Qed.

Lemma replace_goes_on t t' r x :
  x ∈ sql_rows t → advances x r → sql_rows t' = replace_row r (sql_rows t) → goes_on t t'.
Proof.
  intros Hx Ha E. exists (sql_rows t'), []. split; [by rewrite app_nil_r|]. rewrite E. unfold replace_row.
  apply Forall2_fmap_r, Forall_Forall2_diag, Forall_forall. intros y Hy. unfold compose. case_decide as Ey; [|reflexivity].
  assert (y = x) as ->; [|done]. apply (rows_same_id t); [done..|]. rewrite Ey. by apply advances_id.
Qed.

Lemma goes_on_update_found p err f t r t' :
  (∀ m, advances m (f m)) → update_found p err f t = (r, t') → goes_on t t'.
Proof.
  intros Hf E. apply run_update_found in E. destruct r as [y|e]; [|subst; apply goes_on_refl].
  destruct E as (x & Hx & _ & _ & E). exact (replace_goes_on t t' (f x) x Hx (Hf x) E).
Qed.

Lemma goes_on_read_rows l t : (∀ m, m ∈ l → m ∈ sql_rows t) → NoDup (row_id <$> l) → goes_on t (exec (read_rows l) t).
Proof.
  revert t. induction l as [|m l IH]; intros t Hl Hd; [apply goes_on_refl|].
  rewrite fmap_cons in Hd. apply NoDup_cons in Hd as [Hm Hd]. cbn. unfold exec. rewrite run_try_bind.
  destruct (update_row _ t) as [[x|e] t1] eqn:E; apply run_update_row in E; cbn; [|subst; apply goes_on_refl].
  destruct E as [_ E]. transitivity t1.
  - eapply (replace_goes_on t t1 _ m); [apply Hl; set_solver| |exact E]. split; cbn; auto.
  - apply IH; [|done]. intros y Hy. rewrite E. apply (elem_of_replace_row _ m); [apply Hl; set_solver|done|].
    right. split; [apply Hl; set_solver|]. intros ->. apply Hm. by apply list_elem_of_fmap_2.
Qed.

Lemma exec_try_unit {A} (m : state T (result A)) t : exec (_ ←? m; mret (Ok tt)) t = exec m t.
Proof. unfold exec. rewrite run_try_bind. by destruct (m t) as [[a|e] t']. Qed.

(** What is done to the messages, short of emptying the table. *)
Inductive mail_op :=
| OpInsert (now : Z) (msg_id from to : string) (content nonce ephemeral_pk : bytes)
| OpRead (msg_id recipient : string)
| OpReadAll (a : string)
| OpDeleteSent (msg_id sender : string)
| OpDeleteReceived (msg_id receiver : string).
Definition run_mail (o : mail_op) : state T unit :=
  match o with
  | OpInsert now i f t c n k => insert now i f t c n k ;; mret tt
  | OpRead i a => mark_read i a ;; mret tt
  | OpReadAll a => mark_read_all a ;; mret tt
  | OpDeleteSent i a => delete_by_sender i a ;; mret tt
  | OpDeleteReceived i a => delete_by_receiver i a ;; mret tt
  end.

Lemma mark_read_all_goes_on a t : goes_on t (exec (mark_read_all a) t).
Proof.
  unfold mark_read_all, exec. rewrite run_try_bind. destruct (find_all _ t) as [[l|e] t1] eqn:E;
    apply run_find_all in E as [-> E]; [|apply goes_on_refl].
  specialize (E l eq_refl). apply goes_on_read_rows.
  - intros m. rewrite E. by intros [Hm _]%elem_of_filter_b.
  - rewrite E. eapply sublist_NoDup; [apply rows_nodup|apply filter_sublist_fmap].
Qed.

Lemma run_mail_goes_on o t : goes_on t (exec (run_mail o) t).
Proof.
  destruct o as [now i f a c n k|i a|a|i a|i a]; unfold run_mail; rewrite exec_bind; change (exec (mret tt) ?s) with s.
  - unfold exec. destruct (insert now i f a c n k t) as [r t'] eqn:E. apply run_insert_row in E; [|done].
    destruct r as [m|e]; [|subst; apply goes_on_refl]. destruct E as (id & -> & E & _). cbn.
    eexists (sql_rows t), _. split; [exact E|reflexivity].
  - unfold mark_read. rewrite exec_try_unit. unfold exec. destruct (update_found _ _ _ t) as [r t'] eqn:E.
    apply goes_on_update_found in E; [done|]. intros m. split; cbn; auto.
  - apply mark_read_all_goes_on.
  - unfold delete_by_sender. rewrite exec_try_unit. unfold exec. destruct (update_found _ _ _ t) as [r t'] eqn:E.
    apply goes_on_update_found in E; [done|]. intros m. split; cbn; auto.
  - unfold delete_by_receiver. rewrite exec_try_unit. unfold exec. destruct (update_found _ _ _ t) as [r t'] eqn:E.
    apply goes_on_update_found in E; [done|]. intros m. split; cbn; auto.
Qed.

Lemma for_each_goes_on l t : goes_on t (exec (for_each l run_mail) t).
Proof.
  revert t. induction l as [|o l IH]; intros t; [apply goes_on_refl|]. cbn [for_each]. rewrite exec_bind.
  etransitivity; [apply run_mail_goes_on|apply IH].
Qed.

(** C36. Messages are kept: whatever is inserted, read and deleted, in any order and
    with any statements failing, every row stays, with the identifier, the
    parties, the ciphertext, the time and the hash it was written with; what
    was read stays read, and what one side deleted stays deleted for it. *)
Theorem mail_is_kept (l : list mail_op) t :
  mail_advances (sql_rows t) (sql_rows (exec (for_each l run_mail) t)).
Proof. apply for_each_goes_on. Qed.

Lemma total_of_perm l l' : mm_size_bytes <$> l ≡ₚ mm_size_bytes <$> l' → total_of l = total_of l'.
Proof. intros E. unfold total_of. change 0 with (wrap_i 64 0). by rewrite !sum_wrap_i, E. Qed.

Lemma count_run p t : (l ←? find_all p; mret (Ok (Z.of_nat (length l)))) t = (Z.of_nat ∘ length <$> sql_find t p, t).
Proof. rewrite run_try_bind. unfold find_all. by destruct (sql_find t p). Qed.

(** Everything but whether the receiver deleted it. *)
Definition but_receiver (m : Model) : Model := with_deleted (mm_deleted_by_sender m) false m.

(** Deleting is one-sided: the receiver no longer lists the message, all other
    messages are as before, every sender's list is as before, and the message
    still counts for its receiver - as unread if it was, and towards the
    total size. *)
Theorem delete_is_one_sided msg_id receiver t t' :
  NoDup (mm_msg_id <$> sql_rows t) →
  delete_by_receiver msg_id receiver t = (Ok tt, t') →
  (∀ l t2, get_for_recipient receiver t' = (Ok l, t2) → ∀ m, m ∈ l → mm_msg_id m ≠ msg_id) ∧
  (∀ m, mm_msg_id m ≠ msg_id → m ∈ sql_rows t' ↔ m ∈ sql_rows t) ∧
  (∀ a, but_receiver <$> List.filter (in_sent a) (sql_rows t') = but_receiver <$> List.filter (in_sent a) (sql_rows t)) ∧
  (∀ a n n', (get_unread_count a t').1 = Ok n' → (get_unread_count a t).1 = Ok n → n' = n) ∧
  (∀ a n n', (get_total_size_for_address a t').1 = Ok n' → (get_total_size_for_address a t).1 = Ok n → n' = n).
Proof.
  intros Hu. unfold delete_by_receiver. rewrite run_try_bind.
  destruct (update_found _ _ _ t) as [[y|e] t1] eqn:E; intros [= <-]. apply run_update_found in E as (x & Hx & Hp & _ & E).
  apply andb_true_iff in Hp as [Hmsg Hto]. apply bool_decide_eq_true in Hmsg, Hto. set (r := with_deleted _ _ _) in *.
  assert (Hin : ∀ m, m ∈ sql_rows t1 ↔ m = r ∨ m ∈ sql_rows t ∧ m ≠ x)
    by (intros m; rewrite E; by apply elem_of_replace_row).
  assert (Hsame : ∀ m, m ∈ sql_rows t → mm_msg_id m = msg_id → m = x).
  { intros m Hm Hk. apply (nodup_key mm_msg_id _ _ _ Hu Hm Hx). congruence. }
  split_and!.
  - intros l t2 Hg m Hm Hk. apply run_find_sorted in Hg as [-> Hg]. destruct (Hg l eq_refl) as (l0 & Hl & ->).
    rewrite sort_by_perm, Hl in Hm. apply elem_of_filter_b in Hm as [Hm Hbox].
    apply Hin in Hm as [->|[Hm Hne]]; [|by apply Hne, Hsame].
    apply andb_true_iff in Hbox as [_ Hd]. by cbn in Hd.
  - intros m Hk. rewrite Hin. split; [|naive_solver]. intros [->|[Hm _]]; [|done]. by cbn in Hk.
  - intros a. rewrite E. by apply (replace_row_filter but_receiver (in_sent a) r x t).
  - intros a n n'. unfold get_unread_count. rewrite !count_run. cbn.
    destruct (sql_find t1 _) as [l'|] eqn:E1; [|done]. destruct (sql_find t _) as [l|] eqn:E2; [|done]. intros [= <-] [= <-].
    apply sql_find_ok in E1, E2. cbn. f_equal.
    rewrite <- (length_fmap mm_id l'), E1, E, (replace_row_filter mm_id _ r x t) by done. by rewrite length_fmap, E2.
  - intros a n n'. unfold get_total_size_for_address. rewrite !run_try_bind. unfold find_all.
    destruct (sql_find t1 _) as [l'|] eqn:E1; [|done]. destruct (sql_find t _) as [l|] eqn:E2; [|done]. intros [= <-] [= <-].
    apply sql_find_ok in E1, E2. apply total_of_perm.
    rewrite E1, E, (replace_row_filter mm_size_bytes _ r x t) by done. by rewrite E2.
Qed.
End properties.
