(* ===== verification/Text.v ===== *)
(** * Text

    The parts of [str] and [std::path] of the Rust standard library the
    sources use on file names, URLs and command lines: [split], [starts_with],
    [contains], white space, and paths with [join] and their components. *)

From S2P Require Import Prelude.
From Stdlib Require Import Ascii.
Open Scope Z_scope.
Open Scope stdpp_scope.

(** [s.split(c)]: never empty *)
Fixpoint split (c : ascii) (s : string) : list string :=
  match s with
  | EmptyString => [""]
  | String x s' =>
      if decide (x = c) then "" :: split c s'
      else match split c s' with
           | w :: l => String x w :: l
           | [] => [String x ""]
           end
  end.

(** [s.splitn(2, c)] *)
Fixpoint splitn2 (c : ascii) (s : string) : string * option string :=
  match s with
  | EmptyString => ("", None)
  | String x s' =>
      if decide (x = c) then ("", Some s')
      else let '(a, b) := splitn2 c s' in (String x a, b)
  end.

(** [s.starts_with(p)], [s.contains(p)] *)
Fixpoint starts_with (p s : string) : bool :=
  match p, s with
  | EmptyString, _ => true
  | String a p', String b s' => bool_decide (a = b) && starts_with p' s'
  | _, _ => false
  end.
Fixpoint contains (p s : string) : bool :=
  starts_with p s || match s with String _ s' => contains p s' | EmptyString => false end.

Definition is_empty (s : string) : bool := match s with EmptyString => true | _ => false end.
Fixpoint has (c : ascii) (s : string) : bool :=
  match s with String x s' => bool_decide (x = c) || has c s' | EmptyString => false end.
Fixpoint last_char (s : string) : option ascii :=
  match s with
  | EmptyString => None
  | String x EmptyString => Some x
  | String _ s' => last_char s'
  end.

(** ** Splitting *)

(** [l.join(", ")] *)
Fixpoint join_comma (l : list string) : string :=
  match l with [] => "" | [s] => s | s :: l' => s +:+ ", " +:+ join_comma l' end.

Lemma string_cons_app x a b : String x a +:+ b = String x (a +:+ b).
Proof. reflexivity. Qed.
Lemma string_nil_app b : "" +:+ b = b.
Proof. reflexivity. Qed.

Lemma split_cons c s : ∃ w l, split c s = w :: l.
Proof. induction s as [|x s (w & l & E)]; cbn; [by eauto|]. rewrite E. case_decide; eauto. Qed.

(** Splitting goes through a separator. *)
Lemma split_app c a b : split c (a +:+ String c b) = split c a ++ split c b.
Proof.
  induction a as [|x a IH]; rewrite ?string_nil_app, ?string_cons_app; cbn [split].
  { by rewrite decide_True. }
  rewrite IH. case_decide; [done|]. destruct (split_cons c a) as (w & l & ->). done.
Qed.

Lemma split_none c s : has c s = false → split c s = [s].
Proof.
  induction s as [|x s IH]; cbn; [done|]. intros [Hx Hs]%orb_false_iff. rewrite (IH Hs).
  rewrite decide_False; [done|]. intros ->. by rewrite bool_decide_true in Hx.
Qed.

Lemma has_app c a b : has c (a +:+ b) = has c a || has c b.
Proof. induction a as [|x a IH]; [done|]. rewrite string_cons_app; cbn [has]. by rewrite IH, orb_assoc. Qed.

Lemma splitn2_app c a b : has c a = false → splitn2 c (a +:+ String c b) = (a, Some b).
Proof.
  induction a as [|x a IH]; rewrite ?string_nil_app, ?string_cons_app; cbn [splitn2 has].
  { intros _. by rewrite decide_True. }
  intros [Hx Hs]%orb_false_iff. rewrite (IH Hs).
  rewrite decide_False; [done|]. intros ->. by rewrite bool_decide_true in Hx.
Qed.

Lemma splitn2_none c a : has c a = false → splitn2 c a = (a, None).
Proof.
  induction a as [|x a IH]; cbn; [done|]. intros [Hx Hs]%orb_false_iff. rewrite (IH Hs).
  rewrite decide_False; [done|]. intros ->. by rewrite bool_decide_true in Hx.
Qed.

Lemma starts_with_app p s : starts_with p (p +:+ s) = true.
Proof. induction p as [|a p IH]; [by destruct s|]. rewrite string_cons_app; cbn [starts_with]. by rewrite bool_decide_true. Qed.

Lemma starts_with_spec p s : starts_with p s = true ↔ ∃ t, s = p +:+ t.
Proof.
  split; [|intros (t & ->); apply starts_with_app].
  revert s. induction p as [|a p IH]; intros s; cbn; [by eauto|]. destruct s as [|b s]; [done|].
  intros [Ha Hp]%andb_true_iff. apply bool_decide_eq_true in Ha as ->. destruct (IH s Hp) as (t & ->). by exists t.
Qed.

Lemma contains_spec p s : contains p s = true ↔ ∃ a b, s = a +:+ p +:+ b.
Proof.
  induction s as [|x s IH]; cbn; rewrite orb_true_iff, starts_with_spec.
  - split; [intros [(t & E)|]; [by exists "", t|done]|]. intros (a & b & E). left. destruct a; [by exists b|done].
  - rewrite IH. split.
    + intros [(t & E)|(a & b & E)]; [by exists "", t|]. exists (String x a), b. cbn. by rewrite E.
    + intros ([|y a] & b & E); cbn in E; [left; by exists b|right]. injection E as -> ->. eauto.
Qed.

(** ** White space *)

(** The length of the character at the head, when it has the property
    White_Space: U+0009 to U+000D, U+0020, U+0085, U+00A0, U+1680, U+2000 to
    U+200A, U+2028, U+2029, U+202F, U+205F, U+3000. *)
Definition ws_len (l : bytes) : option nat :=
  match Z_of_byte <$> l with
  | b0 :: rest =>
      if ((9 <=? b0) && (b0 <=? 13)) || (b0 =? 32) then Some 1%nat
      else match rest with
           | b1 :: rest' =>
               if (b0 =? 194) && ((b1 =? 133) || (b1 =? 160)) then Some 2%nat
               else match rest' with
                    | b2 :: _ =>
                        if ((b0 =? 225) && (b1 =? 154) && (b2 =? 128)) ||
                           ((b0 =? 226) && (b1 =? 128) &&
                              (((128 <=? b2) && (b2 <=? 138)) || (b2 =? 168) || (b2 =? 169) || (b2 =? 175))) ||
                           ((b0 =? 226) && (b1 =? 129) && (b2 =? 159)) ||
                           ((b0 =? 227) && (b1 =? 128) && (b2 =? 128))
                        then Some 3%nat else None
                    | [] => None
                    end
           | [] => None
           end
  | [] => None
  end.

Definition flush (cur : bytes) : list string := match cur with [] => [] | _ => [from_bytes cur] end.
(** [skip] bytes of a white space character are still to come. *)
Fixpoint words_go (skip : nat) (cur l : bytes) : list string :=
  match l with
  | [] => flush cur
  | x :: l' =>
      match skip with
      | S k => words_go k cur l'
      | O => match ws_len l with
             | Some n => flush cur ++ words_go (pred n) [] l'
             | None => words_go 0 (cur ++ [x]) l'
             end
      end
  end.
(** [s.split_whitespace()] *)
Definition split_whitespace (s : string) : list string := words_go 0 [] (as_bytes s).
(** [s.trim().is_empty()] *)
Definition is_blank (s : string) : bool := bool_decide (split_whitespace s = []).

Example words_example : split_whitespace ("  send	bob " +:+ from_bytes (byte_of_Z <$> [227; 128; 128]) +:+ "hi ") = ["send"; "bob"; "hi"].
Proof. reflexivity. Qed.

(** ** Lines and trimming: [str::lines], [str::trim], [trim_end_matches] *)

Definition newline : ascii := "010".
Definition carriage_return : ascii := "013".
(** A line that ended with [\r\n] *)
Fixpoint strip_cr (s : string) : string :=
  match s with
  | EmptyString => ""
  | String c EmptyString => if decide (c = carriage_return) then "" else s
  | String c s' => String c (strip_cr s')
  end.
(** Lines end with a newline, the last one perhaps without. *)
Fixpoint end_lines (l : list string) : list string :=
  match l with
  | [] => []
  | [last] => if is_empty last then [] else [last]
  | line :: l' => strip_cr line :: end_lines l'
  end.
Definition lines (s : string) : list string := end_lines (split newline s).

Definition starts_with_space (s : string) : bool := match ws_len (as_bytes s) with Some _ => true | None => false end.
Fixpoint trim_start (skip : nat) (l : bytes) : bytes :=
  match l with
  | [] => []
  | _ :: l' =>
      match skip with
      | S k => trim_start k l'
      | O => match ws_len l with Some n => trim_start (pred n) l' | None => l end
      end
  end.
(** How many bytes are left without white space at the end: [i] were read, the
    last that is not white space ended at [best]. *)
Fixpoint content_length_go (skip i best : nat) (l : bytes) : nat :=
  match l with
  | [] => best
  | _ :: l' =>
      match skip with
      | S k => content_length_go k (S i) best l'
      | O => match ws_len l with
             | Some n => content_length_go (pred n) (S i) best l'
             | None => content_length_go 0 (S i) (S i) l'
             end
      end
  end.
Definition trim (s : string) : string :=
  let l := trim_start 0 (as_bytes s) in from_bytes (take (content_length_go 0 0 0 l) l).

(** All [c] at the head left out *)
Fixpoint dropwhile (c : ascii) (l : list ascii) : list ascii :=
  match l with
  | x :: l' => if decide (x = c) then dropwhile c l' else l
  | [] => []
  end.
Definition trim_end_matches (c : ascii) (s : string) : string :=
  String.string_of_list_ascii (reverse (dropwhile c (reverse (String.list_ascii_of_string s)))).

Example trim_end_example : trim_end_matches "T" "12TT" = "12" ∧ trim ("  a b ") = "a b".
Proof. split; reflexivity. Qed.

(** ** Paths *)

Definition slash : ascii := "/".
Definition is_absolute (p : string) : bool := starts_with "/" p.

(** [Path::join] on Unix: an absolute second path replaces the first. *)
Definition join (p q : string) : string :=
  if is_absolute q then q
  else match last_char p with
       | None => q
       | Some c => if decide (c = slash) then p +:+ q else p +:+ "/" +:+ q
       end.

(** The names of a path; repeated separators and [.] do not count. *)
Definition components (p : string) : list string :=
  List.filter (fun w => negb (is_empty w) && negb (bool_decide (w = "."))) (split slash p).

(** A file or directory: the names that lead to it from the root, innermost
    first. [..] takes a name away; the parent of the root is the root. *)
Abbreviation place := (list string) (only parsing).
Definition enter (at_ : place) (name : string) : place := if decide (name = "..") then tail at_ else name :: at_.
Definition walk (start : place) (names : list string) : place := foldl enter start names.
(** Where a path leads, for a process that works in [cwd]. *)
Definition resolve (cwd : place) (p : string) : place := walk (if is_absolute p then [] else cwd) (components p).

(** [Path::parent], as a path with the same components: none for the root and
    for the empty path. *)
Fixpoint slashed (names : list string) : string :=
  match names with
  | [] => ""
  | [n] => n
  | n :: l => n +:+ "/" +:+ slashed l
  end.
Definition parent (p : string) : option string :=
  match components p with
  | [] => None
  | c => Some ((if is_absolute p then "/" else "") +:+ slashed (removelast c))
  end.

(** A name that stays where it is put. *)
Definition plain (name : string) : Prop :=
  has slash name = false ∧ name ≠ "" ∧ name ≠ "." ∧ name ≠ "..".
#[export] Instance plain_dec name : Decision (plain name).
Proof. unfold plain. apply _. Defined.

Lemma last_char_split p :
  last_char p = Some slash → ∃ p', p = p' +:+ "/".
Proof.
  induction p as [|x p IH]; [done|]. destruct p as [|y p]; cbn [last_char].
  - intros [= ->]. by exists "".
  - intros E. destruct (IH E) as (p' & ->). by exists (String x p').
Qed.

Lemma last_char_none p : last_char p = None → p = "".
Proof.
  destruct p as [|x p]; [done|]. revert x. induction p as [|y p IH]; intros x E; [done|]. by apply (IH y) in E.
Qed.

Lemma components_app p q : components (p +:+ "/" +:+ q) = components p ++ components q.
Proof. unfold components. change (p +:+ "/" +:+ q) with (p +:+ String slash q). by rewrite split_app, List.filter_app. Qed.

Lemma components_join p q : is_absolute q = false → components (join p q) = components p ++ components q.
Proof.
  intros Hq. unfold join. rewrite Hq. destruct (last_char p) as [c|] eqn:E.
  - case_decide as Ec; [|apply components_app]. subst c. apply last_char_split in E as (p' & ->).
    rewrite <- string_app_assoc, components_app. f_equal. unfold components.
    change (p' +:+ "/") with (p' +:+ String slash ""). rewrite split_app, List.filter_app. cbn. by rewrite app_nil_r.
  - by apply last_char_none in E as ->.
Qed.


Lemma is_absolute_app p q : p ≠ "" → is_absolute (p +:+ q) = is_absolute p.
Proof. destruct p as [|x p]; [done|]. intros _. rewrite string_cons_app. unfold is_absolute. cbn. by destruct (p +:+ q), p. Qed.

Lemma is_absolute_join p q : is_absolute q = false → is_absolute (join p q) = is_absolute p.
Proof.
  intros Hq. unfold join. rewrite Hq. destruct p as [|x p]; [done|].
  destruct (last_char _) eqn:E; [|by apply last_char_none in E].
  case_decide; by apply is_absolute_app.
Qed.

(** Where a relative path leads, started from another one. *)
Lemma resolve_join cwd p q : is_absolute q = false → resolve cwd (join p q) = walk (resolve cwd p) (components q).
Proof.
  intros Hq. unfold resolve, walk. rewrite components_join, is_absolute_join by done. by rewrite foldl_app.
Qed.

Lemma resolve_join_absolute cwd p q : is_absolute q = true → resolve cwd (join p q) = resolve cwd q.
Proof. intros Hq. unfold join. by rewrite Hq. Qed.

Lemma plain_relative name : plain name → is_absolute name = false.
Proof.
  intros (Hs & _). destruct name as [|x name]; [done|]. cbn in *. apply orb_false_iff in Hs as [Hs _].
  apply bool_decide_eq_false in Hs. rewrite bool_decide_false; [done|]. by intros <-.
Qed.

Lemma plain_components name : plain name → components name = [name].
Proof.
  intros (Hs & He & Hd & _). unfold components. rewrite split_none by done. cbn.
  rewrite (bool_decide_false (name = ".")) by done. by destruct name.
Qed.

(** A plain name is one step down. *)
Lemma resolve_join_plain cwd p name : plain name → resolve cwd (join p name) = name :: resolve cwd p.
Proof.
  intros Hn. rewrite resolve_join by by apply plain_relative. rewrite plain_components by done.
  unfold walk, enter. cbn. destruct Hn as (_ & _ & _ & Hn). by rewrite decide_False.
Qed.

(** Names other than [..] only lead down. *)
Lemma walk_down st names : (".." ∉ names) → walk st names = reverse names ++ st.
Proof.
  unfold walk. revert st. induction names as [|n names IH]; intros st H; cbn [foldl]; [done|].
  rewrite IH by set_solver. unfold enter. rewrite decide_False by set_solver.
  by rewrite reverse_cons, <- (assoc_L (++)).
Qed.

Example parent_example : parent "data/users/a/images/x.png" = Some "data/users/a/images" ∧ parent "/" = None ∧ parent "/x" = Some "/".
Proof. split_and!; reflexivity. Qed.
Example resolve_example : resolve ["srv"] "data/../../x/./y" = ["y"; "x"] ∧ resolve ["srv"] (join "data" "/etc") = ["etc"].
Proof. split; reflexivity. Qed.
