(* ===== verification/Files.v ===== *)
(** * The file system

    What the sources use of [tokio::fs], as a class of operations ([Fs]) and,
    apart from it, a class of what is documented of them ([FsLaws]) on a Unix
    file system without symbolic links: which files there are afterwards, also
    when an operation fails half way. [MemFs] at the end is an instance in
    memory. Also [Json], the part of serde_json that turns values into text. *)

From S2P Require Import Prelude Utf8 Text.
Open Scope Z_scope.
Open Scope stdpp_scope.

(** [std::io::Result]: of an error the sources only ask whether its kind is
    [NotFound]. *)
Inductive io (A : Type) : Type :=
| IoOk (a : A)
| IoErr (not_found : bool) (e : string).
Arguments IoOk {A} a.
Arguments IoErr {A} not_found e.

(** [?] from [std::io::Error] into [anyhow::Error] *)
Definition of_io {A} (r : io A) : result A := match r with IoOk a => Ok a | IoErr _ e => Err e end.

Inductive FileType := IsDir | IsFile | IsOther.
#[export] Instance FileType_eq_dec : EqDecision FileType.
Proof. solve_decision. Defined.

(** [DirEntry]: [file_name()] and [file_type()] *)
Record DirEntry := mk_dir_entry { de_name : string; de_type : io FileType }.
(** [file_name().to_str()] *)
Definition to_str (e : DirEntry) : option string := from_utf8 (as_bytes (de_name e)).

Class Fs (F : Type) : Type := {
  fs_cwd : place;
  FsFile : Type;
  fs_create_dir_all : string → state F (io unit);
  (** [File::create(p)], and [write_all], [flush] on what it opened *)
  fs_create : string → state F (io FsFile);
  fs_write_all : FsFile → bytes → state F (io unit);
  fs_flush : FsFile → state F (io unit);
  (** [tokio::fs::write] *)
  fs_write : string → bytes → state F (io unit);
  fs_read : string → state F (io bytes);
  fs_remove_file : string → state F (io unit);
  (** [read_dir(p)]: what [next_entry] then yields, one after the other *)
  fs_read_dir : string → state F (io (list (io DirEntry)));
}.

(** [?] on an operation of the file system *)
Definition lift_io {F A} (m : state F (io A)) : state F (result A) := fun s => let '(r, s') := m s in (of_io r, s').

Section operations.
Context {F : Type} `{!Fs F}.
Definition where_ (p : string) : place := resolve fs_cwd p.

(** [File::create(p)?], [f.write_all(data)?], [f.flush()?] *)
Definition write_flush (f : FsFile) (data : bytes) : state F (result unit) :=
  _ ←? lift_io (fs_write_all f data);
  lift_io (fs_flush f).

(** [tokio::fs::read_to_string]: [read], and an error of another kind when the
    contents are not UTF-8 *)
Definition fs_read_to_string (p : string) : state F (io string) :=
  r ← fs_read p;
  mret match r with
       | IoOk b => match from_utf8 b with
                   | Some s => IoOk s
                   | None => IoErr false "stream did not contain valid UTF-8"
                   end
       | IoErr k e => IoErr k e
       end.
End operations.

Class FsLaws (F : Type) `{Fs F} : Type := {
  fs_files : F → gmap place bytes;
  fs_dirs : F → gset place;
  (** the file a handle writes to, at the end of what is in it *)
  fs_open : F → FsFile → option place;
  fs_mkdir_files p s r s' : fs_create_dir_all p s = (r, s') → fs_files s' = fs_files s;
  fs_mkdir_dirs p s r s' : fs_create_dir_all p s = (r, s') →
    fs_dirs s ⊆ fs_dirs s' ∧
    (∀ d, d ∈ fs_dirs s' → d ∈ fs_dirs s ∨ d `suffix_of` where_ p) ∧
    (r = IoOk tt → ∀ d, d `suffix_of` where_ p → d ∈ fs_dirs s');
  fs_create_effect p s r s' : fs_create p s = (r, s') →
    fs_dirs s' = fs_dirs s ∧
    match r with
    | IoOk f => fs_files s' = <[where_ p := []]> (fs_files s) ∧ fs_open s' f = Some (where_ p)
    | IoErr _ _ => fs_files s' = fs_files s
    end;
  fs_write_flush_effect f data s p old r s' :
    fs_open s f = Some p → fs_files s !! p = Some old → write_flush f data s = (r, s') →
    fs_dirs s' = fs_dirs s ∧
    match r with
    | Ok _ => fs_files s' = <[p := old ++ data]> (fs_files s)
    | Err _ => ∃ k, fs_files s' = <[p := old ++ take k data]> (fs_files s)
    end;
  fs_write_effect p data s r s' : fs_write p data s = (r, s') →
    fs_dirs s' = fs_dirs s ∧
    match r with
    | IoOk _ => fs_files s' = <[where_ p := data]> (fs_files s)
    | IoErr _ _ => fs_files s' = fs_files s ∨ ∃ k, fs_files s' = <[where_ p := take k data]> (fs_files s)
    end;
  fs_read_effect p s r s' : fs_read p s = (r, s') →
    fs_dirs s' = fs_dirs s ∧ fs_files s' = fs_files s ∧
    match r with
    | IoOk b => fs_files s !! where_ p = Some b
    | IoErr not_found _ => not_found = true → ".." ∉ components p → fs_files s !! where_ p = None
    end;
  fs_remove_effect p s r s' : fs_remove_file p s = (r, s') →
    fs_dirs s' = fs_dirs s ∧
    match r with
    | IoOk _ => is_Some (fs_files s !! where_ p) ∧ fs_files s' = delete (where_ p) (fs_files s)
    | IoErr not_found _ => fs_files s' = fs_files s ∧
                           (not_found = true → ".." ∉ components p → fs_files s !! where_ p = None)
    end;
  fs_read_dir_effect p s r s' : fs_read_dir p s = (r, s') →
    fs_dirs s' = fs_dirs s ∧ fs_files s' = fs_files s ∧
    match r with
    | IoOk l =>
        NoDup (omap (fun e => match e with IoOk e => Some (de_name e) | IoErr _ _ => None end) l) ∧
        (∀ e, IoOk e ∈ l → plain (de_name e)) ∧
        (∀ e t, IoOk e ∈ l → de_type e = IoOk t →
           (t = IsDir ↔ de_name e :: where_ p ∈ fs_dirs s) ∧
           (t = IsFile ↔ is_Some (fs_files s !! (de_name e :: where_ p)))) ∧
        (Forall (fun e => match e with IoOk _ => True | IoErr _ _ => False end) l →
           ∀ n, plain n → n :: where_ p ∈ fs_dirs s ∨ is_Some (fs_files s !! (n :: where_ p)) →
           ∃ e, IoOk e ∈ l ∧ de_name e = n)
    | IoErr not_found _ => not_found = true → ".." ∉ components p → where_ p ∉ fs_dirs s
    end;
}.

(** [serde_json::to_string_pretty] and [serde_json::from_slice]; [from_str]
    reads the bytes of its argument. *)
Class Json (T : Type) : Type := {
  json_pretty : T → result string;
  json_from_slice : bytes → result T;
}.
(** What was printed is read back; it is text, and not only white space. *)
Class JsonLaws (T : Type) `{Json T} : Prop := json_round (x : T) s : json_pretty x = Ok s →
  json_from_slice (as_bytes s) = Ok x ∧ from_utf8 (as_bytes s) = Some s ∧ is_blank s = false.

(** ** Where an operation may write *)

Section effects.
Context {F : Type} `{!Fs F, !FsLaws F}.

(** Nothing but the file at [p] is touched. *)
Definition only_at (p : place) : relation F := fun s s' => ∀ q, q ≠ p → fs_files s' !! q = fs_files s !! q.
#[export] Instance only_at_preorder p : PreOrder (only_at p).
Proof. split; [by intros s q|]. intros a b c H1 H2 q Hq. by rewrite H2, H1. Qed.

Definition same_files : relation F := fun s s' => fs_files s' = fs_files s.
#[export] Instance same_files_preorder : PreOrder same_files.
Proof. split; [by intros s|]. intros a b c H1 H2. unfold same_files in *. congruence. Qed.

Lemma same_only_at p s s' : same_files s s' → only_at p s s'.
Proof. intros E q _. by rewrite E. Qed.

Lemma run_lift_io {A} (m : state F (io A)) s : lift_io m s = (of_io (m s).1, (m s).2).
Proof. unfold lift_io. by destruct (m s). Qed.

Lemma mkdir_same p : respects same_files (lift_io (fs_create_dir_all p)).
Proof. intros s. unfold exec. rewrite run_lift_io. cbn. destruct (fs_create_dir_all p s) eqn:E. by eapply fs_mkdir_files. Qed.

Lemma read_same p : respects same_files (fs_read p).
Proof. intros s. unfold exec. destruct (fs_read p s) eqn:E. by apply fs_read_effect in E as (_ & ? & _). Qed.

Lemma read_to_string_same p : respects same_files (fs_read_to_string p).
Proof.
  unfold fs_read_to_string. apply respects_bind; [typeclasses eauto|apply read_same|].
  intros r. apply respects_ret. typeclasses eauto.
Qed.

Lemma read_dir_same p : respects same_files (fs_read_dir p).
Proof. intros s. unfold exec. destruct (fs_read_dir p s) eqn:E. by apply fs_read_dir_effect in E as (_ & ? & _). Qed.

(** A new file, written at once. *)
Lemma run_create_file p s r s' :
  lift_io (fs_create p) s = (r, s') →
  match r with
  | Ok f => fs_files s' = <[where_ p := []]> (fs_files s) ∧ fs_open s' f = Some (where_ p)
  | Err _ => fs_files s' = fs_files s
  end.
Proof.
  rewrite run_lift_io. destruct (fs_create p s) as [r0 s0] eqn:E. apply fs_create_effect in E as [_ E].
  cbn. intros [= <- <-]. by destruct r0.
Qed.

Lemma run_write_flush f data s p old r s' :
  fs_open s f = Some p → fs_files s !! p = Some old → write_flush f data s = (r, s') →
  match r with
  | Ok _ => fs_files s' = <[p := old ++ data]> (fs_files s)
  | Err _ => ∃ k, fs_files s' = <[p := old ++ take k data]> (fs_files s)
  end.
Proof. intros Ho Hf E. by eapply fs_write_flush_effect in E as [_ E]. Qed.
End effects.
