(* ===== verification/UserStore.v ===== *)
(** * The user store

    src/src/user_store.rs: for every address a directory
    [<base>/users/<address>/] with the chat log ([chat.json]), the local
    profile ([profile.json]), images and other files; and a cache of profiles.

    The state is the file system and the cache. A method is an operation on
    it; [self.lock] makes those that take it atomic, and the clock reading a
    method takes is its argument. *)

From S2P Require Import Prelude Utf8 Text Files.
Open Scope Z_scope.
Open Scope stdpp_scope.

Record ChatMessage := mk_chat {
  cm_id : Z;  (* u64 *)
  cm_contact_address : string;
  cm_content : string;
  cm_is_sent : bool;
  cm_status : string;
  cm_timestamp : Z;
}.
#[export] Instance ChatMessage_eq_dec : EqDecision ChatMessage.
Proof. solve_decision. Defined.

Record ConversationSummary := mk_summary {
  su_contact_address : string;
  su_last_content : string;
  su_last_timestamp : Z;
  su_last_is_sent : bool;
  su_unread_count : Z;
}.
#[export] Instance ConversationSummary_eq_dec : EqDecision ConversationSummary.
Proof. solve_decision. Defined.

Record UserProfile := mk_profile {
  up_name : string;
  up_notes : string;
  up_avatar_path : option string;
  up_added_at : Z;
  up_nickname : string;
  up_gender : string;
  up_age : Z;
  up_country : string;
  up_ethnicity : string;
  up_blood_type : string;
  up_height_cm : Z;
  up_weight_kg : Z;
  up_education : string;
  up_home_address : string;
}.
#[export] Instance UserProfile_eq_dec : EqDecision UserProfile.
Proof. solve_decision. Defined.

(** [UserProfile::default()] *)
Definition default_profile (now : Z) : UserProfile := mk_profile "" "" None now "" "" 0 "" "" "" 0 0 "" "".

Record UserStore (F : Type) := mk_store {
  us_fs : F;
  us_cache : gmap string UserProfile;
}.
Arguments mk_store {F}.
Arguments us_fs {F}.
Arguments us_cache {F}.

(** [!m.is_sent && m.status == "received"] *)
Definition is_unread (m : ChatMessage) : bool := negb (cm_is_sent m) && bool_decide (cm_status m = "received").
Definition unread (msgs : list ChatMessage) : Z := Z.of_nat (length (List.filter is_unread msgs)).
Definition set_status (st : string) (m : ChatMessage) : ChatMessage :=
  mk_chat (cm_id m) (cm_contact_address m) (cm_content m) (cm_is_sent m) st (cm_timestamp m).

(** [msgs.iter_mut().rev().find(|m| m.is_sent)], and the status set there: the
    messages up to the last sent one, that one, and those after it *)
Fixpoint update_last_sent (st : string) (msgs : list ChatMessage) : option (list ChatMessage) :=
  match msgs with
  | [] => None
  | m :: l =>
      match update_last_sent st l with
      | Some l' => Some (m :: l')
      | None => if cm_is_sent m then Some (set_status st m :: l) else None
      end
  end.

Section store.
Context {F : Type} `{!Fs F}.
Context (base_path : string).

Definition new (fs : F) : UserStore F := mk_store fs ∅.

(** An operation of the file system on the store. *)
Definition on_fs {A} (m : state F A) : state (UserStore F) A :=
  fun us => let '(a, fs) := m (us_fs us) in (a, mk_store fs (us_cache us)).
Definition set_cache (f : gmap string UserProfile → gmap string UserProfile) : state (UserStore F) unit :=
  modify (fun us => mk_store (us_fs us) (f (us_cache us))).

(** What the spawned closure does once it holds the lock. *)
Definition clear_profile_cache : state (UserStore F) unit := set_cache (fun _ => ∅).

Definition user_dir (address : string) : string := join (join base_path "users") address.
Definition images_dir (address : string) : string := join (user_dir address) "images".
Definition chat_path (address : string) : string := join (user_dir address) "chat.json".
Definition ensure_user_dir (address : string) : state F (result string) :=
  let dir := user_dir address in
  _ ←? lift_io (fs_create_dir_all dir);
  mret (Ok dir).
Definition ensure_images_dir (address : string) : state F (result string) :=
  let dir := images_dir address in
  _ ←? lift_io (fs_create_dir_all dir);
  mret (Ok dir).

Definition create_parent (full : string) : state F (result unit) :=
  match parent full with
  | Some p => lift_io (fs_create_dir_all p)
  | None => mret (Ok tt)
  end.

Definition store_file (address rel_path : string) (data : bytes) : state F (result unit) :=
  let full := join (user_dir address) rel_path in
  _ ←? create_parent full;
  f ←? lift_io (fs_create full);
  write_flush f data.

(** [Ok(x) => Ok(f x)], [NotFound] is [d], any other error an error *)
Definition or_not_found {A B} (f : A → result B) (d : B) (r : io A) : result B :=
  match r with
  | IoOk a => f a
  | IoErr true _ => Ok d
  | IoErr false e => Err e
  end.

Definition read_file (address rel_path : string) : state F (result (option bytes)) :=
  r ← fs_read (join (user_dir address) rel_path);
  mret (or_not_found (fun data => Ok (Some data)) None r).

Definition delete_file (address rel_path : string) : state F (result bool) :=
  r ← fs_remove_file (join (user_dir address) rel_path);
  mret (or_not_found (fun _ => Ok true) false r).

(** [while let Some(entry) = entries.next_entry().await?], for each entry of
    the type asked for whose name is text *)
Fixpoint each_entry {A} (ty : FileType) (entries : list (io DirEntry)) (acc : A)
    (body : string → A → state F A) : state F (result A) :=
  match entries with
  | [] => mret (Ok acc)
  | IoErr _ e :: _ => mret (Err e)
  | IoOk entry :: rest =>
      match de_type entry with
      | IoErr _ e => mret (Err e)
      | IoOk t =>
          if decide (t = ty) then
            match to_str entry with
            | Some name => acc' ← body name acc; each_entry ty rest acc' body
            | None => each_entry ty rest acc body
            end
          else each_entry ty rest acc body
      end
  end.

Definition list_files (address subdir : string) : state F (result (list string)) :=
  r ← fs_read_dir (join (user_dir address) subdir);
  match r with
  | IoErr true _ => mret (Ok [])
  | IoErr false e => mret (Err e)
  | IoOk entries =>
      names ←? each_entry IsFile entries [] (fun name names => mret (names ++ [name]));
      mret (Ok (sort_strings names))
  end.

Definition store_json {T} `{!Json T} (address rel_path : string) (value : T) : state F (result unit) :=
  match json_pretty value with
  | Err e => mret (Err e)
  | Ok data => store_file address rel_path (as_bytes data)
  end.

Definition load_json {T} `{!Json T} (address rel_path : string) : state F (result (option T)) :=
  b ←? read_file address rel_path;
  match b with
  | Some data => mret (value ← json_from_slice data; Ok (Some value))
  | None => mret (Ok None)
  end.

(** ** Chat messages *)

Context `{!Json (list ChatMessage)}.

Definition parse_log (content : string) : result (list ChatMessage) :=
  if is_blank content then Ok [] else json_from_slice (as_bytes content).

Definition read_messages_raw (address : string) : state F (result (list ChatMessage)) :=
  r ← fs_read_to_string (chat_path address);
  mret (or_not_found parse_log [] r).

Definition write_messages_raw (address : string) (msgs : list ChatMessage) : state F (result unit) :=
  match json_pretty msgs with
  | Err e => mret (Err e)
  | Ok content =>
      let full := join (user_dir address) "chat.json" in
      _ ←? create_parent full;
      lift_io (fs_write full (as_bytes content))
  end.

Definition next_message_id (msgs : list ChatMessage) : Z :=
  match last msgs with Some m => wrap_u 64 (cm_id m + 1) | None => 1 end.

Definition add_message (now : Z) (contact content : string) (is_sent : bool) (status : string) :
    state F (result ChatMessage) :=
  _ ←? ensure_user_dir contact;
  msgs ←? read_messages_raw contact;
  let msg := mk_chat (next_message_id msgs) contact content is_sent status now in
  _ ←? write_messages_raw contact (msgs ++ [msg]);
  mret (Ok msg).

Definition update_last_sent_status (contact new_status : string) : state F (result unit) :=
  msgs ←? read_messages_raw contact;
  match update_last_sent new_status msgs with
  | Some msgs' => write_messages_raw contact msgs'
  | None => mret (Ok tt)
  end.

Definition get_messages (contact : string) : state F (result (list ChatMessage)) := read_messages_raw contact.

Definition mark_read (m : ChatMessage) : ChatMessage := if is_unread m then set_status "read" m else m.

Definition mark_as_read (contact : string) : state F (result unit) :=
  msgs ←? read_messages_raw contact;
  if existsb is_unread msgs then write_messages_raw contact (mark_read <$> msgs) else mret (Ok tt).

Definition get_unread_count (contact : string) : state F (result Z) :=
  msgs ←? read_messages_raw contact;
  mret (Ok (unread msgs)).

(** [read_messages_raw(name).await.unwrap_or_default()] *)
Definition messages_or_none (name : string) : state F (list ChatMessage) :=
  r ← read_messages_raw name;
  mret (unwrap_or [] r).

(** The directories under [users], with a fold over the log of each. *)
Definition each_user {A} (init : A) (body : string → list ChatMessage → A → A) : state F (result A) :=
  r ← fs_read_dir (join base_path "users");
  match r with
  | IoErr true _ => mret (Ok init)
  | IoErr false e => mret (Err e)
  | IoOk entries =>
      each_entry IsDir entries init (fun name acc => msgs ← messages_or_none name; mret (body name msgs acc))
  end.

Definition get_all_contacts_with_unread : state F (result (list (string * Z))) :=
  result ←? each_user [] (fun name msgs result => result ++ [(name, unread msgs)]);
  mret (Ok (sort_by (fun a b => str_leb a.1 b.1) result)).

Definition summarize (name : string) (last : ChatMessage) (msgs : list ChatMessage) : ConversationSummary :=
  mk_summary name (cm_content last) (cm_timestamp last) (cm_is_sent last) (unread msgs).

Definition get_conversations : state F (result (list ConversationSummary)) :=
  result ←? each_user [] (fun name msgs result =>
    match last msgs with
    | Some last => result ++ [summarize name last msgs]
    | None => result
    end);
  mret (Ok (sort_by (fun a b => su_last_timestamp b <=? su_last_timestamp a) result)).

(** ** Profiles

    Saving and loading as they go when nothing comes in between; [ProfileRace]
    cuts them where they wait. *)

Context `{!Json UserProfile}.

Definition save_profile (address : string) (profile : UserProfile) : state (UserStore F) (result unit) :=
  _ ←? on_fs (ensure_user_dir address);
  _ ←? on_fs (store_json address "profile.json" profile);
  _ ← set_cache <[address := profile]>;
  mret (Ok tt).

(** The part of [load_profile] that holds no lock of the cache: it reads the
    file. *)
Definition profile_from_disk (now : Z) (address : string) : state F (result UserProfile) :=
  profile ←? load_json address "profile.json";
  mret (Ok (default (default_profile now) profile)).

Definition load_profile (now : Z) (address : string) : state (UserStore F) (result UserProfile) :=
  cache ← gets us_cache;
  match cache !! address with
  | Some profile => mret (Ok profile)
  | None =>
      profile ←? on_fs (profile_from_disk now address);
      _ ← set_cache <[address := profile]>;
      mret (Ok profile)
  end.

(** ** Images *)

Definition image_path (name : string) : string := "images/" +:+ name.

Definition save_image (address name : string) (data : bytes) : state F (result unit) :=
  _ ←? ensure_images_dir address;
  store_file address (image_path name) data.
Definition load_image (address name : string) : state F (result (option bytes)) := read_file address (image_path name).
Definition delete_image (address name : string) : state F (result bool) := delete_file address (image_path name).
Definition list_images (address : string) : state F (result (list string)) := list_files address "images".
End store.

#[global] Arguments write_flush : simpl never.
#[global] Arguments fs_read_to_string : simpl never.

(** ** The logs, abstractly

    What the methods do to the list of messages of one contact. *)

Inductive log_op :=
| Append (now : Z) (content : string) (is_sent : bool) (status : string)
| SetLastSent (status : string)
| MarkRead.

Definition apply_op (contact : string) (op : log_op) (l : list ChatMessage) : list ChatMessage :=
  match op with
  | Append now content is_sent status => l ++ [mk_chat (next_message_id l) contact content is_sent status now]
  | SetLastSent st => default l (update_last_sent st l)
  | MarkRead => mark_read <$> l
  end.

Definition run_op {F} `{!Fs F, !Json (list ChatMessage)} (base contact : string) (op : log_op) : state F (result unit) :=
  match op with
  | Append now content is_sent status =>
      _ ←? add_message base now contact content is_sent status; mret (Ok tt)
  | SetLastSent st => update_last_sent_status base contact st
  | MarkRead => mark_as_read base contact
  end.

(** The ids of a log are 1, 2, 3, ... *)
Definition numbered (l : list ChatMessage) : Prop := cm_id <$> l = seqZ 1 (Z.of_nat (length l)).

Lemma update_last_sent_fields {A} (f : ChatMessage → A) st l l' :
  (∀ m, f (set_status st m) = f m) → update_last_sent st l = Some l' → f <$> l' = f <$> l.
Proof.
  intros Hf. revert l'. induction l as [|m l IH]; intros l'; cbn; [done|].
  destruct (update_last_sent st l) as [l1|] eqn:E; [intros [= <-]; cbn; by rewrite IH|].
  destruct (cm_is_sent m); [intros [= <-]; cbn; by rewrite Hf|done].
Qed.

Lemma mark_read_fields {A} (f : ChatMessage → A) (l : list ChatMessage) :
  (∀ m, f (set_status "read" m) = f m) → f <$> (mark_read <$> l) = f <$> l.
Proof.
  intros Hf. rewrite <- list_fmap_compose. apply list_fmap_ext. intros i m _. cbn. unfold mark_read.
  by destruct (is_unread m).
Qed.

Lemma mark_read_none m : is_unread (mark_read m) = false.
Proof. unfold mark_read. destruct (is_unread m) eqn:E; [|done]. unfold is_unread. cbn. by destruct (cm_is_sent m). Qed.

Lemma mark_read_unread (l : list ChatMessage) : unread (mark_read <$> l) = 0.
Proof. unfold unread. induction l as [|m l IH]; [done|]. cbn. by rewrite mark_read_none. Qed.

Lemma mark_read_nothing (l : list ChatMessage) : existsb is_unread l = false → mark_read <$> l = l.
Proof.
  induction l as [|m l IH]; [done|]. cbn. intros [Hm Hl]%orb_false_iff.
  unfold mark_read at 1. rewrite Hm. by rewrite IH.
Qed.

Lemma numbered_ids (l l' : list ChatMessage) : cm_id <$> l' = cm_id <$> l → numbered l → numbered l'.
Proof.
  unfold numbered. intros E H. assert (length l' = length l) as ->; [|congruence].
  by rewrite <- (length_fmap cm_id l'), E, length_fmap.
Qed.

Lemma numbered_next l : numbered l → Z.of_nat (length l) < 2 ^ 64 - 1 → next_message_id l = Z.of_nat (length l) + 1.
Proof.
  intros H Hl. unfold next_message_id. destruct (last l) as [m|] eqn:E.
  - rewrite last_lookup in E. assert (Hid : (cm_id <$> l) !! pred (length l) = Some (cm_id m)) by by rewrite list_lookup_fmap, E.
    rewrite H in Hid. apply lookup_seqZ in Hid as [Hid Hi]. assert (cm_id m = Z.of_nat (length l)) as -> by lia. apply wrap_u_small. unfold in_u. lia.
  - apply last_None in E as ->. done.
Qed.

Lemma numbered_append l now c content sent st :
  numbered l → Z.of_nat (length l) < 2 ^ 64 - 1 → numbered (apply_op c (Append now content sent st) l).
Proof.
  intros H Hl. unfold numbered in *. cbn [apply_op]. rewrite fmap_app, H, length_app. cbn [length fmap list_fmap cm_id].
  rewrite numbered_next by done. rewrite Nat2Z.inj_add, seqZ_app by lia. f_equal.
  rewrite seqZ_cons by lia. change (Z.pred (Z.of_nat 1)) with 0. rewrite seqZ_nil by lia. f_equal. lia.
Qed.

(** Ids are given in order, whatever happens to the log. *)
Lemma numbered_op contact op l : Z.of_nat (length l) < 2 ^ 64 - 1 → numbered l → numbered (apply_op contact op l).
Proof.
  intros Hl H. destruct op as [now content sent st|st|]; cbn [apply_op].
  - by apply (numbered_append l now contact content sent st).
  - destruct (update_last_sent st l) as [l'|] eqn:E; [|done]. cbn. eapply numbered_ids; [|done].
    by eapply update_last_sent_fields.
  - eapply numbered_ids; [|done]. by apply mark_read_fields.
Qed.

(** ** What the methods do to the files *)

Section properties.
Context {F : Type} `{!Fs F, !FsLaws F}.
Context `{!Json (list ChatMessage), !JsonLaws (list ChatMessage)}.
Context (base : string).

Definition chat_place (c : string) : place := where_ (chat_path base c).

Lemma where_user_dir c : plain c → where_ (user_dir base c) = c :: "users" :: where_ base.
Proof.
  intros Hc. unfold where_, user_dir. rewrite resolve_join_plain by done. f_equal.
  by apply resolve_join_plain, (bool_decide_unpack _).
Qed.

Lemma chat_place_eq c : plain c → chat_place c = "chat.json" :: c :: "users" :: where_ base.
Proof.
  intros Hc. rewrite <- where_user_dir by done. unfold chat_place, chat_path, where_.
  by apply resolve_join_plain, (bool_decide_unpack _).
Qed.

Lemma chat_place_inj c d : plain c → plain d → c ≠ d → chat_place d ≠ chat_place c.
Proof. intros Hc Hd Hne E. rewrite !chat_place_eq in E by done. congruence. Qed.

(** The log of a contact, as the file has it. *)
Definition text_log (b : bytes) : result (list ChatMessage) :=
  match from_utf8 b with
  | Some s => parse_log s
  | None => Err "stream did not contain valid UTF-8"
  end.
Definition log (s : F) (c : string) : result (list ChatMessage) :=
  match fs_files s !! chat_place c with Some b => text_log b | None => Ok [] end.

Lemma log_written s c msgs content :
  json_pretty msgs = Ok content → fs_files s !! chat_place c = Some (as_bytes content) → log s c = Ok msgs.
Proof.
  intros Ej Ef. unfold log. rewrite Ef. apply json_round in Ej as (Ej & Eu & Eb).
  unfold text_log. rewrite Eu. unfold parse_log. by rewrite Eb.
Qed.

Lemma log_only_at s s' c d : plain c → plain d → d ≠ c → only_at (chat_place c) s s' → log s' d = log s d.
Proof. intros Hc Hd Hne H. unfold log. by rewrite H by (by apply chat_place_inj). Qed.

Lemma log_same s s' c : same_files s s' → log s' c = log s c.
Proof. intros E. unfold log. by rewrite E. Qed.

Context (base_down : ".." ∉ components base).

Lemma chat_path_down c : plain c → ".." ∉ components (chat_path base c).
Proof.
  intros Hc. unfold chat_path, user_dir. rewrite !components_join by (done || by apply plain_relative).
  rewrite (plain_components c) by done. destruct Hc as (_ & _ & _ & Hc).
  change (components "users") with ["users"]. change (components "chat.json") with ["chat.json"]. set_solver.
Qed.

Lemma read_messages_effect c s r s' :
  plain c → read_messages_raw base c s = (r, s') → same_files s s' ∧ ∀ l, r = Ok l → log s c = Ok l.
Proof.
  intros Hc. unfold read_messages_raw, fs_read_to_string. rewrite !run_bind.
  destruct (fs_read (chat_path base c) s) as [r0 s0] eqn:E. apply fs_read_effect in E as (_ & Es & E).
  cbn. intros [= <- <-]. split; [done|]. intros l. unfold log. destruct r0 as [b|[] e]; cbn.
  - fold (chat_place c) in E. rewrite E.
    unfold text_log. by destruct (from_utf8 b).
  - intros [= <-]. unfold chat_place. rewrite E; [done|done|by apply chat_path_down].
  - done.
Qed.

Lemma create_parent_same full : respects same_files (create_parent full).
Proof. unfold create_parent. destruct (parent full); [apply mkdir_same|apply respects_ret; typeclasses eauto]. Qed.

Lemma ensure_user_dir_same c : respects same_files (ensure_user_dir base c).
Proof. apply respects_try_bind; [typeclasses eauto|apply mkdir_same|intros _; apply respects_ret; typeclasses eauto]. Qed.

(** A write of the log: it is there afterwards, or the write failed and left
    the file as it was or with the first bytes of the new text. *)
Lemma write_messages_effect c msgs s r s' :
  write_messages_raw base c msgs s = (r, s') →
  only_at (chat_place c) s s' ∧
  match r with
  | Ok _ => log s' c = Ok msgs
  | Err _ => fs_files s' = fs_files s ∨
             ∃ content k, json_pretty msgs = Ok content ∧
                          fs_files s' !! chat_place c = Some (take k (as_bytes content))
  end.
Proof.
  unfold write_messages_raw. destruct (json_pretty msgs) as [content|e] eqn:Ej; [|by intros [= <- <-]; split; [|left]].
  rewrite run_try_bind. pose proof (create_parent_same (join (user_dir base c) "chat.json") s) as Hp. unfold exec in Hp.
  destruct (create_parent _ s) as [[[]|e] s1]; cbn in Hp; [|intros [= <- <-]; split; [by apply same_only_at|by left]].
  rewrite run_lift_io. destruct (fs_write _ _ s1) as [r1 s2] eqn:E. apply fs_write_effect in E as [_ E].
  fold (chat_path base c) in E. fold (chat_place c) in E. cbn. intros [= <- <-]. destruct r1 as [[]|b e]; cbn.
  - split; [|eapply log_written; [done|by rewrite E, lookup_insert_eq]].
    intros q Hq. by rewrite E, lookup_insert_ne, Hp.
  - destruct E as [E|(k & E)]; [split; [apply same_only_at|left]; unfold same_files in *; congruence|]. split.
    + intros q Hq. by rewrite E, lookup_insert_ne, Hp.
    + right. exists content, k. by rewrite E, lookup_insert_eq.
Qed.

Lemma read_then {A} c (k : list ChatMessage → state F (result A)) s r s' :
  plain c → try_bind (read_messages_raw base c) k s = (r, s') →
  (∃ e, r = Err e ∧ same_files s s') ∨
  ∃ l s1, log s c = Ok l ∧ same_files s s1 ∧ k l s1 = (r, s').
Proof.
  intros Hc. rewrite run_try_bind. destruct (read_messages_raw base c s) as [r1 s1] eqn:E.
  apply read_messages_effect in E as [Hs Hl]; [|done]. destruct r1 as [l|e]; [by right; exists l, s1; auto|].
  intros [= <- <-]. left. eauto.
Qed.

(** A log is replaced as a whole. *)
Definition replaced (c : string) (s s' : F) (r : result unit) (new : list ChatMessage → list ChatMessage) : Prop :=
  only_at (chat_place c) s s' ∧
  match r with
  | Ok _ => ∃ l, log s c = Ok l ∧ log s' c = Ok (new l)
  | Err _ => fs_files s' = fs_files s ∨
             ∃ l content k, log s c = Ok l ∧ json_pretty (new l) = Ok content ∧
                            fs_files s' !! chat_place c = Some (take k (as_bytes content))
  end.

Lemma replaced_error c s s' e new : same_files s s' → replaced c s s' (Err e) new.
Proof. intros H. split; [by apply same_only_at|by left]. Qed.

Lemma replaced_same c s s' l (new : list ChatMessage → list ChatMessage) :
  log s c = Ok l → new l = l → same_files s s' → replaced c s s' (Ok tt) new.
Proof. intros El En H. split; [by apply same_only_at|]. exists l. split; [done|]. by rewrite (log_same s s'), En. Qed.

Lemma replaced_write c s s1 l new r s' :
  log s c = Ok l → same_files s s1 → write_messages_raw base c (new l) s1 = (r, s') → replaced c s s' r new.
Proof.
  intros El Hs [Ho E]%write_messages_effect. split; [by etrans; [apply same_only_at|]|].
  destruct r as [u|e]; [by eauto|]. destruct E as [E|(content & k & Ej & E)]; [left; congruence|right; by exists l, content, k].
Qed.

Lemma run_op_effect c op s r s' : plain c → run_op base c op s = (r, s') → replaced c s s' r (apply_op c op).
Proof.
  intros Hc. destruct op as [now content sent st|st|]; cbn [run_op apply_op].
  - unfold add_message. rewrite !run_try_bind. pose proof (ensure_user_dir_same c s) as Hs. unfold exec in Hs.
    destruct (ensure_user_dir base c s) as [[d|e] s1]; cbn in Hs; [|intros [= <- <-]; by apply replaced_error].
    destruct (try_bind _ _ s1) as [r2 s2] eqn:E. apply read_then in E as [(e & -> & H)|(l & s3 & El & H & E)]; [| |done].
    { intros [= <- <-]. apply replaced_error. unfold same_files in *. congruence. }
    rewrite run_try_bind in E. destruct (write_messages_raw _ _ _ s3) as [r4 s4] eqn:Ew.
    rewrite (log_same s s1) in El by done. assert (Hs3 : same_files s s3) by (unfold same_files in *; congruence).
    pose proof (replaced_write c s s3 l (apply_op c (Append now content sent st)) _ _ El Hs3 Ew).
    destruct r4 as [[]|e]; injection E as <- <-; by intros [= <- <-].
  - intros E. unfold update_last_sent_status in E.
    apply read_then in E as [(e & -> & H)|(l & s1 & El & H & E)]; [by apply replaced_error| |done].
    destruct (update_last_sent st l) as [l'|] eqn:Eu.
    + apply (replaced_write c s s1 l (apply_op c (SetLastSent st)) r s' El H). cbn. by rewrite Eu.
    + injection E as <- <-. apply (replaced_same c s s1 l); [done|cbn; by rewrite Eu|done].
  - intros E. unfold mark_as_read in E.
    apply read_then in E as [(e & -> & H)|(l & s1 & El & H & E)]; [by apply replaced_error| |done].
    destruct (existsb is_unread l) eqn:Eu; [by apply (replaced_write c s s1 l (fmap mark_read) r s' El H)|].
    injection E as <- <-. apply (replaced_same c s s1 l); [done|by apply mark_read_nothing|done].
Qed.

(** ** Logs of all contacts *)

Definition represents (s : F) (L : string → list ChatMessage) : Prop := ∀ c, plain c → log s c = Ok (L c).
Definition log_step (L : string → list ChatMessage) (o : string * log_op) : string → list ChatMessage :=
  fun c => if decide (c = o.1) then apply_op c o.2 (L c) else L c.
Fixpoint run_ops (ops : list (string * log_op)) : state F (result unit) :=
  match ops with
  | [] => mret (Ok tt)
  | (c, op) :: ops' => _ ←? run_op base c op; run_ops ops'
  end.

Lemma run_op_represents c op s s' L :
  plain c → represents s L → run_op base c op s = (Ok tt, s') → represents s' (log_step L (c, op)).
Proof.
  intros Hc HL (Ho & l & El & El')%run_op_effect d Hd; [|done]. unfold log_step. cbn. case_decide as Hdc.
  - subst d. rewrite HL in El by done. by injection El as <-.
  - by rewrite (log_only_at s s' c d), HL.
Qed.

Lemma apply_op_length c op l : (length (apply_op c op l) ≤ S (length l))%nat.
Proof.
  destruct op as [now content sent st|st|]; cbn [apply_op].
  - rewrite length_app. cbn. lia.
  - destruct (update_last_sent st l) as [l'|] eqn:E; cbn; [|lia].
    apply (update_last_sent_fields cm_id) in E; [|done]. apply (f_equal length) in E. rewrite !length_fmap in E. lia.
  - rewrite length_fmap. lia.
Qed.

(** C21. The logs are lists of messages, one for each contact. Whatever
    sequence of messages added, deliveries reported and conversations read
    runs without an error, the file of each contact holds exactly the list
    these operations make of it, the operations on the other contacts having
    no effect on it; the messages are numbered from one in order; and what is
    read back and counted as unread is that list. *)
Theorem chat_logs_refined ops s s' L :
  represents s L → Forall (fun o => plain o.1) ops →
  (∀ c, numbered (L c) ∧ Z.of_nat (length (L c) + length ops) < 2 ^ 64 - 1) →
  run_ops ops s = (Ok tt, s') →
  let L' := foldl log_step L ops in
  represents s' L' ∧
  (∀ c, numbered (L' c)) ∧
  ∀ c, plain c →
    (∀ l s2, get_messages base c s' = (Ok l, s2) → l = L' c ∧ same_files s' s2) ∧
    (∀ n s2, get_unread_count base c s' = (Ok n, s2) → n = unread (L' c) ∧ same_files s' s2).
Proof.
  revert s L. induction ops as [|[c op] ops IH]; intros s L HL Hp Hn E; cbn in E.
  - injection E as ->. split_and!; [done|apply Hn|]. intros c Hc. split.
    + intros l s2 [Hs Hl]%read_messages_effect; [|done]. rewrite HL in Hl by done. by injection (Hl l eq_refl).
    + intros n s2 E. unfold get_unread_count in E.
      apply read_then in E as [(e & ? & _)|(l & s1 & El & H & E)]; [done| |done].
      rewrite HL in El by done. injection El as <-. by injection E as <- <-.
  - apply Forall_cons in Hp as [Hc Hp]. rewrite run_try_bind in E.
    destruct (run_op base c op s) as [[[]|e] s1] eqn:E1; [|done].
    apply (run_op_represents _ _ _ _ L) in E1; [|done..]. apply (IH s1 (log_step L (c, op))); [done..| |done].
    intros d. unfold log_step. cbn. case_decide as Hd; [|destruct (Hn d); cbn [length] in *; split; [done|lia]].
    subst d. destruct (Hn c) as [Hnc Hlc]. cbn [length] in Hlc. split; [apply numbered_op; [lia|done]|].
    pose proof (apply_op_length c op (L c)). lia.
Qed.

(** C26. A method that fails leaves every file but the log of its own contact as
    it was; that one it leaves as it was, too, unless the write broke off in
    the middle: then it holds the first bytes of the text of the very log that
    was to be written, the old log with this method's change. *)
Theorem failed_operation c op s e s' :
  plain c → run_op base c op s = (Err e, s') →
  only_at (chat_place c) s s' ∧ (∀ d, plain d → d ≠ c → log s' d = log s d) ∧
  (fs_files s' = fs_files s ∨
   ∃ l content k, log s c = Ok l ∧ json_pretty (apply_op c op l) = Ok content ∧
                  fs_files s' !! chat_place c = Some (take k (as_bytes content))).
Proof.
  intros Hc [Ho E]%run_op_effect; [|done]. split_and!; [done| |done]. intros d Hd Hne. by apply log_only_at with c.
Qed.
End properties.

(** ** Files of a user *)

Section files.
Context {F : Type} `{!Fs F, !FsLaws F}.
Context (base : string).

Definition file_place (address rel_path : string) : place := where_ (join (user_dir base address) rel_path).

Lemma store_file_effect address rel data s r s' :
  store_file base address rel data s = (r, s') →
  only_at (file_place address rel) s s' ∧
  (r = Ok tt → fs_files s' !! file_place address rel = Some data).
Proof.
  unfold store_file. rewrite run_try_bind. fold (file_place address rel).
  pose proof (create_parent_same (join (user_dir base address) rel) s) as Hp. unfold exec in Hp.
  destruct (create_parent _ s) as [[u|e] s1]; cbn in Hp; [|intros [= <- <-]; split; [by apply same_only_at|done]].
  rewrite run_try_bind. destruct (lift_io (fs_create _) s1) as [[f|e] s2] eqn:E; apply run_create_file in E;
    [|intros [= <- <-]; split; [apply same_only_at; unfold same_files in *; congruence|done]].
  destruct E as [E Ho]. fold (file_place address rel) in E, Ho. intros Ew.
  eapply run_write_flush in Ew; [|done|by rewrite E, lookup_insert_eq].
  assert (Hw : ∃ k, fs_files s' = <[file_place address rel := take k data]> (fs_files s2) ∧ (r = Ok tt → take k data = data)).
  { destruct r as [[]|e]; [exists (length data); rewrite Ew; split; [by rewrite firstn_all|intros _; by rewrite firstn_all]|].
    destruct Ew as (k & Ew). by exists k. }
  destruct Hw as (k & Hw & Hk). split.
  - intros q Hq. rewrite Hw, E, !lookup_insert_ne by done. by rewrite Hp.
  - intros Hr. by rewrite Hw, lookup_insert_eq, Hk.
Qed.

Lemma read_file_effect address rel s r s' :
  read_file base address rel s = (r, s') →
  same_files s s' ∧
  (∀ d, r = Ok (Some d) → fs_files s !! file_place address rel = Some d) ∧
  (r = Ok None → ".." ∉ components (join (user_dir base address) rel) → fs_files s !! file_place address rel = None).
Proof.
  unfold read_file. rewrite run_bind. destruct (fs_read _ s) as [r0 s0] eqn:E.
  apply fs_read_effect in E as (_ & Es & E). fold (file_place address rel) in E. cbn. intros [= <- <-].
  split; [done|]. destruct r0 as [b|[] e]; cbn; split; try done; [by intros d [= <-]|]. intros _. by apply E.
Qed.

Lemma delete_file_effect address rel s r s' :
  delete_file base address rel s = (r, s') → only_at (file_place address rel) s s' ∧
  (r = Ok true → is_Some (fs_files s !! file_place address rel) ∧ fs_files s' !! file_place address rel = None).
Proof.
  unfold delete_file. rewrite run_bind. destruct (fs_remove_file _ s) as [r0 s0] eqn:E.
  apply fs_remove_effect in E as [_ E]. fold (file_place address rel) in E. cbn. intros [= <- <-].
  destruct r0 as [b|nf e].
  - destruct E as [Hs E]. split; [|intros _; split; [done|by rewrite E, lookup_delete_eq]].
    intros q Hq. by rewrite E, lookup_delete_ne.
  - destruct E as [E _]. split; [by apply same_only_at|]. by destruct nf.
Qed.

(** A relative path without [..] leads into the directory it is joined to. *)
Lemma file_place_down address rel :
  is_absolute address = false → ".." ∉ components address →
  is_absolute rel = false → ".." ∉ components rel →
  file_place address rel = reverse (components rel) ++ reverse (components address) ++ "users" :: where_ base.
Proof.
  intros Ha Hda Hr Hdr. unfold file_place, user_dir, where_. rewrite !resolve_join by done.
  rewrite !walk_down by (done || by set_solver). done.
Qed.

(** What an absolute file name, or address, makes the store work on: that very
    file, wherever it is. *)
Definition taken_as_is (address rel : string) : string := if is_absolute rel then rel else join address rel.

Lemma absolute_path address rel :
  is_absolute rel || is_absolute address = true →
  join (user_dir base address) rel = taken_as_is address rel ∧ is_absolute (taken_as_is address rel) = true.
Proof.
  unfold taken_as_is, user_dir. destruct (is_absolute rel) eqn:Er; cbn [orb].
  - intros _. unfold join at 1. by rewrite Er.
  - intros Ha. rewrite is_absolute_join by done. split; [|done]. f_equal. unfold join. by rewrite Ha.
Qed.

(** C25. The store keeps an address to the directory under [users] as long as the
    address and the file name are relative and have no [..]: whatever is
    written or deleted is there. An absolute file name is taken as it is, and
    so is a file name below an absolute address: what can be read, deleted or
    created at that path of the file system at all, is read, deleted or written
    there by the store, outside its directory. *)
Theorem files_contained address rel data s :
  (is_absolute address = false → ".." ∉ components address →
   is_absolute rel = false → ".." ∉ components rel →
   ∀ q, ¬ reverse (components address) ++ "users" :: where_ base `suffix_of` q →
     fs_files (exec (store_file base address rel data) s) !! q = fs_files s !! q ∧
     fs_files (exec (delete_file base address rel) s) !! q = fs_files s !! q) ∧
  (is_absolute rel || is_absolute address = true →
   let path := taken_as_is address rel in
   is_absolute path = true ∧
   (∀ d s', fs_read path s = (IoOk d, s') →
      read_file base address rel s = (Ok (Some d), s') ∧ fs_files s !! where_ path = Some d) ∧
   (∀ s', fs_remove_file path s = (IoOk tt, s') →
      delete_file base address rel s = (Ok true, s') ∧
      is_Some (fs_files s !! where_ path) ∧ fs_files s' !! where_ path = None) ∧
   (∀ s1 f s2 s', create_parent path s = (Ok tt, s1) → fs_create path s1 = (IoOk f, s2) →
      write_flush f data s2 = (Ok tt, s') →
      store_file base address rel data s = (Ok tt, s') ∧ fs_files s' !! where_ path = Some data)).
Proof.
  split.
  - intros Ha Hda Hr Hdr q Hq. assert (Hne : q ≠ file_place address rel).
    { intros ->. apply Hq. rewrite file_place_down by done. by apply suffix_app_r. }
    unfold exec. destruct (store_file base address rel data s) as [r1 s1] eqn:E1.
    destruct (delete_file base address rel s) as [r2 s2] eqn:E2. cbn.
    apply store_file_effect in E1 as [E1 _]. apply delete_file_effect in E2 as [E2 _]. by rewrite E1, E2.
  - intros Habs. destruct (absolute_path address rel Habs) as [Hp Hpa]. cbv zeta.
    assert (Hplace : file_place address rel = where_ (taken_as_is address rel)) by (unfold file_place; by rewrite Hp).
    rewrite <- Hplace. split; [done|]. split_and!.
    + intros d s' E. assert (Er : read_file base address rel s = (Ok (Some d), s')).
      { unfold read_file. rewrite run_bind, Hp, E. done. }
      split; [done|]. apply read_file_effect in Er as (_ & Er & _). by apply Er.
    + intros s' E. assert (Er : delete_file base address rel s = (Ok true, s')).
      { unfold delete_file. rewrite run_bind, Hp, E. done. }
      split; [done|]. apply delete_file_effect in Er as (_ & Er). by apply Er.
    + intros s1 f s2 s' E1 E2 E3. assert (Er : store_file base address rel data s = (Ok tt, s')).
      { unfold store_file. rewrite run_try_bind, Hp, E1, run_try_bind, run_lift_io, E2. exact E3. }
      split; [done|]. apply store_file_effect in Er as (_ & Er). by apply Er.
Qed.

(** ** Profiles and their cache *)

Context `{!Json UserProfile, !JsonLaws UserProfile}.
Context (base_down : ".." ∉ components base).

Definition disk (s : F) (a : string) : result (option UserProfile) :=
  match fs_files s !! file_place a "profile.json" with
  | Some b => p ← json_from_slice b; Ok (Some p)
  | None => Ok None
  end.

(** What is cached for an address is what its file holds; without a file, a
    default profile. *)
Definition coherent (us : UserStore F) : Prop :=
  ∀ a p, plain a → us_cache us !! a = Some p →
    disk (us_fs us) a = Ok (Some p) ∨ disk (us_fs us) a = Ok None ∧ ∃ now, p = default_profile now.

Lemma profile_place_eq a : plain a → file_place a "profile.json" = "profile.json" :: a :: "users" :: where_ base.
Proof.
  intros Ha. rewrite <- (where_user_dir base a) by done. unfold file_place, where_.
  by apply resolve_join_plain, (bool_decide_unpack _).
Qed.

Lemma disk_only_at s s' a b :
  plain a → plain b → b ≠ a → only_at (file_place a "profile.json") s s' → disk s' b = disk s b.
Proof.
  intros Ha Hb Hne H. unfold disk. rewrite H; [done|]. rewrite !profile_place_eq by done. congruence.
Qed.

Lemma run_on_fs {A} (m : state F A) us : on_fs m us = ((m (us_fs us)).1, mk_store (m (us_fs us)).2 (us_cache us)).
Proof. unfold on_fs. by destruct (m (us_fs us)). Qed.

Lemma save_profile_effect a p us r us' :
  save_profile base a p us = (r, us') →
  only_at (file_place a "profile.json") (us_fs us) (us_fs us') ∧
  match r with
  | Ok _ => us_cache us' = <[a := p]> (us_cache us) ∧ disk (us_fs us') a = Ok (Some p)
  | Err _ => us_cache us' = us_cache us
  end.
Proof.
  unfold save_profile. rewrite run_try_bind, run_on_fs. pose proof (ensure_user_dir_same base a (us_fs us)) as Hs.
  unfold exec in Hs. destruct (ensure_user_dir base a (us_fs us)) as [[d|e] s1]; cbn in *;
    [|intros [= <- <-]; split; [by apply same_only_at|done]].
  rewrite run_try_bind, run_on_fs. cbn. unfold store_json. destruct (json_pretty p) as [text|e] eqn:Ej; cbn;
    [|intros [= <- <-]; split; [by apply same_only_at|done]].
  destruct (store_file base a "profile.json" (as_bytes text) s1) as [r2 s2] eqn:E.
  apply store_file_effect in E as [Ho E]. cbn. destruct r2 as [[]|e].
  - intros [= <- <-]. cbn. split; [etrans; [by apply same_only_at|done]|]. split; [done|].
    unfold disk. rewrite E by done. apply json_round in Ej as [-> _]. done.
  - intros [= <- <-]. split; [|done]. etrans; [by apply same_only_at|done].
Qed.

Lemma profile_from_disk_effect now a s r s' :
  plain a → profile_from_disk base now a s = (r, s') →
  same_files s s' ∧ ∀ p, r = Ok p → disk s a = Ok (Some p) ∨ disk s a = Ok None ∧ p = default_profile now.
Proof.
  intros Ha. unfold profile_from_disk, load_json. rewrite !run_try_bind.
  destruct (read_file base a "profile.json" s) as [r1 s1] eqn:E. apply read_file_effect in E as (Hs & H1 & H2).
  destruct r1 as [[b|]|e]; cbn.
  - specialize (H1 b eq_refl). unfold disk. rewrite H1. destruct (json_from_slice b) as [p|e]; cbn; intros [= <- <-];
      (split; [done|]); [by intros q [= <-]; left|done].
  - intros [= <- <-]. split; [done|]. intros p [= <-]. right. split; [|done]. unfold disk. rewrite H2; [done|done|].
    unfold user_dir. rewrite !components_join by (done || by apply plain_relative). rewrite (plain_components a) by done.
    destruct Ha as (_ & _ & _ & Ha). change (components "users") with ["users"].
    change (components "profile.json") with ["profile.json"]. set_solver.
  - intros [= <- <-]. by split.
Qed.

Lemma load_profile_effect now a us r us' :
  plain a → coherent us → load_profile base now a us = (r, us') →
  same_files (us_fs us) (us_fs us') ∧ coherent us' ∧ ∀ p, r = Ok p → us_cache us' !! a = Some p.
Proof.
  intros Ha Hc. unfold load_profile. rewrite run_bind. cbn. destruct (us_cache us !! a) as [p|] eqn:Ep.
  - intros [= <- <-]. split_and!; [done..|]. by intros q [= <-].
  - rewrite run_try_bind, run_on_fs. destruct (profile_from_disk base now a (us_fs us)) as [r1 s1] eqn:E.
    apply profile_from_disk_effect in E as [Hs E]; [|done]. assert (Hd : ∀ b, disk s1 b = disk (us_fs us) b).
    { intros b. unfold disk. by rewrite Hs. }
    destruct r1 as [p|e]; cbn; intros [= <- <-]; cbn; (split; [done|]).
    + split; [|intros q [= <-]; by rewrite lookup_insert_eq]. intros b q Hb. cbn. rewrite Hd.
      destruct (decide (b = a)) as [->|Hne]; [rewrite lookup_insert_eq; intros [= <-]|rewrite lookup_insert_ne by done; by apply Hc].
      destruct (E p eq_refl) as [?|[? ->]]; [by left|right; eauto].
    + split; [|done]. intros b q Hb. cbn. rewrite Hd. by apply Hc.
Qed.

(** One call after the other, and saves that end well: a profile that was
    loaded or saved is the one on disk, a profile just saved is the one loaded
    next without reading the disk, and a second load gives what the first
    gave. *)
Theorem calls_in_turn us a :
  coherent us → plain a →
  (∀ now r us', load_profile base now a us = (r, us') →
     coherent us' ∧ (∀ b, disk (us_fs us') b = disk (us_fs us) b) ∧
     ∀ p now', r = Ok p → load_profile base now' a us' = (Ok p, us')) ∧
  (∀ p us', save_profile base a p us = (Ok tt, us') →
     coherent us' ∧ disk (us_fs us') a = Ok (Some p) ∧
     (∀ b, plain b → b ≠ a → disk (us_fs us') b = disk (us_fs us) b) ∧
     ∀ now, load_profile base now a us' = (Ok p, us')).
Proof.
  intros Hc Ha.
  assert (Hhit : ∀ us' p now, us_cache us' !! a = Some p → load_profile base now a us' = (Ok p, us')).
  { intros us' p now E. unfold load_profile. rewrite run_bind. cbn. by rewrite E. }
  split.
  - intros now r us' (Hs & Hc' & Hp)%load_profile_effect; [|done..]. split_and!; [done| |].
    + intros b. unfold disk. by rewrite Hs.
    + intros p now' Hr. by apply Hhit, Hp.
  - intros p us' (Ho & Hcache & Hd)%save_profile_effect. split_and!; [|done| |].
    + intros b q Hb. rewrite Hcache. destruct (decide (b = a)) as [->|Hne].
      * rewrite lookup_insert_eq. intros [= <-]. by left.
      * rewrite lookup_insert_ne by done. rewrite (disk_only_at (us_fs us) _ a b) by done. by apply Hc.
    + intros b Hb Hne. by apply (disk_only_at _ _ a b).
    + intros now. apply Hhit. by rewrite Hcache, lookup_insert_eq.
Qed.

(** A load that reads the file before a profile is saved, and puts what it
    read into the cache after: from then on loads give the old profile, while
    the file holds the new one. *)
Theorem load_races_with_save us a now old us1 p us2 :
  on_fs (profile_from_disk base now a) us = (Ok old, us1) →
  save_profile base a p us1 = (Ok tt, us2) →
  let us3 := exec (set_cache <[a := old]>) us2 in
  disk (us_fs us3) a = Ok (Some p) ∧ ∀ now', load_profile base now' a us3 = (Ok old, us3).
Proof.
  intros _ (_ & _ & Hd)%save_profile_effect. cbn. split; [done|]. intros now'.
  unfold load_profile. rewrite run_bind. cbn. by rewrite lookup_insert_eq.
Qed.
End files.

(** ** All contacts *)

Section contacts.
Context {F : Type} `{!Fs F, !FsLaws F}.
Context `{!Json (list ChatMessage), !JsonLaws (list ChatMessage)}.
Context (base : string) (base_down : ".." ∉ components base).

Definition entry_names (l : list (io DirEntry)) : list string :=
  omap (fun e => match e with IoOk e => Some (de_name e) | IoErr _ _ => None end) l.

(** The logs that were found: one for each directory, empty when it could not
    be read. *)
Definition found_logs (s : F) (found : list (string * list ChatMessage)) : Prop :=
  NoDup found.*1 ∧
  ∀ n msgs, (n, msgs) ∈ found →
    plain n ∧ n :: "users" :: where_ base ∈ fs_dirs s ∧ (log base s n = Ok msgs ∨ msgs = []).

Lemma messages_or_none_effect n s msgs s' :
  plain n → messages_or_none base n s = (msgs, s') → same_files s s' ∧ (log base s n = Ok msgs ∨ msgs = []).
Proof.
  intros Hn. unfold messages_or_none. rewrite run_bind. destruct (read_messages_raw base n s) as [r s1] eqn:E.
  apply read_messages_effect in E as [Hs E]; [|done..]. intros [= <- <-]. split; [done|].
  destruct r as [l|e]; [left; by apply E|by right].
Qed.

Lemma to_str_name e n : to_str e = Some n → n = de_name e.
Proof.
  unfold to_str. intros H. apply from_utf8_lossy_valid in H as [_ H]. by apply as_bytes_inj in H.
Qed.

Lemma each_entry_effect {A} (body : string → list ChatMessage → A → A) entries acc s r s' :
  NoDup (entry_names entries) → (∀ e, IoOk e ∈ entries → plain (de_name e)) →
  each_entry IsDir entries acc (fun n acc => msgs ← messages_or_none base n; mret (body n msgs acc)) s = (r, s') →
  same_files s s' ∧
  ∀ a, r = Ok a → ∃ found,
    a = foldl (fun acc p => body p.1 p.2 acc) acc found ∧ NoDup found.*1 ∧
    ∀ n msgs, (n, msgs) ∈ found →
      (∃ e, IoOk e ∈ entries ∧ de_name e = n ∧ de_type e = IoOk IsDir) ∧ (log base s n = Ok msgs ∨ msgs = []).
Proof.
  revert acc s. induction entries as [|[e|nf e] entries IH]; intros acc s Hn Hp E; cbn [each_entry] in E.
  - injection E as <- <-. split; [done|]. intros a [= <-]. exists []. split_and!; [done|constructor|set_solver].
  - assert (Hskip : each_entry IsDir entries acc (fun n acc => msgs ← messages_or_none base n; mret (body n msgs acc)) s = (r, s') →
      same_files s s' ∧ ∀ a, r = Ok a → ∃ found, a = foldl (fun acc p => body p.1 p.2 acc) acc found ∧ NoDup found.*1 ∧
      ∀ n msgs, (n, msgs) ∈ found →
        (∃ e', IoOk e' ∈ IoOk e :: entries ∧ de_name e' = n ∧ de_type e' = IoOk IsDir) ∧ (log base s n = Ok msgs ∨ msgs = [])).
    { intros E'. apply IH in E' as [Hs E']; [|by apply NoDup_cons in Hn as [_ Hn]|set_solver]. split; [done|].
      intros a Ha. destruct (E' a Ha) as (found & -> & Hnd & Hf). exists found. split_and!; [done..|].
      intros n msgs Hin. destruct (Hf n msgs Hin) as [(e' & He & ?) ?]. split; [exists e'; split; [set_solver|done]|done]. }
    destruct (de_type e) as [t|? ?] eqn:Et; [|injection E as <- <-; by split].
    case_decide as Ht; [|by apply Hskip]. subst t. destruct (to_str e) as [n|] eqn:Ename; [|by apply Hskip].
    clear Hskip. apply to_str_name in Ename as ->. rewrite !run_bind in E.
    destruct (messages_or_none base (de_name e) s) as [msgs s1] eqn:Em. cbn in E.
    apply messages_or_none_effect in Em as [Hs1 Em]; [|apply Hp; set_solver].
    apply NoDup_cons in Hn as [Hnot Hn]. apply IH in E as [Hs E]; [|done|set_solver].
    split; [by etrans|]. intros a Ha. destruct (E a Ha) as (found & -> & Hnd & Hf).
    exists ((de_name e, msgs) :: found). split_and!; [done| |].
    + cbn. constructor; [|done]. intros ([n' m'] & Hn' & Hin)%list_elem_of_fmap. cbn in Hn'. subst n'.
      destruct (Hf _ _ Hin) as [(e' & He & Hee & _) _]. apply Hnot. unfold entry_names.
      apply list_elem_of_omap. exists (IoOk e'). split; [done|congruence].
    + intros n m [[= -> ->]|Hin]%elem_of_cons; [split; [exists e; set_solver|done]|].
      destruct (Hf _ _ Hin) as [(e' & He & ?) Hl]. split; [exists e'; set_solver|]. by rewrite (log_same base s s1) in Hl.
  - injection E as <- <-. by split.
Qed.

Lemma each_user_effect {A} (init : A) (body : string → list ChatMessage → A → A) s r s' :
  each_user base init body s = (r, s') →
  same_files s s' ∧
  ∀ a, r = Ok a → ∃ found, a = foldl (fun acc p => body p.1 p.2 acc) init found ∧ found_logs s found.
Proof.
  unfold each_user. rewrite run_bind. destruct (fs_read_dir _ s) as [r0 s0] eqn:E.
  apply fs_read_dir_effect in E as (Ed & Es & E).
  assert (Hw : where_ (join base "users") = "users" :: where_ base) by (by apply resolve_join_plain, (bool_decide_unpack _)).
  destruct r0 as [l|[] e].
  - destruct E as (Hnd & Hplain & Htype & _). intros E. apply each_entry_effect in E as [Hs E]; [|done..].
    split; [unfold same_files in *; congruence|]. intros a Ha. destruct (E a Ha) as (found & -> & Hn & Hf).
    exists found. split; [done|]. split; [done|]. intros n msgs Hin.
    destruct (Hf n msgs Hin) as [(e & He & <- & Ht) Hl]. split_and!; [by apply Hplain| |by rewrite (log_same base s s0) in Hl].
    rewrite <- Hw. by apply (Htype e IsDir).
  - intros [= <- <-]. split; [done|]. intros a [= <-]. exists []. split; [done|]. split; [constructor|set_solver].
  - intros [= <- <-]. by split.
Qed.

Lemma foldl_snoc_omap {A B} (f : A → option B) (body : list B → A → list B) (l : list A) (acc : list B) :
  (∀ acc x, body acc x = match f x with Some y => acc ++ [y] | None => acc end) →
  foldl body acc l = acc ++ omap f l.
Proof.
  intros Hb. revert acc. induction l as [|x l IH]; intros acc; cbn; [by rewrite app_nil_r|]. rewrite IH, Hb.
  destruct (f x); cbn; by rewrite <- ?(assoc_L (++)).
Qed.

Definition summary_of (p : string * list ChatMessage) : option ConversationSummary :=
  (fun m => summarize p.1 m p.2) <$> last p.2.
Definition newest_first (a b : ConversationSummary) : bool := su_last_timestamp b <=? su_last_timestamp a.

Lemma omap_nodup_key {A B} (f : A → option B) (k : A → string) (k' : B → string) (l : list A) :
  (∀ a b, f a = Some b → k' b = k a) → NoDup (k <$> l) → NoDup (k' <$> omap f l).
Proof.
  intros Hf. induction l as [|a l IH]; cbn; [constructor|]. intros [Hnot Hn]%NoDup_cons.
  destruct (f a) as [b|] eqn:E; [|by apply IH]. cbn. constructor; [|by apply IH].
  intros (b' & Hb' & (a' & Ha' & Hin)%list_elem_of_omap)%list_elem_of_fmap. apply Hnot.
  rewrite <- (Hf a b E), Hb', (Hf a' b' Hin). apply list_elem_of_fmap. eauto.
Qed.

(** The conversations come newest first, at most one for a contact, each
    with the last message of that contact's log and the number of its unread
    messages; the list of contacts is sorted by address and has the same
    numbers. *)
Theorem conversations_listed s :
  (∀ l s', get_conversations base s = (Ok l, s') →
     same_files s s' ∧ StronglySorted (fun a b => newest_first a b = true) l ∧
     NoDup (su_contact_address <$> l) ∧
     ∀ su, su ∈ l → ∃ msgs m, log base s (su_contact_address su) = Ok msgs ∧ last msgs = Some m ∧
                              su = summarize (su_contact_address su) m msgs) ∧
  (∀ l s', get_all_contacts_with_unread base s = (Ok l, s') →
     same_files s s' ∧ StronglySorted (fun a b => str_leb a.1 b.1 = true) l ∧ NoDup l.*1 ∧
     ∀ c n, (c, n) ∈ l → ∃ msgs, (log base s c = Ok msgs ∨ msgs = []) ∧ n = unread msgs).
Proof.
  split; intros l s' E.
  - unfold get_conversations in E. rewrite run_try_bind in E.
    destruct (each_user base _ _ s) as [[a|e] s1] eqn:Eu; [|done]. injection E as <- <-.
    apply each_user_effect in Eu as [Hs Eu]. destruct (Eu a eq_refl) as (found & -> & Hnd & Hf). clear Eu.
    rewrite (foldl_snoc_omap summary_of) by (intros acc [n msgs]; unfold summary_of; cbn; by destruct (last msgs)).
    cbn [app]. split_and!; [done| | |].
    + apply (sort_by_sorted newest_first); [intros x y|intros x y z]; unfold newest_first; rewrite !Z.leb_le; lia.
    + rewrite sort_by_perm. eapply omap_nodup_key; [|exact Hnd].
      intros [n msgs] su. unfold summary_of. cbn. destruct (last msgs); cbn; [by intros [= <-]|done].
    + intros su. rewrite sort_by_perm. intros ([n msgs] & Hin & Hsu)%list_elem_of_omap. unfold summary_of in Hsu. cbn in Hsu.
      destruct (last msgs) as [m|] eqn:El; [|done]. injection Hsu as <-. cbn.
      destruct (Hf n msgs Hin) as (_ & _ & [Hl| ->]); [eauto|done].
  - unfold get_all_contacts_with_unread in E. rewrite run_try_bind in E.
    destruct (each_user base _ _ s) as [[a|e] s1] eqn:Eu; [|done]. injection E as <- <-.
    apply each_user_effect in Eu as [Hs Eu]. destruct (Eu a eq_refl) as (found & -> & Hnd & Hf). clear Eu.
    rewrite (foldl_snoc_omap (fun p => Some (p.1, unread p.2))) by done. cbn [app]. split_and!; [done| | |].
    + apply (sort_by_sorted (fun a b : string * Z => str_leb a.1 b.1)); [intros x y; apply str_leb_total|].
      intros x y z. apply str_leb_trans.
    + rewrite sort_by_perm. eapply omap_nodup_key; [|exact Hnd]. by intros p q [= <-].
    + intros c n. rewrite sort_by_perm. intros ([c' msgs] & Hin & [= <- <-])%list_elem_of_omap.
      destruct (Hf c' msgs Hin) as (_ & _ & Hl). cbn. eauto.
Qed.
End contacts.
