(* ===== verification/StoreRace.v ===== *)
(** * Methods of the user store at once

    src/src/user_store.rs guards the methods that change a chat log by one
    lock; [get_messages] and [get_unread_count] take none, and a write of a
    file is not one step: the file is emptied and then filled. [UserStore]
    takes a method for one step; here the methods that change logs are cut at
    every [await], any number of them is called at once, and the logs are
    looked at in between. *)

From S2P Require Import Prelude Utf8 Text Files UserStore.
Open Scope Z_scope.
Open Scope stdpp_scope.

(** ** The methods, cut *)

Abbreviation call := (string * log_op)%type (only parsing).

(** Where the method with the lock stands: its guard taken; its directory
    there; the log read and changed; the text made and its write begun. *)
Inductive turn :=
| Locked (o : call)
| Reading (o : call)
| Saving (o : call) (msgs : list ChatMessage)
| Writing (o : call) (msgs : list ChatMessage) (content : string).

(** How a method ended; [en_broken]: with its write begun and not
    completed. *)
Record Ending := mk_ending { en_call : call; en_result : result unit; en_broken : bool }.

(** The methods waiting for [self.lock], the one whose guard it is, the
    methods that ended, in that order, and the file system. *)
Record Shared (F : Type) := mk_shared {
  sh_waiting : list call;
  sh_guard : option turn;
  sh_ended : list Ending;
  sh_fs : F;
}.
Arguments mk_shared {F} sh_waiting sh_guard sh_ended sh_fs.
Arguments sh_waiting {F} s.
Arguments sh_guard {F} s.
Arguments sh_ended {F} s.
Arguments sh_fs {F} s.

(** What is to be written, if anything. *)
Definition changed (o : call) (msgs : list ChatMessage) : option (list ChatMessage) :=
  match o.2 with
  | Append _ _ _ _ => Some (apply_op o.1 o.2 msgs)
  | SetLastSent status => update_last_sent status msgs
  | MarkRead => if existsb is_unread msgs then Some (mark_read <$> msgs) else None
  end.

Section race.
Context {F : Type} `{!Fs F, !FsLaws F}.
Context `{!Json (list ChatMessage), !JsonLaws (list ChatMessage)}.
Context (base : string).

Definition prepare (o : call) : state F (result unit) :=
  match o.2 with
  | Append _ _ _ _ => _ ←? ensure_user_dir base o.1; mret (Ok tt)
  | _ => mret (Ok tt)
  end.

(** How [tokio::fs::write] may end, once it has begun. *)
Definition write_ends (p : place) (data : bytes) (s : F) (r : result unit) (s' : F) : Prop :=
  match r with
  | Ok _ => fs_files s' = <[p := data]> (fs_files s)
  | Err _ => fs_files s' = fs_files s ∨ ∃ k, fs_files s' = <[p := take k data]> (fs_files s)
  end.

Definition leave (o : call) (r : result unit) (broken : bool) (x : Shared F) (s : F) : Shared F :=
  mk_shared (sh_waiting x) None (sh_ended x ++ [mk_ending o r broken]) s.
Definition go (t : turn) (x : Shared F) (s : F) : Shared F := mk_shared (sh_waiting x) (Some t) (sh_ended x) s.

Inductive shared_step (x : Shared F) : Shared F → Prop :=
| take_lock l1 o l2 :
    sh_waiting x = l1 ++ o :: l2 → sh_guard x = None →
    shared_step x (mk_shared (l1 ++ l2) (Some (Locked o)) (sh_ended x) (sh_fs x))
| make_directory o r s' :
    sh_guard x = Some (Locked o) → prepare o (sh_fs x) = (r, s') →
    shared_step x (match r with Ok _ => go (Reading o) x s' | Err e => leave o (Err e) false x s' end)
| read_log o r s' :
    sh_guard x = Some (Reading o) → read_messages_raw base o.1 (sh_fs x) = (r, s') →
    shared_step x (match r with
                   | Ok msgs => match changed o msgs with
                                | Some msgs' => go (Saving o msgs') x s'
                                | None => leave o (Ok tt) false x s'
                                end
                   | Err e => leave o (Err e) false x s'
                   end)
| print_refused o msgs e :
    sh_guard x = Some (Saving o msgs) → json_pretty msgs = Err e →
    shared_step x (leave o (Err e) false x (sh_fs x))
| print_log o msgs content r s' :
    sh_guard x = Some (Saving o msgs) → json_pretty msgs = Ok content →
    create_parent (join (user_dir base o.1) "chat.json") (sh_fs x) = (r, s') →
    shared_step x (match r with Ok _ => go (Writing o msgs content) x s' | Err e => leave o (Err e) false x s' end)
| write_part o msgs content k s' :
    sh_guard x = Some (Writing o msgs content) →
    fs_files s' = <[chat_place base o.1 := take k (as_bytes content)]> (fs_files (sh_fs x)) →
    shared_step x (go (Writing o msgs content) x s')
| end_write o msgs content r s' :
    sh_guard x = Some (Writing o msgs content) →
    write_ends (chat_place base o.1) (as_bytes content) (sh_fs x) r s' →
    shared_step x (leave o r (negb (is_ok r)) x s')
(** Everything else, the reading methods among it, leaves the logs alone. *)
| other_work s' :
    (∀ c, plain c → fs_files s' !! chat_place base c = fs_files (sh_fs x) !! chat_place base c) →
    shared_step x (mk_shared (sh_waiting x) (sh_guard x) (sh_ended x) s').

(** The pieces one after the other are the method. *)
Lemma run_op_pieces o s :
  run_op base o.1 o.2 s =
  (_ ←? prepare o; msgs ←? read_messages_raw base o.1;
   match changed o msgs with Some msgs' => write_messages_raw base o.1 msgs' | None => mret (Ok tt) end) s.
Proof.
  destruct o as [c [now content sent st|st|]]; cbn [run_op prepare changed fst snd].
  - unfold add_message. rewrite !run_try_bind. destruct (ensure_user_dir base c s) as [[d|e] s1]; [|done]. cbn [mret state_ret].
    rewrite !run_try_bind. destruct (read_messages_raw base c s1) as [[l|e] s2]; [|done]. cbn [apply_op].
    rewrite run_try_bind. by destruct (write_messages_raw _ _ _ s2) as [[[]|e] s3].
  - unfold update_last_sent_status. rewrite !run_try_bind. cbn [mret state_ret]. rewrite !run_try_bind.
    destruct (read_messages_raw base c s) as [[l|e] s1]; [|done]. by destruct (update_last_sent st l).
  - unfold mark_as_read. rewrite !run_try_bind. cbn [mret state_ret]. rewrite !run_try_bind.
    destruct (read_messages_raw base c s) as [[l|e] s1]; [|done]. by destruct (existsb is_unread l).
Qed.

Lemma step_then (P : bool → Shared F) x y :
  shared_step x y → (∃ b, rtc shared_step y (P b)) → ∃ b, rtc shared_step x (P b).
Proof. intros Hs [b Hb]. exists b. by eapply rtc_l. Qed.

(** Left alone a method does what it does in one step. *)
Lemma alone_ends o s r s' :
  run_op base o.1 o.2 s = (r, s') →
  ∃ broken, rtc shared_step (mk_shared [o] None [] s) (mk_shared [] None [mk_ending o r broken] s').
Proof.
  rewrite run_op_pieces, run_try_bind. intros E.
  eapply (step_then (fun b => mk_shared [] None [mk_ending o r b] s')); [by apply (take_lock _ [] o [])|]. cbn.
  pose proof (make_directory (mk_shared [] (Some (Locked o)) [] s) o) as Hstep. cbn in Hstep.
  destruct (prepare o s) as [[[]|e] s1]; specialize (Hstep _ _ eq_refl eq_refl); cbn in Hstep;
    [|injection E as <- <-; exists false; by apply rtc_once].
  eapply (step_then (fun b => mk_shared [] None [mk_ending o r b] s')); [exact Hstep|]. clear Hstep.
  rewrite run_try_bind in E.
  pose proof (read_log (mk_shared [] (Some (Reading o)) [] s1) o) as Hstep. cbn in Hstep.
  destruct (read_messages_raw base o.1 s1) as [[l|e] s2]; specialize (Hstep _ _ eq_refl eq_refl); cbn in Hstep;
    [|injection E as <- <-; exists false; by apply rtc_once].
  destruct (changed o l) as [msgs|]; [|injection E as <- <-; exists false; by apply rtc_once].
  eapply (step_then (fun b => mk_shared [] None [mk_ending o r b] s')); [exact Hstep|]. clear Hstep.
  unfold write_messages_raw in E. destruct (json_pretty msgs) as [content|e] eqn:Ej;
    [|injection E as <- <-; exists false; apply rtc_once; by apply (print_refused (mk_shared [] (Some (Saving o msgs)) [] s2) o msgs e)].
  rewrite run_try_bind in E.
  pose proof (print_log (mk_shared [] (Some (Saving o msgs)) [] s2) o msgs content) as Hstep. cbn in Hstep.
  destruct (create_parent _ s2) as [[[]|e] s3]; specialize (Hstep _ _ eq_refl Ej eq_refl); cbn in Hstep;
    [|injection E as <- <-; exists false; by apply rtc_once].
  eexists. eapply rtc_l; [exact Hstep|]. apply rtc_once.
  apply (end_write (mk_shared [] (Some (Writing o msgs content)) [] s3) o msgs content r s' eq_refl).
  rewrite run_lift_io in E. destruct (fs_write _ _ s3) as [r1 s4] eqn:Ew. apply fs_write_effect in Ew as [_ Ew].
  injection E as <- <-. unfold write_ends. cbn [of_io fst sh_fs]. by destruct r1.
Qed.

(** ** The logs *)

(** What the methods that ended well make of the logs [L]; the contacts whose
    log a method left broken. *)
Definition ended_well (e : Ending) : option call := match en_result e with Ok _ => Some (en_call e) | Err _ => None end.
Definition well (l : list Ending) : list call := omap ended_well l.
Definition broken (l : list Ending) : gset string := list_to_set ((fun e => (en_call e).1) <$> List.filter en_broken l).
Definition logs_of (L : string → list ChatMessage) (x : Shared F) : string → list ChatMessage :=
  foldl log_step L (well (sh_ended x)).

(** The log of [c] is as the methods that ended left it. *)
Definition intact (L : string → list ChatMessage) (x : Shared F) (c : string) : Prop :=
  plain c → c ∉ broken (sh_ended x) → log base (sh_fs x) c = Ok (logs_of L x c).

(** What the lock protects, and what the method with the guard has of it. *)
Record lock_inv (L : string → list ChatMessage) (x : Shared F) : Prop := {
  li_plain : Forall (fun o : call => plain o.1) (sh_waiting x);
  li_intact c : (∀ o msgs content, sh_guard x = Some (Writing o msgs content) → c ≠ o.1) → intact L x c;
  li_guard : match sh_guard x with
             | None => True
             | Some (Locked o) | Some (Reading o) => plain o.1
             | Some (Saving o msgs) =>
                 plain o.1 ∧ (o.1 ∉ broken (sh_ended x) → msgs = apply_op o.1 o.2 (logs_of L x o.1))
             | Some (Writing o msgs content) =>
                 plain o.1 ∧ (o.1 ∉ broken (sh_ended x) → msgs = apply_op o.1 o.2 (logs_of L x o.1)) ∧
                 json_pretty msgs = Ok content ∧
                 (intact L x o.1 ∨ ∃ k, fs_files (sh_fs x) !! chat_place base o.1 = Some (take k (as_bytes content)))
             end;
}.

Lemma logs_leave L o r b x s :
  logs_of L (leave o r b x s) = match r with Ok _ => log_step (logs_of L x) o | Err _ => logs_of L x end.
Proof.
  unfold logs_of, leave, well. cbn. rewrite omap_app, foldl_app. destruct r; done.
Qed.

Lemma broken_leave o r b x s c :
  c ∈ broken (sh_ended (leave o r b x s)) ↔ c ∈ broken (sh_ended x) ∨ (b = true ∧ c = o.1).
Proof.
  unfold broken, leave. cbn. rewrite List.filter_app, fmap_app, list_to_set_app, elem_of_union.
  destruct b; cbn; set_solver.
Qed.

Lemma log_step_other L o c : c ≠ o.1 → log_step L o c = L c.
Proof. intros Hc. unfold log_step. by rewrite decide_False. Qed.
Lemma log_step_own L o : log_step L o o.1 = apply_op o.1 o.2 (L o.1).
Proof. unfold log_step. by rewrite decide_True. Qed.

Lemma changed_none o l : changed o l = None → apply_op o.1 o.2 l = l.
Proof.
  destruct o as [c [| |]]; cbn; [done|intros ->; done|].
  destruct (existsb is_unread l) eqn:E; [done|]. intros _. by apply mark_read_nothing.
Qed.
Lemma changed_some o l l' : changed o l = Some l' → l' = apply_op o.1 o.2 l.
Proof.
  destruct o as [c [| |]]; cbn; [by intros [= ->]|intros ->; done|]. destruct (existsb is_unread l); [|done]. by intros [= ->].
Qed.

Lemma prepare_same o : respects same_files (prepare o).
Proof.
  unfold prepare. destruct o as [c [| |]]; cbn; try (apply respects_ret; typeclasses eauto).
  apply respects_try_bind; [typeclasses eauto|apply ensure_user_dir_same|intros _; apply respects_ret; typeclasses eauto].
Qed.

(** Nothing changes for [c] while its file does not. *)
Lemma intact_go L t x s c : plain c → fs_files s !! chat_place base c = fs_files (sh_fs x) !! chat_place base c →
  intact L x c → intact L (go t x s) c.
Proof. intros Hc Es H Hp Hb. unfold log. cbn. rewrite Es. by apply H. Qed.

Lemma intact_leave L o r b x s c :
  plain c → fs_files s !! chat_place base c = fs_files (sh_fs x) !! chat_place base c →
  (is_ok r = true → c = o.1 → c ∉ broken (sh_ended x) → apply_op o.1 o.2 (logs_of L x o.1) = logs_of L x o.1) →
  intact L x c → intact L (leave o r b x s) c.
Proof.
  intros Hc Es Hr H Hp Hb. rewrite broken_leave in Hb. rewrite logs_leave. unfold log. cbn [sh_fs leave]. rewrite Es.
  assert (Hn : c ∉ broken (sh_ended x)) by tauto.
  assert (E : match r with Ok _ => log_step (logs_of L x) o | Err _ => logs_of L x end c = logs_of L x c).
  { destruct r; [|done]. destruct (decide (c = o.1)) as [->|Hne]; [|by apply log_step_other].
    rewrite log_step_own. by apply Hr. }
  replace (match r with Ok _ => _ | Err _ => _ end c) with (logs_of L x c). by apply H.
Qed.

Context (base_down : ".." ∉ components base).

(** The methods keep the lock's promise. *)
Lemma shared_step_inv L x y : shared_step x y → lock_inv L x → lock_inv L y.
Proof.
  intros Hstep [Hp Hi Hg]. destruct Hstep as [l1 o l2 Ew Eg|o r s' Eg E|o r s' Eg E|o msgs e Eg Ej|o msgs content r s' Eg Ej E|o msgs content k s' Eg E|o msgs content r s' Eg E|s' E];
    try rewrite Eg in Hg.
  - rewrite Ew, Forall_app, Forall_cons in Hp. destruct Hp as (H1 & Ho & H2).
    split; cbn; [by apply Forall_app| |done]. intros c _. apply Hi. rewrite Eg. done.
  - pose proof (prepare_same o (sh_fs x)) as Hs. unfold exec in Hs. rewrite E in Hs. cbn in Hs.
    assert (Hall : ∀ c, intact L x c) by (intros c; apply Hi; rewrite Eg; done).
    destruct r as [[]|e]; split; cbn; try done.
    + intros c _ Hc. apply intact_go; [done|by rewrite Hs|done|done].
    + intros c _ Hc. apply intact_leave; [done|by rewrite Hs|done|done|done].
  - apply read_messages_effect in E as [Hs Hl]; [|done..].
    assert (Hall : ∀ c, intact L x c) by (intros c; apply Hi; rewrite Eg; done).
    assert (Hown : ∀ l, r = Ok l → o.1 ∉ broken (sh_ended x) → l = logs_of L x o.1).
    { intros l El Hb. pose proof (Hall o.1 Hg Hb) as E. rewrite (Hl l El) in E. by injection E. }
    destruct r as [l|e]; [destruct (changed o l) as [l'|] eqn:Ec|]; split; cbn; try done.
    + intros c _ Hc. apply intact_go; [done|by rewrite Hs|done|done].
    + split; [done|]. intros Hb. rewrite (changed_some _ _ _ Ec). f_equal. by apply Hown.
    + intros c _ Hc. apply intact_leave; [done|by rewrite Hs| |done|done].
      intros _ -> Hb. rewrite <- (Hown l eq_refl Hb). by apply changed_none.
    + intros c _ Hc. apply intact_leave; [done|by rewrite Hs|done|done|done].
  - assert (Hall : ∀ c, intact L x c) by (intros c; apply Hi; rewrite Eg; done).
    split; cbn; try done. intros c _ Hc. by apply intact_leave.
  - assert (Hall : ∀ c, intact L x c) by (intros c; apply Hi; rewrite Eg; done).
    pose proof (create_parent_same (join (user_dir base o.1) "chat.json") (sh_fs x)) as Hs. unfold exec in Hs. rewrite E in Hs. cbn in Hs.
    destruct r as [[]|e]; split; cbn; try done.
    + intros c _ Hc. apply intact_go; [done|by rewrite Hs|done|done].
    + destruct Hg as [Ho Hm]. split_and!; [done|done|done|]. left. intros Hc. apply intact_go; [done|by rewrite Hs|done|done].
    + intros c _ Hc. apply intact_leave; [done|by rewrite Hs|done|done|done].
  - destruct Hg as (Ho & Hm & Hj & _). split; cbn; [done| |].
    + intros c Hne Hc. specialize (Hne _ _ _ eq_refl). apply intact_go; [done| |by apply Hi; rewrite Eg; intros ? ? ? [= <- _ _]|done].
      by rewrite E, lookup_insert_ne by (by apply not_eq_sym, chat_place_inj).
    + split_and!; [done|done|done|]. right. exists k. by rewrite E, lookup_insert_eq.
  - destruct Hg as (Ho & Hm & Hj & Hown). split; cbn; [done| |done]. intros c _ Hc.
    assert (Hother : c ≠ o.1 → intact L x c) by (intros Hne; apply Hi; rewrite Eg; by intros ? ? ? [= <- _ _]).
    destruct (decide (c = o.1)) as [->|Hne].
    + rewrite broken_leave. intros Hb. destruct r as [[]|e]; [|exfalso; apply Hb; by right]. cbn in E.
      rewrite logs_leave, log_step_own, <- Hm by tauto. cbn [leave sh_fs].
      eapply log_written; [done|]. by rewrite E, lookup_insert_eq.
    + assert (Es : fs_files s' !! chat_place base c = fs_files (sh_fs x) !! chat_place base c).
      { assert (chat_place base o.1 ≠ chat_place base c) by by apply chat_place_inj.
        destruct r as [[]|e]; cbn in E; [by rewrite E, lookup_insert_ne|].
        destruct E as [->|[k ->]]; [done|by rewrite lookup_insert_ne]. }
      apply intact_leave; [done|done|done|by apply Hother|done].
  - assert (Hsame : ∀ c, intact L x c → intact L (mk_shared (sh_waiting x) (sh_guard x) (sh_ended x) s') c).
    { intros c H Hc Hb. unfold log. cbn [sh_fs]. rewrite E by done. by apply H. }
    split; cbn [sh_waiting sh_guard sh_ended sh_fs]; [done| |].
    + intros c Hne. apply Hsame. by apply Hi.
    + destruct (sh_guard x) as [[o|o|o msgs|o msgs content]|]; try done. destruct Hg as (Ho & Hm & Hj & Hown).
      split_and!; [done|done|done|]. destruct Hown as [Hown|[k Hk]]; [left; by apply Hsame|right; exists k; by rewrite E].
Qed.

(** ** A run

    The pieces of one method after the other, those of the file system
    included. *)
Definition next_piece (x : Shared F) : Shared F :=
  match sh_guard x with
  | None => match sh_waiting x with
            | [] => x
            | o :: l => mk_shared l (Some (Locked o)) (sh_ended x) (sh_fs x)
            end
  | Some (Locked o) => let '(r, s') := prepare o (sh_fs x) in
      match r with Ok _ => go (Reading o) x s' | Err e => leave o (Err e) false x s' end
  | Some (Reading o) => let '(r, s') := read_messages_raw base o.1 (sh_fs x) in
      match r with
      | Ok msgs => match changed o msgs with Some msgs' => go (Saving o msgs') x s' | None => leave o (Ok tt) false x s' end
      | Err e => leave o (Err e) false x s'
      end
  | Some (Saving o msgs) =>
      match json_pretty msgs with
      | Err e => leave o (Err e) false x (sh_fs x)
      | Ok content => let '(r, s') := create_parent (join (user_dir base o.1) "chat.json") (sh_fs x) in
          match r with Ok _ => go (Writing o msgs content) x s' | Err e => leave o (Err e) false x s' end
      end
  | Some (Writing o msgs content) =>
      let '(r, s') := fs_write (join (user_dir base o.1) "chat.json") (as_bytes content) (sh_fs x) in
      leave o (of_io r) (negb (is_ok (of_io r))) x s'
  end.

Lemma next_piece_run x : rtc shared_step x (next_piece x).
Proof.
  unfold next_piece. destruct (sh_guard x) as [[o|o|o msgs|o msgs content]|] eqn:Eg.
  - destruct (prepare o (sh_fs x)) as [r s'] eqn:E. apply rtc_once. by apply (make_directory x o r s').
  - destruct (read_messages_raw base o.1 (sh_fs x)) as [r s'] eqn:E. apply rtc_once. by apply (read_log x o r s').
  - destruct (json_pretty msgs) as [content|e] eqn:Ej; [|by apply rtc_once, print_refused with msgs].
    destruct (create_parent _ (sh_fs x)) as [r s'] eqn:E. apply rtc_once. by apply (print_log x o msgs content r s').
  - destruct (fs_write _ _ (sh_fs x)) as [r s'] eqn:E. apply fs_write_effect in E as [_ E].
    apply rtc_once, (end_write x o msgs content (of_io r) s' Eg). by destruct r.
  - destruct (sh_waiting x) as [|o l] eqn:Ew; [done|]. apply rtc_once. by apply (take_lock x [] o l).
Qed.

Lemma pieces_run n x : rtc shared_step x (Nat.iter n next_piece x).
Proof. induction n as [|n IH]; [done|]. cbn. etrans; [exact IH|apply next_piece_run]. Qed.

(** ** The end *)

Definition weight (t : turn) : nat :=
  match t with Locked _ => 4 | Reading _ => 3 | Saving _ _ => 2 | Writing _ _ _ => 1 end.
Definition left_to_do (x : Shared F) : nat :=
  5 * length (sh_waiting x) + match sh_guard x with Some t => weight t | None => 0 end.

Lemma write_can_end p data s : ∃ r, write_ends p data s r s.
Proof. exists (Err "broken off"). by left. Qed.

(** Who may go on, goes on. *)
Lemma shared_progress x : left_to_do x ≠ 0%nat → ∃ y, shared_step x y ∧ (left_to_do y < left_to_do x)%nat.
Proof.
  intros Hx. destruct (sh_guard x) as [t|] eqn:Eg.
  - assert (Hdone : ∀ o r b s, (left_to_do (leave o r b x s) < left_to_do x)%nat).
    { intros. unfold left_to_do. rewrite Eg. cbn. destruct t; cbn; lia. }
    destruct t as [o|o|o msgs|o msgs content].
    + destruct (prepare o (sh_fs x)) as [r s'] eqn:E. eexists. split; [by eapply make_directory|].
      destruct r; [|done]. unfold left_to_do. rewrite Eg. cbn. lia.
    + destruct (read_messages_raw base o.1 (sh_fs x)) as [r s'] eqn:E. eexists. split; [by eapply read_log|].
      destruct r as [l|]; [|done]. destruct (changed o l); [|done]. unfold left_to_do. rewrite Eg. cbn. lia.
    + destruct (json_pretty msgs) as [content|e] eqn:Ej; [|by eexists; split; [eapply print_refused|]].
      destruct (create_parent (join (user_dir base o.1) "chat.json") (sh_fs x)) as [r s'] eqn:E.
      eexists. split; [by eapply print_log|]. destruct r; [|done]. unfold left_to_do. rewrite Eg. cbn. lia.
    + destruct (write_can_end (chat_place base o.1) (as_bytes content) (sh_fs x)) as [r Hr].
      eexists. split; [by eapply end_write|]. done.
  - destruct (sh_waiting x) as [|o l] eqn:Ew; [unfold left_to_do in Hx; by rewrite Eg, Ew in Hx|].
    eexists. split; [by apply (take_lock _ [] o l)|]. unfold left_to_do. rewrite Eg, Ew. cbn. lia.
Qed.

Lemma shared_ends x : ∃ y, rtc shared_step x y ∧ sh_waiting y = [] ∧ sh_guard y = None.
Proof.
  remember (left_to_do x) as n eqn:En. revert x En. induction (lt_wf n) as [n _ IH]. intros x ->.
  destruct (decide (left_to_do x = 0%nat)) as [E|E].
  - exists x. split; [done|]. unfold left_to_do in E. destruct (sh_waiting x); [|cbn in E; lia].
    split; [done|]. destruct (sh_guard x) as [[]|]; cbn in E; (done || lia).
  - destruct (shared_progress x E) as (y & Hxy & Hlt). destruct (IH _ Hlt y eq_refl) as (z & Hz & Hend).
    exists z. split; [by eapply rtc_l|done].
Qed.

(** Every call is waiting, has the guard, or ended. *)
Definition guarded (t : turn) : call := match t with Locked o | Reading o | Saving o _ | Writing o _ _ => o end.
Definition calls (x : Shared F) : list call :=
  (en_call <$> sh_ended x) ++ (match sh_guard x with Some t => [guarded t] | None => [] end) ++ sh_waiting x.

Lemma shared_step_calls x y : shared_step x y → calls x ≡ₚ calls y.
Proof.
  assert (Hleave : ∀ o r b s, guarded <$> sh_guard x = Some o → calls x ≡ₚ calls (leave o r b x s)).
  { intros o r b s E. unfold calls, leave. cbn. rewrite fmap_app. destruct (sh_guard x) as [t|]; [|done].
    injection E as <-. cbn. solve_Permutation. }
  assert (Hgo : ∀ t s, guarded <$> sh_guard x = Some (guarded t) → calls x ≡ₚ calls (go t x s)).
  { intros t s E. unfold calls, go. cbn. destruct (sh_guard x); [|done]. by injection E as ->. }
  intros Hstep. destruct Hstep as [l1 o l2 Ew Eg|o r s' Eg E|o r s' Eg E|o msgs e Eg Ej|o msgs content r s' Eg Ej E|o msgs content k s' Eg E|o msgs content r s' Eg E|s' E];
    try (rewrite Eg in Hgo, Hleave); cbn in Hgo, Hleave.
  - unfold calls. rewrite Eg, Ew. cbn. solve_Permutation.
  - destruct r; [by apply Hgo|by apply Hleave].
  - destruct r as [l|]; [destruct (changed o l)|]; [by apply Hgo|by apply Hleave..].
  - exact (Hleave o (Err e) false (sh_fs x) eq_refl).
  - destruct r; [by apply Hgo|by apply Hleave].
  - by apply Hgo.
  - by apply Hleave.
  - done.
Qed.

(** Numbers stay in order, whatever the methods were. *)
Lemma numbered_fold l L c :
  numbered (L c) → Z.of_nat (length (L c) + length l) < 2 ^ 64 → numbered (foldl log_step L l c).
Proof.
  revert L. induction l as [|o l IH]; intros L Hn Hl; [done|]. cbn [foldl length] in *. destruct (decide (c = o.1)) as [->|Hne].
  - apply IH; rewrite log_step_own; [apply numbered_op; [lia|done]|]. pose proof (apply_op_length o.1 o.2 (L o.1)). lia.
  - apply IH; rewrite log_step_other by done; [done|lia].
Qed.

Definition start (ops : list call) (s : F) : Shared F := mk_shared ops None [] s.

Lemma lock_inv_start L ops s : represents base s L → Forall (fun o : call => plain o.1) ops → lock_inv L (start ops s).
Proof. intros Hr Hp. split; [done| |done]. intros c _ Hc _. by apply Hr. Qed.

Lemma well_length l : (length (well l) ≤ length l)%nat.
Proof. unfold well. induction l as [|e l IH]; cbn; [done|]. unfold ended_well at 1. destruct (en_result e); cbn; lia. Qed.

Lemma read_intact L x c l s' :
  plain c → c ∉ broken (sh_ended x) → intact L x c →
  read_messages_raw base c (sh_fs x) = (Ok l, s') → l = logs_of L x c.
Proof. intros Hc Hb Hi [_ Hl]%read_messages_effect; [|done..]. specialize (Hl l eq_refl). rewrite Hi in Hl by done. by injection Hl. Qed.

(** C22. Methods called at once take effect one after the other. However the
    pieces of any number of methods that change logs interleave, with other
    work that leaves the logs alone, and whatever breaks off: every log that no
    method left broken and that is not just being written is the list that the
    methods which ended well make of it, in the order in which they ended, each
    of them once, numbered from one, and that is what is read and counted. A
    log read while it is written may have only the first bytes of the new text.
    And every method can come to its end, each call to one. *)
Theorem methods_take_turns (ops : list call) (L : string → list ChatMessage) (s : F) (x : Shared F) :
  represents base s L → Forall (fun o : call => plain o.1) ops →
  (∀ c, numbered (L c) ∧ Z.of_nat (length (L c) + length ops) < 2 ^ 64) →
  rtc shared_step (start ops s) x →
  (∀ c, plain c → c ∉ broken (sh_ended x) →
     (∀ o msgs content, sh_guard x = Some (Writing o msgs content) → c ≠ o.1) →
     log base (sh_fs x) c = Ok (logs_of L x c) ∧
     (∀ l s', get_messages base c (sh_fs x) = (Ok l, s') → l = logs_of L x c) ∧
     (∀ n s', get_unread_count base c (sh_fs x) = (Ok n, s') → n = unread (logs_of L x c))) ∧
  (∀ o msgs content, sh_guard x = Some (Writing o msgs content) → o.1 ∉ broken (sh_ended x) →
     json_pretty (apply_op o.1 o.2 (logs_of L x o.1)) = Ok content ∧
     (log base (sh_fs x) o.1 = Ok (logs_of L x o.1) ∨
      ∃ k, fs_files (sh_fs x) !! chat_place base o.1 = Some (take k (as_bytes content)))) ∧
  (∀ c, numbered (logs_of L x c)) ∧
  ops ≡ₚ calls x ∧
  ∃ y, rtc shared_step x y ∧ sh_waiting y = [] ∧ sh_guard y = None ∧ ops ≡ₚ en_call <$> sh_ended y.
Proof.
  intros Hr Hp Hn Hrun.
  assert (Hinv : lock_inv L x ∧ ops ≡ₚ calls x).
  { revert x Hrun. apply rtc_ind_r; [split; [by apply lock_inv_start|done]|].
    intros y z _ Hyz [Hi Hc]. split; [by eapply shared_step_inv|]. by rewrite Hc, (shared_step_calls y z). }
  destruct Hinv as [[_ Hi Hg] Hcalls]. split_and!; [| | |done|].
  - intros c Hc Hb Hne. specialize (Hi c Hne). split_and!; [by apply Hi| |].
    + intros l s'. by apply read_intact.
    + intros n s' [(e & E & _)|(l & s1 & El & _ & E)]%read_then; [done| |done|done].
      rewrite Hi in El by done. injection El as <-. by injection E as <- _.
  - intros o msgs content Eg Hb. rewrite Eg in Hg. destruct Hg as (Ho & Hm & Hj & Hown). rewrite <- Hm by done.
    split; [done|]. destruct Hown as [Hown|?]; [left; by apply Hown|by right].
  - intros c. apply numbered_fold; [apply Hn|]. destruct (Hn c) as [_ Hlen].
    pose proof (well_length (sh_ended x)). apply Permutation_length in Hcalls. unfold calls in Hcalls.
    rewrite length_app, length_fmap in Hcalls. lia.
  - destruct (shared_ends x) as (y & Hxy & Ew & Eg). exists y. split_and!; [done..|].
    assert (Hy : ops ≡ₚ calls y).
    { revert y Hxy Ew Eg. intros y Hxy _ _. revert y Hxy. apply rtc_ind_r; [done|]. intros y z _ Hyz ->. by apply shared_step_calls. }
    rewrite Hy. unfold calls. by rewrite Ew, Eg, !app_nil_r.
Qed.
End race.
