(* ===== verification/ProfileRace.v ===== *)
(** * Profiles saved and loaded at once

    save_profile and load_profile of src/src/user_store.rs hold no lock from
    beginning to end: a profile is written under [self.lock] and put into the
    cache afterwards, under the lock of the cache; a load that misses the cache
    reads the file under no lock and fills the cache then. [UserStore] takes
    either for one step; here they are cut at every [await], any number of them
    is called at once, and writes may be seen half done and break off. *)

From S2P Require Import Prelude Utf8 Text Files UserStore StoreRace.
Open Scope Z_scope.
Open Scope stdpp_scope.

Inductive profile_call :=
| SaveProfile (a : string) (p : UserProfile)
| LoadProfile (a : string) (now : Z).
Definition about_address (c : profile_call) : string := match c with SaveProfile a _ | LoadProfile a _ => a end.

(** Where a call stands. A save: its text made, it waits for [self.lock]; has
    the guard; has the file emptied and writes. A load: missed the cache.
    Either: has a profile for the cache. *)
Inductive stage :=
| Begun
| Queued (text : string)
| Guarded (text : string)
| Filling (text : string)
| Missed
| Keeping (p : UserProfile).

Record Running := mk_running { rn_call : profile_call; rn_stage : stage }.
(** [pe_broken]: ended with its write begun and not completed. A save answers
    without a profile. *)
Record ProfileEnd := mk_profile_end { pe_call : profile_call; pe_result : result (option UserProfile); pe_broken : bool }.

Record Profiles (F : Type) := mk_profiles {
  pf_running : list Running;
  pf_ended : list ProfileEnd;
  pf_store : UserStore F;
}.
Arguments mk_profiles {F} pf_running pf_ended pf_store.
Arguments pf_running {F} p.
Arguments pf_ended {F} p.
Arguments pf_store {F} p.

(** Of the stages that of the guard; and those in which what a call is about
    to put into the cache can be overtaken. *)
Definition has_guard (r : Running) : bool := match rn_stage r with Guarded _ | Filling _ => true | _ => false end.
Definition in_window (a : string) (r : Running) : bool :=
  bool_decide (about_address (rn_call r) = a) && match rn_stage r with Filling _ | Keeping _ => true | _ => false end.

Section profiles.
Context {F : Type} `{!Fs F, !FsLaws F}.
Context `{!Json UserProfile, !JsonLaws UserProfile}.
Context (base : string).

Definition profile_path (a : string) : string := join (user_dir base a) "profile.json".
Definition profile_place (a : string) : place := file_place base a "profile.json".

Definition fs_of (x : Profiles F) : F := us_fs (pf_store x).
Definition cache_of (x : Profiles F) : gmap string UserProfile := us_cache (pf_store x).
Definition with_fs (s : F) (x : Profiles F) : UserStore F := mk_store s (cache_of x).

(** The call goes on to the stage [st], or ends. *)
Definition goes (l1 : list Running) (c : profile_call) (st : stage) (l2 : list Running) (x : Profiles F) (us : UserStore F) :
    Profiles F :=
  mk_profiles (l1 ++ mk_running c st :: l2) (pf_ended x) us.
Definition ends (l1 : list Running) (c : profile_call) (l2 : list Running) (r : result (option UserProfile)) (broken : bool)
    (x : Profiles F) (us : UserStore F) : Profiles F :=
  mk_profiles (l1 ++ l2) (pf_ended x ++ [mk_profile_end c r broken]) us.
Definition at_stage (x : Profiles F) (l1 : list Running) (c : profile_call) (st : stage) (l2 : list Running) : Prop :=
  pf_running x = l1 ++ mk_running c st :: l2.

Definition answer (c : profile_call) (p : UserProfile) : option UserProfile :=
  match c with SaveProfile _ _ => None | LoadProfile _ _ => Some p end.

Inductive profile_step (x : Profiles F) : Profiles F → Prop :=
| save_prepares l1 a p l2 r s' :
    at_stage x l1 (SaveProfile a p) Begun l2 → ensure_user_dir base a (fs_of x) = (r, s') →
    profile_step x
      (match r ≫= (fun _ => json_pretty p) with
       | Ok text => goes l1 (SaveProfile a p) (Queued text) l2 x (with_fs s' x)
       | Err e => ends l1 (SaveProfile a p) l2 (Err e) false x (with_fs s' x)
       end)
| save_locks l1 c text l2 :
    at_stage x l1 c (Queued text) l2 → Forall (fun r => has_guard r = false) (pf_running x) →
    profile_step x (goes l1 c (Guarded text) l2 x (pf_store x))
| save_creates l1 c text l2 r s' :
    at_stage x l1 c (Guarded text) l2 →
    (_ ←? create_parent (profile_path (about_address c)); lift_io (fs_create (profile_path (about_address c)))) (fs_of x) = (r, s') →
    profile_step x (match r with
                    | Ok _ => goes l1 c (Filling text) l2 x (with_fs s' x)
                    | Err e => ends l1 c l2 (Err e) false x (with_fs s' x)
                    end)
| save_writes l1 c text l2 k s' :
    at_stage x l1 c (Filling text) l2 →
    fs_files s' = <[profile_place (about_address c) := take k (as_bytes text)]> (fs_files (fs_of x)) →
    profile_step x (goes l1 c (Filling text) l2 x (with_fs s' x))
| save_written l1 a p text l2 r s' :
    at_stage x l1 (SaveProfile a p) (Filling text) l2 →
    write_ends (profile_place a) (as_bytes text) (fs_of x) r s' →
    profile_step x (match r with
                    | Ok _ => goes l1 (SaveProfile a p) (Keeping p) l2 x (with_fs s' x)
                    | Err e => ends l1 (SaveProfile a p) l2 (Err e) true x (with_fs s' x)
                    end)
| load_looks l1 a now l2 :
    at_stage x l1 (LoadProfile a now) Begun l2 →
    profile_step x (match cache_of x !! a with
                    | Some p => ends l1 (LoadProfile a now) l2 (Ok (Some p)) false x (pf_store x)
                    | None => goes l1 (LoadProfile a now) Missed l2 x (pf_store x)
                    end)
| load_reads l1 a now l2 r s' :
    at_stage x l1 (LoadProfile a now) Missed l2 → profile_from_disk base now a (fs_of x) = (r, s') →
    profile_step x (match r with
                    | Ok p => goes l1 (LoadProfile a now) (Keeping p) l2 x (with_fs s' x)
                    | Err e => ends l1 (LoadProfile a now) l2 (Err e) false x (with_fs s' x)
                    end)
| keeps l1 c p l2 :
    at_stage x l1 c (Keeping p) l2 →
    profile_step x (ends l1 c l2 (Ok (answer c p)) false x (exec (set_cache <[about_address c := p]>) (pf_store x)))
(** The closure clear_profile_cache spawns. *)
| clears : profile_step x (mk_profiles (pf_running x) (pf_ended x) (exec clear_profile_cache (pf_store x)))
(** Everything else leaves the profiles alone. *)
| other_files s' :
    (∀ a, plain a → fs_files s' !! profile_place a = fs_files (fs_of x) !! profile_place a) →
    profile_step x (mk_profiles (pf_running x) (pf_ended x) (with_fs s' x)).

Definition begin (ops : list profile_call) (us : UserStore F) : Profiles F :=
  mk_profiles ((fun c => mk_running c Begun) <$> ops) [] us.

Definition profile_calls (x : Profiles F) : list profile_call := (rn_call <$> pf_running x) ++ (pe_call <$> pf_ended x).

(** ** The pieces one after the other *)

Lemma steps_then (Q : bool → Prop) (P : bool → Profiles F) x y :
  profile_step x y → (∃ b, Q b ∧ rtc profile_step y (P b)) → ∃ b, Q b ∧ rtc profile_step x (P b).
Proof. intros Hs (b & HQ & Hb). exists b. split; [done|by eapply rtc_l]. Qed.

Lemma store_same (us : UserStore F) : mk_store (us_fs us) (us_cache us) = us.
Proof. by destruct us. Qed.

(** Left alone a save does what it does in one step ... *)
Lemma save_alone a p us r us' :
  save_profile base a p us = (r, us') →
  ∃ b, (is_ok r = true → b = false) ∧ rtc profile_step (begin [SaveProfile a p] us)
         (mk_profiles [] [mk_profile_end (SaveProfile a p) (match r with Ok _ => Ok None | Err e => Err e end) b] us').
Proof.
  unfold save_profile, begin. cbn [fmap list_fmap]. rewrite run_try_bind, run_on_fs. set (c := SaveProfile a p). intros E.
  set (P := fun b => mk_profiles [] [mk_profile_end c (match r with Ok _ => Ok None | Err e => Err e end) b] us').
  pose proof (save_prepares (mk_profiles [mk_running c Begun] [] us) [] a p []) as Hstep.
  unfold at_stage, goes, ends, fs_of, with_fs, cache_of in Hstep. cbn [pf_running pf_ended pf_store app] in Hstep.
  destruct (ensure_user_dir base a (us_fs us)) as [[d|e] s1] eqn:Ed; cbn [fst snd us_fs us_cache] in E;
    specialize (Hstep _ _ eq_refl eq_refl); cbn [mbind result_bind] in Hstep.
  2: { injection E as <- <-. exists false. split; [done|by apply rtc_once]. }
  rewrite run_try_bind, run_on_fs in E. unfold store_json in E. cbn [us_fs us_cache] in E.
  destruct (json_pretty p) as [text|e] eqn:Ej; cbn [fst snd] in E; [|injection E as <- <-; exists false; split; [done|by apply rtc_once]].
  eapply (steps_then (fun b => is_ok r = true → b = false) P); [exact Hstep|]. clear Hstep.
  eapply (steps_then (fun b => is_ok r = true → b = false) P); [apply (save_locks _ [] c text []); [done|by repeat constructor]|]. unfold goes. cbn [pf_ended pf_store app].
  pose proof (save_creates (mk_profiles [mk_running c (Guarded text)] [] (mk_store s1 (us_cache us))) [] c text []) as Hstep.
  unfold at_stage, goes, ends, fs_of, with_fs, cache_of in Hstep.
  cbn [pf_running pf_ended pf_store app about_address c us_fs us_cache] in Hstep.
  unfold store_file in E. rewrite run_try_bind in E. fold (profile_path a) in E. rewrite run_try_bind in Hstep.
  pose proof (create_parent_same (profile_path a) s1) as Hp. unfold exec in Hp.
  destruct (create_parent (profile_path a) s1) as [[[]|e] s2] eqn:Ep; cbn [fst snd] in E, Hp;
    [|injection E as <- <-; specialize (Hstep _ _ eq_refl eq_refl); exists false; split; [done|by apply rtc_once]].
  rewrite run_try_bind in E.
  destruct (lift_io (fs_create (profile_path a)) s2) as [[f|e] s3] eqn:Ef; cbn [fst snd] in E;
    specialize (Hstep _ _ eq_refl eq_refl); [|injection E as <- <-; exists false; split; [done|by apply rtc_once]].
  eapply (steps_then (fun b => is_ok r = true → b = false) P); [exact Hstep|]. clear Hstep. apply run_create_file in Ef as [Ef Ho].
  destruct (write_flush f (as_bytes text) s3) as [r4 s4] eqn:Ew. cbn [fst snd] in E.
  assert (He : write_ends (profile_place a) (as_bytes text) s3 r4 s4).
  { eapply run_write_flush in Ew; [|exact Ho|by rewrite Ef, lookup_insert_eq]. unfold write_ends. destruct r4; [exact Ew|].
    destruct Ew as [k Ew]. right. by exists k. }
  pose proof (save_written (mk_profiles [mk_running c (Filling text)] [] (mk_store s3 (us_cache us))) [] a p text [] r4 s4
    eq_refl He) as Hstep.
  unfold goes, ends, with_fs, cache_of in Hstep. cbn [pf_running pf_ended pf_store app us_fs us_cache] in Hstep.
  destruct r4 as [[]|e]; [|injection E as <- <-; exists true; split; [done|by apply rtc_once]].
  eapply (steps_then (fun b => is_ok r = true → b = false) P); [exact Hstep|]. clear Hstep. exists false. split; [done|]. apply rtc_once.
  pose proof (keeps (mk_profiles [mk_running c (Keeping p)] [] (mk_store s4 (us_cache us))) [] c p [] eq_refl) as Hstep.
  rewrite run_bind in E. cbn in E. injection E as <- <-. exact Hstep.
Qed.

(** ... and so does a load. *)
Lemma load_alone a now us r us' :
  load_profile base now a us = (r, us') →
  rtc profile_step (begin [LoadProfile a now] us)
    (mk_profiles [] [mk_profile_end (LoadProfile a now) (match r with Ok p => Ok (Some p) | Err e => Err e end) false] us').
Proof.
  unfold load_profile, begin. cbn [fmap list_fmap]. rewrite run_bind. cbn [gets]. intros E.
  pose proof (load_looks (mk_profiles [mk_running (LoadProfile a now) Begun] [] us) [] a now [] eq_refl) as Hstep.
  unfold goes, ends, cache_of in Hstep. cbn [pf_running pf_ended pf_store app] in Hstep.
  destruct (us_cache us !! a) as [p|]; [injection E as <- <-; by apply rtc_once|].
  eapply rtc_l; [exact Hstep|]. clear Hstep. rewrite run_try_bind, run_on_fs in E.
  pose proof (load_reads (mk_profiles [mk_running (LoadProfile a now) Missed] [] us) [] a now []) as Hstep.
  unfold at_stage, goes, ends, fs_of, with_fs, cache_of in Hstep. cbn [pf_running pf_ended pf_store app] in Hstep.
  destruct (profile_from_disk base now a (us_fs us)) as [[p|e] s1]; specialize (Hstep _ _ eq_refl eq_refl); cbn [fst snd] in E;
    [|injection E as <- <-; by apply rtc_once].
  eapply rtc_l; [exact Hstep|]. apply rtc_once. rewrite run_bind in E. cbn in E. injection E as <- <-.
  exact (keeps (mk_profiles [mk_running (LoadProfile a now) (Keeping p)] [] (mk_store s1 (us_cache us))) [] _ p [] eq_refl).
Qed.

(** ** Where profiles come from *)

(** What the file of [a] has held: what it had, nothing included, or the first
    bytes of the text of a profile that was saved. *)
Definition content_of (us0 : UserStore F) (ops : list profile_call) (a : string) (o : option bytes) : Prop :=
  o = fs_files (us_fs us0) !! profile_place a ∨
  ∃ p text k, SaveProfile a p ∈ ops ∧ json_pretty p = Ok text ∧ o = Some (take k (as_bytes text)).

(** A profile for [a] was there before, in the cache; is one that was saved; was
    read from what the file held; or is the default, for want of a file. *)
Definition source (us0 : UserStore F) (ops : list profile_call) (a : string) (q : UserProfile) : Prop :=
  us_cache us0 !! a = Some q ∨ SaveProfile a q ∈ ops ∨
  (∃ b, content_of us0 ops a (Some b) ∧ json_from_slice b = Ok q) ∨
  (content_of us0 ops a None ∧ ∃ now, LoadProfile a now ∈ ops ∧ q = default_profile now).

Definition stage_ok (us0 : UserStore F) (ops : list profile_call) (r : Running) : Prop :=
  match rn_stage r with
  | Begun => True
  | Missed => ∃ a now, rn_call r = LoadProfile a now
  | Queued text | Guarded text | Filling text => ∃ a p, rn_call r = SaveProfile a p ∧ json_pretty p = Ok text
  | Keeping q => source us0 ops (about_address (rn_call r)) q
  end.

Record run_inv (us0 : UserStore F) (ops : list profile_call) (x : Profiles F) : Prop := {
  ri_calls : ops ≡ₚ profile_calls x;
  ri_stages : Forall (stage_ok us0 ops) (pf_running x);
  ri_files a : plain a → content_of us0 ops a (fs_files (fs_of x) !! profile_place a);
  ri_cache a q : cache_of x !! a = Some q → source us0 ops a q;
  ri_answers : Forall (fun e => ∀ q, pe_result e = Ok (Some q) → source us0 ops (about_address (pe_call e)) q) (pf_ended x);
}.

Lemma place_apart a b : plain a → plain b → b ≠ a → profile_place b ≠ profile_place a.
Proof. intros Ha Hb Hne. unfold profile_place. rewrite !profile_place_eq by done. congruence. Qed.

(** A step moves one call: to a stage, or to its end. *)
Lemma inv_goes us0 ops l1 c st st' l2 x us :
  at_stage x l1 c st l2 → run_inv us0 ops x → stage_ok us0 ops (mk_running c st') →
  (∀ a, plain a → content_of us0 ops a (fs_files (us_fs us) !! profile_place a)) →
  us_cache us = cache_of x → run_inv us0 ops (goes l1 c st' l2 x us).
Proof.
  intros Ex [Hc Hs Hf Hca Ha] Hst Hfi Hcc. unfold at_stage in Ex. split; cbn; [|..|done].
  - rewrite Hc. unfold profile_calls. rewrite Ex. cbn. by rewrite !fmap_app.
  - rewrite Ex in Hs. apply Forall_app in Hs as [H1 [_ H2]%Forall_cons]. apply Forall_app. split; [done|by constructor].
  - done.
  - unfold cache_of. cbn. rewrite Hcc. apply Hca.
Qed.

Lemma inv_ends us0 ops l1 c st l2 r b x us :
  at_stage x l1 c st l2 → run_inv us0 ops x → (∀ q, r = Ok (Some q) → source us0 ops (about_address c) q) →
  (∀ a, plain a → content_of us0 ops a (fs_files (us_fs us) !! profile_place a)) →
  (∀ a q, us_cache us !! a = Some q → source us0 ops a q) → run_inv us0 ops (ends l1 c l2 r b x us).
Proof.
  intros Ex [Hc Hs Hf Hca Ha] Hr Hfi Hcc. unfold at_stage in Ex. split; cbn.
  - rewrite Hc. unfold profile_calls. rewrite Ex. cbn. rewrite !fmap_app. cbn. solve_Permutation.
  - rewrite Ex in Hs. apply Forall_app in Hs as [H1 [_ H2]%Forall_cons]. by apply Forall_app.
  - done.
  - done.
  - apply Forall_app. split; [done|]. by constructor.
Qed.

Lemma in_calls us0 ops x l1 c st l2 : run_inv us0 ops x → at_stage x l1 c st l2 → c ∈ ops.
Proof.
  intros [Hc _ _ _ _] Ex. rewrite Hc. unfold profile_calls. rewrite Ex, fmap_app. set_solver.
Qed.

Lemma stage_at us0 ops x l1 c st l2 : run_inv us0 ops x → at_stage x l1 c st l2 → stage_ok us0 ops (mk_running c st).
Proof. intros [_ Hs _ _ _] Ex. rewrite Ex in Hs. by apply Forall_app in Hs as [_ [? _]%Forall_cons]. Qed.

(** The files after a step of the call that writes the profile of [a]. *)
Lemma files_written (us0 : UserStore F) (ops : list profile_call) (x : Profiles F) (a : string) (p : UserProfile) (text : string) (k : nat) (files : gmap place bytes) :
  run_inv us0 ops x → plain a → SaveProfile a p ∈ ops → json_pretty p = Ok text →
  files = <[profile_place a := take k (as_bytes text)]> (fs_files (fs_of x)) →
  ∀ b, plain b → content_of us0 ops b (files !! profile_place b).
Proof.
  intros Hi Ha Hin Hj -> b Hb. destruct (decide (b = a)) as [->|Hne].
  - rewrite lookup_insert_eq. right. by exists p, text, k.
  - rewrite lookup_insert_ne by (by apply not_eq_sym, place_apart). by apply (ri_files us0 ops).
Qed.

Context (base_down : ".." ∉ components base).

Lemma create_step a s r s' :
  (_ ←? create_parent (profile_path a); lift_io (fs_create (profile_path a))) s = (r, s') →
  match r with Ok _ => fs_files s' = <[profile_place a := []]> (fs_files s) | Err _ => fs_files s' = fs_files s end.
Proof.
  rewrite run_try_bind. pose proof (create_parent_same (profile_path a) s) as Hp. unfold exec in Hp.
  destruct (create_parent (profile_path a) s) as [[[]|e] s1]; cbn in Hp; [|by intros [= <- <-]].
  intros E%run_create_file. unfold same_files in Hp. destruct r as [f|e]; [destruct E as [-> _]; by rewrite Hp|by rewrite E].
Qed.

Lemma run_inv_step us0 ops x y :
  Forall (fun c => plain (about_address c)) ops → profile_step x y → run_inv us0 ops x → run_inv us0 ops y.
Proof.
  intros Hplain Hstep Hi. assert (Hfiles := ri_files _ _ _ Hi). assert (Hcache := ri_cache _ _ _ Hi).
  assert (Hpl : ∀ l1 c st l2, at_stage x l1 c st l2 → plain (about_address c)).
  { intros l1 c st l2 Ex. rewrite Forall_forall in Hplain. by eapply Hplain, in_calls. }
  destruct Hstep as [l1 a p l2 r s' Ex E|l1 c text l2 Ex Hfree|l1 c text l2 r s' Ex E|l1 c text l2 k s' Ex E
    |l1 a p text l2 r s' Ex E|l1 a now l2 Ex|l1 a now l2 r s' Ex E|l1 c p l2 Ex| |s' E].
  - pose proof (ensure_user_dir_same base a (fs_of x)) as Hs. unfold exec in Hs. rewrite E in Hs. cbn in Hs.
    assert (Hf : ∀ b, plain b → content_of us0 ops b (fs_files s' !! profile_place b)) by (intros b Hb; rewrite Hs; by apply Hfiles).
    destruct r as [d|e]; cbn [mbind result_bind]; [destruct (json_pretty p) as [text|e] eqn:Ej|];
      [eapply inv_goes; [done|done|cbn; eauto|done|done]|by eapply inv_ends..].
  - eapply inv_goes; [done|done| |done|done]. by apply (stage_at us0 ops x l1 c (Queued text) l2).
  - pose proof (stage_at _ _ _ _ _ _ _ Hi Ex) as (a & p & Ec & Hj). cbn in Ec. subst c. cbn [about_address] in E.
    apply create_step in E. destruct r as [f|e]; [|by eapply inv_ends; [done|done|done|intros b Hb; cbn; rewrite E; by apply Hfiles|done]].
    eapply inv_goes; [done|done|by exists a, p| |done].
    apply (files_written us0 ops x a p text 0); [done|by eapply (Hpl _ _ _ _ Ex)|by eapply in_calls|done|exact E].
  - pose proof (stage_at _ _ _ _ _ _ _ Hi Ex) as (a & p & Ec & Hj). cbn in Ec. subst c. cbn [about_address] in E.
    eapply inv_goes; [done|done|by exists a, p| |done].
    apply (files_written us0 ops x a p text k); [done|by eapply (Hpl _ _ _ _ Ex)|by eapply in_calls|done|exact E].
  - pose proof (stage_at _ _ _ _ _ _ _ Hi Ex) as (a' & p' & Ec & Hj). cbn in Ec. injection Ec as <- <-.
    pose proof (in_calls _ _ _ _ _ _ _ Hi Ex) as Hin. pose proof (Hpl _ _ _ _ Ex) as Ha. cbn in Ha.
    assert (Hf : ∀ b, plain b → content_of us0 ops b (fs_files s' !! profile_place b)).
    { unfold write_ends in E. destruct r as [[]|e]; [|destruct E as [E|[k E]]; [intros b Hb; rewrite E; by apply Hfiles|]].
      - apply (files_written us0 ops x a p text (length (as_bytes text))); try done. by rewrite firstn_all.
      - by apply (files_written us0 ops x a p text k). }
    destruct r as [[]|e]; [|by eapply inv_ends]. eapply inv_goes; [done|done| |done|done]. cbn. right. by left.
  - destruct (cache_of x !! a) as [p|] eqn:Ep; [|by eapply inv_goes; [done|done|exists a, now|..]].
    eapply inv_ends; [done|done| |done|done]. intros q [= <-]. by apply Hcache.
  - pose proof (Hpl _ _ _ _ Ex) as Ha. cbn in Ha. pose proof (in_calls _ _ _ _ _ _ _ Hi Ex) as Hin.
    apply profile_from_disk_effect in E as [Hs E]; [|done..].
    assert (Hf : ∀ b, plain b → content_of us0 ops b (fs_files s' !! profile_place b)) by (intros b Hb; rewrite Hs; by apply Hfiles).
    destruct r as [q|e]; [|by eapply inv_ends]. eapply inv_goes; [done|done| |done|done]. cbn. right. right.
    specialize (Hfiles a Ha). destruct (E q eq_refl) as [Ed|[Ed ->]]; unfold disk in Ed; fold (profile_place a) in Ed.
    + left. destruct (fs_files (fs_of x) !! profile_place a) as [b|]; [|done]. exists b. split; [done|].
      destruct (json_from_slice b); cbn in Ed; [by injection Ed as ->|done].
    + right. destruct (fs_files (fs_of x) !! profile_place a) as [b|]; [by destruct (json_from_slice b)|]. eauto.
  - pose proof (stage_at _ _ _ _ _ _ _ Hi Ex) as Hsrc. cbn in Hsrc.
    eapply inv_ends; [done|done| |done|]; [intros q; destruct c; cbn; [done|by intros [= <-]]|].
    intros b q. cbn. destruct (decide (b = about_address c)) as [->|Hne].
    + rewrite lookup_insert_eq. by intros [= <-].
    + rewrite lookup_insert_ne by done. apply Hcache.
  - destruct Hi as [Hc Hs Hf Hca Ha]. split; [done|done|done| |done]. intros a q. cbn. by rewrite lookup_empty.
  - destruct Hi as [Hc Hs Hf Hca Ha]. split; [done|done| |done|done]. intros a Hpa. cbn. rewrite E by done. by apply Hf.
Qed.

Lemma run_inv_begin us0 ops : run_inv us0 ops (begin ops us0).
Proof.
  split; cbn; [|..|constructor].
  - unfold profile_calls, begin. cbn. rewrite app_nil_r, <- list_fmap_compose. cbn. by rewrite list_fmap_id.
  - apply Forall_fmap, Forall_true. done.
  - by left.
  - by left.
Qed.

(** ** Every call can end *)

Definition stage_weight (st : stage) : nat :=
  match st with Begun => 5 | Queued _ => 4 | Guarded _ => 3 | Filling _ | Missed => 2 | Keeping _ => 1 end.
Definition work_left (x : Profiles F) : nat := sum_list_with (fun r => stage_weight (rn_stage r)) (pf_running x).

Lemma work_goes l1 c st st' l2 x us :
  at_stage x l1 c st l2 → (stage_weight st' < stage_weight st)%nat → (work_left (goes l1 c st' l2 x us) < work_left x)%nat.
Proof. intros Ex Hst. unfold work_left. rewrite Ex. cbn. rewrite !sum_list_with_app. cbn. lia. Qed.
Lemma work_ends l1 c st l2 r b x us :
  at_stage x l1 c st l2 → (work_left (ends l1 c l2 r b x us) < work_left x)%nat.
Proof. intros Ex. unfold work_left. rewrite Ex. cbn. rewrite !sum_list_with_app. cbn. destruct st; cbn; lia. Qed.

Definition can_go (x : Profiles F) : Prop := ∃ y, profile_step x y ∧ (work_left y < work_left x)%nat.

(** Whoever has the guard goes on, and so does everybody when nobody has. *)
Lemma stage_goes us0 ops x l1 c st l2 :
  run_inv us0 ops x → at_stage x l1 c st l2 → (∀ text, st = Queued text → Forall (fun r => has_guard r = false) (pf_running x)) →
  can_go x.
Proof.
  intros Hi Ex Hq. pose proof (stage_at _ _ _ _ _ _ _ Hi Ex) as Hst. cbn in Hst. destruct st as [|text|text|text| |q]; cbn in Hst.
  - destruct c as [a p|a now].
    + destruct (ensure_user_dir base a (fs_of x)) as [r s'] eqn:E. eexists. split; [by eapply save_prepares|].
      destruct (r ≫= _); [eapply work_goes; [done|cbn; lia]|by eapply work_ends].
    + eexists. split; [by eapply load_looks|]. destruct (cache_of x !! a); [by eapply work_ends|eapply work_goes; [done|cbn; lia]].
  - eexists. split; [eapply save_locks; [done|by eapply Hq]|]. eapply work_goes; [done|cbn; lia].
  - destruct ((_ ←? create_parent (profile_path (about_address c)); lift_io (fs_create (profile_path (about_address c)))) (fs_of x))
      as [r s'] eqn:E. eexists. split; [by eapply save_creates|].
    destruct r; [eapply work_goes; [done|cbn; lia]|by eapply work_ends].
  - destruct Hst as (a & p & -> & _). exists (ends l1 (SaveProfile a p) l2 (Err "broken off") true x (with_fs (fs_of x) x)). split; [|by eapply work_ends].
    eapply (save_written x l1 a p text l2 (Err "broken off")); [done|by left].
  - destruct Hst as (a & now & ->). destruct (profile_from_disk base now a (fs_of x)) as [r s'] eqn:E.
    eexists. split; [by eapply load_reads|]. destruct r; [eapply work_goes; [done|cbn; lia]|by eapply work_ends].
  - eexists. split; [by eapply keeps|]. by eapply work_ends.
Qed.

Lemma somebody_goes us0 ops x : run_inv us0 ops x → pf_running x ≠ [] → can_go x.
Proof.
  intros Hi Hne. destruct (decide (Forall (fun r => has_guard r = false) (pf_running x))) as [Hfree|Hheld].
  - destruct (pf_running x) as [|[c st] l] eqn:E; [done|]. eapply (stage_goes us0 ops x [] c st l); [done|done|]. by rewrite E.
  - apply not_Forall_Exists, Exists_exists in Hheld as ([c st] & Hin & Hg); [|typeclasses eauto].
    apply list_elem_of_split in Hin as (l1 & l2 & E). eapply (stage_goes us0 ops x l1 c st l2); [done|done|].
    intros text ->. by destruct Hg.
Qed.

Lemma profiles_end us0 ops x :
  Forall (fun c => plain (about_address c)) ops → run_inv us0 ops x →
  ∃ y, rtc profile_step x y ∧ pf_running y = [] ∧ run_inv us0 ops y.
Proof.
  intros Hplain. remember (work_left x) as n eqn:En. revert x En. induction (lt_wf n) as [n _ IH]. intros x -> Hi.
  destruct (decide (pf_running x = [])) as [E|E]; [by exists x|].
  destruct (somebody_goes us0 ops x Hi E) as (y & Hxy & Hlt).
  destruct (IH _ Hlt y eq_refl) as (z & Hz & Hend); [by eapply run_inv_step|]. exists z. split; [by eapply rtc_l|done].
Qed.

(** ** When nothing overlaps *)

Definition windows (a : string) (x : Profiles F) : nat := length (List.filter (in_window a) (pf_running x)).
(** A save for [a] broke off. *)
Definition damaged (a : string) (x : Profiles F) : Prop :=
  Exists (fun e => pe_broken e = true ∧ about_address (pe_call e) = a) (pf_ended x).
(** The file of [a] holds [q]; or there is none, and [q] is a default. *)
Definition on_disk (x : Profiles F) (a : string) (q : UserProfile) : Prop :=
  disk base (fs_of x) a = Ok (Some q) ∨ disk base (fs_of x) a = Ok None ∧ ∃ now, q = default_profile now.
Definition cache_true (a : string) (x : Profiles F) : Prop := ∀ q, cache_of x !! a = Some q → on_disk x a q.
(** A step after which at most one call is where another one for [a] could
    overtake it. *)
Definition calm_step (a : string) (x y : Profiles F) : Prop := profile_step x y ∧ (windows a y ≤ 1)%nat.

Record calm_inv (a : string) (x : Profiles F) : Prop := {
  ci_windows : (windows a x ≤ 1)%nat;
  ci_cache : damaged a x ∨ (windows a x = 0%nat → cache_true a x);
  ci_keeping r q : r ∈ pf_running x → about_address (rn_call r) = a → rn_stage r = Keeping q → on_disk x a q;
}.

Lemma windows_at a x l1 c st l2 : at_stage x l1 c st l2 →
  windows a x = (length (List.filter (in_window a) [mk_running c st]) + length (List.filter (in_window a) (l1 ++ l2)))%nat.
Proof. intros Ex. unfold windows. rewrite Ex, !List.filter_app, !length_app. cbn. destruct (in_window a _); cbn; lia. Qed.

(** With nobody in the window nobody keeps anything. *)
Lemma nobody_keeps a l r q :
  length (List.filter (in_window a) l) = 0%nat → r ∈ l → about_address (rn_call r) = a → rn_stage r ≠ Keeping q.
Proof.
  intros Hl Hr Ha Hst. apply length_zero_iff_nil in Hl.
  assert (Hin : r ∈ List.filter (in_window a) l).
  { apply list_elem_of_In, filter_In. split; [by apply list_elem_of_In|]. unfold in_window. rewrite Hst, bool_decide_true by done. done. }
  rewrite Hl in Hin. by apply elem_of_nil in Hin.
Qed.

(** What changes neither the file nor, but for forgetting, the cache of [a],
    and who is in the window. *)
Lemma calm_frame a x y :
  calm_inv a x → windows a y = windows a x → fs_files (fs_of y) !! profile_place a = fs_files (fs_of x) !! profile_place a →
  (∀ q, cache_of y !! a = Some q → cache_of x !! a = Some q) → (damaged a x → damaged a y) →
  (∀ r q, r ∈ pf_running y → about_address (rn_call r) = a → rn_stage r = Keeping q → r ∈ pf_running x) → calm_inv a y.
Proof.
  intros [Hw Hc Hk] Ew Ef Eca Hd Hr.
  assert (Hod : ∀ q, on_disk x a q → on_disk y a q).
  { intros q. unfold on_disk, disk. fold (profile_place a). by rewrite Ef. }
  split; [lia| |].
  - destruct Hc as [Hc|Hc]; [left; auto|right]. intros E0 q Hq. apply Hod, Hc; [lia|auto].
  - intros r q Hin Ha Hst. apply Hod. eapply Hk; eauto.
Qed.

Lemma damaged_grows a x l e us : damaged a x → damaged a (mk_profiles l (pf_ended x ++ [e]) us).
Proof. intros Hd. unfold damaged. cbn. apply Exists_app. by left. Qed.

Definition quiet (st : stage) : bool := match st with Filling _ | Keeping _ => false | _ => true end.

Lemma in_window_quiet a c st : about_address c ≠ a ∨ quiet st = true → in_window a (mk_running c st) = false.
Proof.
  unfold in_window. cbn. intros [Hne|Hq]; [by rewrite bool_decide_false|]. destruct st; cbn in *; (by rewrite andb_false_r || done).
Qed.

Lemma elem_of_goes (r r' : Running) l1 l2 : r ∈ l1 ++ r' :: l2 ↔ r = r' ∨ r ∈ l1 ++ l2.
Proof. set_solver. Qed.

(** A call for another address, or one that stays out of the window. *)
Lemma calm_goes a l1 c st st' l2 x us :
  at_stage x l1 c st l2 → calm_inv a x → (about_address c ≠ a ∨ quiet st = true ∧ quiet st' = true) →
  fs_files (us_fs us) !! profile_place a = fs_files (fs_of x) !! profile_place a →
  us_cache us !! a = cache_of x !! a → calm_inv a (goes l1 c st' l2 x us).
Proof.
  intros Ex Hi Hq Hf Hca. apply (calm_frame a x); [done| |done| |done|].
  - rewrite (windows_at a x l1 c st l2), (windows_at a (goes l1 c st' l2 x us) l1 c st' l2) by done. cbn.
    by rewrite !in_window_quiet by tauto.
  - intros q. unfold cache_of at 1. cbn. by rewrite Hca.
  - intros r q Hin Ha Hst. cbn in Hin. rewrite Ex. apply elem_of_goes in Hin as [->|Hin]; [|apply elem_of_goes; by right].
    cbn in Ha, Hst. subst st'. destruct Hq as [Hq|[_ [=]]]. done.
Qed.

Lemma calm_ends a l1 c st l2 r b x us :
  at_stage x l1 c st l2 → calm_inv a x → (about_address c ≠ a ∨ quiet st = true) →
  fs_files (us_fs us) !! profile_place a = fs_files (fs_of x) !! profile_place a →
  us_cache us !! a = cache_of x !! a → calm_inv a (ends l1 c l2 r b x us).
Proof.
  intros Ex Hi Hq Hf Hca. apply (calm_frame a x); [done| |done| |apply damaged_grows|].
  - rewrite (windows_at a x l1 c st l2) by done. cbn. by rewrite in_window_quiet.
  - intros q. unfold cache_of at 1. cbn. by rewrite Hca.
  - intros r' q Hin Ha Hst. cbn in Hin. rewrite Ex. apply elem_of_goes. by right.
Qed.

(** A call in the window, and nobody else. *)
Lemma calm_alone a l1 c st st' l2 x us :
  at_stage x l1 c st l2 → about_address c = a → quiet st' = false → (windows a (goes l1 c st' l2 x us) ≤ 1)%nat →
  (∀ q, st' = Keeping q → on_disk (goes l1 c st' l2 x us) a q) → calm_inv a (goes l1 c st' l2 x us).
Proof.
  intros Ex Ha Hq Hw Hk. pose proof (windows_at a (goes l1 c st' l2 x us) l1 c st' l2 eq_refl) as Ew.
  assert (E1 : length (List.filter (in_window a) [mk_running c st']) = 1%nat).
  { cbn. unfold in_window. cbn. rewrite bool_decide_true by done. by destruct st'. }
  rewrite E1 in Ew. split; [done|right; lia|]. intros r q Hin Har Hst. cbn in Hin.
  apply elem_of_goes in Hin as [->|Hin]; [by apply Hk|]. exfalso.
  eapply (nobody_keeps a (l1 ++ l2) r q); [lia|done|done|done].
Qed.

Lemma other_place a b (s s' : F) data : plain a → plain b → b ≠ a →
  fs_files s' = <[profile_place b := data]> (fs_files s) → fs_files s' !! profile_place a = fs_files s !! profile_place a.
Proof. intros Ha Hb Hne ->. by rewrite lookup_insert_ne by (by apply place_apart). Qed.

Lemma calm_step_inv us0 ops a x y :
  Forall (fun c => plain (about_address c)) ops → plain a → run_inv us0 ops x → calm_inv a x → calm_step a x y → calm_inv a y.
Proof.
  intros Hplain Hpa Hi Hc [Hstep Hw].
  assert (Hpl : ∀ l1 c st l2, at_stage x l1 c st l2 → plain (about_address c)).
  { intros l1 c st l2 Ex. rewrite Forall_forall in Hplain. by eapply Hplain, in_calls. }
  destruct Hstep as [l1 b p l2 r s' Ex E|l1 c text l2 Ex Hfree|l1 c text l2 r s' Ex E|l1 c text l2 k s' Ex E
    |l1 b p text l2 r s' Ex E|l1 b now l2 Ex|l1 b now l2 r s' Ex E|l1 c p l2 Ex| |s' E].
  - pose proof (ensure_user_dir_same base b (fs_of x)) as Hs. unfold exec in Hs. rewrite E in Hs. cbn in Hs.
    destruct (r ≫= _); [eapply calm_goes|eapply calm_ends]; try done; try (by right); cbn; by rewrite Hs.
  - eapply calm_goes; try done. by right.
  - apply create_step in E. destruct r as [f|e]; [|eapply calm_ends; try done; [by right|by cbn; rewrite E]].
    destruct (decide (about_address c = a)) as [Ea|Hne]; [by eapply calm_alone|].
    eapply calm_goes; try done; [by left|]. eapply other_place; [done|by eapply Hpl|done|exact E].
  - destruct (decide (about_address c = a)) as [Ea|Hne]; [by eapply calm_alone|].
    eapply calm_goes; try done; [by left|]. eapply other_place; [done|by eapply Hpl|done|exact E].
  - pose proof (stage_at _ _ _ _ _ _ _ Hi Ex) as (a' & p' & Ec & Hj). cbn in Ec. injection Ec as <- <-.
    destruct (decide (b = a)) as [->|Hne].
    + destruct r as [[]|e].
      * eapply calm_alone; [done|done|done|done|]. intros q [= <-]. left. unfold disk. fold (profile_place a). cbn.
        cbn in E. rewrite E, lookup_insert_eq. by apply json_round in Hj as [-> _].
      * pose proof (windows_at a x l1 (SaveProfile a p) (Filling text) l2 Ex) as Ew.
        assert (E1 : in_window a (mk_running (SaveProfile a p) (Filling text)) = true)
          by (unfold in_window; cbn; by rewrite bool_decide_true).
        cbn in Ew. rewrite E1 in Ew. cbn in Ew. pose proof (ci_windows _ _ Hc) as H1. split; [done| |].
        -- left. apply Exists_app. right. by constructor.
        -- intros r q Hin Ha Hst. exfalso. eapply (nobody_keeps a (l1 ++ l2) r q); [lia|done|done|done].
    + assert (Hf : fs_files s' !! profile_place a = fs_files (fs_of x) !! profile_place a).
      { destruct r as [[]|e]; cbn in E; [|destruct E as [->|[k E]]; [done|]];
          (eapply other_place; [done|by eapply (Hpl _ _ _ _ Ex)|done|exact E]). }
      destruct r as [[]|e]; [eapply calm_goes|eapply calm_ends]; try done; by left.
  - destruct (cache_of x !! b); [eapply calm_ends|eapply calm_goes]; try done; by right.
  - pose proof (Hpl _ _ _ _ Ex) as Hb. cbn in Hb. apply profile_from_disk_effect in E as [Hs E]; [|done..].
    destruct r as [q|e]; [|eapply calm_ends; try done; [by right|by cbn; rewrite Hs]].
    destruct (decide (b = a)) as [->|Hne].
    + eapply calm_alone; [done|done|done|done|]. intros q' [= <-]. unfold on_disk, disk in *. fold (profile_place a) in *. cbn.
      rewrite Hs. destruct (E q eq_refl) as [Ed|[Ed ->]]; [by left|right; eauto].
    + eapply calm_goes; try done; [by left|by cbn; rewrite Hs].
  - destruct (decide (about_address c = a)) as [Ea|Hne].
    + pose proof (windows_at a x l1 c (Keeping p) l2 Ex) as Ew.
      assert (E1 : in_window a (mk_running c (Keeping p)) = true) by (unfold in_window; cbn; by rewrite bool_decide_true).
      cbn in Ew. rewrite E1 in Ew. cbn in Ew. pose proof (ci_windows _ _ Hc) as H1. split; [done| |].
      * right. intros _ q. cbn. rewrite Ea, lookup_insert_eq. intros [= <-].
        apply (ci_keeping a x Hc (mk_running c (Keeping p)) p); [|done|done]. rewrite Ex. apply elem_of_goes. by left.
      * intros r q Hin Ha Hst. exfalso. eapply (nobody_keeps a (l1 ++ l2) r q); [lia|done|done|done].
    + eapply calm_ends; try done; [by left|]. cbn. by rewrite lookup_insert_ne.
  - apply (calm_frame a x); try done.
  - apply (calm_frame a x); try done. cbn. by apply E.
Qed.

Lemma windows_begin a ops us : windows a (begin ops us) = 0%nat.
Proof.
  unfold windows, begin. cbn. induction ops as [|c ops IH]; [done|]. cbn. rewrite in_window_quiet by by right. exact IH.
Qed.

(** A single call overlaps with nothing. *)
Lemma running_shrinks x y : profile_step x y → (length (pf_running y) ≤ length (pf_running x))%nat.
Proof.
  assert (Hg : ∀ l1 c st st' l2 us, at_stage x l1 c st l2 → length (pf_running (goes l1 c st' l2 x us)) = length (pf_running x)).
  { intros l1 c st st' l2 us Ex. unfold at_stage in Ex. rewrite Ex. cbn. by rewrite !length_app. }
  assert (He : ∀ l1 c st l2 r b us, at_stage x l1 c st l2 → (length (pf_running (ends l1 c l2 r b x us)) ≤ length (pf_running x))%nat).
  { intros l1 c st l2 r b us Ex. unfold at_stage in Ex. rewrite Ex. cbn. rewrite !length_app. cbn. lia. }
  intros Hstep. destruct Hstep;
    repeat match goal with |- context [match ?t with _ => _ end] => lazymatch type of t with result _ => destruct t | option _ => destruct t end end;
    (by eapply He) || (by erewrite Hg) || done.
Qed.
Lemma lone_call_calm a x y :
  (length (pf_running x) ≤ 1)%nat → rtc profile_step x y → rtc (calm_step a) x y.
Proof.
  intros Hx Hr. induction Hr as [|x y z Hxy _ IH]; [done|]. pose proof (running_shrinks x y Hxy).
  eapply rtc_l; [split; [exact Hxy|]|apply IH; lia]. unfold windows.
  pose proof (List.filter_length_le (in_window a) (pf_running y)). lia.
Qed.

(** C24. Profiles saved and loaded at once, however the pieces interleave, writes
    seen half done or broken off. First, no profile comes from nowhere: what is
    cached for an address, and what a load answers, was cached before, is one
    that was given to a save for this address, was read from what its file
    held at some time - its first content, or the first bytes of a saved
    profile - or is the default, when there was no file. Second, if at no time
    two calls for an address are where one can overtake the other - writing
    the file, or holding a profile for the cache - and no save for it broke
    off, then whenever none of them is there, what is cached for it is what
    its file holds, or a default if there is none. Third, every call can come
    to its end, each to one. *)
Theorem profile_cache (ops : list profile_call) (us : UserStore F) (x : Profiles F) :
  Forall (fun c => plain (about_address c)) ops → rtc profile_step (begin ops us) x →
  (∀ a q, cache_of x !! a = Some q → source us ops a q) ∧
  (∀ a now q b, mk_profile_end (LoadProfile a now) (Ok (Some q)) b ∈ pf_ended x → source us ops a q) ∧
  (∀ a y, plain a → cache_true a (begin ops us) → rtc (calm_step a) (begin ops us) y →
     ¬ damaged a y → windows a y = 0%nat → cache_true a y) ∧
  ops ≡ₚ profile_calls x ∧
  ∃ y, rtc profile_step x y ∧ pf_running y = [] ∧ ops ≡ₚ pe_call <$> pf_ended y.
Proof.
  intros Hplain Hrun.
  assert (Hinv : ∀ y, rtc profile_step (begin ops us) y → run_inv us ops y).
  { apply rtc_ind_r; [apply run_inv_begin|]. intros y z _ Hyz. by apply run_inv_step. }
  pose proof (Hinv x Hrun) as Hi. destruct (profiles_end us ops x Hplain Hi) as (y & Hxy & Hy & Hiy). split_and!.
  - apply (ri_cache us ops x Hi).
  - intros a now q b Hin. pose proof (ri_answers us ops x Hi) as Ha. rewrite Forall_forall in Ha. by apply (Ha _ Hin).
  - intros a z Ha Hcoh Hcalm Hd Hw.
    assert (Hz : run_inv us ops z ∧ calm_inv a z).
    { revert z Hcalm Hd Hw. intros z Hcalm _ _. revert z Hcalm. apply rtc_ind_r.
      - split; [apply run_inv_begin|]. split; [rewrite windows_begin; lia|by right|].
        intros r q (c & -> & _)%list_elem_of_fmap. done.
      - intros u v _ Huv [Hu Hcu]. split; [|by apply (calm_step_inv us ops a u v)]. destruct Huv as [Huv _]. by eapply run_inv_step. }
    destruct Hz as [_ [_ [Hc|Hc] _]]; [done|by apply Hc].
  - apply (ri_calls us ops x Hi).
  - exists y. split_and!; [done..|]. rewrite (ri_calls us ops y Hiy). unfold profile_calls. by rewrite Hy.
Qed.
End profiles.
