(* ===== verification/IoStorage.v ===== *)
(** * Stored settings

    src/src/io_storage.rs with the macro of macros.rs: the files of the node's
    address and of the two lists of servers, each with a default that is made
    when it is not there. The storage itself is the crate aex. *)

From S2P Require Import Prelude.
Open Scope Z_scope.
Open Scope stdpp_scope.

(** [Storage::read] and [Storage::save] of the crate aex, for files that hold a
    [T]: [None] for a file that is not there. *)
Class Storage (S T : Type) : Type := {
  storage_read : S → string → result (option T);
  storage_save : string → T → state S (result unit);
}.
(** What was saved is read. *)
Class StorageLaws (S T : Type) `{Storage S T} : Prop :=
  read_saved : ∀ (s s' : S) f (v : T), storage_save f v s = (Ok tt, s') → storage_read s' f = Ok (Some v).

(** Saving a file, whatever comes of it, leaves the others as they are. *)
Class StorageFrame (S T U : Type) `{Storage S T, Storage S U} : Prop :=
  read_other : ∀ (s s' : S) f g (v : T) r, storage_save f v s = (r, s') → g ≠ f →
    storage_read (T := U) s' g = storage_read (T := U) s g.

(** The options of the command line (src/src/cli.rs). *)
Record Opt := mk_opt {
  opt_name : string;
  opt_ip : string;
  opt_port : Z;
  opt_data_dir : option string;
  opt_address_file : option string;
  opt_inner_server_file : option string;
  opt_external_server_file : option string;
  opt_seeds : option string;
  opt_test : bool;
}.

Section read.
Context {S T : Type} `{!Storage S T}.

(** [read]: errors of [save] are only logged, [f1] only logs. *)
Definition read (file : string) (f2 : string → state S T) : state S T :=
  r ← gets (fun s => storage_read s file);
  match r with
  | Ok (Some v) => mret v
  | Ok None => v ← f2 file; storage_save file v ;; mret v
  | Err _ => f2 file
  end.

(** The default of the macro [storage!]: a value is made, and saved. *)
Definition saved_default (make : state S T) (file : string) : state S T :=
  v ← make; storage_save file v ;; mret v.

(** [IOEntry] and [IOStorage::read] of its key; [IOStorage::save] *)
Record IOEntry := mk_io_entry { io_file : string; io_make : state S T }.
Definition read_entry (e : option IOEntry) : state S (option T) :=
  match e with
  | Some e => v ← read (io_file e) (saved_default (io_make e)); mret (Some v)
  | None => mret None
  end.
Definition save_entry (e : option IOEntry) (v : T) : state S unit :=
  match e with Some e => storage_save (io_file e) v ;; mret tt | None => mret tt end.

Context `{!StorageLaws S T}.

(** A file that is there is read and left alone. One that is missing is made,
    and read back from then on. One that cannot be read is replaced by the
    default as well: when the save succeeds what it held is gone. *)
Theorem stored_or_made e s :
  (∀ v, storage_read s (io_file e) = Ok (Some v) → read_entry (Some e) s = (Some v, s)) ∧
  (∀ err v s1 s2, storage_read s (io_file e) = Err err → io_make e s = (v, s1) →
     storage_save (io_file e) v s1 = (Ok tt, s2) →
     read_entry (Some e) s = (Some v, s2) ∧ storage_read s2 (io_file e) = Ok (Some v) ∧
     read_entry (Some e) s2 = (Some v, s2)) ∧
  (∀ v s1 s2 s3, storage_read s (io_file e) = Ok None → io_make e s = (v, s1) →
     storage_save (io_file e) v s1 = (Ok tt, s2) → storage_save (io_file e) v s2 = (Ok tt, s3) →
     read_entry (Some e) s = (Some v, s3) ∧ read_entry (Some e) s3 = (Some v, s3)).
Proof.
  assert (Hhit : ∀ s' v, storage_read s' (io_file e) = Ok (Some v) → read_entry (Some e) s' = (Some v, s')).
  { intros s' v E. unfold read_entry, read. rewrite !run_bind. cbn. by rewrite E. }
  split_and!; [by apply Hhit| |].
  - intros err v s1 s2 E Em Es. pose proof (read_saved s1 s2 _ _ Es) as Hr. split_and!; [|done|by apply Hhit].
    unfold read_entry, read, saved_default, mbind, state_bind, gets. by rewrite E, Em, Es.
  - intros v s1 s2 s3 E Em E1 E2. pose proof (read_saved s2 s3 _ _ E2) as Hr. split; [|by apply Hhit].
    unfold read_entry, read, saved_default, mbind, state_bind, gets. rewrite E, Em, E1. cbn. by rewrite E2.
Qed.
End read.
Arguments IOEntry S T : clear implicits.

(** [io_storage_init]: the entry of each key. *)
Definition DEFAULT_APP_DIR_ADDRESS_JSON_FILE : string := "address.json".
Definition DEFAULT_APP_DIR_EXTERNAL_SERVER_LIST_JSON_FILE : string := "external-server-list.json".
Definition DEFAULT_APP_DIR_INNER_SERVER_LIST_JSON_FILE : string := "inner-server-list.json".

Record IOStorage (S Addr Servers : Type) := mk_io_storage {
  ios_address : IOEntry S Addr;
  ios_inner_server : IOEntry S Servers;
  ios_external_server : IOEntry S Servers;
}.
Definition io_storage_init {S Addr Servers} (opt : Opt) (random : state S Addr) (no_servers : Servers) :
    IOStorage S Addr Servers :=
  mk_io_storage S Addr Servers
    (mk_io_entry (default DEFAULT_APP_DIR_ADDRESS_JSON_FILE (opt_address_file opt)) random)
    (mk_io_entry (default DEFAULT_APP_DIR_INNER_SERVER_LIST_JSON_FILE (opt_inner_server_file opt)) (mret no_servers))
    (mk_io_entry (default DEFAULT_APP_DIR_EXTERNAL_SERVER_LIST_JSON_FILE (opt_external_server_file opt)) (mret no_servers)).
Arguments ios_address {S Addr Servers}.
Arguments ios_inner_server {S Addr Servers}.
Arguments ios_external_server {S Addr Servers}.
