(* ===== verification/Url.v ===== *)
(** * URLs

    The parts of src/src/web/api.rs that read a request path: the query
    parameter of a key, percent-decoding, and what is said of a seed's
    address. *)

From S2P Require Import Prelude NetAddr Utf8 Text.
From Stdlib Require Import Ascii.
Open Scope Z_scope.
Open Scope stdpp_scope.

(** ** Query parameters *)

(** [pair.splitn(2, '=')], the first part compared with the key, and the
    second returned: none if the key stands without a value. *)
Fixpoint find_param (key : string) (pairs : list string) : option string :=
  match pairs with
  | [] => None
  | kv :: rest =>
      let '(k, v) := splitn2 "=" kv in
      if decide (k = key) then v else find_param key rest
  end.
Definition get_query_param (path key : string) : option string :=
  match split "?" path with
  | _ :: query :: _ => find_param key (split "&" query)
  | _ => None
  end.

(** ** Percent-decoding *)

Definition hex_val (b : Byte.byte) : option Z :=
  let n := Z_of_byte b in
  if (48 <=? n) && (n <=? 57) then Some (n - 48)
  else if (97 <=? n) && (n <=? 102) then Some (n - 97 + 10)
  else if (65 <=? n) && (n <=? 70) then Some (n - 65 + 10)
  else None.

(** The loop over [bytes]: after [%] two more bytes are taken, whatever they
    are. *)
Fixpoint decode_bytes (l : bytes) : bytes :=
  match l with
  | [] => []
  | b :: rest =>
      if decide (b = Byte.x25) then
        match rest with
        | hi :: lo :: rest' =>
            match hex_val hi, hex_val lo with
            | Some h, Some l => byte_of_Z (Z.lor (Z.shiftl h 4) l) :: decode_bytes rest'
            | _, _ => decode_bytes rest'
            end
        | _ => []
        end
      else if decide (b = Byte.x2b) then Byte.x20 :: decode_bytes rest
      else b :: decode_bytes rest
  end.

Definition url_decode_query (val : string) : string := default val (from_utf8 (decode_bytes (as_bytes val))).

(** ** Seed addresses *)

Definition is_valid_seed_ip (ip : string) : bool :=
  negb (starts_with "127." ip) && bool_decide (ip ≠ "0.0.0.0") && bool_decide (ip ≠ "::1") && bool_decide (ip ≠ "::").
Definition seed_type_from_ip (ip : string) : string :=
  match parse_ip ip with
  | Some (V6 _) => "ipv6"
  | Some (V4 v4) => if v4_is_private v4 || v4_is_loopback v4 || v4_is_link_local v4 then "inner" else "external"
  | None => "external"
  end.

(** ** What browsers send is what the handlers read *)

(** The ways to write a byte: as it is, when it is neither [%] nor [+]; a space
    as [+]; any byte as two hexadecimal digits of either case. *)
Inductive encodes : bytes → bytes → Prop :=
| enc_nil : encodes [] []
| enc_plain b l e : b ≠ Byte.x25 → b ≠ Byte.x2b → encodes l e → encodes (b :: l) (b :: e)
| enc_space l e : encodes l e → encodes (Byte.x20 :: l) (Byte.x2b :: e)
| enc_hex b hi lo h o l e :
    hex_val hi = Some h → hex_val lo = Some o → Z_of_byte b = 16 * h + o → encodes l e →
    encodes (b :: l) (Byte.x25 :: hi :: lo :: e).

Lemma hex_val_bound b n : hex_val b = Some n → 0 ≤ n < 16.
Proof.
  unfold hex_val. pose proof (Z_of_byte_bound b). repeat case_match; intros [= <-];
    rewrite ?andb_true_iff, ?Z.leb_le in *; lia.
Qed.

Lemma decode_hex_byte b h o : Z_of_byte b = 16 * h + o → 0 ≤ h < 16 → 0 ≤ o < 16 → byte_of_Z (Z.lor (Z.shiftl h 4) o) = b.
Proof.
  intros E Hh Ho. apply Z_of_byte_inj. rewrite Z_of_byte_of_Z, E.
  assert (Hl : Z.lor (Z.shiftl h 4) o = 16 * h + o).
  { rewrite Z.lor_comm, <- Z.add_nocarry_lor.
    - rewrite Z.shiftl_mul_pow2 by lia. change (2 ^ 4) with 16. lia.
    - apply Z.bits_inj'. intros n Hn. rewrite Z.land_spec, Z.bits_0, Z.shiftl_spec by lia.
      destruct (decide (n < 4)) as [Hl|Hl]; [by rewrite (Z.testbit_neg_r h), andb_false_r by lia|].
      rewrite (Z.bits_above_log2 o n), andb_false_l; [done|lia|].
      destruct (decide (o = 0)) as [->|]; [cbn; lia|]. apply Z.log2_lt_pow2; [lia|].
      apply Z.lt_le_trans with (2 ^ 4); [lia|]. apply Z.pow_le_mono_r; lia. }
  rewrite Hl. apply Z.mod_small. lia.
Qed.

Lemma decode_encodes l e : encodes l e → decode_bytes e = l.
Proof.
  induction 1 as [|b l e H25 H2b _ IH|l e _ IH|b hi lo h o l e Hh Ho Eb _ IH]; cbn [decode_bytes].
  - done.
  - by rewrite !decide_False, IH.
  - by rewrite decide_False, decide_True, IH.
  - rewrite decide_True by done. rewrite Hh, Ho, IH. f_equal.
    apply decode_hex_byte; [done|by eapply hex_val_bound..].
Qed.

Lemma find_param_skip key l1 v l2 e :
  Forall (fun p => ∃ k w, p = k +:+ "=" +:+ w ∧ has "=" k = false ∧ k ≠ key) l1 →
  v = key +:+ "=" +:+ e → has "=" key = false → find_param key (l1 ++ v :: l2) = Some e.
Proof.
  intros H -> Hk. induction H as [|p l1 (k & w & -> & Hk' & Hne) _ IH]; cbn [app find_param].
  - change (key +:+ "=" +:+ e) with (key +:+ String "=" e). rewrite splitn2_app by done. by rewrite decide_True.
  - change (k +:+ "=" +:+ w) with (k +:+ String "=" w). rewrite splitn2_app by done. by rewrite decide_False.
Qed.

(** The query of a request: [k1=v1&k2=v2&...] *)
Fixpoint query_text (l : list (string * string)) : string :=
  match l with
  | [] => ""
  | [(k, v)] => k +:+ "=" +:+ v
  | (k, v) :: l' => k +:+ "=" +:+ v +:+ "&" +:+ query_text l'
  end.

Definition query_safe (s : string) : Prop := has "&" s = false ∧ has "?" s = false.
Definition param_text (kv : string * string) : string := kv.1 +:+ "=" +:+ kv.2.

Lemma has_param_text c kv : c ≠ "="%char → has c kv.1 = false → has c kv.2 = false → has c (param_text kv) = false.
Proof.
  intros Hc H1 H2. unfold param_text. rewrite !has_app, H1, H2. cbn. by rewrite bool_decide_false.
Qed.

Lemma split_query l :
  l ≠ [] → Forall (fun kv => query_safe kv.1 ∧ query_safe kv.2) l → split "&" (query_text l) = param_text <$> l.
Proof.
  intros Hl. induction 1 as [|[k v] l [[Hk _] [Hv _]] Hs IH]; [done|]. cbn in Hk, Hv.
  assert (Hp : has "&" (param_text (k, v)) = false) by by apply has_param_text.
  destruct l as [|kv l]; [by apply split_none|].
  change (query_text ((k, v) :: kv :: l)) with (k +:+ "=" +:+ v +:+ String "&" (query_text (kv :: l))).
  assert (k +:+ "=" +:+ v +:+ String "&" (query_text (kv :: l)) = param_text (k, v) +:+ String "&" (query_text (kv :: l))) as ->.
  { unfold param_text. cbn [fst snd]. by rewrite !string_app_assoc. }
  rewrite split_app, split_none, IH by done. done.
Qed.

Lemma query_no_question l : Forall (fun kv => query_safe kv.1 ∧ query_safe kv.2) l → has "?" (query_text l) = false.
Proof.
  induction 1 as [|[k v] l [[_ Hk] [_ Hv]] Hs IH]; [done|]. cbn in Hk, Hv.
  assert (Hp : has "?" (param_text (k, v)) = false) by by apply has_param_text.
  destruct l as [|kv l]; [done|].
  change (query_text ((k, v) :: kv :: l)) with (k +:+ "=" +:+ v +:+ "&" +:+ query_text (kv :: l)).
  rewrite !has_app, Hk, Hv, IH. done.
Qed.

Lemma get_query_param_found p l key e :
  has "?" p = false → Forall (fun kv => query_safe kv.1 ∧ query_safe kv.2) l → Forall (fun kv => has "=" kv.1 = false) l →
  (∃ l1 l2, l = l1 ++ (key, e) :: l2 ∧ key ∉ l1.*1) →
  get_query_param (p +:+ "?" +:+ query_text l) key = Some e.
Proof.
  intros Hp Hs He (l1 & l2 & -> & Hk). unfold get_query_param.
  change (p +:+ "?" +:+ query_text (l1 ++ (key, e) :: l2)) with (p +:+ String "?" (query_text (l1 ++ (key, e) :: l2))).
  rewrite split_app, (split_none _ p), (split_none _ (query_text _)) by (done || by apply query_no_question).
  cbn [app]. rewrite split_query, fmap_app, fmap_cons by (done || by destruct l1).
  apply Forall_app in He as [He1 He2]. apply Forall_cons in He2 as [He2 _].
  apply find_param_skip; [|done|done]. apply Forall_fmap. rewrite Forall_forall in He1. apply Forall_forall.
  intros [k v] Hin. exists k, v. split_and!; [done|by apply (He1 (k, v))|].
  intros ->. apply Hk. apply list_elem_of_fmap. by exists (key, v).
Qed.

(** C38. A parameter of a request is read back as it was meant: whatever
    text a client percent-encodes under a key - any escape, upper or lower case,
    [+] for a space - and whatever other parameters come with it, the handler
    gets the text. *)
Theorem query_round_trip p l key e s :
  encodes (as_bytes s) (as_bytes e) → from_utf8 (as_bytes s) = Some s →
  has "?" p = false → Forall (fun kv => query_safe kv.1 ∧ query_safe kv.2) l → Forall (fun kv => has "=" kv.1 = false) l →
  (∃ l1 l2, l = l1 ++ (key, e) :: l2 ∧ key ∉ l1.*1) →
  url_decode_query <$> get_query_param (p +:+ "?" +:+ query_text l) key = Some s.
Proof.
  intros He Hu Hp Hs Hk Hl. rewrite (get_query_param_found p l key e) by done. cbn. f_equal.
  unfold url_decode_query. apply decode_encodes in He as ->. by rewrite Hu.
Qed.

(** An escape that is not two hexadecimal digits takes the two bytes after it
    with it; without two bytes, the rest. *)
Example malformed_escapes :
  url_decode_query "a%zzb" = "ab" ∧ url_decode_query "100%" = "100" ∧ url_decode_query "%4" = "" ∧
  url_decode_query "%ff" = "%ff".
Proof. split_and!; reflexivity. Qed.
