(* ===== verification/LocalIps.v ===== *)
(** * The addresses of the machine

    get_all_ips of src/src/protocols/commands/online.rs: the IPv4 addresses in
    the output of the command [ip addr show], but for those of virtual
    interfaces, of the loopback and of the link-local network. *)

From S2P Require Import Prelude NetAddr Utf8 Text.
From Stdlib Require Import Ascii.
Open Scope Z_scope.
Open Scope stdpp_scope.

(** ** get_all_ips *)

Definition virtual_prefixes : list string := ["docker"; "virbr"; "veth"; "br-"; "lo"].
Definition is_virtual (iface : string) : bool := existsb (fun p => starts_with p iface) virtual_prefixes.

Definition parse_v4 (s : string) : option Ipv4Addr := match parse_ip s with Some (V4 ip) => Some ip | _ => None end.

(** The address of an [inet] line that is reported. *)
Definition address_in (line : string) : option (string * Ipv4Addr) :=
  if starts_with "inet " (trim line) then
    match split_whitespace (trim line) with
    | _ :: ip_with_mask :: _ =>
        let ip_str := default "" (head (split "/" ip_with_mask)) in
        ip ← parse_v4 ip_str;
        if v4_is_loopback ip || starts_with "169.254" ip_str then None else Some (ip_str, ip)
    | _ => None
    end
  else None.

(** [line.split(':').nth(1).unwrap_or("").trim()] *)
Definition iface_of (line : string) : string := trim (default "" (split ":" line !! 1%nat)).

Fixpoint scan (current_iface : string) (ls : list string) (found : list string * list string) :
    list string * list string :=
  match ls with
  | [] => found
  | line :: ls' =>
      let current_iface := if negb (starts_with_space line) then iface_of line else current_iface in
      if is_virtual current_iface then scan current_iface ls' found
      else scan current_iface ls'
             match address_in line with
             | Some (ip_str, ip) =>
                 if v4_is_private ip then (found.1 ++ [ip_str], found.2) else (found.1, found.2 ++ [ip_str])
             | None => found
             end
  end.

(** [stdout] is what the command printed; [None] when it could not be run. *)
Definition get_all_ips (stdout : option bytes) : list string * list string :=
  match stdout ≫= from_utf8 with
  | Some output_str => scan "" (lines output_str) ([], [])
  | None => ([], [])
  end.

(** ** What is reported *)

Lemma address_in_spec line s ip :
  address_in line = Some (s, ip) →
  parse_v4 s = Some ip ∧ v4_is_loopback ip = false ∧ starts_with "169.254" s = false.
Proof.
  unfold address_in. destruct (starts_with "inet " (trim line)); [|done].
  destruct (split_whitespace _) as [|w [|m l]]; [done|done|]. cbv zeta.
  destruct (parse_v4 _) as [ip'|] eqn:E; [|done]. unfold mbind, option_bind.
  match goal with |- context [if ?b then _ else _] => destruct b eqn:Eb end; [done|]. apply orb_false_iff in Eb as [El Es].
  by intros [= <- <-].
Qed.

Lemma scan_found cur ls found s :
  let r := scan cur ls found in
  (s ∈ r.1 → s ∈ found.1 ∨ ∃ ip, parse_v4 s = Some ip ∧ v4_is_loopback ip = false ∧ v4_is_private ip = true) ∧
  (s ∈ r.2 → s ∈ found.2 ∨ ∃ ip, parse_v4 s = Some ip ∧ v4_is_loopback ip = false ∧ v4_is_private ip = false ∧
                                 starts_with "169.254" s = false).
Proof.
  revert cur found. induction ls as [|line ls IH]; intros cur found; [by split; left|]. cbn [scan]. cbv zeta.
  destruct (is_virtual _); [apply IH|]. destruct (address_in line) as [[t ip]|] eqn:E; [|apply IH].
  apply address_in_spec in E as (Ep & El & Es).
  destruct (v4_is_private ip) eqn:Epr; (match goal with |- context [scan ?c ls ?f] => destruct (IH c f) as [H1 H2] end);
    cbn in H1, H2; split; intros Hs.
  - destruct (H1 Hs) as [[Hf| ->%list_elem_of_singleton]%elem_of_app|]; [by left|right; by exists ip|by right].
  - by apply H2.
  - by apply H1.
  - destruct (H2 Hs) as [[Hf| ->%list_elem_of_singleton]%elem_of_app|]; [by left|right; by exists ip|by right].
Qed.

(** What is shown as an address of the machine is one, never of the loopback:
    the first list holds private addresses, the second addresses that are
    neither private nor link-local. *)
Theorem all_ips_sorted_out stdout s :
  (s ∈ (get_all_ips stdout).1 →
   ∃ ip, parse_v4 s = Some ip ∧ v4_is_loopback ip = false ∧ v4_is_private ip = true) ∧
  (s ∈ (get_all_ips stdout).2 →
   ∃ ip, parse_v4 s = Some ip ∧ v4_is_loopback ip = false ∧ v4_is_private ip = false ∧ starts_with "169.254" s = false).
Proof.
  unfold get_all_ips. destruct (stdout ≫= from_utf8) as [o|]; [|by split; intros ?%elem_of_nil].
  destruct (scan_found "" (lines o) ([], []) s) as [H1 H2]. split; intros Hs.
  - by destruct (H1 Hs) as [?%elem_of_nil|].
  - by destruct (H2 Hs) as [?%elem_of_nil|].
Qed.

Definition line_of (s : string) : string := s +:+ String newline "".
Example ips_of_an_output :
  get_all_ips (Some (as_bytes (
    line_of "1: lo: <LOOPBACK,UP> mtu 65536" +:+ line_of "    inet 127.0.0.1/8 scope host lo" +:+
    line_of "2: eth0@if7: <UP> mtu 1500" +:+ line_of "    link/ether 02:42:ac:11:00:02" +:+
    line_of "    inet 172.17.0.2/16 brd 172.17.255.255 scope global eth0" +:+
    line_of "       valid_lft forever" +:+ line_of "    inet6 fe80::1/64 scope link" +:+
    line_of "3: docker0: <UP>" +:+ line_of "    inet 172.18.0.1/16 scope global docker0" +:+
    line_of "4: wan0: <UP>" +:+ line_of "    inet 203.0.113.9/24" +:+ line_of "    inet 169.254.3.3/16"))) =
  (["172.17.0.2"], ["203.0.113.9"]).
Proof. vm_compute. reflexivity. Qed.

(** The prefix of the loopback is that of every interface whose name begins
    so. *)
Example lo_prefix : is_virtual "lowpan0" = true ∧ is_virtual "lora0" = true.
Proof. split; reflexivity. Qed.
