(* ===== verification/Resources.v ===== *)
(** * The resources of the machine

    ResourceInfo of src/src/web/templates.rs: what it finds in the files under
    /proc and in the output of df on Linux, and the figures a page shows of
    it. *)

From S2P Require Import Prelude Utf8 Text Float.
From Stdlib Require Import Ascii SpecFloat.
Open Scope Z_scope.
Open Scope stdpp_scope.

(** The machine: files by name, [None] where they cannot be read as text, and
    what two commands printed, [None] where they could not be run. *)
Class Machine : Type := {
  read_to_string : string → option string;
  df_TB : option bytes;
  ip_addr_show : option bytes;
}.

Record ResourceInfo := mk_resources {
  ri_storage_tb : f64;
  ri_storage_weight : string;
  ri_bandwidth_gbps : f64;
  ri_bandwidth_weight : string;
  ri_cpu_cores : Z;
  ri_cpu_ghz : f64;
  ri_cpu_weight : string;
  ri_memory_gb : f64;
  ri_memory_weight : string;
  ri_api_requests : Z;
  ri_api_weight : string;
  ri_composite_weight : string;
}.

(** [ResourceInfo::default] *)
Definition resources_default : ResourceInfo :=
  mk_resources (f64_of 1) "1.00" (f64_of 1) "1.00" 4 (f64_of 2) "0.80" (f64_of 8) "0.80" 1000 "1.00" "4.60".

(** The value of the first line that has one: a loop that returns from
    inside. *)
Fixpoint first_value {A B} (f : A → option B) (l : list A) : option B :=
  match l with
  | [] => None
  | x :: l' => match f x with Some v => Some v | None => first_value f l' end
  end.

Definition storage_in (line : string) : option f64 :=
  let parts := split_whitespace line in
  if (6 <=? length parts)%nat then
    part ← parts !! 3%nat;
    size ← parse_f64 (trim_end_matches "T" (trim part));
    Some (f64_max size (f64_of 1))
  else None.
Definition memory_in (line : string) : option f64 :=
  if starts_with "MemTotal:" line then
    kb ← split_whitespace line !! 1%nat;
    kb_val ← parse_f64 kb;
    Some (f64_div (f64_div kb_val (f64_of 1024)) (f64_of 1024))
  else None.
Definition ghz_in (line : string) : option f64 :=
  if starts_with "cpu MHz" line then
    mhz ← split ":" line !! 1%nat;
    mhz_val ← parse_f64 (trim mhz);
    Some (f64_div mhz_val (f64_of 1000))
  else None.
Definition processors (content : string) : Z :=
  Z.of_nat (length (List.filter (starts_with "processor") (lines content))).

Section detect.
Context `{Machine}.

Definition detect_storage_tb : f64 :=
  default (f64_of 1) (output ← df_TB; first_value storage_in (drop 1 (lines (from_utf8_lossy output)))).
Definition detect_memory_gb : f64 :=
  default (f64_of 8) (content ← read_to_string "/proc/meminfo"; first_value memory_in (lines content)).
Definition detect_cpu_cores : Z :=
  match read_to_string "/proc/cpuinfo" with
  | Some content => if 0 <? processors content then processors content else 4
  | None => 4
  end.
Definition detect_cpu_ghz : f64 :=
  default (f64_of 2) (content ← read_to_string "/proc/cpuinfo"; first_value ghz_in (lines content)).

(** [ResourceInfo::detect] *)
Definition detect : ResourceInfo :=
  let cpu_cores := detect_cpu_cores in
  let memory_gb := detect_memory_gb in
  let storage_tb := detect_storage_tb in
  let cpu_ghz := detect_cpu_ghz in
  let cpu_w := f64_div (f64_mul (f64_of cpu_cores) cpu_ghz) (f64_of 10) in
  let composite := f64_add (f64_add (f64_add (f64_add storage_tb (f64_of 1)) cpu_w) (f64_div memory_gb (f64_of 10))) (f64_of 1) in
  mk_resources storage_tb (show_f64_2 storage_tb) (f64_of 1) (show_f64_2 (f64_of 1)) cpu_cores cpu_ghz (show_f64_2 cpu_w)
    memory_gb (show_f64_2 (f64_div memory_gb (f64_of 10))) 1000 (show_f64_2 (f64_div (f64_of 1000) (f64_of 1000)))
    (show_f64_2 composite).
End detect.

(** ** What is found *)

Lemma first_value_spec {A B} (f : A → option B) l v :
  first_value f l = Some v ↔ ∃ l1 x l2, l = l1 ++ x :: l2 ∧ f x = Some v ∧ Forall (fun y => f y = None) l1.
Proof.
  induction l as [|x l IH]; cbn [first_value]; [split; [done|intros ([|] & ? & ? & ? & _); done]|].
  destruct (f x) as [w|] eqn:E.
  - split; [intros [= ->]; by exists [], x, l|]. intros ([|y l1] & z & l2 & [= <- El] & Ez & HF); [congruence|].
    apply Forall_cons in HF as [HF _]. congruence.
  - rewrite IH. split.
    + intros (l1 & z & l2 & -> & Ez & HF). exists (x :: l1), z, l2. split_and!; [done|done|by constructor].
    + intros ([|y l1] & z & l2 & [= <- El] & Ez & HF); [congruence|]. apply Forall_cons in HF as [_ HF].
      by exists l1, z, l2.
Qed.

(** Whatever the machine prints: at least one terabyte and one core; the cores
    are the processor lines if there is one; a machine that tells nothing has
    the default resources; and a memory line of a whole number of kilobytes is
    read as the double next to it, over 1024 twice. *)
Theorem resources_found `{Machine} :
  SFleb (f64_of 1) (ri_storage_tb detect) = true ∧
  1 ≤ ri_cpu_cores detect ∧
  (∀ content, read_to_string "/proc/cpuinfo" = Some content → 0 < processors content →
     ri_cpu_cores detect = processors content) ∧
  (df_TB = None → read_to_string "/proc/meminfo" = None → read_to_string "/proc/cpuinfo" = None →
     detect = resources_default) ∧
  (∀ content l1 line l2 n rest, read_to_string "/proc/meminfo" = Some content → lines content = l1 ++ line :: l2 →
     Forall (fun x => starts_with "MemTotal:" x = false) l1 → starts_with "MemTotal:" line = true →
     split_whitespace line = "MemTotal:" :: show_u n :: rest → 0 ≤ n →
     ri_memory_gb detect = f64_div (f64_div (f64_of n) (f64_of 1024)) (f64_of 1024)).
Proof.
  split_and!.
  - cbn [detect ri_storage_tb]. unfold detect_storage_tb. destruct df_TB as [output|]; [|reflexivity].
    unfold mbind, option_bind. destruct (first_value _ _) as [v|] eqn:E; [|reflexivity].
    apply first_value_spec in E as (_ & line & _ & _ & E & _). unfold storage_in in E.
    destruct (6 <=? _)%nat; [|done]. destruct (_ !! _) as [part|]; [|done]. cbn in E.
    destruct (parse_f64 _) as [size|]; [|done]. injection E as <-. by apply f64_max_above.
  - cbn [detect ri_cpu_cores]. unfold detect_cpu_cores. destruct (read_to_string _) as [c|]; [|lia].
    destruct (Z.ltb_spec 0 (processors c)); lia.
  - intros c Ec Hc. cbn [detect ri_cpu_cores]. unfold detect_cpu_cores. rewrite Ec.
    by apply Z.ltb_lt in Hc as ->.
  - intros E1 E2 E3. unfold detect, detect_storage_tb, detect_memory_gb, detect_cpu_cores, detect_cpu_ghz.
    rewrite E1, E2, E3. vm_compute. reflexivity.
  - intros content l1 line l2 n rest Ec El Hl1 Hline Ew Hn. cbn [detect ri_memory_gb]. unfold detect_memory_gb.
    rewrite Ec. cbn [mbind option_bind].
    replace (first_value memory_in (lines content)) with (Some (f64_div (f64_div (f64_of n) (f64_of 1024)) (f64_of 1024)));
      [done|]. symmetry. apply first_value_spec. exists l1, line, l2. split_and!; [done| |].
    + unfold memory_in. rewrite Hline, Ew. cbn. by rewrite parse_f64_show_u.
    + eapply Forall_impl; [exact Hl1|]. intros x Hx. unfold memory_in. by rewrite Hx.
Qed.

Definition text_line (s : string) : string := s +:+ String newline "".
#[local] Instance example_machine : Machine := {|
  read_to_string f :=
    if bool_decide (f = "/proc/meminfo") then Some (text_line "MemTotal:       16303428 kB" +:+ text_line "MemFree: 1 kB")
    else if bool_decide (f = "/proc/cpuinfo") then
      Some (text_line "processor	: 0" +:+ text_line "cpu MHz		: 2592.004" +:+
            text_line "processor	: 1" +:+ text_line "cpu MHz		: 800.0")
    else None;
  df_TB := Some (as_bytes (text_line "Filesystem Type 1TB-blocks Used Available Use% Mounted on" +:+
                           text_line "/dev/sda1  ext4 4TB 3T 1T 75% /"));
  ip_addr_show := None;
|}.

(** The fourth column of df -T is what is used; the size of the disk is 4. *)
Example machine_example :
  let r := detect in
  ri_cpu_cores r = 2 ∧ [ri_storage_weight r; ri_cpu_weight r; ri_memory_weight r; ri_composite_weight r] =
  ["3.00"; "0.52"; "1.55"; "7.07"].
Proof. vm_compute. split; reflexivity. Qed.
