(* ===== verification/Web.v ===== *)
(** * The web interface: requests, JSON, state

    What the handlers of src/src/web/api.rs work on: a request of the server
    crate aex, [serde_json::Value], and the state behind them - the node's
    world, the user store, the tables, the callback of the application, and
    what was sent back. A handler is an operation on that state; where the
    code panics it ends in an error, and nothing after is done. *)

From S2P Require Import Prelude Text External World Sql Files UserStore.
From S2P Require Balance Contact Transaction TickRecord WitnessSeed.
Open Scope Z_scope.
Open Scope stdpp_scope.

(** ** JSON *)

(** [serde_json::Value]; a number that is no integer is kept as its text. *)
Inductive json :=
| JNull
| JBool (b : bool)
| JInt (n : Z)
| JFloat (text : string)
| JStr (s : string)
| JArr (l : list json)
| JObj (fields : list (string * json)).

(** [serde_json::from_slice::<Value>] and [to_string] *)
Class JsonValue : Type := {
  value_from_slice : bytes → result json;
  value_to_string : json → string;
}.

(** [v.get(key)]: the fields of an object that was read have distinct names. *)
Definition json_get (key : string) (v : json) : option json :=
  match v with
  | JObj fields => snd <$> List.find (fun kv => bool_decide (kv.1 = key)) fields
  | _ => None
  end.
Definition as_str (v : json) : option string := match v with JStr s => Some s | _ => None end.
Definition as_u64 (v : json) : option Z :=
  match v with JInt n => if decide (in_u 64 n) then Some n else None | _ => None end.
Definition json_opt (o : option string) : json := match o with Some s => JStr s | None => JNull end.

(** [v.get(key).and_then(|v| v.as_str()).unwrap_or("")] *)
Definition str_field (key : string) (v : json) : string := default "" (json_get key v ≫= as_str).

(** [{"success": false, "error": e}] *)
Definition failure (e : string) : json := JObj [("success", JBool false); ("error", JStr e)].
Definition success : json := JObj [("success", JBool true)].

(** ** Requests *)

(** [HttpMetadata]: the method, the path with its query, the header
    Content-Length. *)
Record HttpMetadata := mk_meta {
  hm_post : bool;
  hm_path : string;
  hm_content_length : option string;
}.
(** A request; [rq_reader] is what arrives on the connection. *)
Record Request := mk_request {
  rq_meta : option HttpMetadata;
  rq_reader : option bytes;
}.

Definition content_length (rq : Request) : Z :=
  unwrap_or 0 (m ← ok_or "" (rq_meta rq); s ← ok_or "" (hm_content_length m); parse_u 64 s).

(** [vec![0u8; cl.max(4096)]], and [read_exact] into its first [cl] bytes: when
    fewer arrive, those are there. *)
Definition read_http_body (rq : Request) : Z * bytes :=
  let cl := content_length rq in
  let input := match rq_reader rq with Some b => take (Z.to_nat cl) b | None => [] end in
  (cl, input ++ replicate (Z.to_nat (Z.max cl 4096) - length input) Byte.x00).

(** [body[..cl]] *)
Definition body_of (rq : Request) : bytes := let '(cl, body) := read_http_body rq in take (Z.to_nat cl) body.

(** [serde_json::from_slice(&body[..cl]).unwrap_or_default()] *)
Definition json_body `{JsonValue} (rq : Request) : json := unwrap_or JNull (value_from_slice (body_of rq)).

Lemma body_of_full rq b :
  rq_reader rq = Some b → content_length rq = Z.of_nat (length b) → body_of rq = b.
Proof.
  intros Hr Hc. unfold body_of, read_http_body. rewrite Hr, Hc, Nat2Z.id, firstn_all. by rewrite take_app_length.
Qed.

(** ** State *)

(** The tables the handlers use, each in a store of its own type. *)
Record Db (TC TB TT TS TR : Type) := mk_db {
  db_contacts : TC;
  db_balances : TB;
  db_transactions : TT;
  db_seeds : TS;
  db_ticks : TR;
}.
Arguments mk_db {TC TB TT TS TR}.
Arguments db_contacts {TC TB TT TS TR}.
Arguments db_balances {TC TB TT TS TR}.
Arguments db_transactions {TC TB TT TS TR}.
Arguments db_seeds {TC TB TT TS TR}.
Arguments db_ticks {TC TB TT TS TR}.

(** The closure [handle_send_chat] spawns: it waits for the acknowledgement. *)
Inductive WebTask := TAwaitAck (request_id : Z) (to_addr msg_body : string).

(** [ctx.send(text, mime)]: the text and whether it is marked as JSON. *)
Record Sent := mk_sent { st_text : string; st_json : bool }.

Section web.
Context `{Crates} {F D App : Type}.

(** [wb_next_id] is [NEXT_REQUEST_ID]; [wb_ws] the slot [WsSenderList] with
    what was broadcast to it; [wb_app] what the callback [TransferFn] of the
    application acts on. *)
Record Web := mk_web {
  wb_world : World;
  wb_store : UserStore F;
  wb_db : D;
  wb_app : App;
  wb_next_id : Z;
  wb_ws : option (list string);
  wb_tasks : list WebTask;
  wb_sent : list Sent;
}.

Definition set_world (v : World) (w : Web) : Web := mk_web v (wb_store w) (wb_db w) (wb_app w) (wb_next_id w) (wb_ws w) (wb_tasks w) (wb_sent w).
Definition set_store (v : UserStore F) (w : Web) : Web := mk_web (wb_world w) v (wb_db w) (wb_app w) (wb_next_id w) (wb_ws w) (wb_tasks w) (wb_sent w).
Definition set_db (v : D) (w : Web) : Web := mk_web (wb_world w) (wb_store w) v (wb_app w) (wb_next_id w) (wb_ws w) (wb_tasks w) (wb_sent w).
Definition set_app (v : App) (w : Web) : Web := mk_web (wb_world w) (wb_store w) (wb_db w) v (wb_next_id w) (wb_ws w) (wb_tasks w) (wb_sent w).
Definition set_next_id (v : Z) (w : Web) : Web := mk_web (wb_world w) (wb_store w) (wb_db w) (wb_app w) v (wb_ws w) (wb_tasks w) (wb_sent w).
Definition set_ws (v : option (list string)) (w : Web) : Web := mk_web (wb_world w) (wb_store w) (wb_db w) (wb_app w) (wb_next_id w) v (wb_tasks w) (wb_sent w).
Definition set_tasks (v : list WebTask) (w : Web) : Web := mk_web (wb_world w) (wb_store w) (wb_db w) (wb_app w) (wb_next_id w) (wb_ws w) v (wb_sent w).
Definition set_sent (v : list Sent) (w : Web) : Web := mk_web (wb_world w) (wb_store w) (wb_db w) (wb_app w) (wb_next_id w) (wb_ws w) (wb_tasks w) v.

(** An operation on a part of the state. *)
Definition on_part {S A} (get : Web → S) (put : S → Web → Web) (m : state S A) : state Web A := fun w =>
  let '(a, s) := m (get w) in (a, put s w).
Definition on_world {A} : M A → state Web A := on_part wb_world set_world.
Definition on_store {A} : state (UserStore F) A → state Web A := on_part wb_store set_store.
Definition on_files {A} (m : state F A) : state Web A := on_store (on_fs m).
Definition on_db {A} : state D A → state Web A := on_part wb_db set_db.
Definition on_app {A} : state App A → state Web A := on_part wb_app set_app.
Definition on_next_id {A} : state Z A → state Web A := on_part wb_next_id set_next_id.
(** [senders.broadcast(text)], with the slot there *)
Definition broadcast (text : string) : state Web unit := modify (fun w => set_ws ((fun l => l ++ [text]) <$> wb_ws w) w).
Definition spawn_web (t : WebTask) : state Web unit := modify (fun w => set_tasks (wb_tasks w ++ [t]) w).
Definition send_text (text : string) (is_json : bool) : state Web unit :=
  modify (fun w => set_sent (wb_sent w ++ [mk_sent text is_json]) w).

Lemma run_on_part {S A} (get : Web → S) put (m : state S A) w :
  on_part get put m w = ((m (get w)).1, put (m (get w)).2 w).
Proof. unfold on_part. by destruct (m (get w)). Qed.
(** [ctx.send(json.to_string(), Some(SubMediaType::Json))] *)
Definition send_json `{JsonValue} (v : json) : state Web unit := send_text (value_to_string v) true.
End web.
Arguments Web {_} F D App.

(** Operations on one table. *)
Section tables.
Context {TC TB TT TS TR : Type}.
Abbreviation DB := (Db TC TB TT TS TR).
Definition on_contacts {A} (m : state TC A) : state DB A := fun d =>
  let '(a, t) := m (db_contacts d) in (a, mk_db t (db_balances d) (db_transactions d) (db_seeds d) (db_ticks d)).
Definition on_balances {A} (m : state TB A) : state DB A := fun d =>
  let '(a, t) := m (db_balances d) in (a, mk_db (db_contacts d) t (db_transactions d) (db_seeds d) (db_ticks d)).
Definition on_transactions {A} (m : state TT A) : state DB A := fun d =>
  let '(a, t) := m (db_transactions d) in (a, mk_db (db_contacts d) (db_balances d) t (db_seeds d) (db_ticks d)).
Definition on_seeds {A} (m : state TS A) : state DB A := fun d =>
  let '(a, t) := m (db_seeds d) in (a, mk_db (db_contacts d) (db_balances d) (db_transactions d) t (db_ticks d)).
Definition on_ticks {A} (m : state TR A) : state DB A := fun d =>
  let '(a, t) := m (db_ticks d) in (a, mk_db (db_contacts d) (db_balances d) (db_transactions d) (db_seeds d) t).
End tables.
