(* ===== verification/WebApi.v ===== *)
(** * The web interface: handlers over the user store and the tables

    src/src/web/api.rs: transfers, the page of an address, contacts, chat
    logs, profiles and avatars. *)

From S2P Require Import Prelude Text External NodeRegistry World Sql Files UserStore Url Web.
From S2P Require Balance Contact Transaction.
From Stdlib Require Import Ascii.
Open Scope Z_scope.
Open Scope stdpp_scope.

(** The crate base64 ([STANDARD.encode]), and [get_connection_info] of the
    crate aex. *)
Class WebCrates `{Crates} : Type := {
  base64 : bytes → string;
  get_connection_info : Manager → ConnectionInfo;
}.

(** [json!(profile)] and [json!(conversations)]: derived *)
Definition profile_json (p : UserProfile) : json := JObj
  [("name", JStr (up_name p)); ("notes", JStr (up_notes p)); ("avatar_path", json_opt (up_avatar_path p));
   ("added_at", JInt (up_added_at p)); ("nickname", JStr (up_nickname p)); ("gender", JStr (up_gender p));
   ("age", JInt (up_age p)); ("country", JStr (up_country p)); ("ethnicity", JStr (up_ethnicity p));
   ("blood_type", JStr (up_blood_type p)); ("height_cm", JInt (up_height_cm p)); ("weight_kg", JInt (up_weight_kg p));
   ("education", JStr (up_education p)); ("home_address", JStr (up_home_address p))].
Definition conversation_json (s : ConversationSummary) : json := JObj
  [("contact_address", JStr (su_contact_address s)); ("last_content", JStr (su_last_content s));
   ("last_timestamp", JInt (su_last_timestamp s)); ("last_is_sent", JBool (su_last_is_sent s));
   ("unread_count", JInt (su_unread_count s))].
Definition message_json (m : ChatMessage) : json := JObj
  [("id", JInt (cm_id m)); ("contact_address", JStr (cm_contact_address m)); ("content", JStr (cm_content m));
   ("is_sent", JBool (cm_is_sent m)); ("status", JStr (cm_status m)); ("timestamp", JInt (cm_timestamp m))].
Definition transaction_json (tx : Transaction.Model) : json := JObj
  [("id", JInt (Transaction.tm_id tx)); ("tx_type", JStr (Transaction.tx_type_value (Transaction.tm_tx_type tx)));
   ("from_address", JStr (Transaction.tm_from_address tx)); ("to_address", JStr (Transaction.tm_to_address tx));
   ("amount", JStr (Transaction.tm_amount tx)); ("timestamp", JInt (Transaction.tm_timestamp tx));
   ("hash", JStr (Transaction.tm_hash tx)); ("pre_hash", JStr (Transaction.tm_pre_hash tx))].
Definition contact_json (c : Contact.Model) (unread : Z) (p : UserProfile) : json := JObj
  [("id", JInt (Contact.ct_id c)); ("name", JStr (Contact.ct_name c)); ("address", JStr (Contact.ct_address c));
   ("created_at", JInt (Contact.ct_created_at c)); ("unread_count", JInt unread);
   ("nickname", JStr (up_nickname p)); ("avatar_path", json_opt (up_avatar_path p))].
Definition registry_json (address last_part : string) (p : UserProfile) : json := JObj
  [("id", JNull); ("name", JStr last_part); ("address", JStr address); ("created_at", JNull);
   ("unread_count", JInt 0); ("from_registry", JBool true);
   ("nickname", JStr (up_nickname p)); ("avatar_path", json_opt (up_avatar_path p))].

(** [BTreeMap::into_values] *)
Definition values_in_order (m : gmap string json) : list json :=
  (sort_by (fun a b => str_leb a.1 b.1) (map_to_list m)).*2.

(** [HashMap::from_iter]: the last entry of a key counts. *)
Definition collect_map {A} (l : list (string * A)) : gmap string A := list_to_map (reverse l).

Section api.
Context `{Crates, !WebCrates, !JsonValue}.
Context {F TC TB TT TS TR App : Type}.
Context `{!Fs F, !Sql TC Contact.Model, !Sql TB Balance.Model, !Sql TT Transaction.Model}.
Context `{!Json (list ChatMessage), !Json UserProfile}.
Abbreviation W := (state (Web F (Db TC TB TT TS TR) App)).
(** The directory of the user store. *)
Context (base_path : string).

Definition handle_transfer (rq : Request) (addr : string)
    (transfer_fn : string → string → string → state App (result string)) : W bool :=
  let transfer_req := json_body rq in
  let to := str_field "to" transfer_req in
  let amount := default 0 (json_get "amount" transfer_req ≫= as_u64) in
  result ← (if is_empty to || (amount =? 0) then mret (Err "Missing 'to' or 'amount'")
            else on_app (transfer_fn addr to (show_u amount)));
  send_json match result with
            | Ok tx_hash => JObj [("success", JBool true); ("tx_hash", JStr tx_hash)]
            | Err e => failure e
            end ;;
  mret true.

(** The query parameter, decoded; empty when it is missing. *)
Definition decoded_param (path key : string) : string := url_decode_query (default "" (get_query_param path key)).

Definition touches (a : string) (tx : Transaction.Model) : bool :=
  bool_decide (Transaction.tm_from_address tx = a) || bool_decide (Transaction.tm_to_address tx = a).

Definition handle_address_api (meta_path : string) : W bool :=
  let addr_str := decoded_param meta_path "address" in
  balance ← on_db (on_balances (Balance.get addr_str));
  all_txs ← on_db (on_transactions Transaction.get_all);
  let txs := take 50 (List.filter (touches addr_str) (unwrap_or [] all_txs)) in
  send_json (JObj [("address", JStr addr_str); ("balance", JInt (unwrap_or 0 balance));
                   ("transactions", JArr (transaction_json <$> txs))]) ;;
  mret true.

(** [load_profile(a).await.unwrap_or_default()] *)
Definition profile_or_default (now : Z) (a : string) : W UserProfile :=
  p ← on_store (load_profile base_path now a);
  mret (unwrap_or (default_profile now) p).

(** The loop over the contacts of the table *)
Fixpoint list_db_contacts (now : Z) (my_addr : string) (unread_by_addr : gmap string Z)
    (l : list Contact.Model) (contact_map : gmap string json) : W (gmap string json) :=
  match l with
  | [] => mret contact_map
  | c :: l' =>
      if decide (Contact.ct_address c = my_addr) then list_db_contacts now my_addr unread_by_addr l' contact_map
      else
        let unread := default 0 (unread_by_addr !! Contact.ct_address c) in
        profile ← profile_or_default now (Contact.ct_address c);
        list_db_contacts now my_addr unread_by_addr l'
          (<[Contact.ct_address c := contact_json c unread profile]> contact_map)
  end.

(** [address.rsplit(':').next()] *)
Definition last_part (a : string) : string := default a (last (split ":" a)).

Fixpoint list_registry_contacts (now : Z) (my_addr : string) (l : list NodeEntry)
    (contact_map : gmap string json) : W (gmap string json) :=
  match l with
  | [] => mret contact_map
  | entry :: l' =>
      if decide (address entry = my_addr) then list_registry_contacts now my_addr l' contact_map
      else if decide (is_Some (contact_map !! address entry)) then list_registry_contacts now my_addr l' contact_map
      else
        profile ← profile_or_default now (address entry);
        list_registry_contacts now my_addr l'
          (<[address entry := registry_json (address entry) (last_part (address entry)) profile]> contact_map)
  end.

(** [registry.sync_from_connection_info(&gctx.get_connection_info().await)] *)
Definition sync_registry : W (option registry) :=
  on_world (
    m ← get_g g_manager;
    now ← now_secs;
    with_registry (sync_from_connection_info now (get_connection_info m)) ;;
    get_registry).

Definition handle_list_contacts (now : Z) (addr : string) : W bool :=
  db_contacts ← on_db (on_contacts Contact.get_all);
  unread_vec ← on_files (get_all_contacts_with_unread base_path);
  let unread_by_addr := collect_map (unwrap_or [] unread_vec) in
  contact_map ← list_db_contacts now addr unread_by_addr (unwrap_or [] db_contacts) ∅;
  r ← sync_registry;
  contact_map ← match r with
                | Some r => list_registry_contacts now addr (get_nodes r) contact_map
                | None => mret contact_map
                end;
  send_json (JObj [("success", JBool true); ("contacts", JArr (values_in_order contact_map))]) ;;
  mret true.

Definition handle_add_contact (now : Z) (rq : Request) : W bool :=
  let contact_req := json_body rq in
  let name := str_field "name" contact_req in
  let address := str_field "address" contact_req in
  if is_empty name || is_empty address then send_json (failure "Missing 'name' or 'address'") ;; mret true
  else
    result ← on_db (on_contacts (Contact.add now name address));
    send_json match result with
              | Ok contact => JObj [("success", JBool true);
                  ("contact", JObj [("id", JInt (Contact.ct_id contact)); ("name", JStr (Contact.ct_name contact));
                                    ("address", JStr (Contact.ct_address contact))])]
              | Err e => failure e
              end ;;
    mret true.

Definition handle_delete_contact (meta_path : string) : W bool :=
  let addr := decoded_param meta_path "address" in
  result ← on_db (on_contacts (Contact.delete addr));
  send_json match result with Ok _ => success | Err e => failure e end ;;
  mret true.

Definition handle_get_chat_messages (meta_path : string) : W bool :=
  let addr := decoded_param meta_path "contact" in
  messages ← on_files (get_messages base_path addr);
  on_files (mark_as_read base_path addr) ;;
  send_json (JObj [("success", JBool true); ("messages", JArr (message_json <$> unwrap_or [] messages))]) ;;
  mret true.

Definition handle_get_conversations : W bool :=
  conversations ← on_files (get_conversations base_path);
  send_json (JObj [("success", JBool true);
                   ("conversations", JArr (conversation_json <$> unwrap_or [] conversations))]) ;;
  mret true.

Definition with_avatar (path : option string) (p : UserProfile) : UserProfile :=
  mk_profile (up_name p) (up_notes p) path (up_added_at p) (up_nickname p) (up_gender p) (up_age p) (up_country p)
    (up_ethnicity p) (up_blood_type p) (up_height_cm p) (up_weight_kg p) (up_education p) (up_home_address p).

Definition avatar_data (data : bytes) : string := "data:image/jpeg;base64," +:+ base64 data.

Definition embed_avatar (addr : string) (profile : UserProfile) : W UserProfile :=
  match up_avatar_path profile with
  | Some path =>
      data ← on_files (read_file base_path addr path);
      mret match data with
           | Ok (Some data) => with_avatar (Some (avatar_data data)) profile
           | _ => profile
           end
  | None => mret profile
  end.

Definition send_profile (now : Z) (addr : string) : W bool :=
  profile ← profile_or_default now addr;
  profile ← embed_avatar addr profile;
  send_json (JObj [("success", JBool true); ("profile", profile_json profile)]) ;;
  mret true.
Definition handle_get_profile (now : Z) (meta_path : string) : W bool :=
  send_profile now (decoded_param meta_path "address").
Definition handle_get_self_profile (now : Z) (addr : string) : W bool := send_profile now addr.

Definition handle_save_profile (now : Z) (rq : Request) (addr meta_path : string) : W bool :=
  let target := default addr (get_query_param meta_path "address") in
  match json_from_slice (body_of rq) with
  | Ok profile =>
      profile ← match up_avatar_path profile with
                | None =>
                    existing ← on_store (load_profile base_path now target);
                    mret match existing with
                         | Ok existing => with_avatar (up_avatar_path existing) profile
                         | Err _ => profile
                         end
                | Some _ => mret profile
                end;
      on_store (save_profile base_path target profile) ;;
      send_json success ;;
      mret true
  | Err _ => send_json (failure "Invalid profile JSON") ;; mret true
  end.

(** The whole buffer is stored, not its first [cl] bytes. *)
Definition handle_upload_avatar (now : Z) (rq : Request) (addr meta_path : string) : W bool :=
  let '(_, body_bytes) := read_http_body rq in
  let target := default addr (get_query_param meta_path "address") in
  let name := "avatar.jpg" in
  r ← on_files (save_image base_path target name body_bytes);
  match r with
  | Err e => send_json (failure e) ;; mret true
  | Ok _ =>
      profile ← on_store (load_profile base_path now target);
      match profile with
      | Ok profile => on_store (save_profile base_path target (with_avatar (Some (image_path name)) profile)) ;; mret tt
      | Err _ => mret tt
      end ;;
      send_json (JObj [("success", JBool true); ("avatar_path", JStr (image_path name))]) ;;
      mret true
  end.
End api.

(** ** What is stored of an upload, and shown of a log *)

Section properties.
Context `{Crates, !WebCrates, !JsonValue}.
Context {F TC TB TT TS TR App : Type}.
Context `{!Fs F, !FsLaws F, !Sql TC Contact.Model, !Sql TB Balance.Model, !Sql TT Transaction.Model}.
Context `{!Json (list ChatMessage), !JsonLaws (list ChatMessage), !Json UserProfile, !JsonLaws UserProfile}.
Abbreviation Wb := (Web F (Db TC TB TT TS TR) App).
Context (base : string).

Lemma image_place_other a : plain a → file_place base a (image_path "avatar.jpg") ≠ file_place base a "profile.json".
Proof.
  intros Ha. rewrite profile_place_eq by done. unfold file_place, where_. rewrite resolve_join by done.
  change (resolve fs_cwd (user_dir base a)) with (where_ (user_dir base a)). rewrite where_user_dir by done.
  change (components (image_path "avatar.jpg")) with ["images"; "avatar.jpg"].
  rewrite walk_down by set_solver. cbn. discriminate.
Qed.

Lemma mkdir_images_same a : respects same_files (ensure_images_dir base a).
Proof. apply respects_try_bind; [typeclasses eauto|apply mkdir_same|intros _; apply respects_ret; typeclasses eauto]. Qed.

Lemma save_image_effect a n data s r s' :
  save_image base a n data s = (r, s') →
  only_at (file_place base a (image_path n)) s s' ∧ (r = Ok tt → fs_files s' !! file_place base a (image_path n) = Some data).
Proof.
  unfold save_image. rewrite run_try_bind. pose proof (mkdir_images_same a s) as Hm. unfold exec in Hm.
  destruct (ensure_images_dir base a s) as [[d|e] s1]; cbn in Hm; [|intros [= <- <-]; split; [by apply same_only_at|done]].
  intros [Ho E]%store_file_effect. split; [|done]. etrans; [by apply same_only_at|done].
Qed.

Lemma load_profile_same now a us r us' : load_profile base now a us = (r, us') → same_files (us_fs us) (us_fs us').
Proof.
  unfold load_profile. rewrite run_bind. cbn. destruct (us_cache us !! a); [by intros [= <- <-]|].
  rewrite run_try_bind, run_on_fs. unfold profile_from_disk, load_json. rewrite !run_try_bind.
  destruct (read_file base a "profile.json" (us_fs us)) as [r1 s1] eqn:E. apply read_file_effect in E as (Hs & _ & _).
  destruct r1 as [[b|]|e]; cbn; [destruct (json_from_slice b); cbn|..]; intros [= <- <-]; done.
Qed.

(** An avatar of less than 4096 bytes is stored with zero bytes after it up to
    that length; the file is the one the profile then names. *)
Theorem avatar_is_padded now rq addr path (w : Wb) b :
  plain addr → get_query_param path "address" = None →
  rq_reader rq = Some b → content_length rq = Z.of_nat (length b) →
  (save_image base addr "avatar.jpg" (read_http_body rq).2 (us_fs (wb_store w))).1 = Ok tt →
  let w' := exec (handle_upload_avatar base now rq addr path) w in
  fs_files (us_fs (wb_store w')) !! file_place base addr (image_path "avatar.jpg") =
    Some (b ++ replicate (4096 - length b) Byte.x00).
Proof.
  intros Ha Hq Hr Hc Hs w'.
  assert (Hb : read_http_body rq = (Z.of_nat (length b), b ++ replicate (4096 - length b) Byte.x00)).
  { unfold read_http_body. rewrite Hr, Hc, Nat2Z.id, firstn_all. do 3 f_equal. lia. }
  unfold w', handle_upload_avatar. rewrite Hb in *. rewrite Hq. cbn [default snd] in *. unfold exec. rewrite run_bind.
  unfold on_files, on_store. rewrite run_on_part, run_on_fs.
  destruct (save_image base addr "avatar.jpg" _ (us_fs (wb_store w))) as [r s1] eqn:E. cbn in Hs. subst r.
  apply save_image_effect in E as [_ E]. specialize (E eq_refl). cbn. rewrite run_bind, run_on_part. cbn.
  destruct (load_profile base now addr _) as [r2 us2] eqn:El. apply load_profile_same in El. cbn in El.
  unfold same_files in El. destruct r2 as [p|e]; cbn; [|exact (eq_trans (f_equal (lookup _) El) E)].
  rewrite !run_bind, run_on_part. cbn.
  destruct (save_profile base addr _ us2) as [r3 us3] eqn:Es. pose proof (save_profile_effect base addr _ us2 _ _ Es) as [Ho _]. cbn.
  etrans; [apply Ho; by apply image_place_other|]. by rewrite El.
Qed.

Context (base_down : ".." ∉ components base).

(** Opening a conversation: the answer holds the log of the contact the request
    names, as it was; after it no message of the log is unread, and the
    messages are the same otherwise. *)
Theorem conversation_opened path (w : Wb) l :
  let a := decoded_param path "contact" in
  plain a → log base (us_fs (wb_store w)) a = Ok l →
  (get_messages base a (us_fs (wb_store w))).1 = Ok l →
  let s1 := (get_messages base a (us_fs (wb_store w))).2 in
  (mark_as_read base a s1).1 = Ok tt →
  let w' := exec (handle_get_chat_messages base path) w in
  wb_sent w' = wb_sent w ++ [mk_sent (value_to_string
     (JObj [("success", JBool true); ("messages", JArr (message_json <$> l))])) true] ∧
  log base (us_fs (wb_store w')) a = Ok (mark_read <$> l) ∧ unread (mark_read <$> l) = 0 ∧
  cm_content <$> (mark_read <$> l) = cm_content <$> l ∧ cm_id <$> (mark_read <$> l) = cm_id <$> l.
Proof.
  intros a Ha Hl Hg s1 Hm w'. unfold w', handle_get_chat_messages. fold a. unfold exec. rewrite run_bind.
  unfold on_files, on_store. rewrite run_on_part, run_on_fs. cbn. fold s1. rewrite Hg. rewrite run_bind, run_on_part, run_on_fs. cbn.
  split; [done|]. split_and!; [|apply mark_read_unread|by apply mark_read_fields|by apply mark_read_fields].
  destruct (mark_as_read base a s1) as [r s2] eqn:E. cbn in Hm. subst r. cbn.
  apply (run_op_effect base base_down a MarkRead) in E as (_ & l' & El & El'); [|done].
  assert (Hs1 : same_files (us_fs (wb_store w)) s1).
  { unfold s1. destruct (get_messages base a (us_fs (wb_store w))) as [r0 s0] eqn:E0. cbn.
    by apply read_messages_effect in E0 as [? _]. }
  rewrite (log_same base _ _ a Hs1), Hl in El. by injection El as <-.
Qed.
End properties.
