(* ===== verification/WebSend.v ===== *)
(** * The web interface: sending a chat message

    handle_send_chat of src/src/web/api.rs: the message is written to the log
    of its contact, announced to the open pages, sent to the contact's
    connections or to all, and a task waits for the acknowledgement. *)

From S2P Require Import Prelude Utf8 Text NetAddr External Command NodeRegistry World Frame Message Files UserStore Web.
Open Scope Z_scope.
Open Scope stdpp_scope.

(** [if s.len() > 50 { format!("{}...", &s[..50]) } else { s.clone() }]: a
    slice that ends inside a character panics. *)
Definition is_char_boundary (b : bytes) (i : nat) : bool :=
  match b !! i with Some x => negb ((128 <=? Z_of_byte x) && (Z_of_byte x <? 192)) | None => true end.
Definition preview (s : string) : result string :=
  let b := as_bytes s in
  if decide (50 < length b)%nat then
    if is_char_boundary b 50 then Ok (from_bytes (take 50 b) +:+ "...")
    else Err "byte index 50 is not a char boundary"
  else Ok s.

(** What the closure waits for: the answer, the sender dropped, the timeout. *)
Inductive ack_outcome := Acked (accepted : bool) | Closed | TimedOut.

Section send.
Context `{Crates, !FrameCodecs, !JsonValue}.
Context {F D App : Type} `{!Fs F, !Json (list ChatMessage)}.
Abbreviation W := (state (Web F D App)).
Context (base_path : string).

(** [guard.insert(request_id, ack_tx)] and [guard.remove(&request_id)], with
    the slot there *)
Definition add_pending (request_id : Z) : M unit :=
  mod_g (fun g => set_g_pending ((fun s => {[request_id]} ∪ s) <$> g_pending g) g).
Definition remove_pending (request_id : Z) : M unit :=
  mod_g (fun g => set_g_pending ((fun s => s ∖ {[request_id]}) <$> g_pending g) g).

(** An event for the open pages, when there is the slot for them. *)
Definition announce (msg_body : string) (event : string → json) : W (result unit) :=
  senders ← gets wb_ws;
  match senders with
  | Some _ =>
      match preview msg_body with
      | Ok p => broadcast (value_to_string (event p)) ;; mret (Ok tt)
      | Err e => mret (Err e)
      end
  | None => mret (Ok tt)
  end.

(** The loop over the seeds of the contact, left at the first success. *)
Fixpoint send_direct (addr to_addr : string) (request_id : Z) (msg_body : string) (m : Manager)
    (l : list SocketAddr) : M bool :=
  match l with
  | [] => mret false
  | seed_addr :: l' =>
      match mgr_find_entry m seed_addr ≫= entry_ctx with
      | Some c =>
          r ← send_text_message addr to_addr request_id c msg_body;
          if is_ok r then mret true else send_direct addr to_addr request_id msg_body m l'
      | None => send_direct addr to_addr request_id msg_body m l'
      end
  end.

(** The closure handed to [forward]: the entries of the contact, or all when
    it has no seeds, each node once. *)
Fixpoint send_fallback (addr to_addr : string) (request_id : Z) (msg_body : string) (target_addrs : list SocketAddr)
    (sent_nodes : gset string) (sent : bool) (l : list (ConnectionEntry AexNode)) : M bool :=
  match l with
  | [] => mret sent
  | entry :: l' =>
      peer ← (match entry_ctx entry with Some c => try_peer c | None => mret None end);
      let matches_socket := bool_decide (entry_addr entry ∈ target_addrs) in
      let matches_peer := bool_decide (peer = Some to_addr) in
      if negb (bool_decide (target_addrs = [])) && negb matches_socket && negb matches_peer
      then send_fallback addr to_addr request_id msg_body target_addrs sent_nodes sent l'
      else
        let nid := (fun n => from_utf8_lossy (an_id n)) <$> entry_node entry in
        let already := match nid with Some n => bool_decide (n ∈ sent_nodes) | None => false end in
        if already : bool
        then send_fallback addr to_addr request_id msg_body target_addrs sent_nodes sent l'
        else
          let sent_nodes' := match nid with Some n => {[n]} ∪ sent_nodes | None => sent_nodes end in
          match entry_ctx entry with
          | Some c =>
              r ← send_text_message addr to_addr request_id c msg_body;
              send_fallback addr to_addr request_id msg_body target_addrs sent_nodes' (sent || is_ok r) l'
          | None => send_fallback addr to_addr request_id msg_body target_addrs sent_nodes' sent l'
          end
  end.

Definition send_to_peers (addr to_addr : string) (request_id : Z) (msg_body : string)
    (target_addrs : list SocketAddr) : M bool :=
  m ← get_g g_manager;
  sent ← send_direct addr to_addr request_id msg_body m target_addrs;
  if sent : bool then mret true
  else send_fallback addr to_addr request_id msg_body target_addrs ∅ false (mgr_entries m).

Definition chat_update (to_addr : string) (p : string) : json :=
  JObj [("type", JStr "chat_update"); ("contact", JStr to_addr); ("preview", JStr p)].
Definition chat_message (to_addr : string) (timestamp : Z) (p : string) : json :=
  JObj [("type", JStr "chat_message"); ("contact", JStr to_addr); ("preview", JStr p); ("timestamp", JInt timestamp)].

Definition target_addrs_of (to_addr : string) : M (list SocketAddr) :=
  r ← get_registry;
  mret match r with Some r => get_seeds_for_node to_addr r | None => [] end.

Definition handle_send_chat (now : Z) (rq : Request) (addr : string) : W (result bool) :=
  let send_req := json_body rq in
  let to_addr := str_field "to" send_req in
  let msg_body := str_field "message" send_req in
  if is_empty to_addr || is_empty msg_body then send_json (failure "Missing 'to' or 'message'") ;; mret (Ok true)
  else
    request_id ← on_next_id next_request_id;
    target_addrs ← on_world (target_addrs_of to_addr);
    on_world (add_pending request_id) ;;
    on_files (add_message base_path now to_addr msg_body true "sent") ;;
    _ ←? announce msg_body (chat_update to_addr);
    sent_ok ← on_world (send_to_peers addr to_addr request_id msg_body target_addrs);
    if negb sent_ok then
      on_world (remove_pending request_id) ;;
      send_json (failure "Failed to send message: no matching connection or send error (check server logs)") ;;
      mret (Ok true)
    else
      send_json (JObj [("success", JBool true); ("message", JStr "Message sent")]) ;;
      spawn_web (TAwaitAck request_id to_addr msg_body) ;;
      mret (Ok true).

(** The spawned closure, once it knows the outcome. *)
Definition run_await_ack (timestamp_millis : Z) (t : WebTask) (delivered : ack_outcome) : W (result unit) :=
  let '(TAwaitAck request_id to_addr msg_body) := t in
  on_world (remove_pending request_id) ;;
  match delivered with
  | Acked true =>
      on_files (update_last_sent_status base_path to_addr "delivered") ;;
      announce msg_body (chat_message to_addr (wrap_u 128 timestamp_millis))
  | _ => mret (Ok tt)
  end.
End send.

(** ** What a request to send does *)

Section properties.
Context `{Crates, !FrameCodecs, !JsonValue}.
Context {F D App : Type} `{!Fs F, !FsLaws F, !Json (list ChatMessage), !JsonLaws (list ChatMessage)}.
Abbreviation Wb := (Web F D App).
Context (base : string) (base_down : ".." ∉ components base).

Lemma send_text_io a to i c s : respects io_step (send_text_message a to i c s).
Proof. unfold send_text_message. respects_tac. Qed.

Lemma send_direct_io a to i s m l : respects io_step (send_direct a to i s m l).
Proof.
  induction l as [|x l IH]; cbn; [apply respects_ret; typeclasses eauto|].
  destruct (mgr_find_entry m x ≫= entry_ctx); [|done].
  apply respects_bind; [typeclasses eauto|apply send_text_io|]. intros r.
  destruct (is_ok r); [apply respects_ret; typeclasses eauto|done].
Qed.

Lemma send_fallback_respects (R : relation World) `{!PreOrder R} a to i s t seen sent l :
  (∀ c, respects R (send_text_message a to i c s)) → (∀ c, respects R (try_peer c)) →
  respects R (send_fallback a to i s t seen sent l).
Proof.
  intros Hs Ht. revert seen sent. induction l as [|x l IH]; intros seen sent; cbn; [apply respects_ret; typeclasses eauto|].
  apply respects_bind; [typeclasses eauto|destruct (entry_ctx x); [apply Ht|apply respects_ret; typeclasses eauto]|].
  intros peer. do 2 (match goal with |- respects _ (if ?b then _ else _) => destruct b; [apply IH|] end).
  destruct (entry_ctx x); [|apply IH]. apply respects_bind; [typeclasses eauto|apply Hs|intros r; apply IH].
Qed.
Lemma send_fallback_io a to i s t seen sent l : respects io_step (send_fallback a to i s t seen sent l).
Proof. apply send_fallback_respects; [apply _|intros c; apply send_text_io|intros c; apply respects_try_peer]. Qed.

Lemma send_to_peers_io a to i s t : respects io_step (send_to_peers a to i s t).
Proof.
  unfold send_to_peers. apply respects_bind; [typeclasses eauto|apply respects_gets; typeclasses eauto|]. intros m.
  apply respects_bind; [typeclasses eauto|apply send_direct_io|]. intros sent.
  destruct sent; [apply respects_ret; typeclasses eauto|apply send_fallback_io].
Qed.

(** What sending leaves behind: it is all input and output, and the session
    keys only step. *)
Definition sending (w w' : World) : Prop := io_step w w' ∧ keys_later w w'.
#[local] Instance sending_preorder : PreOrder sending.
Proof. split; [by intros w|]. intros x y z [A B] [A' B']. split; by etrans. Qed.

Lemma sending_text a to i c s : respects sending (send_text_message a to i c s).
Proof.
  intros w. split; [apply send_text_io|]. unfold send_text_message. rewrite exec_bind.
  etrans; [|apply keys_send]. by apply keys_same.
Qed.
Lemma sending_try_peer c : respects sending (try_peer c).
Proof. intros w. split; [apply respects_try_peer|by apply keys_same]. Qed.

Lemma sending_fallback a to i s t seen sent l : respects sending (send_fallback a to i s t seen sent l).
Proof. apply send_fallback_respects; [apply _|intros c; apply sending_text|intros c; apply sending_try_peer]. Qed.

(** A send that fails hands nothing to any connection. *)
Lemma text_refused a to i c s w e w' : send_text_message a to i c s w = (Err e, w') → w_ctx w' = w_ctx w.
Proof.
  unfold send_text_message. rewrite run_bind. intros Hs.
  destruct (send_stages _ _ _ _ _ _ _ _ Hs) as [(err & _ & ->)|(? & ? & ? & ? & ? & ? & [=] & _)]. done.
Qed.

(** From [w] to [w'] the message was sent on one of the connections [on]: some
    send of it succeeded, whatever was sent before and after. *)
Definition took (a to : string) (i : Z) (s : string) (on : ctx_id → Prop) (w w' : World) : Prop :=
  ∃ c w1 w2, on c ∧ sending w w1 ∧ send_text_message a to i c s w1 = (Ok tt, w2) ∧ sending w2 w'.
(** All sends failed: no connection was handed anything. *)
Definition nobody_took (w w' : World) : Prop := w_ctx w' = w_ctx w ∧ sending w w'.

Definition direct_peer (m : Manager) (l : list SocketAddr) (c : ctx_id) : Prop :=
  ∃ x, x ∈ l ∧ mgr_find_entry m x ≫= entry_ctx = Some c.
Definition entry_peer (l : list (ConnectionEntry AexNode)) (c : ctx_id) : Prop := c ∈ omap entry_ctx l.

Lemma took_before a to i s on w w1 w' : sending w w1 → took a to i s on w1 w' → took a to i s on w w'.
Proof. intros Hw (c & w2 & w3 & Hc & Hs & E & Ht). exists c, w2, w3. split_and!; try done. by etrans. Qed.
Lemma took_mono a to i s (on on' : ctx_id → Prop) w w' : (∀ c, on c → on' c) → took a to i s on w w' → took a to i s on' w w'.
Proof. intros Hon (c & w1 & w2 & Hc & Hrest). exists c, w1, w2. split; [by apply Hon|done]. Qed.

Lemma send_direct_outcome a to i s m l w r w' :
  send_direct a to i s m l w = (r, w') →
  if r : bool then took a to i s (direct_peer m l) w w' else nobody_took w w'.
Proof.
  revert w. induction l as [|x l IH]; intros w; cbn [send_direct]; [intros [= <- <-]; done|].
  assert (Hmono : ∀ c, direct_peer m l c → direct_peer m (x :: l) c) by (intros c (y & Hy & Ey); exists y; split; [by right|done]).
  destruct (mgr_find_entry m x ≫= entry_ctx) as [c|] eqn:Ec.
  - rewrite run_bind. destruct (send_text_message a to i c s w) as [[[]|e] w1] eqn:E; cbn [is_ok].
    + intros [= <- <-]. exists c, w, w1. split; [exists x; split; [by left|done]|done].
    + assert (Hw : sending w w1) by (change w1 with ((Err e : result unit, w1).2); rewrite <- E; apply sending_text).
      pose proof (text_refused _ _ _ _ _ _ _ _ E) as Hc.
      intros Hr%IH. destruct r; [eapply took_mono, took_before; [exact Hmono|done..]|].
      destruct Hr as [Hc' Hw']. split; [congruence|by etrans].
  - intros Hr%IH. destruct r; [by eapply took_mono|done].
Qed.

Lemma send_fallback_outcome a to i s t seen sent l w r w' :
  send_fallback a to i s t seen sent l w = (r, w') →
  if r : bool then sent = true ∨ took a to i s (entry_peer l) w w' else sent = false ∧ nobody_took w w'.
Proof.
  revert seen sent w. induction l as [|x l IH]; intros seen sent w; cbn [send_fallback].
  { intros [= <- <-]. destruct sent; [by left|done]. }
  rewrite run_bind. set (p := match entry_ctx x with Some c => _ | None => _ end).
  assert (Hp : sending w (exec p w) ∧ w_ctx (exec p w) = w_ctx w).
  { unfold p. destruct (entry_ctx x) as [c|]; [split; [apply sending_try_peer|done]|done]. }
  destruct (p w) as [peer w1] eqn:Ep. unfold exec in Hp. rewrite Ep in Hp. cbn [snd] in Hp. destruct Hp as [Hp Hpc].
  assert (Hmono : ∀ c, entry_peer l c → entry_peer (x :: l) c).
  { intros c Hc. unfold entry_peer. cbn. destruct (entry_ctx x); [by right|done]. }
  assert (Hgo : ∀ seen' sent' w2, send_fallback a to i s t seen' sent' l w2 = (r, w') →
    sending w w2 → (sent' = sent ∧ w_ctx w2 = w_ctx w) →
    if r : bool then sent = true ∨ took a to i s (entry_peer (x :: l)) w w' else sent = false ∧ nobody_took w w').
  { intros seen' sent' w2 Hr%IH Hw [-> Hc]. destruct r.
    - destruct Hr as [Hr|Hr]; [by left|right]. eapply took_mono, took_before; [exact Hmono|done..].
    - destruct Hr as [-> [Hc' Hw']]. split; [done|]. split; [congruence|by etrans]. }
  destruct (negb _ && _ && _); [intros Hr; by eapply Hgo|].
  match goal with |- (if ?b then _ else _) _ = _ → _ => destruct b; [intros Hr; by eapply Hgo|] end.
  destruct (entry_ctx x) as [c|] eqn:Ec; [|intros Hr; by eapply Hgo].
  rewrite run_bind. destruct (send_text_message a to i c s w1) as [[[]|e] w2] eqn:E; cbn [is_ok].
  - rewrite orb_true_r. intros Hr. pose proof (IH _ _ _ Hr) as Hout. destruct r; [right|by destruct Hout].
    exists c, w1, w2. split; [unfold entry_peer; cbn; rewrite Ec; by left|]. split; [done|]. split; [done|].
    change w' with ((true, w').2). rewrite <- Hr. apply sending_fallback.
  - assert (Hw : sending w1 w2) by (change w2 with ((Err e : result unit, w2).2); rewrite <- E; apply sending_text).
    pose proof (text_refused _ _ _ _ _ _ _ _ E) as Hc. rewrite orb_false_r. intros Hr. eapply Hgo; [exact Hr|by etrans|].
    split; [done|congruence].
Qed.

(** The connections a message to [to] may go out on: those of the addresses on
    record for it, and those the manager gives out. *)
Definition open_to (targets : list SocketAddr) (m : Manager) (c : ctx_id) : Prop :=
  direct_peer m targets c ∨ entry_peer (mgr_entries m) c.

Lemma send_to_peers_outcome a to i s t w r w' :
  send_to_peers a to i s t w = (r, w') →
  if r : bool then took a to i s (open_to t (g_manager (w_g w))) w w' else nobody_took w w'.
Proof.
  unfold send_to_peers. rewrite run_bind. cbn [get_g gets]. rewrite run_bind.
  destruct (send_direct a to i s (g_manager (w_g w)) t w) as [d w1] eqn:Ed. apply send_direct_outcome in Ed. destruct d.
  - intros [= <- <-]. eapply took_mono; [|exact Ed]. intros c Hc. by left.
  - destruct Ed as [Hc Hw]. intros Hr%send_fallback_outcome. destruct r.
    + destruct Hr as [[=]|Hr]. eapply took_mono, took_before; [intros c Hc'; right; exact Hc'|done..].
    + destruct Hr as (_ & Hc' & Hw'). split; [congruence|by etrans].
Qed.

(** The connection [c] took the message: a send of it succeeded, and put a
    frame that brings it into the writer of [c], when there is one. *)
Definition took_on (a to : string) (i : Z) (s : string) (c : ctx_id) (w w' : World) : Prop :=
  (∃ w1 w2, sending w w1 ∧ send_text_message a to i c s w1 = (Ok tt, w2) ∧ sending w2 w') ∧
  (ctx_writer (w_ctx w c) = true →
   ∃ ts l1 raw l2, ctx_out (w_ctx w' c) = ctx_out (w_ctx w c) ++ l1 ++ raw :: l2 ∧
     brings (mk_message a to i ts s) Message SendText (g_address (w_g w)) (g_psk (w_g w)) raw).

Lemma took_frame `{!FrameCodecsLaws, !AccountLaws} a to i s on w w' :
  took a to i s on w w' → ∃ c, on c ∧ took_on a to i s c w w'.
Proof.
  intros (c & w1 & w2 & Hc & [Hio Hk] & E & Hlast). exists c. split; [done|]. split; [by exists w1, w2|].
  unfold send_text_message in E. rewrite run_bind in E. cbn in E.
  destruct (send_effect _ _ _ _ _ _ _ _ E) as [(addr & data & pay & f & raw & Ha & Hd & Hp & Hv & Hf & Ho & _) _].
  cbn in Ha, Ho. change (w_ctx (set_w_clock (S (w_clock w1)) w1)) with (w_ctx w1) in *.
  destruct Hio as [Hg Hs Hctx _ _ _ _ _]. destruct Hlast as [[_ _ Hctx' _ _ _ _ _] _].
  destruct (Hctx c) as (o1 & E1 & _), (Hctx' c) as (o2 & E2 & _). rewrite E1 in Ho. cbn in Ho. intros Hw. rewrite Hw in Ho.
  exists (host_timestamp (w_clock w1)), o1, raw, o2. rewrite E2. cbn. rewrite Ho, <- !app_assoc. split; [done|].
  apply (f_equal g_address) in Hg. cbn in Hg. apply (brings_later _ _ _ _ w w1 _ Hk Hs).
  exists addr, f, data, pay. rewrite <- Hg. split_and!; try done.
  unfold sent_payload in Hp. cbn in Hp. destruct (g_psk (w_g w1)) as [p|]; [|cbn in Hd; congruence]. by eexists p, _.
Qed.

(** The ids of the requests that wait for an answer. *)
Definition waiting (w : Wb) : gset Z := default ∅ (g_pending (w_g (wb_world w))).
Definition chat_log (w : Wb) (c : string) : result (list ChatMessage) := log base (us_fs (wb_store w)) c.
Definition written (w : Wb) (c : ctx_id) : list bytes := ctx_out (w_ctx (wb_world w) c).

Lemma io_pending (w w' : World) : io_step w w' → g_pending (w_g w') = g_pending (w_g w).
Proof. intros [Hg _ _ _ _ _ _ _]. by apply (f_equal g_pending) in Hg. Qed.

(** The state once the message is queued: an id taken, its waiter put down,
    the message in the log. *)
Definition queued (now : Z) (to content : string) (w : Wb) : Wb :=
  set_store (exec (on_fs (add_message base now to content true "sent")) (wb_store w))
    (set_world (exec (add_pending (wb_next_id w)) (wb_world w))
       (set_next_id (wrap_u 64 (wb_next_id w + 1)) w)).

Lemma run_handle_send_chat now rq addr w :
  let to := str_field "to" (json_body rq) in
  let content := str_field "message" (json_body rq) in
  to ≠ "" → content ≠ "" →
  handle_send_chat base now rq addr w =
    let id := wb_next_id w in
    let targets := eval (target_addrs_of to) (wb_world w) in
    match announce content (chat_update to) (queued now to content w) with
    | (Err e, w2) => (Err e, w2)
    | (Ok _, w2) =>
        let '(sent_ok, s3) := send_to_peers addr to id content targets (wb_world w2) in
        if sent_ok : bool
        then (Ok true, exec (spawn_web (TAwaitAck id to content))
                (exec (send_json (JObj [("success", JBool true); ("message", JStr "Message sent")])) (set_world s3 w2)))
        else (Ok true, exec (send_json (failure
                "Failed to send message: no matching connection or send error (check server logs)"))
                (set_world (exec (remove_pending id) s3) w2))
    end.
Proof.
  intros to content Ht Hc. unfold handle_send_chat. fold to content.
  assert (is_empty to || is_empty content = false) as -> by (by destruct to, content).
  rewrite !run_bind. unfold on_next_id, on_world, on_files, on_store. rewrite !run_on_part. cbn.
  rewrite !run_bind, !run_on_part. cbn. rewrite !run_bind, !run_on_part. cbn. rewrite !run_bind, !run_on_part. cbn.
  rewrite !run_try_bind.
  match goal with |- match announce content _ ?x with _ => _ end = _ => change x with (queued now to content w) end.
  destruct (announce content (chat_update to) (queued now to content w)) as [[u|e] w2]; [|done].
  rewrite run_bind, run_on_part. unfold eval. destruct (send_to_peers _ _ _ _ _ (wb_world w2)) as [sent s3]. cbn.
  by destruct sent.
Qed.

Lemma announce_effect content event (w : Wb) r w2 :
  announce content event w = (r, w2) →
  (∃ v, w2 = set_ws v w) ∧
  match r with Ok _ => True | Err e => is_Some (wb_ws w) ∧ preview content = Err e ∧ w2 = w end.
Proof.
  unfold announce. rewrite run_bind. cbn. destruct (wb_ws w) as [l|] eqn:E.
  - destruct (preview content) as [p|e]; cbn; intros [= <- <-]; (split; [|by eauto]); [by eexists|].
    exists (wb_ws w). by destruct w.
  - cbn. intros [= <- <-]. split; [|done]. exists (wb_ws w). by destruct w.
Qed.

Lemma waiting_io (w : Wb) s : io_step (wb_world w) s → waiting (set_world s w) = waiting w.
Proof. intros E%io_pending. unfold waiting. cbn. by rewrite E. Qed.

(** The message is then the last of its log. *)
Lemma queued_log now to content (w : Wb) msg :
  plain to → (add_message base now to content true "sent" (us_fs (wb_store w))).1 = Ok msg →
  ∃ l, chat_log w to = Ok l ∧
    chat_log (queued now to content w) to = Ok (l ++ [mk_chat (next_message_id l) to content true "sent" now]).
Proof.
  intros Hp Hadd. unfold chat_log. cbn. unfold exec. rewrite run_on_fs. cbn.
  destruct (add_message base now to content true "sent" (us_fs (wb_store w))) as [r1 s1] eqn:Ea. cbn in Hadd. subst r1.
  assert (Eo : run_op base to (Append now content true "sent") (us_fs (wb_store w)) = (Ok tt, s1)).
  { cbn. rewrite run_try_bind, Ea. done. }
  apply run_op_effect in Eo as (_ & l & El & El'); [|done..]. by exists l.
Qed.

(** C23. A request to send a message, taken apart. Once the message can be
    written to its log, it is there as sent, whatever happens then. Either no
    connection takes it: all sends fail, nothing is handed to anyone, the
    answer is a failure and nobody waits for an acknowledgement. Or one takes
    it - of an address on record for the receiver, or given out by the manager
    -: a send succeeds and its writer has a frame that brings the message under
    the id of the request, the answer is success, and a task waits for the
    acknowledgement of this id. Or, with pages open for which a character of
    the message stands across its 50th byte, the handler panics: nothing is
    sent to anyone, no answer is given, and the id waits for ever. *)
Theorem send_chat_spec `{!FrameCodecsLaws, !AccountLaws} now rq addr (w w' : Wb) r msg :
  let to := str_field "to" (json_body rq) in
  let content := str_field "message" (json_body rq) in
  let id := wb_next_id w in
  let v := wb_world w in
  to ≠ "" → content ≠ "" → plain to →
  (add_message base now to content true "sent" (us_fs (wb_store w))).1 = Ok msg →
  handle_send_chat base now rq addr w = (r, w') →
  (∃ l, chat_log w to = Ok l ∧ chat_log w' to = Ok (l ++ [mk_chat (next_message_id l) to content true "sent" now])) ∧
  match r with
  | Err e =>
      is_Some (wb_ws w) ∧ preview content = Err e ∧
      wb_sent w' = wb_sent w ∧ wb_tasks w' = wb_tasks w ∧ (∀ c, written w' c = written w c) ∧
      (is_Some (g_pending (w_g v)) → id ∈ waiting w')
  | Ok _ =>
      (wb_sent w' = wb_sent w ++ [mk_sent (value_to_string (failure
         "Failed to send message: no matching connection or send error (check server logs)")) true] ∧
       wb_tasks w' = wb_tasks w ∧ id ∉ waiting w' ∧ (∀ c, written w' c = written w c)) ∨
      (wb_sent w' = wb_sent w ++ [mk_sent (value_to_string
         (JObj [("success", JBool true); ("message", JStr "Message sent")])) true] ∧
       wb_tasks w' = wb_tasks w ++ [TAwaitAck id to content] ∧
       (is_Some (g_pending (w_g v)) → id ∈ waiting w') ∧
       ∃ c, open_to (eval (target_addrs_of to) v) (g_manager (w_g v)) c ∧
         took_on addr to id content c (exec (add_pending id) v) (wb_world w'))
  end.
Proof.
  intros to content id v Ht Hc Hp Hadd E. unfold to, content in *. rewrite (run_handle_send_chat now rq addr w Ht Hc) in E.
  fold to content id in Ht, Hc, Hp, Hadd, E. cbn zeta in E.
  assert (Hlog : ∀ w2, wb_store w2 = wb_store (queued now to content w) →
    ∃ l, chat_log w to = Ok l ∧ chat_log w2 to = Ok (l ++ [mk_chat (next_message_id l) to content true "sent" now])).
  { intros w2 E2. unfold chat_log. rewrite E2. by apply (queued_log now to content w msg). }
  assert (Hw : is_Some (g_pending (w_g v)) → id ∈ waiting (queued now to content w)).
  { intros [s Hs]. unfold waiting. cbn. unfold v in Hs. rewrite Hs. cbn. set_solver. }
  destruct (announce content (chat_update to) (queued now to content w)) as [[u|e] w2] eqn:Ea;
    apply announce_effect in Ea as [(vw & Ev) Ea].
  - destruct (send_to_peers addr to id content _ (wb_world w2)) as [sent s3] eqn:Es.
    assert (Hio : io_step (wb_world w2) s3).
    { change s3 with ((sent, s3).2). rewrite <- Es. apply send_to_peers_io. }
    apply send_to_peers_outcome in Es. rewrite Ev in Es, Hio. cbn in Es, Hio.
    destruct sent; injection E as <- <-; (split; [apply Hlog; by rewrite Ev|]); [right|left]; rewrite Ev in *.
    + split; [done|]. split; [done|]. split.
      * intros Hs. pose proof (waiting_io (set_ws vw (queued now to content w)) s3 Hio) as Hq.
        unfold waiting in *. cbn in *. rewrite Hq. by apply Hw.
      * apply took_frame in Es. exact Es.
    + destruct Es as [Hsame _]. split_and!; try done.
      * unfold waiting. cbn. destruct (g_pending (w_g s3)); cbn; set_solver.
      * intros c. unfold written. cbn. rewrite Hsame. done.
  - destruct Ea as (Hws & Hpre & ->). injection E as <- <-. split; [by apply Hlog|].
    split_and!; [done|done|done|done|done|exact Hw].
Qed.

(** The waiting task, told that the message was accepted, marks as delivered
    the last message that was sent to the contact, whichever message the
    acknowledgement was for; any other outcome leaves the log alone. *)
Theorem ack_marks_last_sent ts id to content outcome (w w' : Wb) r :
  plain to → run_await_ack base ts (TAwaitAck id to content) outcome w = (r, w') →
  id ∉ waiting w' ∧
  (outcome ≠ Acked true → wb_store w' = wb_store w) ∧
  (outcome = Acked true → (update_last_sent_status base to "delivered" (us_fs (wb_store w))).1 = Ok tt →
   ∃ l, chat_log w to = Ok l ∧ chat_log w' to = Ok (default l (update_last_sent "delivered" l))).
Proof.
  intros Hp E. unfold run_await_ack in E. rewrite run_bind in E. unfold on_world in E. rewrite run_on_part in E.
  set (w1 := set_world _ w) in E.
  assert (Hw : ∀ w2, wb_world w2 = wb_world w1 → id ∉ waiting w2).
  { intros w2 E2. unfold waiting. rewrite E2. unfold w1. cbn. destruct (g_pending (w_g (wb_world w))); cbn; set_solver. }
  assert (Hother : (r, w') = (Ok tt, w1) → id ∉ waiting w' ∧ wb_store w' = wb_store w).
  { intros [= -> ->]. split; [by apply Hw|done]. }
  destruct outcome as [[]| |]; try (destruct (Hother (eq_sym E)); split_and!; [done|done|done]).
  rewrite run_bind in E. unfold on_files, on_store in E. rewrite run_on_part, run_on_fs in E. cbn in E.
  destruct (update_last_sent_status base to "delivered" (us_fs (wb_store w))) as [r1 s1] eqn:Eu. cbn in E.
  apply announce_effect in E as [(v & ->) _]. split; [by apply Hw|]. split; [done|]. intros _. cbn. intros ->.
  apply (run_op_effect base base_down to (SetLastSent "delivered")) in Eu as (_ & l & El & El'); [|done]. by exists l.
Qed.
End properties.
