(* ===== verification/Delivery.v ===== *)
(** * A message from one node to another

    The parts put together: a text sent over a connection, the handler of the
    node that receives it, its spawned acknowledgement, and the handler of the
    sender; and around them the web interface of the sender, from the request
    to the status of the message in the log. *)

From S2P Require Import Prelude Text NetAddr External Command NodeRegistry Seeds World Frame Message Router Files UserStore Web WebSend.
Open Scope Z_scope.
Open Scope stdpp_scope.

(** The first of some seeds with a live connection. *)
Fixpoint first_live `{Aex} (m : Manager) (l : list SocketAddr) : option ctx_id :=
  match l with
  | [] => None
  | seed_addr :: l' =>
      match mgr_find_entry m seed_addr ≫= entry_ctx with
      | Some c => Some c
      | None => first_live m l'
      end
  end.

(** ** While messages are sent *)

Section keys.
Context `{Crates, !FrameCodecs}.

Lemma linked_later `{!SessionLaws} a b p q p' : rtc psk_step p p' → linked a b p q → linked a b p' q.
Proof.
  induction 1 as [|p p1 p2 (k & d & [->| ->]) _ IH]; intros Hl; [done|apply IH, linked_encrypt, Hl|apply IH, linked_decrypt, Hl].
Qed.

(** A command sealed for the receiver is opened there. *)
Lemma open_sealed {C} `{Codec C} frame cmd q data (x : C) w :
  g_psk (w_g w) = Some q → (psk_decrypt q (as_bytes (fb_address (pf_body frame))) (cmd_data cmd)).1 = Ok data →
  decode data = Ok x → eval (open_command frame cmd) w = Some x.
Proof.
  intros Hq Hd Hx. unfold open_command, decrypt_from, eval. rewrite !run_bind. cbn. rewrite Hq.
  destruct (psk_decrypt q _ _) as [r q']. cbn in *. subst r.
  rewrite run_bind. cbn. by rewrite Hx.
Qed.

Lemma keys_message_handler c frame cmd : respects keys_later (message_handler c frame cmd).
Proof.
  intros w. rewrite run_message_handler. cbv zeta. pose proof (keys_open (C := MessageCommand) frame cmd w) as Hk.
  destruct (eval _ w) as [m|]; [|done]. intros p Hp. destruct (Hk p Hp) as (p' & Hp' & Hs). exists p'.
  unfold message_result. by destruct (accepts (w_g w) m).
Qed.

Lemma ack_direct_first m sender id l c w :
  first_live m l = Some c → ack_direct m sender id l w = (true, exec (send_message_ack sender id c) w).
Proof.
  induction l as [|x l IH]; cbn [first_live ack_direct]; [done|].
  destruct (mgr_find_entry m x ≫= entry_ctx) as [c'|]; [|done]. intros [= ->]. rewrite run_bind.
  unfold exec. by destruct (send_message_ack sender id c w).
Qed.

Lemma run_ack_first sender id l c w :
  first_live (g_manager (w_g w)) l = Some c → exec (run_ack_direct sender id l) w = exec (send_message_ack sender id c) w.
Proof.
  intros Hc. unfold run_ack_direct, exec. rewrite run_bind. cbn. rewrite run_bind.
  by rewrite (ack_direct_first _ _ _ _ _ _ Hc).
Qed.

Lemma send_direct_first addr to id body m l c w :
  first_live m l = Some c → eval (send_text_message addr to id c body) w = Ok tt →
  send_direct addr to id body m l w = (true, exec (send_text_message addr to id c body) w).
Proof.
  induction l as [|x l IH]; cbn [first_live send_direct]; [done|].
  destruct (mgr_find_entry m x ≫= entry_ctx) as [c'|]; [|done]. intros [= ->] Hs. rewrite run_bind.
  unfold exec, eval in *. destruct (send_text_message addr to id c body w) as [r w1]. cbn in *. by subst r.
Qed.
End keys.

(** ** Between two nodes *)

Section two_nodes.
Context `{Crates, !WireCodecs, !FrameCodecsLaws, !FrameCodecsTotal, !AccountLaws, !SessionLaws}.
Context `{!CodecLaws MessageCommand, !CodecTotal MessageCommand, !CodecLaws MessageAckCommand, !CodecTotal MessageAckCommand}.
Context (a b : Address).
Notation name_a := (addr_to_string a).
Notation name_b := (addr_to_string b).

(** A node with address [x] that can write to the connection [c], with session
    keys. *)
Definition speaks (w : World) (c : ctx_id) (x : Address) (p : Psk) : Prop :=
  g_address (w_g w) = Some x ∧ ctx_writer (w_ctx w c) = true ∧ g_psk (w_g w) = Some p.

(** What one node put on a connection, as the other gets it. *)
Definition arrives (w w' : World) (c : ctx_id) (f : P2PFrame) (cmd : P2PCommand) : Prop :=
  ∃ raw, ctx_out (w_ctx w' c) = ctx_out (w_ctx w c) ++ [raw] ∧ verify_bytes raw = Ok f ∧
         command_from_data (pf_body f) = Ok cmd.

Lemma sent_arrives {C} `{Codec C} c (x : C) e act w w' p me :
  speaks w c me p → send c (Some x) e act true w = (Ok tt, w') →
  ∃ f data pay p', arrives w w' c f (mk_command e act pay) ∧ fb_address (pf_body f) = addr_to_string me ∧
    encode x = Ok data ∧ (psk_encrypt p (eval (encryption_key c act data (addr_to_string me)) w) data).1 = Ok pay ∧
    g_psk (w_g w') = Some p' ∧ rtc psk_step p p' ∧ io_step w w'.
Proof.
  intros (Ha & Hw & Hp) Hs. pose proof (keys_send c (Some x) e act true w p Hp) as (p' & Hp' & Hst).
  unfold exec in Hp'. rewrite Hs in Hp'. cbn in Hp'.
  destruct (send_effect _ _ _ _ _ _ _ _ Hs) as [(a' & data & pay & f & raw & Ha' & Hd & Hpay & Hv & Hf & Ho & _) Hio].
  rewrite Ha in Ha'. injection Ha' as <-. rewrite Hw in Ho. unfold sent_payload in Hpay. rewrite Hp in Hpay.
  destruct Hf as (Hfa & _ & _ & _ & Hfc). exists f, data, pay, p'. split_and!; try done. by exists raw.
Qed.

Definition text_of (id ts : Z) (text : string) : MessageCommand := mk_message name_a name_b id ts text.

(** Session keys that go together seal, so that a node that can write gets its
    message out ... *)
Lemma text_sent c p q id text w :
  speaks w c a p → linked (as_bytes name_a) (as_bytes name_b) p q →
  eval (send_text_message name_a name_b id c text) w = Ok tt.
Proof.
  intros (Ha & _ & Hp) Hl. unfold send_text_message, eval. rewrite run_bind. cbn [now_stamp].
  destruct (now_stamp w) as [ts w1] eqn:E. injection E as <- <-.
  set (m := mk_message _ _ _ _ _). set (w1 := set_w_clock _ w). change (eval (send c (Some m) Message SendText true) w1 = Ok tt).
  destruct (encode_total m) as [data Hd]. destruct (linked_seals _ _ _ _ data Hl) as [pay Hpay].
  apply (send_total c m Message SendText true w1 a data pay Ha Hd). unfold sent_payload.
  change (g_psk (w_g w1)) with (g_psk (w_g w)). rewrite Hp. unfold encryption_key. rewrite decide_True by done.
  by rewrite (decode_encode _ _ Hd).
Qed.

(** ... and its acknowledgement to the peer that is known on the connection. *)
Lemma ack_sent c p q id w :
  speaks w c b q → linked (as_bytes name_a) (as_bytes name_b) p q → ctx_peer (w_ctx w c) = Some name_a →
  eval (send_message_ack name_a id c) w = Ok tt.
Proof.
  intros (Hb & _ & Hq) Hl Hpeer. apply linked_sym in Hl.
  destruct (encode_total (mk_message_ack id)) as [data Hd]. destruct (linked_seals _ _ _ _ data Hl) as [pay Hpay].
  apply (send_total c (mk_message_ack id) Message MessageAck true w b data pay Hb Hd). unfold sent_payload.
  rewrite Hq. unfold encryption_key. rewrite decide_False, decide_True by done. unfold eval. rewrite run_bind. cbn.
  by rewrite Hpeer.
Qed.

(** The message reaches the application, and an acknowledgement is planned. *)
Lemma text_arrives ca cb p q id text wa wa1 wb l nb ts seeds :
  speaks wa ca a p → g_address (w_g wb) = Some b → g_psk (w_g wb) = Some q →
  linked (as_bytes name_a) (as_bytes name_b) p q → name_a ≠ name_b →
  g_inbox (w_g wb) = Some l → g_node (w_g wb) = Some nb →
  get_seeds_for_node name_a (pn_registry nb) = seeds → seeds ≠ [] → ts = eval now_stamp wa →
  is_new (w_g wb) (dedup_key name_a name_b text ts) = true →
  send_text_message name_a name_b id ca text wa = (Ok tt, wa1) →
  ∃ f cmd p' q', arrives wa wa1 ca f cmd ∧ io_step wa wa1 ∧ g_psk (w_g wa1) = Some p' ∧
    let wb1 := exec (dispatch cb f cmd) wb in
    g_inbox (w_g wb1) = Some (l ++ [mk_incoming name_a text ts]) ∧
    w_tasks wb1 = w_tasks wb ++ [TAckDirect name_a id seeds] ∧
    w_ctx wb1 = w_ctx wb ∧ g_manager (w_g wb1) = g_manager (w_g wb) ∧
    g_address (w_g wb1) = Some b ∧ g_psk (w_g wb1) = Some q' ∧
    linked (as_bytes name_a) (as_bytes name_b) p' q'.
Proof.
  intros HA Hb Hq Hl Hab Hin Hn Hsd Hne -> Hnew Hs.
  unfold send_text_message in Hs. rewrite run_bind in Hs. cbn in Hs. fold (text_of id (host_timestamp (w_clock wa)) text) in Hs.
  set (m := text_of _ _ _) in Hs.
  assert (HA1 : speaks (set_w_clock (S (w_clock wa)) wa) ca a p) by exact HA.
  destruct (sent_arrives _ _ _ _ _ _ _ _ HA1 Hs) as (f & data & pay & p' & Har & Hfa & Hd & Hpay & Hp' & Hst & Hio).
  pose proof (decode_encode _ _ Hd) as Hdec. unfold encryption_key in Hpay. rewrite decide_True in Hpay by done.
  rewrite Hdec in Hpay. cbn in Hpay. pose proof (linked_opens _ _ _ _ _ _ Hl Hpay) as Hopen. rewrite <- Hfa in Hopen.
  set (cmd := mk_command Message SendText pay) in *.
  pose proof (keys_message_handler cb f cmd wb q Hq) as (q' & Hq' & Hsq).
  exists f, cmd, p', q'. split; [exact Har|]. split; [etrans; [|exact Hio]; by apply respects_now_stamp|]. split; [done|].
  change (exec (dispatch cb f cmd) wb) with (exec (message_handler cb f cmd) wb). cbv zeta.
  pose proof (open_sealed f cmd q data m wb Hq Hopen Hdec) as Ho.
  assert (Hacc : accepts (w_g wb) m = true).
  { unfold accepts, for_us. rewrite Hb. change (message_key m) with (dedup_key name_a name_b text (eval now_stamp wa)).
    rewrite Hnew. cbn. by rewrite !bool_decide_true. }
  pose proof (message_handler_effect cb f cmd wb) as (Hm & Hc & _ & _ & _ & _ & Haddr). rewrite Ho, Hacc in Hm.
  destruct Hm as (Hi & Ht & _). split_and!.
  - by rewrite Hi, Hin.
  - rewrite Ht. unfold ack_tasks. rewrite Hn. cbn. rewrite Hsd. by destruct seeds.
  - done.
  - rewrite run_message_handler. cbv zeta. rewrite Ho. destruct (open_command_psk (C := MessageCommand) f cmd wb) as [k ->].
    unfold message_result. by destruct (accepts (w_g wb) m).
  - by rewrite Haddr.
  - done.
  - apply linked_sym, (linked_later _ _ q p' q' Hsq), linked_sym. by apply (linked_later _ _ p).
Qed.

(** The acknowledgement reaches the waiter. *)
Lemma ack_arrives ca cb p q id wa wb wb1 :
  g_psk (w_g wa) = Some p → speaks wb cb b q → linked (as_bytes name_a) (as_bytes name_b) p q →
  ctx_peer (w_ctx wb cb) = Some name_a → waits id (w_g wa) = true → is_new (w_g wa) (ack_key id) = true →
  send_message_ack name_a id cb wb = (Ok tt, wb1) →
  ∃ f cmd, arrives wb wb1 cb f cmd ∧
    let wa1 := exec (dispatch ca f cmd) wa in
    w_confirmed wa1 = w_confirmed wa ++ [id] ∧ waits id (w_g wa1) = false.
Proof.
  intros Hp HB Hl Hpeer Hwait Hnew Hs. apply linked_sym in Hl.
  destruct (sent_arrives _ _ _ _ _ _ _ _ HB Hs) as (f & data & pay & q' & Har & Hfa & Hd & Hpay & _).
  unfold encryption_key in Hpay. rewrite decide_False, decide_True in Hpay by done. unfold eval in Hpay at 1.
  rewrite run_bind in Hpay. cbn in Hpay. rewrite Hpeer in Hpay. cbn in Hpay.
  pose proof (linked_opens _ _ _ _ _ _ Hl Hpay) as Hopen. rewrite <- Hfa in Hopen.
  pose proof (decode_encode _ _ Hd) as Hdec. set (cmd := mk_command Message MessageAck pay) in *.
  exists f, cmd. split; [exact Har|]. change (exec (dispatch ca f cmd) wa) with (exec (message_ack_handler ca f cmd) wa).
  cbv zeta. pose proof (message_ack_handler_effect ca f cmd wa) as [Hm _].
  rewrite (open_sealed f cmd p data (mk_message_ack id) wa Hp Hopen Hdec) in Hm. cbn in Hm.
  rewrite Hnew, Hwait in Hm. destruct Hm as (Hpend & Hconf & _). split; [done|].
  unfold waits. rewrite Hpend. unfold pending_after. destruct (g_pending (w_g wa)); [|done]. cbn.
  apply bool_decide_eq_false. set_solver.
Qed.
End two_nodes.

(** ** From the web page of one node to the application of the other *)

Lemma update_last_sent_snoc st l m :
  cm_is_sent m = true → update_last_sent st (l ++ [m]) = Some (l ++ [UserStore.set_status st m]).
Proof. intros Hm. induction l as [|x l IH]; cbn; [by rewrite Hm|by rewrite IH]. Qed.

Section chat.
Context `{Crates, !WireCodecs, !FrameCodecsLaws, !FrameCodecsTotal, !AccountLaws, !SessionLaws}.
Context `{!CodecLaws MessageCommand, !CodecTotal MessageCommand, !CodecLaws MessageAckCommand, !CodecTotal MessageAckCommand}.
Context `{!JsonValue} {F D App : Type} `{!Fs F, !FsLaws F, !Json (list ChatMessage), !JsonLaws (list ChatMessage)}.
Context (base : string) (base_down : ".." ∉ components base).
Context (a b : Address) (ca cb : ctx_id).
Notation name_a := (addr_to_string a).
Notation name_b := (addr_to_string b).

Definition pages_shown (w : Web F D App) (content : string) : Prop :=
  wb_ws w = None ∨ is_ok (preview content) = true.

(** A handled request whose message the first live connection takes. *)
Lemma sent_by_first now rq (w : Web F D App) c :
  let to := str_field "to" (json_body rq) in
  let content := str_field "message" (json_body rq) in
  let id := wb_next_id w in
  let wq := exec (add_pending id) (wb_world w) in
  to ≠ "" → content ≠ "" → pages_shown w content →
  first_live (g_manager (w_g (wb_world w))) (eval (target_addrs_of to) (wb_world w)) = Some c →
  eval (send_text_message name_a to id c content) wq = Ok tt →
  ∃ w', handle_send_chat base now rq name_a w = (Ok true, w') ∧
    wb_world w' = exec (send_text_message name_a to id c content) wq ∧
    wb_store w' = wb_store (queued base now to content w) ∧ wb_tasks w' = wb_tasks w ++ [TAwaitAck id to content] ∧
    wb_sent w' = wb_sent w ++ [mk_sent (value_to_string
      (JObj [("success", JBool true); ("message", JStr "Message sent")])) true].
Proof.
  intros to content id wq Ht Hc Hpage Hlive Hs.
  rewrite (run_handle_send_chat base now rq name_a w Ht Hc). fold to content id. cbv zeta.
  destruct (announce content (chat_update to) (queued base now to content w)) as [[u|e] w2] eqn:Ea;
    apply announce_effect in Ea as [(v & ->) Ea].
  2: { destruct Ea as ([l Hl] & Hpre & _). change (wb_ws w = Some l) in Hl.
       destruct Hpage as [Hpg|Hpg]; [congruence|by rewrite Hpre in Hpg]. }
  change (wb_world (set_ws v (queued base now to content w))) with wq.
  assert (Es : send_to_peers name_a to id content (eval (target_addrs_of to) (wb_world w)) wq =
    (true, exec (send_text_message name_a to id c content) wq)).
  { unfold send_to_peers. rewrite run_bind. cbn [get_g gets]. rewrite run_bind.
    assert (Hl : first_live (g_manager (w_g wq)) (eval (target_addrs_of to) (wb_world w)) = Some c) by exact Hlive.
    by rewrite (send_direct_first _ _ _ _ _ _ _ _ Hl Hs). }
  rewrite Es. eexists. split; [reflexivity|]. split_and!; done.
Qed.

(** C2. A message sent from the web interface of one node arrives at another, and
    comes back as delivered. With a live connection to the receiver and session
    keys the two nodes agree on, the request is answered with success and the
    message leaves; the receiver's node hands the application the text under
    the name of the sender and plans an acknowledgement; that task sends it; it
    arrives at the sender's node, which takes the request from the pending ones
    and confirms it to the waiting task; and then the message is the last one
    in the sender's log, with the status delivered, provided the log could be
    written. *)
Theorem chat_delivered now rq (w : Web F D App) wb p q l nb seeds msg :
  let content := str_field "message" (json_body rq) in
  let id := wb_next_id w in
  let wa := exec (add_pending id) (wb_world w) in
  let ts := eval now_stamp wa in
  str_field "to" (json_body rq) = name_b → name_b ≠ "" → content ≠ "" → plain name_b → pages_shown w content →
  (add_message base now name_b content true "sent" (us_fs (wb_store w))).1 = Ok msg →
  speaks (wb_world w) ca a p → is_Some (g_pending (w_g (wb_world w))) →
  is_new (w_g (wb_world w)) (ack_key id) = true →
  first_live (g_manager (w_g (wb_world w))) (eval (target_addrs_of name_b) (wb_world w)) = Some ca →
  speaks wb cb b q → linked (as_bytes name_a) (as_bytes name_b) p q → name_a ≠ name_b →
  g_inbox (w_g wb) = Some l → g_node (w_g wb) = Some nb → get_seeds_for_node name_a (pn_registry nb) = seeds →
  first_live (g_manager (w_g wb)) seeds = Some cb → ctx_peer (w_ctx wb cb) = Some name_a →
  is_new (w_g wb) (dedup_key name_a name_b content ts) = true →
  ∃ w', handle_send_chat base now rq name_a w = (Ok true, w') ∧
    wb_tasks w' = wb_tasks w ++ [TAwaitAck id name_b content] ∧
    ∃ f cmd, arrives (wb_world w) (wb_world w') ca f cmd ∧
      let t := TAckDirect name_a id seeds in
      let wb1 := exec (dispatch cb f cmd) wb in
      let wb2 := exec (run_task t) wb1 in
      g_inbox (w_g wb1) = Some (l ++ [mk_incoming name_a content ts]) ∧ w_tasks wb1 = w_tasks wb ++ [t] ∧
      ∃ f' cmd', arrives wb wb2 cb f' cmd' ∧
        let w2 := exec (on_world (dispatch ca f' cmd')) w' in
        w_confirmed (wb_world w2) = w_confirmed (wb_world w) ++ [id] ∧ waits id (w_g (wb_world w2)) = false ∧
        ∀ ms r w3, run_await_ack base ms (TAwaitAck id name_b content) (Acked true) w2 = (r, w3) →
          (update_last_sent_status base name_b "delivered" (us_fs (wb_store w2))).1 = Ok tt →
          ∃ l0, chat_log base w name_b = Ok l0 ∧
            chat_log base w3 name_b = Ok (l0 ++ [mk_chat (next_message_id l0) name_b content true "delivered" now]).
Proof.
  intros content id wa ts Hto Hb Hc Hp Hpage Hadd HA [pend Hpend] Hack Hlive HB Hl Hab Hin Hn Hsd Hliveb Hpeer Hnew.
  assert (Hs : eval (send_text_message name_a name_b id ca content) wa = Ok tt) by (by apply (text_sent a b ca p q)).
  pose proof (sent_by_first now rq w ca) as Hsent. rewrite Hto in Hsent. cbv zeta in Hsent. fold content id wa in Hsent.
  destruct (Hsent Hb Hc Hpage Hlive Hs) as (w' & E & Ew & Est & Etask & _). clear Hsent.
  exists w'. split; [done|]. split; [done|].
  assert (Hs' : send_text_message name_a name_b id ca content wa = (Ok tt, wb_world w')).
  { rewrite Ew, (surjective_pairing (send_text_message name_a name_b id ca content wa)). by f_equal. }
  assert (Hseeds : seeds ≠ []) by (by intros ->).
  assert (HA' : speaks wa ca a p) by exact HA. destruct HB as (HBa & HBw & HBp).
  destruct (text_arrives a b ca cb p q id content wa (wb_world w') wb l nb ts seeds HA' HBa HBp Hl Hab Hin Hn Hsd Hseeds
    eq_refl Hnew Hs') as (f & cmd & p' & q' & Har & Hio & Hp' & Hi & Ht & Hctx & Hmgr & Hba & Hbq & Hl').
  exists f, cmd. split; [exact Har|]. cbv zeta. split; [exact Hi|]. split; [exact Ht|].
  set (wb1 := exec (dispatch cb f cmd) wb) in *.
  assert (Erun : exec (run_task (TAckDirect name_a id seeds)) wb1 = exec (send_message_ack name_a id cb) wb1).
  { apply run_ack_first. by rewrite Hmgr. }
  assert (HB1 : speaks wb1 cb b q') by (split_and!; [exact Hba|by rewrite Hctx|exact Hbq]).
  assert (Hpeer1 : ctx_peer (w_ctx wb1 cb) = Some name_a) by (by rewrite Hctx).
  pose proof (ack_sent a b cb p' q' id wb1 HB1 Hl' Hpeer1) as Eok. rewrite Erun.
  pose proof (surjective_pairing (send_message_ack name_a id cb wb1)) as Eack. unfold eval in Eok. rewrite Eok in Eack.
  fold (exec (send_message_ack name_a id cb) wb1) in Eack. set (wb2 := exec (send_message_ack name_a id cb) wb1) in *.
  destruct Hio as [Hg _ _ _ _ Hconf _ _].
  assert (Hw : waits id (w_g (wb_world w')) = true).
  { unfold waits. rewrite (f_equal g_pending Hg : g_pending (w_g (wb_world w')) = g_pending (w_g wa)).
    unfold wa. cbn. rewrite Hpend. cbn. apply bool_decide_eq_true. set_solver. }
  assert (Hn' : is_new (w_g (wb_world w')) (ack_key id) = true).
  { unfold is_new in *. by rewrite (f_equal g_seen Hg : g_seen (w_g (wb_world w')) = g_seen (w_g wa)). }
  destruct (ack_arrives a b ca cb p' q' id (wb_world w') wb1 wb2 Hp' HB1 Hl' Hpeer1 Hw Hn' Eack)
    as (f' & cmd' & Hack' & Hcf & Hwaits).
  exists f', cmd'. split; [unfold arrives in *; rewrite Hctx in Hack'; exact Hack'|].
  assert (Ew2 : exec (on_world (dispatch ca f' cmd')) w' = set_world (exec (dispatch ca f' cmd') (wb_world w')) w').
  { unfold exec, on_world. by rewrite run_on_part. }
  rewrite Ew2. cbn [wb_world set_world]. split; [by rewrite Hcf, Hconf|]. split; [exact Hwaits|]. intros ms r w3 Erun3 Hup.
  destruct (ack_marks_last_sent base base_down ms id name_b content (Acked true) _ w3 r Hp Erun3) as (_ & _ & Hmark).
  destruct (Hmark eq_refl Hup) as (l1 & El1 & El3).
  destruct (queued_log base base_down now name_b content w msg Hp Hadd) as (l0 & El0 & Elq).
  exists l0. split; [done|]. rewrite El3. unfold chat_log in El1, Elq. cbn [wb_store set_world] in El1. rewrite Est, Elq in El1.
  injection El1 as <-. by rewrite update_last_sent_snoc.
Qed.
End chat.
