(* ===== verification/WebData.v ===== *)
(** * The web interface: what the pages show

    The functions of src/src/web/api.rs and templates.rs that gather seeds,
    transactions, connections and the state of the tick into the data of a
    page. *)

From S2P Require Import Prelude Text NetAddr Utf8 External NodeRegistry Seeds World Sql Url Web WebApi.
From S2P Require Balance Transaction TickRecord WitnessSeed.
From Stdlib Require Import Ascii.
Open Scope Z_scope.
Open Scope stdpp_scope.

(** ** templates.rs *)

Definition TICK_INTERVAL_MINUTES : Z := 15.
Definition TICKS_PER_EPOCH : Z := 96.

Record TSeedInfo := mk_seed_info {
  ts_address : string;
  ts_port : Z;
  ts_protocol : string;
  ts_is_active : bool;
  ts_last_seen : string;
}.
Record TNodeInfo := mk_node_info {
  tn_address : string;
  tn_intranet_ips : list string;
  tn_wan_ips : list string;
  tn_is_connected : bool;
}.
Record NodeConnectionGroup := mk_group {
  gr_node_id : string;
  gr_addrs : string;
  gr_passed : string;
}.
Record ConnectionsByDirection := mk_connections {
  cn_inbound : list NodeConnectionGroup;
  cn_outbound : list NodeConnectionGroup;
}.

Record StatusInfo := mk_status {
  si_tick_count : Z;
  si_today_tick : Z;
  si_epoch : Z;
  si_epoch_tick : Z;
  si_ticks_per_epoch : Z;
  si_tick_interval_minutes : Z;
  si_next_tick_seconds : Z;
}.
(** [seconds]: those of the day in UTC+8, from 0 to 86399 *)
Definition day_seconds (timestamp : Z) : Z := (timestamp + 8 * 3600) mod 86400.
Definition tick_interval : Z := 15 * 60.
Definition next_tick (seconds : Z) : Z := tick_interval - seconds mod tick_interval.
Definition status_new (timestamp tick_count epoch : Z) : StatusInfo :=
  let seconds := day_seconds timestamp in
  mk_status tick_count (wrap_u 8 (seconds / tick_interval)) epoch 0 TICKS_PER_EPOCH TICK_INTERVAL_MINUTES
    (wrap_u 8 (next_tick seconds)).

Record WitnessRingMemberInfo := mk_member { rm_ip : string; rm_port : Z; rm_node_id : string; rm_is_active : bool }.
Record WitnessRingInfo := mk_ring {
  wr_ring_hash : string;
  wr_epoch : Z;
  wr_member_count : Z;
  wr_members : list WitnessRingMemberInfo;
}.
Definition ring_default : WitnessRingInfo := mk_ring "" 0 0 [].

Record WitnessInfo := mk_witness_info {
  wi_address : string;
  wi_is_online : bool;
  wi_tick_count : Z;
  wi_weight : string;
  wi_validated_by : list string;
}.
Record WitnessTickRecordInfo := mk_tick_info { ti_address : string; ti_tick_count : Z; ti_is_full_time : bool }.
Record WitnessTableInfo := mk_witness_table {
  wt_active_count : Z;
  wt_pending_count : Z;
  wt_witnesses : list WitnessInfo;
  wt_tick_count : Z;
  wt_tick_interval_minutes : Z;
  wt_next_tick_seconds : Z;
}.
Definition witness_table_new (timestamp tick_count : Z) : WitnessTableInfo :=
  mk_witness_table 0 0 [] tick_count 15 (wrap_u 8 (next_tick (day_seconds timestamp))).

Record AccountInfo := mk_account {
  ac_address : string;
  ac_balance : string;
  ac_pending_balance : string;
  ac_total_sent : string;
  ac_total_received : string;
  ac_tx_count : Z;
}.
Definition account_new (address : string) : AccountInfo := mk_account address "0.00" "0.00" "0.00" "0.00" 0.

Record TransactionInfo := mk_tx_info {
  tr_id : Z;
  tr_tx_type : string;
  tr_from_address : string;
  tr_to_address : string;
  tr_amount : string;
  tr_timestamp : string;
  tr_hash : string;
  tr_pre_hash : string;
}.
Record TransactionPage := mk_page {
  pg_transactions : list TransactionInfo;
  pg_current_page : Z;
  pg_total_pages : Z;
  pg_total_count : Z;
}.

(** ** types.rs: what the application leaves for the pages *)

Record SeedSnapshot := mk_snapshot { sn_ip : string; sn_port : Z; sn_node_id : string; sn_is_active : bool }.
Record MinterWitness := mk_minter_witness {
  mw_address : string;
  mw_tick_count : Z;
  mw_is_current : bool;
  mw_online_minutes : Z;
  mw_is_online : bool;
  mw_weight : string;
  mw_validated_by : list string;
}.
Record MinterData := mk_minter {
  md_cycle_id : Z;
  md_tick_count : Z;
  md_epoch_tick : Z;
  md_ticks_per_epoch : Z;
  md_active_ring_hash : string;
  md_active_ring_epoch : Z;
  md_active_ring_members : list SeedSnapshot;
  md_locked_ring_hash : string;
  md_locked_ring_epoch : Z;
  md_locked_ring_members : list SeedSnapshot;
  md_witness_entries : list MinterWitness;
  md_witness_chain : list (string * json);
}.

(** ** Seeds *)

(** [s.rfind(c)] and [split_at], the character left out *)
Fixpoint rsplit_once (c : ascii) (s : string) : option (string * string) :=
  match s with
  | EmptyString => None
  | String x s' =>
      match rsplit_once c s' with
      | Some (a, b) => Some (String x a, b)
      | None => if decide (x = c) then Some ("", s') else None
      end
  end.

(** [DateTime::from_timestamp(ts, 0)] and [format("%Y-%m-%d %H:%M:%S")], of the
    crate chrono *)
Class Chrono : Type := format_datetime : Z → option string.

Definition seed_data_of (m : WitnessSeed.Model) : SeedData :=
  mk_seed_data (WitnessSeed.sm_id m) (WitnessSeed.sm_ip m) (wrap_i 32 (WitnessSeed.sm_port m)) (WitnessSeed.sm_node_id m)
    (WitnessSeed.sm_is_intranet m) (WitnessSeed.sm_is_active m) (WitnessSeed.sm_success_count m)
    (WitnessSeed.sm_failure_count m) (WitnessSeed.sm_online_days m) (WitnessSeed.sm_offline_days m)
    (WitnessSeed.sm_online_rate m).

(** Where a seed that was received is filed: an address with a colon counts as
    host and port. *)
Definition seed_endpoint (seed : SeedData) : string * Z :=
  match rsplit_once ":" (sd_ip seed) with
  | Some (ip_part, port_text) => (ip_part, unwrap_or (sd_port seed) (parse_i 32 port_text))
  | None => (sd_ip seed, sd_port seed)
  end.

Section seeds_db.
Context {TS : Type} `{!Sql TS WitnessSeed.Model}.

Definition read_seeds_from_db : state TS (list SeedData) :=
  r ← WitnessSeed.get_active_seeds;
  mret (seed_data_of <$> unwrap_or [] r).

(** Errors are only logged. [nows] are the clock readings of the upserts. *)
Fixpoint write_each (nows : nat → Z) (seeds : list SeedData) : state TS unit :=
  match seeds with
  | [] => mret tt
  | seed :: l =>
      let '(ip, port) := seed_endpoint seed in
      WitnessSeed.upsert (nows 0%nat) ip port (sd_node_id seed) (sd_is_intranet seed) ;;
      write_each (fun i => nows (S i)) l
  end.
Definition write_seeds_to_db (nows : nat → Z) (seeds : list SeedData) : state TS unit :=
  WitnessSeed.clear_all ;; write_each nows seeds.
End seeds_db.

Definition seed_info_of_row `{Chrono} (m : WitnessSeed.Model) : TSeedInfo :=
  mk_seed_info (WitnessSeed.sm_ip m +:+ ":" +:+ show_i (WitnessSeed.sm_port m)) (wrap_u 16 (WitnessSeed.sm_port m))
    (seed_type_from_ip (WitnessSeed.sm_ip m)) (WitnessSeed.sm_is_active m)
    (default "unknown" (format_datetime (WitnessSeed.sm_last_seen m))).
Definition seed_info_of_seed (s : SeedInfo) : TSeedInfo :=
  mk_seed_info (si_ip s +:+ ":" +:+ show_u (si_port s)) (si_port s) (seed_type_from_ip (si_ip s)) true "now".

(** The seeds of the context that are not there yet. *)
Fixpoint push_new (seen : gset string) (seeds ctx_seeds : list TSeedInfo) : list TSeedInfo :=
  match ctx_seeds with
  | [] => seeds
  | s :: l => if decide (ts_address s ∈ seen) then push_new seen seeds l
              else push_new ({[ts_address s]} ∪ seen) (seeds ++ [s]) l
  end.
Definition merge_seed_infos (seeds ctx_seeds : list TSeedInfo) : list TSeedInfo :=
  push_new (list_to_set (ts_address <$> seeds)) seeds ctx_seeds.

(** ** Transactions *)

(** [{:>02}] *)
Definition pad2 (n : Z) : string := if n <? 10 then "0" +:+ show_u n else show_u n.
(** [amount / 100] and [amount % 100] truncate. *)
Definition amount_text (amount : Z) : string :=
  show_i (Z.quot amount 100) +:+ "." +:+ pad2 (Z.abs (Z.rem amount 100)).
Definition tx_type_debug (t : Transaction.TxType) : string :=
  match t with Transaction.Transfer => "Transfer" | Transaction.Mint => "Mint" | Transaction.Burn => "Burn" end.
Definition tx_info `{Chrono} (tx : Transaction.Model) : TransactionInfo :=
  mk_tx_info (Transaction.tm_id tx) (tx_type_debug (Transaction.tm_tx_type tx)) (Transaction.tm_from_address tx)
    (Transaction.tm_to_address tx) (amount_text (unwrap_or 0 (parse_i 64 (Transaction.tm_amount tx))))
    (default "" (format_datetime (Transaction.tm_timestamp tx))) (Transaction.tm_hash tx) (Transaction.tm_pre_hash tx).

(** For a page size that is not 0: the code divides by it. *)
Definition total_pages (total_count per_page : Z) : Z :=
  Z.max 1 (if total_count =? 0 then 1 else wrap_u 64 (total_count + per_page - 1) / per_page).
Definition load_transactions {TT} `{!Sql TT Transaction.Model, Chrono} (page per_page : Z) : state TT TransactionPage :=
  count ← Transaction.count_all;
  rows ← Transaction.get_page page per_page;
  let total_count := unwrap_or 0 count in
  mret (mk_page (tx_info <$> unwrap_or [] rows) page (total_pages total_count per_page) total_count).

(** ** Connections *)

Definition by_seed_map (nodes : list NodeEntry) : gmap SocketAddr string :=
  foldl (fun m p => <[p.1 := p.2]> m) ∅
    (flat_map (fun e => (fun s => (s, address e)) <$> (map_to_list (seeds e)).*1) nodes).
(** [m.entry(k).or_default().push(v)] *)
Definition push_at {A} (k : IpAddr) (v : A) (m : gmap IpAddr (list A)) : gmap IpAddr (list A) :=
  <[k := default [] (m !! k) ++ [v]]> m.
Definition by_ip_map (nodes : list NodeEntry) : gmap IpAddr (list string) :=
  foldl (fun m p => push_at (sock_ip p.1) p.2 m) ∅
    (flat_map (fun e => (fun s => (s, address e)) <$> (map_to_list (seeds e)).*1) nodes).
Definition outbound_nids (by_seed : gmap SocketAddr string) (peers : list PeerInfo) : gmap IpAddr (list string) :=
  foldl (fun m p =>
    match parse_sock (peer_addr p) with
    | Some addr =>
        match (match peer_node_id p with Some n => Some n | None => by_seed !! addr end) with
        | Some nid => push_at (sock_ip addr) nid m
        | None => m
        end
    | None => m
    end) ∅ peers.

Definition resolve_nid (by_seed : gmap SocketAddr string) (by_ip out_nids : gmap IpAddr (list string))
    (p : PeerInfo) (seen : gset string) : option string :=
  match peer_node_id p with
  | Some nid => Some nid
  | None =>
      addr ← parse_sock (peer_addr p);
      match by_seed !! addr with
      | Some nid => Some nid
      | None =>
          candidates ← by_ip !! sock_ip addr;
          match candidates with
          | [nid] => Some nid
          | _ =>
              nids ← out_nids !! sock_ip addr;
              match List.filter (fun n => bool_decide (n ∉ seen)) nids with [nid] => Some nid | _ => None end
          end
      end
  end.

Definition passed_text (p : PeerInfo) : string :=
  join_comma (((fun ip => ip +:+ " (wan)") <$> peer_wan_ips p) ++ ((fun ip => ip +:+ " (intranet)") <$> peer_intranet_ips p)).

Fixpoint group_peers (resolve : PeerInfo → gset string → option string) (local_node_id : string)
    (seen : gset string) (peers : list PeerInfo) : list NodeConnectionGroup :=
  match peers with
  | [] => []
  | p :: l =>
      match resolve p seen with
      | None => group_peers resolve local_node_id seen l
      | Some nid =>
          if decide (nid = local_node_id) then group_peers resolve local_node_id seen l
          else if decide (nid ∈ seen) then group_peers resolve local_node_id seen l
          else mk_group nid (peer_addr p) (passed_text p) ::
               group_peers resolve local_node_id ({[nid]} ∪ seen) l
      end
  end.

Definition group_connections_by_direction (raw : ConnectionInfo) (reg : registry) (local_node_id : string) :
    ConnectionsByDirection :=
  let nodes := get_nodes reg in
  let by_seed := by_seed_map nodes in
  let resolve := resolve_nid by_seed (by_ip_map nodes) (outbound_nids by_seed (NodeRegistry.outbound raw)) in
  mk_connections (group_peers resolve local_node_id ∅ (NodeRegistry.inbound raw))
                 (group_peers resolve local_node_id ∅ (NodeRegistry.outbound raw)).

(** ** Seeds that were received *)

#[local] Existing Instance WitnessSeed.seed_row.

Section seeds_properties.
Context {TS : Type} `{!Sql TS WitnessSeed.Model, !SqlLaws TS WitnessSeed.Model, !SqlReliable TS WitnessSeed.Model}.

(** What a seed says of a witness, and what a row does. *)
Definition sighting_of (d : SeedData) : string * Z * string * bool :=
  (sd_ip d, sd_port d, sd_node_id d, sd_is_intranet d).
Definition row_says (m : WitnessSeed.Model) : string * Z * string * bool :=
  (WitnessSeed.sm_ip m, WitnessSeed.sm_port m, WitnessSeed.sm_node_id m, WitnessSeed.sm_is_intranet m).
(** A seed, filed at an endpoint. *)
Definition says_at (p : SeedData * (string * Z)) : string * Z * string * bool :=
  (p.2.1, p.2.2, sd_node_id p.1, sd_is_intranet p.1).

(** The endpoint that is meant: an address without a colon is a host; otherwise
    what follows the last colon is the port, if it is the text of one, and what
    is before it the host. *)
Definition meant_at (seed : SeedData) (e : string * Z) : Prop :=
  (has ":" (sd_ip seed) = false ∧ e = (sd_ip seed, sd_port seed)) ∨
  ∃ port_text, sd_ip seed = e.1 +:+ ":" +:+ port_text ∧ has ":" port_text = false ∧
    match parse_i 32 port_text with Ok port => e.2 = port | Err _ => e.2 = sd_port seed end.

Lemma rsplit_once_spec c s :
  match rsplit_once c s with
  | Some (a, b) => s = a +:+ String c b ∧ has c b = false
  | None => has c s = false
  end.
Proof.
  induction s as [|x s IH]; [done|]. cbn. destruct (rsplit_once c s) as [[a b]|].
  - destruct IH as [-> Hb]. by split.
  - destruct (decide (x = c)) as [->|Hne]; [by split|]. by rewrite bool_decide_false.
Qed.

Lemma last_cut c a b a' b' : has c b = false → has c b' = false → a +:+ String c b = a' +:+ String c b' → a = a' ∧ b = b'.
Proof.
  intros Hb Hb'. revert a'. induction a as [|x a IH]; intros [|x' a'] E.
  - split; [done|]. by injection E.
  - exfalso. injection E as -> ->. change (has x' (a' +:+ String x' b')) with (has x' (a' +:+ String x' b')) in Hb.
    rewrite has_app in Hb. cbn in Hb. rewrite bool_decide_true in Hb by done. by rewrite orb_true_r in Hb.
  - exfalso. injection E as -> <-. rewrite has_app in Hb'. cbn in Hb'. rewrite bool_decide_true in Hb' by done. by rewrite orb_true_r in Hb'.
  - injection E as -> E. destruct (IH a' E) as [-> ->]. done.
Qed.

(** The endpoint under which a seed is filed is the one that is meant. *)
Lemma meant_endpoint seed e : meant_at seed e ↔ seed_endpoint seed = e.
Proof.
  unfold meant_at, seed_endpoint. pose proof (rsplit_once_spec ":" (sd_ip seed)) as Hs.
  destruct (rsplit_once ":" (sd_ip seed)) as [[h p]|].
  - destruct Hs as [Es Hp]. split.
    + intros [[Hn _]|(p' & E & Hp' & Hport)].
      * rewrite Es, has_app in Hn. cbn in Hn. by rewrite orb_true_r in Hn.
      * change (sd_ip seed = e.1 +:+ String ":" p') in E. rewrite Es in E. apply last_cut in E as [-> ->]; [|done..].
        destruct e as [h p2]. cbn in *. by destruct (parse_i 32 p') ; subst.
    + intros <-. right. exists p. cbn. split; [exact Es|]. split; [done|]. by destruct (parse_i 32 p).
  - split.
    + intros [[_ ->]|(p' & E & _)]; [done|]. rewrite E, has_app in Hs. cbn in Hs. by rewrite orb_true_r in Hs.
    + intros <-. by left.
Qed.

(** The seeds that are the first at their endpoint. *)
Fixpoint firsts (seen : list (string * Z)) (l : list SeedData) : list SeedData :=
  match l with
  | [] => []
  | x :: l' => if decide (seed_endpoint x ∈ seen) then firsts seen l' else x :: firsts (seed_endpoint x :: seen) l'
  end.

Lemma elem_of_firsts seen l s :
  s ∈ firsts seen l ↔ seed_endpoint s ∉ seen ∧
    ∃ l1 l2, l = l1 ++ s :: l2 ∧ Forall (fun s' => seed_endpoint s' ≠ seed_endpoint s) l1.
Proof.
  revert seen. induction l as [|x l IH]; intros seen; cbn [firsts].
  { split; [by intros ?%elem_of_nil|]. intros (_ & [|] & ? & [=] & _). }
  assert (Hrest : (∃ l1 l2, x :: l = l1 ++ s :: l2 ∧ Forall (fun s' => seed_endpoint s' ≠ seed_endpoint s) l1) ↔
    s = x ∨ seed_endpoint x ≠ seed_endpoint s ∧ ∃ l1 l2, l = l1 ++ s :: l2 ∧ Forall (fun s' => seed_endpoint s' ≠ seed_endpoint s) l1).
  { split.
    - intros ([|y l1] & l2 & E & Hf); injection E as -> ->; [by left|right]. apply Forall_cons in Hf as [Hy Hf]. eauto.
    - intros [->|(Hne & l1 & l2 & -> & Hf)]; [by exists [], l|]. exists (x :: l1), l2. split; [done|by constructor]. }
  rewrite Hrest. clear Hrest. case_decide as Hx.
  - rewrite IH. split; [intros (Hs & l1 & l2 & E & Hf)|intros (Hs & [->|(Hne & Hl)])]; [|done|by split].
    split; [done|right]. split; [by intros Ee; rewrite Ee in Hx|eauto].
  - rewrite elem_of_cons, IH, not_elem_of_cons. split.
    + intros [->|((Hne & Hs) & Hl)]; [by split; [|left]|]. split; [done|right]. split; [by apply not_eq_sym|done].
    + intros (Hs & [->|(Hne & Hl)]); [by left|right]. split; [split; [by apply not_eq_sym|done]|done].
Qed.

Lemma firsts_endpoints seen l : NoDup (seed_endpoint <$> firsts seen l).
Proof.
  revert seen. induction l as [|x l IH]; intros seen; cbn [firsts]; [constructor|]. case_decide; [done|].
  rewrite fmap_cons. constructor; [|done]. intros (s & E & Hs)%list_elem_of_fmap. apply elem_of_firsts in Hs as [Hs _].
  apply not_elem_of_cons in Hs as [Hs _]. done.
Qed.

Lemma upsert_new now ip port node intranet (t : TS) :
  (ip, port) ∉ WitnessSeed.endpoint <$> sql_rows t →
  ∃ id t', WitnessSeed.upsert now ip port node intranet t = (Ok tt, t') ∧
           sql_rows t' = sql_rows t ++ [WitnessSeed.seen_first now ip port node intranet id].
Proof.
  intros Hno. unfold WitnessSeed.upsert, WitnessSeed.find_by_ip_port. rewrite !run_try_bind.
  destruct (find_one_total (WitnessSeed.at_endpoint ip port) t) as (o & -> & Ho). destruct o as [x|].
  - destruct Ho as [Hx Hp%WitnessSeed.seed_endpoint_spec]. destruct Hno. apply list_elem_of_fmap. by exists x.
  - destruct (insert_row_total (WitnessSeed.seen_first now ip port node intranet) t) as (id & t' & -> & Er);
      [done|intros id; apply Forall_forall; done|]. cbn. eauto.
Qed.

(** An endpoint that is there is seen again, and keeps its node. *)
Lemma upsert_again now ip port node intranet (t : TS) :
  (ip, port) ∈ WitnessSeed.endpoint <$> sql_rows t →
  ∃ t', WitnessSeed.upsert now ip port node intranet t = (Ok tt, t') ∧
    row_says <$> sql_rows t' = row_says <$> sql_rows t ∧
    (Forall (fun m => WitnessSeed.sm_is_active m = true) (sql_rows t) →
     Forall (fun m => WitnessSeed.sm_is_active m = true) (sql_rows t')).
Proof.
  intros Hin. unfold WitnessSeed.upsert, WitnessSeed.find_by_ip_port. rewrite !run_try_bind.
  destruct (find_one_total (WitnessSeed.at_endpoint ip port) t) as (o & -> & Ho). destruct o as [x|].
  - destruct Ho as [Hx Hp]. destruct (update_row_total (WitnessSeed.seen_again now x) x t Hx eq_refl) as (t' & -> & Er).
    exists t'. split; [done|]. rewrite Er. split; [by apply replace_row_fmap with x|]. rewrite !Forall_forall. intros Ha y Hy.
    apply (elem_of_replace_row _ x) in Hy as [->|[Hy _]]; [done|by apply Ha|done..].
  - apply list_elem_of_fmap in Hin as (x & Ex & Hx). specialize (Ho x Hx).
    assert (Hat : WitnessSeed.at_endpoint ip port x = true) by by apply WitnessSeed.seed_endpoint_spec. congruence.
Qed.

Lemma row_endpoint m : ((row_says m).1.1.1, (row_says m).1.1.2) = WitnessSeed.endpoint m.
Proof. done. Qed.

Lemma write_each_rows nows seeds (t : TS) :
  Forall (fun m => WitnessSeed.sm_is_active m = true) (sql_rows t) →
  let t' := exec (write_each nows seeds) t in
  row_says <$> sql_rows t' = (row_says <$> sql_rows t) ++
    ((fun s => says_at (s, seed_endpoint s)) <$> firsts (WitnessSeed.endpoint <$> sql_rows t) seeds) ∧
  Forall (fun m => WitnessSeed.sm_is_active m = true) (sql_rows t').
Proof.
  cbv zeta.
  assert (Hends : ∀ t1 t2 : TS, row_says <$> sql_rows t1 = row_says <$> sql_rows t2 →
    WitnessSeed.endpoint <$> sql_rows t1 = WitnessSeed.endpoint <$> sql_rows t2).
  { intros t1 t2 E. apply (f_equal (fmap (fun p : string * Z * string * bool => (p.1.1.1, p.1.1.2)))) in E.
    rewrite <- !list_fmap_compose in E. exact E. }
  assert (Hperm : ∀ l s1 s2, (∀ e, e ∈ s1 ↔ e ∈ s2) → firsts s1 l = firsts s2 l).
  { induction l as [|x l IH]; intros s1 s2 He; cbn [firsts]; [done|].
    rewrite (decide_ext (seed_endpoint x ∈ s1) (seed_endpoint x ∈ s2)) by done. case_decide; [by apply IH|].
    f_equal. apply IH. intros e. by rewrite !elem_of_cons, He. }
  revert nows t. induction seeds as [|seed l IH]; intros nows t Hact; cbn [write_each firsts].
  { by rewrite app_nil_r. }
  destruct (seed_endpoint seed) as [ip port] eqn:Ee. rewrite exec_bind. case_decide as Hin.
  - destruct (upsert_again (nows 0%nat) ip port (sd_node_id seed) (sd_is_intranet seed) t Hin) as (t' & E & Er & Ha).
    unfold exec at 2 4. rewrite E. cbn [snd]. destruct (IH (fun i => nows (S i)) t' (Ha Hact)) as [IH1 IH2].
    split; [|done]. by rewrite IH1, Er, (Hends t' t Er).
  - destruct (upsert_new (nows 0%nat) ip port (sd_node_id seed) (sd_is_intranet seed) t Hin) as (id & t' & E & Er).
    unfold exec at 2 4. rewrite E. cbn [snd].
    destruct (IH (fun i => nows (S i)) t') as [IH1 IH2]; [rewrite Er; apply Forall_app; split; [done|by repeat constructor]|].
    split; [|done]. rewrite IH1, Er, !fmap_app, <- (assoc_L (++)). f_equal. cbn. unfold says_at at 2. rewrite Ee. cbn. f_equal.
    f_equal. apply Hperm. intros e. rewrite elem_of_app, !elem_of_cons, elem_of_nil. unfold WitnessSeed.endpoint at 2. cbn. tauto.
Qed.

Lemma clear_all_rows (t : TS) : sql_rows (exec WitnessSeed.clear_all t) = [].
Proof.
  unfold WitnessSeed.clear_all, exec. destruct (delete_rows (fun _ => true) t) as [r t'] eqn:E.
  pose proof (run_delete_rows _ _ _ _ E) as Hd. destruct r as [u|e].
  - cbn. rewrite Hd. clear. induction (sql_rows t) as [|x l IH]; [done|exact IH].
  - exfalso. pose proof (delete_total t (fun _ => true)) as Ht. unfold delete_rows, statement in E.
    destruct (sql_delete t (fun _ => true)) as [t2|e2] eqn:Es; [done|].
    done.
Qed.

(** C39. The seeds of a node that were received replace those in the table. What
    is read back is a seed for each endpoint that some received seed means, and
    no other: with the host and the port that are meant - an address with a
    colon is cut at its last one, the port is what follows, if it is a number,
    or that of the seed -, and with the node and the scope of the first seed
    that means this endpoint. A later one for the same endpoint is lost, but
    for being counted as another sighting. *)
Theorem seeds_replaced nows seeds (t : TS) :
  (∀ s e, s ∈ seeds → meant_at s e → in_i 32 e.2) →
  ∃ kept, sighting_of <$> eval read_seeds_from_db (exec (write_seeds_to_db nows seeds) t) ≡ₚ says_at <$> kept ∧
    NoDup kept.*2 ∧
    ∀ s e, (s, e) ∈ kept ↔
      ∃ l1 l2, seeds = l1 ++ s :: l2 ∧ meant_at s e ∧ Forall (fun s' => ¬ meant_at s' e) l1.
Proof.
  intros Hp. exists ((fun s => (s, seed_endpoint s)) <$> firsts [] seeds). split_and!.
  - unfold write_seeds_to_db. rewrite exec_bind.
    destruct (write_each_rows nows seeds (exec WitnessSeed.clear_all t)) as [Enew Hact]; [by rewrite clear_all_rows|].
    rewrite clear_all_rows in Enew. cbn [app fmap list_fmap] in Enew.
    set (t' := exec (write_each _ _) _) in *. unfold read_seeds_from_db, WitnessSeed.get_active_seeds, find_sorted, eval.
    rewrite run_bind, run_try_bind. destruct (find_all_total WitnessSeed.sm_is_active t') as (l & -> & Hl). cbn.
    rewrite <- list_fmap_compose, sort_by_perm, Hl.
    assert (List.filter WitnessSeed.sm_is_active (sql_rows t') = sql_rows t') as ->.
    { clear -Hact. induction Hact as [|m l Hm _ IH]; cbn; [done|]. by rewrite Hm, IH. }
    rewrite <- list_fmap_compose. unfold compose. rewrite <- Enew. apply reflexive_eq, list_fmap_ext. intros i m Hm.
    unfold sighting_of, row_says. cbn. rewrite wrap_i_small; [done|lia|].
    assert (Hin : row_says m ∈ (fun s => says_at (s, seed_endpoint s)) <$> firsts [] seeds).
    { rewrite <- Enew. apply list_elem_of_fmap_2. by eapply list_elem_of_lookup_2. }
    apply list_elem_of_fmap in Hin as (s & Es & (_ & l1 & l2 & El & _)%elem_of_firsts).
    replace (WitnessSeed.sm_port m) with ((seed_endpoint s).2) by (unfold row_says, says_at in Es; cbn in Es; congruence).
    apply (Hp s); [rewrite El; set_solver|by apply meant_endpoint].
  - rewrite <- list_fmap_compose. apply firsts_endpoints.
  - intros s e. rewrite list_elem_of_fmap. split.
    + intros (s' & [= -> ->] & (_ & l1 & l2 & E & Hf)%elem_of_firsts). exists l1, l2. split; [done|].
      split; [by apply meant_endpoint|]. eapply Forall_impl; [exact Hf|]. intros x Hx Hm. by apply meant_endpoint in Hm.
    + intros (l1 & l2 & E & <-%meant_endpoint & Hf). exists s. split; [done|]. apply elem_of_firsts. split; [by intros ?%elem_of_nil|].
      exists l1, l2. split; [done|]. eapply Forall_impl; [exact Hf|]. intros x Hx Hm. by apply Hx, meant_endpoint.
Qed.
End seeds_properties.

Example ipv4_seed_filed : seed_endpoint (mk_seed_data 1 "10.0.0.1" 9000 "n" true true 0 0 0 0 SpecFloat.S754_nan) = ("10.0.0.1", 9000).
Proof. reflexivity. Qed.
(** The address is cut at its last colon. *)
Example ipv6_seed_mangled : seed_endpoint (mk_seed_data 1 "2001:db8::1" 9000 "n" false true 0 0 0 0 SpecFloat.S754_nan) = ("2001:db8:", 1).
Proof. reflexivity. Qed.

(** ** Seeds of a page *)

Lemma push_new_spec seen seeds l :
  NoDup (ts_address <$> seeds) → (∀ a, a ∈ seen ↔ a ∈ ts_address <$> seeds) →
  NoDup (ts_address <$> push_new seen seeds l) ∧
  (∃ new, push_new seen seeds l = seeds ++ new ∧ ∀ s, s ∈ new → s ∈ l) ∧
  (∀ s, s ∈ l → ts_address s ∈ ts_address <$> push_new seen seeds l).
Proof.
  revert seen seeds. induction l as [|s l IH]; intros seen seeds Hn Hs; cbn [push_new].
  - split_and!; [done|exists []; rewrite app_nil_r; split; [done|set_solver]|set_solver].
  - case_decide as Hd.
    + destruct (IH seen seeds Hn Hs) as (H1 & (new & E & Hnew) & H2). split_and!; [done| |].
      * exists new. split; [done|]. intros x Hx. apply list_elem_of_further. by apply Hnew.
      * intros x [->|Hx]%elem_of_cons; [|by apply H2]. rewrite E, fmap_app. apply elem_of_app. left. by apply Hs.
    + assert (Hno : ts_address s ∉ ts_address <$> seeds) by by rewrite <- Hs.
      destruct (IH ({[ts_address s]} ∪ seen) (seeds ++ [s])) as (H1 & (new & E & Hnew) & H2).
      * rewrite fmap_app. apply NoDup_app. split_and!; [done| |apply NoDup_singleton].
        by intros x Hx ->%list_elem_of_singleton.
      * intros a. rewrite elem_of_union, elem_of_singleton, fmap_app, elem_of_app, Hs. cbn.
        rewrite list_elem_of_singleton. naive_solver.
      * split_and!; [done| |].
        -- exists (s :: new). rewrite E, <- (assoc_L (++)). split; [done|].
           intros x [->|Hx]%elem_of_cons; [apply list_elem_of_here|apply list_elem_of_further; by apply Hnew].
        -- intros x [->|Hx]%elem_of_cons; [|by apply H2]. rewrite E, !fmap_app. set_solver.
Qed.

(** The seeds of a page are those of the table followed by those of the
    registry that are not in it: none twice, none missing. *)
Theorem seed_infos_merged db ctx :
  NoDup (ts_address <$> db) →
  NoDup (ts_address <$> merge_seed_infos db ctx) ∧
  (∃ new, merge_seed_infos db ctx = db ++ new ∧ ∀ s, s ∈ new → s ∈ ctx) ∧
  (∀ s, s ∈ ctx → ts_address s ∈ ts_address <$> merge_seed_infos db ctx).
Proof. intros Hn. apply push_new_spec; [done|]. intros a. by rewrite elem_of_list_to_set. Qed.

(** ** Connections of a page *)

Lemma group_peers_spec resolve local seen peers :
  NoDup (gr_node_id <$> group_peers resolve local seen peers) ∧
  ∀ g, g ∈ group_peers resolve local seen peers →
    gr_node_id g ≠ local ∧ gr_node_id g ∉ seen ∧
    ∃ p s, p ∈ peers ∧ gr_addrs g = peer_addr p ∧ resolve p s = Some (gr_node_id g).
Proof.
  revert seen. induction peers as [|p l IH]; intros seen; cbn [group_peers]; [split; [constructor|set_solver]|].
  assert (Hskip : NoDup (gr_node_id <$> group_peers resolve local seen l) ∧
    ∀ g, g ∈ group_peers resolve local seen l → gr_node_id g ≠ local ∧ gr_node_id g ∉ seen ∧
      ∃ p' s, p' ∈ p :: l ∧ gr_addrs g = peer_addr p' ∧ resolve p' s = Some (gr_node_id g)).
  { destruct (IH seen) as [H1 H2]. split; [done|]. intros g (? & ? & p' & s & Hp & ?)%H2.
    split_and!; [done|done|]. exists p', s. split; [by apply list_elem_of_further|done]. }
  destruct (resolve p seen) as [nid|] eqn:Er; [|done]. do 2 (case_decide; [done|]).
  destruct (IH ({[nid]} ∪ seen)) as [H1 H2]. split.
  - cbn. constructor; [|done]. intros (g & Hg & Hin)%list_elem_of_fmap. apply H2 in Hin as (_ & Hin & _). set_solver.
  - intros g [->|Hg]%elem_of_cons; [cbn; split_and!; [done..|]; exists p, seen; split; [apply list_elem_of_here|done]|].
    apply H2 in Hg as (? & ? & p' & s & Hp & ?). split_and!; [done|set_solver|]. exists p', s.
    split; [by apply list_elem_of_further|done].
Qed.

(** A node a peer may be shown as: the one it announced, one the registry has
    a seed for, or one another peer is. *)
Definition node_of_seed (reg : registry) (n : string) : Prop := ∃ a e, reg !! a = Some e ∧ address e = n ∧ seeds e ≠ ∅.

Lemma seed_pairs_spec (reg : registry) s n :
  (s, n) ∈ flat_map (fun e => (fun s => (s, address e)) <$> (map_to_list (seeds e)).*1) (get_nodes reg) →
  ∃ a e, reg !! a = Some e ∧ address e = n ∧ is_Some (seeds e !! s).
Proof.
  intros Hin. apply list_elem_of_In, in_flat_map in Hin as (e & He & Hin).
  apply list_elem_of_In, list_elem_of_fmap in Hin as (s' & [= <- ->] & Hs).
  apply list_elem_of_fmap in Hs as ([s2 d] & -> & Hs). apply elem_of_map_to_list in Hs.
  apply list_elem_of_In in He. unfold get_nodes in He. apply list_elem_of_fmap in He as ([a e'] & -> & He).
  apply elem_of_map_to_list in He. exists a, e'. split_and!; [done|done|by eexists].
Qed.

Lemma foldl_insert_lookup {K} `{Countable K} (l : list (K * string)) (m : gmap K string) k v :
  foldl (fun m p => <[p.1 := p.2]> m) m l !! k = Some v → m !! k = Some v ∨ (k, v) ∈ l.
Proof.
  revert m. induction l as [|[k' v'] l IH]; intros m; cbn; [by left|]. intros [Hl|Hl]%IH; [|right; set_solver].
  destruct (decide (k = k')) as [->|Hne]; [rewrite lookup_insert_eq in Hl; injection Hl as ->; right; set_solver|].
  rewrite lookup_insert_ne in Hl by done. by left.
Qed.

Lemma push_at_lookup {A} k v (m : gmap IpAddr (list A)) k' l x :
  push_at k v m !! k' = Some l → x ∈ l → x = v ∨ ∃ l', m !! k' = Some l' ∧ x ∈ l'.
Proof.
  unfold push_at. destruct (decide (k' = k)) as [->|Hne]; [rewrite lookup_insert_eq|rewrite lookup_insert_ne by done; eauto].
  intros [= <-] [Hx|Hx]%elem_of_app; [|left; set_solver].
  destruct (m !! k) as [l'|]; cbn in Hx; [eauto|set_solver].
Qed.

Lemma by_ip_lookup l (m : gmap IpAddr (list string)) k ns n :
  foldl (fun m (p : SocketAddr * string) => push_at (sock_ip p.1) p.2 m) m l !! k = Some ns → n ∈ ns →
  (∃ ns', m !! k = Some ns' ∧ n ∈ ns') ∨ ∃ s, (s, n) ∈ l.
Proof.
  revert m. induction l as [|[s n'] l IH]; intros m; cbn; [eauto|]. intros E Hn.
  destruct (IH _ E Hn) as [(ns' & E' & Hn')|(s' & Hs)]; [|right; exists s'; set_solver].
  eapply push_at_lookup in E' as [->|?]; [right; exists s; set_solver|by left|done].
Qed.

Lemma outbound_lookup by_seed peers (m : gmap IpAddr (list string)) k ns n :
  foldl (fun m p =>
    match parse_sock (peer_addr p) with
    | Some addr =>
        match (match peer_node_id p with Some n => Some n | None => by_seed !! addr end) with
        | Some nid => push_at (sock_ip addr) nid m
        | None => m
        end
    | None => m
    end) m peers !! k = Some ns → n ∈ ns →
  (∃ ns', m !! k = Some ns' ∧ n ∈ ns') ∨
  (∃ p, p ∈ peers ∧ peer_node_id p = Some n) ∨ ∃ s, (by_seed : gmap SocketAddr string) !! s = Some n.
Proof.
  revert m. induction peers as [|p l IH]; intros m; cbn; [eauto|]. intros E Hn.
  destruct (IH _ E Hn) as [(ns' & E' & Hn')|[(p' & ? & ?)|?]];
    [|right; left; exists p'; split; [by apply list_elem_of_further|done]|by right; right].
  destruct (parse_sock (peer_addr p)) as [addr|]; [|eauto].
  destruct (peer_node_id p) as [nid|] eqn:Ep.
  - eapply push_at_lookup in E' as [->|?]; [|by left|done].
    right. left. exists p. split; [apply list_elem_of_here|done].
  - destruct (by_seed !! addr) as [nid|] eqn:Eb; [|eauto].
    eapply push_at_lookup in E' as [->|?]; [|by left|done]. right. right. eauto.
Qed.

Lemma node_of_pair (reg : registry) s n :
  (s, n) ∈ flat_map (fun e => (fun s => (s, address e)) <$> (map_to_list (seeds e)).*1) (get_nodes reg) → node_of_seed reg n.
Proof.
  intros (a & e & Ha & He & [d Hs])%seed_pairs_spec. exists a, e. split_and!; [done|done|].
  intros E. by rewrite E in Hs.
Qed.

Lemma resolve_known (reg : registry) raw p seen n :
  resolve_nid (by_seed_map (get_nodes reg)) (by_ip_map (get_nodes reg))
    (outbound_nids (by_seed_map (get_nodes reg)) (NodeRegistry.outbound raw)) p seen = Some n →
  peer_node_id p = Some n ∨ node_of_seed reg n ∨ ∃ q, q ∈ NodeRegistry.outbound raw ∧ peer_node_id q = Some n.
Proof.
  assert (Hseed : ∀ s m, by_seed_map (get_nodes reg) !! s = Some m → node_of_seed reg m).
  { intros s m [E|E]%foldl_insert_lookup; [done|by eapply node_of_pair]. }
  unfold resolve_nid. destruct (peer_node_id p) as [m|]; [by left|].
  intros (addr & _ & E)%bind_Some. right.
  destruct (by_seed_map _ !! addr) as [m|] eqn:Eb; [injection E as ->; left; by eapply Hseed|].
  apply bind_Some in E as (cands & Ec & E).
  assert (Hout : (nids ← outbound_nids (by_seed_map (get_nodes reg)) (NodeRegistry.outbound raw) !! sock_ip addr;
      match List.filter (fun n => bool_decide (n ∉ seen)) nids with [nid] => Some nid | _ => None end) = Some n →
    node_of_seed reg n ∨ ∃ q, q ∈ NodeRegistry.outbound raw ∧ peer_node_id q = Some n).
  { intros (nids & En & Ef)%bind_Some. assert (Hn : n ∈ nids).
    { destruct (List.filter _ nids) as [|x [|y l]] eqn:El; try done. injection Ef as ->.
      assert (Hx : n ∈ List.filter (fun n => bool_decide (n ∉ seen)) nids) by (rewrite El; set_solver).
      by apply elem_of_filter_b in Hx as [? _]. }
    destruct (outbound_lookup _ _ _ _ _ _ En Hn) as [(? & ? & _)|[?|(s & Hs)]]; [done|by right|left; by eapply Hseed]. }
  destruct cands as [|c [|c' cands]]; [by apply Hout| |by apply Hout]. injection E as ->.
  destruct (by_ip_lookup _ _ _ _ n Ec) as [(? & ? & _)|(s & Hs)]; [set_solver|done|left; by eapply node_of_pair].
Qed.

(** The connections of a page: in either direction every node stands once, the
    node itself never, each with the address of one of its connections; and a
    node shown is one a peer announced or the registry has a seed for. *)
Theorem connections_grouped raw (reg : registry) local peers groups :
  let c := group_connections_by_direction raw reg local in
  (peers, groups) = (NodeRegistry.inbound raw, cn_inbound c) ∨ (peers, groups) = (NodeRegistry.outbound raw, cn_outbound c) →
  NoDup (gr_node_id <$> groups) ∧
  ∀ g, g ∈ groups → gr_node_id g ≠ local ∧
    (∃ p, p ∈ peers ∧ gr_addrs g = peer_addr p) ∧
    (node_of_seed reg (gr_node_id g) ∨
     ∃ q, q ∈ NodeRegistry.inbound raw ++ NodeRegistry.outbound raw ∧ peer_node_id q = Some (gr_node_id g)).
Proof.
  intros c Hc.
  assert (Hg : ∃ res, groups = group_peers res local ∅ peers ∧ res = resolve_nid (by_seed_map (get_nodes reg))
      (by_ip_map (get_nodes reg)) (outbound_nids (by_seed_map (get_nodes reg)) (NodeRegistry.outbound raw)) ∧
      ∀ p, p ∈ peers → p ∈ NodeRegistry.inbound raw ++ NodeRegistry.outbound raw).
  { destruct Hc as [[= -> ->]|[= -> ->]]; eexists; (split; [done|]); (split; [done|]); intros p Hp; apply elem_of_app; auto. }
  destruct Hg as (res & -> & Eres & Hsub). destruct (group_peers_spec res local ∅ peers) as [Hn Hs]. split; [done|].
  intros g (Hl & _ & p & s & Hp & Ha & Hr)%Hs. split; [done|]. split; [eauto|]. rewrite Eres in Hr.
  apply resolve_known in Hr as [Hr|[Hr|(q & Hq & Hr)]]; [right; eauto|by left|right].
  exists q. split; [apply elem_of_app; by right|done].
Qed.

(** ** Figures *)

Lemma total_pages_spec n per p :
  0 < n → 0 < per → n + per < 2 ^ 64 → 1 ≤ p → p ≤ total_pages n per ↔ (p - 1) * per < n.
Proof.
  intros Hn Hper Hb Hp. unfold total_pages. rewrite (proj2 (Z.eqb_neq n 0)) by lia.
  rewrite wrap_u_small by (unfold in_u; lia).
  pose proof (Z.div_mod (n + per - 1) per ltac:(lia)). pose proof (Z.mod_pos_bound (n + per - 1) per Hper). nia.
Qed.

(** The figures of a page. The pages of the transactions are exactly those
    with a transaction on them. An amount between -99 and -1 is shown without
    its sign; the seconds to the next tick, from 1 to 900, are shown modulo
    256. *)
Theorem page_figures :
  (∀ n per p, 0 < n → 0 < per → n + per < 2 ^ 64 → 1 ≤ p → p ≤ total_pages n per ↔ (p - 1) * per < n) ∧
  (∀ a, -100 < a < 0 → amount_text a = amount_text (- a)) ∧
  (∀ ts count epoch, let s := day_seconds ts in
     0 ≤ s < 86400 ∧ 1 ≤ next_tick s ≤ 900 ∧ (s + next_tick s) mod tick_interval = 0 ∧
     si_today_tick (status_new ts count epoch) = s / tick_interval ∧
     (si_next_tick_seconds (status_new ts count epoch) = next_tick s ↔ next_tick s < 256)).
Proof.
  split_and!.
  - apply total_pages_spec.
  - intros a Ha. unfold amount_text. rewrite Z.rem_opp_l, Z.abs_opp by lia.
    assert (Z.quot a 100 = 0) as -> by (apply Z.quot_small_iff; lia).
    assert (Z.quot (- a) 100 = 0) as -> by (apply Z.quot_small_iff; lia). done.
  - intros ts count epoch s. assert (Hs : 0 ≤ s < 86400) by (apply Z.mod_pos_bound; lia).
    unfold next_tick, tick_interval. change (15 * 60) with 900.
    pose proof (Z.mod_pos_bound s 900 ltac:(lia)) as Hm. pose proof (Z.div_mod s 900 ltac:(lia)) as Hd.
    assert (Hq : 0 ≤ s / 900 < 96) by (split; [apply Z.div_pos; lia|apply Z.div_lt_upper_bound; lia]).
    split_and!; [lia..| | |].
    + replace (s + (900 - s mod 900)) with ((s / 900 + 1) * 900) by lia. by rewrite Z.mod_mul.
    + unfold status_new. cbn. fold s. unfold tick_interval. change (15 * 60) with 900. apply wrap_u_small. unfold in_u. lia.
    + unfold status_new. cbn. fold s. unfold next_tick, tick_interval. change (15 * 60) with 900.
      unfold wrap_u. change (2 ^ 8) with 256. set (k := 900 - s mod 900) in *.
      pose proof (Z.mod_pos_bound k 256 ltac:(lia)). split; [lia|]. intros. apply Z.mod_small. lia.
Qed.
