(* ===== verification/WebPages.v ===== *)
(** * The web interface: pages and routing

    gather_page_data, the page handlers and handle_data_api of
    src/src/web/api.rs, and build_handler of src/src/web/mod.rs, which picks
    the handler of a request. Rendering a template is the crate askama; the
    machine is a parameter, the class of [Resources]. *)

From S2P Require Import Prelude Text NetAddr Utf8 LocalIps Resources External Command NodeRegistry Seeds World Frame Sql Files UserStore Url.
From S2P Require Import Web WebApi WebSend WebData.
From S2P Require Balance Contact Transaction TickRecord WitnessSeed.
From Stdlib Require Import Ascii.
Open Scope Z_scope.
Open Scope stdpp_scope.

Definition ring_to_info (hash : string) (epoch : Z) (members : list SeedSnapshot) : WitnessRingInfo :=
  mk_ring hash epoch (Z.of_nat (length members))
    ((fun s => mk_member (sn_ip s) (sn_port s) (sn_node_id s) (sn_is_active s)) <$> members).
Definition ring_info (hash : string) (epoch : Z) (members : list SeedSnapshot) : WitnessRingInfo :=
  if is_empty hash then ring_default else ring_to_info hash epoch members.

Definition witness_info (w : MinterWitness) : WitnessInfo :=
  mk_witness_info (mw_address w) (mw_is_online w) (mw_tick_count w) (mw_weight w) (mw_validated_by w).

Definition tick_record_info (max_tick : Z) (r : TickRecord.Model) : WitnessTickRecordInfo :=
  mk_tick_info (TickRecord.tm_address r) (TickRecord.tm_tick_count r)
    ((0 <? max_tick) && (max_tick <=? TickRecord.tm_tick_count r)).

(** The seeds of a node a page shows: not loopback, not unspecified, not port
    0. *)
Definition shown_seed (a : SocketAddr) : bool :=
  negb (is_loopback (sock_ip a)) && negb (is_unspecified (sock_ip a)) && negb (sock_port a =? 0).
Definition seed_text (a : SocketAddr) : string := ip_to_string (sock_ip a) +:+ ":" +:+ show_u (sock_port a).

Section pages.
Context `{Crates, !FrameCodecs, !WebCrates, !JsonValue, !Chrono, !Machine}.
Context {F TC TB TT TS TR App : Type}.
Context `{!Fs F, !Sql TC Contact.Model, !Sql TB Balance.Model, !Sql TT Transaction.Model}.
Context `{!Sql TS WitnessSeed.Model, !Sql TR TickRecord.Model}.
Context `{!Json (list ChatMessage), !Json UserProfile}.
Abbreviation W := (state (Web F (Db TC TB TT TS TR) App)).
Context (base_path : string).

Definition node_info (e : NodeEntry) : TNodeInfo :=
  let shown := List.filter shown_seed (map_to_list (seeds e)).*1 in
  mk_node_info (address e)
    (seed_text <$> List.filter (fun a => bool_decide (scope_from_ip (sock_ip a) = Intranet)) shown)
    (seed_text <$> List.filter (fun a => bool_decide (scope_from_ip (sock_ip a) = Extranet)) shown)
    (connected e).

Definition load_seeds_from_db : W (list TSeedInfo) :=
  r ← on_db (on_seeds WitnessSeed.get_active_seeds);
  mret (seed_info_of_row <$> List.filter (fun m => is_valid_seed_ip (WitnessSeed.sm_ip m)) (unwrap_or [] r)).
Definition load_seeds_from_global_context : W (list TSeedInfo) :=
  r ← on_world get_registry;
  mret match r with
       | Some r => seed_info_of_seed <$> List.filter (fun s => is_valid_seed_ip (si_ip s))
                     (ss_seeds (derive_seed_set_from_registry r))
       | None => []
       end.
Definition load_all_seeds : W (list TSeedInfo) :=
  db_seeds ← load_seeds_from_db;
  ctx_seeds ← load_seeds_from_global_context;
  mret (merge_seed_infos db_seeds ctx_seeds).

Record PageData := mk_page_data {
  pd_connection_groups : ConnectionsByDirection;
  pd_seeds : list TSeedInfo;
  pd_nodes : list TNodeInfo;
  pd_resources : ResourceInfo;
  pd_epoch_tick : Z;
  pd_ticks_per_epoch : Z;
  pd_witness_ring_active : WitnessRingInfo;
  pd_witness_ring_locked : WitnessRingInfo;
  pd_witness_tick_records : list WitnessTickRecordInfo;
  pd_witness_tick_max : Z;
  pd_status : StatusInfo;
  pd_witness_table : WitnessTableInfo;
  pd_account : AccountInfo;
  pd_transactions : TransactionPage;
  pd_inner_ips : list string;
  pd_external_ips : list string;
  pd_my_balance : Z;
  pd_witness_chain : list (string * json);
}.

(** What the application may have left in the context: the slots
    [ResourceInfo] and [AccountInfo]. *)
Context (resources_slot : option ResourceInfo) (account_slot : option AccountInfo).

Definition status_of (timestamp : Z) (md : MinterData) : StatusInfo :=
  let s := status_new timestamp (wrap_u 8 (md_tick_count md)) (md_cycle_id md) in
  mk_status (si_tick_count s) (si_today_tick s) (si_epoch s) (md_epoch_tick md) (md_ticks_per_epoch md)
    (si_tick_interval_minutes s) (si_next_tick_seconds s).
(** The number of the cycle is put where the number of active witnesses
    belongs. *)
Definition witness_table_of (timestamp : Z) (md : MinterData) : WitnessTableInfo :=
  let t := witness_table_new timestamp (wrap_u 8 (md_tick_count md)) in
  mk_witness_table (wrap_u 64 (md_cycle_id md)) 0 (witness_info <$> md_witness_entries md) (wt_tick_count t)
    (wt_tick_interval_minutes t) (wt_next_tick_seconds t).

Definition gather_page_data (timestamp : Z) (md : MinterData) (addr : string) (port : Z) : W PageData :=
  m ← on_world (get_g g_manager);
  let raw_connections := get_connection_info m in
  reg ← sync_registry;
  let connection_groups := match reg with
                           | Some reg => group_connections_by_direction raw_connections reg addr
                           | None => mk_connections [] []
                           end in
  seeds ← load_all_seeds;
  reg ← on_world get_registry;
  let nodes := match reg with Some r => node_info <$> get_nodes r | None => [] end in
  max_tick ← on_db (on_ticks (TickRecord.get_max_tick_count (md_cycle_id md)));
  let max_tick := unwrap_or 0 max_tick in
  records ← on_db (on_ticks (TickRecord.get_epoch_records (md_cycle_id md)));
  transactions ← on_db (on_transactions (load_transactions 1 20));
  my_balance ← on_db (on_balances (Balance.get addr));
  let with_port ips := (fun ip => ip +:+ ":" +:+ show_u port) <$> (ips : list string) in
  mret (mk_page_data connection_groups seeds nodes (default detect resources_slot) (md_epoch_tick md)
    (md_ticks_per_epoch md)
    (ring_info (md_active_ring_hash md) (md_active_ring_epoch md) (md_active_ring_members md))
    (ring_info (md_locked_ring_hash md) (md_locked_ring_epoch md) (md_locked_ring_members md))
    (tick_record_info max_tick <$> unwrap_or [] records) max_tick (status_of timestamp md)
    (witness_table_of timestamp md) (default (account_new addr) account_slot) transactions
    (with_port (get_all_ips ip_addr_show).1) (with_port (get_all_ips ip_addr_show).2) (unwrap_or 0 my_balance) (md_witness_chain md)).

(** ** JSON of the data *)

Definition strings_json (l : list string) : json := JArr (JStr <$> l).
Definition ring_json (r : WitnessRingInfo) : json := JObj
  [("ring_hash", JStr (wr_ring_hash r)); ("epoch", JInt (wr_epoch r)); ("member_count", JInt (wr_member_count r));
   ("members", JArr ((fun m => JObj [("ip", JStr (rm_ip m)); ("port", JInt (rm_port m));
      ("node_id", JStr (rm_node_id m)); ("is_active", JBool (rm_is_active m))]) <$> wr_members r))].
Definition group_json (g : NodeConnectionGroup) : json :=
  JObj [("node_id", JStr (gr_node_id g)); ("addrs", JStr (gr_addrs g)); ("passed", JStr (gr_passed g))].
Definition seed_json (s : TSeedInfo) : json :=
  JObj [("address", JStr (ts_address s)); ("port", JInt (ts_port s)); ("protocol", JStr (ts_protocol s));
        ("is_active", JBool (ts_is_active s)); ("last_seen", JStr (ts_last_seen s))].
Definition node_json (n : TNodeInfo) : json :=
  JObj [("address", JStr (tn_address n)); ("intranet_ips", strings_json (tn_intranet_ips n));
        ("wan_ips", strings_json (tn_wan_ips n)); ("is_connected", JBool (tn_is_connected n))].
Definition tick_json (t : WitnessTickRecordInfo) : json :=
  JObj [("address", JStr (ti_address t)); ("tick_count", JInt (ti_tick_count t)); ("is_full_time", JBool (ti_is_full_time t))].

Definition data_json (d : PageData) (addr : string) : json := JObj
  [("tick_count", JInt (si_tick_count (pd_status d))); ("today_tick", JInt (si_today_tick (pd_status d)));
   ("next_tick_seconds", JInt (si_next_tick_seconds (pd_status d))); ("epoch", JInt (si_epoch (pd_status d)));
   ("epoch_tick", JInt (pd_epoch_tick d)); ("ticks_per_epoch", JInt (pd_ticks_per_epoch d));
   ("witness_ring_active", ring_json (pd_witness_ring_active d));
   ("witness_ring_locked", ring_json (pd_witness_ring_locked d));
   ("witness_tick_records", JArr (tick_json <$> pd_witness_tick_records d));
   ("witness_tick_max", JInt (pd_witness_tick_max d)); ("witness_chain", JObj (pd_witness_chain d));
   ("inbound_connections", JArr (group_json <$> cn_inbound (pd_connection_groups d)));
   ("outbound_connections", JArr (group_json <$> cn_outbound (pd_connection_groups d)));
   ("nodes", JArr (node_json <$> pd_nodes d)); ("seeds", JArr (seed_json <$> pd_seeds d));
   ("my_address", JStr addr); ("my_balance", JInt (pd_my_balance d))].

Definition handle_data_api (timestamp : Z) (md : MinterData) (addr : string) (port : Z) : W bool :=
  d ← gather_page_data timestamp md addr port;
  send_json (data_json d addr) ;;
  mret true.

(** ** Pages *)

Definition DEFAULT_EXPLORER_URL : string := "https://explorer.freewebmovement.com".
Definition protocols_text : string := "tcp, udp, http, ws".

(** The templates, with the fields the handlers fill in. *)
Inductive Template :=
| WalletTemplate (p2p_port : Z) (node_name node_address explorer_url : string) (account : AccountInfo) (status : StatusInfo)
| ChatTemplate (web_port p2p_port : Z) (node_name node_address explorer_url : string) (account : AccountInfo)
    (status : StatusInfo)
| NetworkTemplate (web_port p2p_port : Z) (node_name data_dir : string) (inner_ips external_ips : list string)
    (node_address protocols explorer_url : string) (inbound_connections outbound_connections : list NodeConnectionGroup)
    (status : StatusInfo) (resources : ResourceInfo) (witness_table : WitnessTableInfo)
    (witness_ring_active witness_ring_locked : WitnessRingInfo) (witness_tick_records : list WitnessTickRecordInfo)
    (witness_tick_max : Z) (transactions : TransactionPage) (seeds : list TSeedInfo) (nodes : list TNodeInfo)
| IndexTemplate (web_port p2p_port : Z) (node_name data_dir : string) (inner_ips external_ips : list string)
    (node_address protocols explorer_url : string) (status : StatusInfo) (resources : ResourceInfo).

(** [IndexTemplate::default] *)
Definition index_default (timestamp : Z) : Template :=
  IndexTemplate 8080 9000 "Unknown" "./data" [] [] "N/A" protocols_text DEFAULT_EXPLORER_URL (status_new timestamp 0 0)
    resources_default.

(** [Template::render] of the crate askama *)
Context (render : Template → result string).

Definition send_page (t : Template) : W bool := send_text (unwrap_or "" (render t)) false ;; mret true.

Definition handle_wallet_page (timestamp port : Z) (name addr : string) (md : MinterData) : W bool :=
  d ← gather_page_data timestamp md addr port;
  send_page (WalletTemplate port name addr DEFAULT_EXPLORER_URL (pd_account d) (pd_status d)).
Definition handle_chat_page (timestamp port : Z) (name addr : string) (md : MinterData) : W bool :=
  d ← gather_page_data timestamp md addr port;
  send_page (ChatTemplate port port name addr DEFAULT_EXPLORER_URL (pd_account d) (pd_status d)).
Definition handle_network_page (timestamp port : Z) (name dir addr : string) (md : MinterData) : W bool :=
  d ← gather_page_data timestamp md addr port;
  send_page (NetworkTemplate port port name dir (pd_inner_ips d) (pd_external_ips d) addr protocols_text
    DEFAULT_EXPLORER_URL (cn_inbound (pd_connection_groups d)) (cn_outbound (pd_connection_groups d)) (pd_status d)
    (pd_resources d) (pd_witness_table d) (pd_witness_ring_active d) (pd_witness_ring_locked d)
    (pd_witness_tick_records d) (pd_witness_tick_max d) (pd_transactions d) (pd_seeds d) (pd_nodes d)).
Definition handle_index_page (timestamp port : Z) (name dir addr : string) (md : MinterData) : W bool :=
  d ← gather_page_data timestamp md addr port;
  send_page (IndexTemplate port port name dir (pd_inner_ips d) (pd_external_ips d) addr protocols_text
    DEFAULT_EXPLORER_URL (pd_status d) (pd_resources d)).

(** ** Routing *)

(** The handler a request is for. *)
Inductive Route :=
| RTransfer | RAddress | RListContacts | RAddContact | RDeleteContact | RChatMessages | RConversations
| RGetProfile | RSelfProfile | RSaveProfile | RUploadAvatar | RSendChat | RData | RWallet | RChat | RNetwork | RIndex.

Definition route (is_post : bool) (meta_path : string) : Route :=
  let at_ p := bool_decide (meta_path = p) in
  if is_post && at_ "/api/transfer" then RTransfer
  else if negb is_post && starts_with "/api/address" meta_path then RAddress
  else if negb is_post && at_ "/api/contacts" then RListContacts
  else if is_post && at_ "/api/contacts" then RAddContact
  else if starts_with "/api/contacts" meta_path && contains "?address=" meta_path then RDeleteContact
  else if starts_with "/api/chat_messages" meta_path && contains "?contact=" meta_path then RChatMessages
  else if negb is_post && at_ "/api/conversations" then RConversations
  else if negb is_post && starts_with "/api/profile" meta_path && contains "?address=" meta_path then RGetProfile
  else if negb is_post && at_ "/api/profile" then RSelfProfile
  else if is_post && at_ "/api/profile" then RSaveProfile
  else if is_post && at_ "/api/profile/avatar" then RUploadAvatar
  else if is_post && at_ "/api/send_chat" then RSendChat
  else if negb is_post && at_ "/api/data" then RData
  else if at_ "/wallet" then RWallet
  else if at_ "/chat" then RChat
  else if at_ "/network" then RNetwork
  else RIndex.

(** The slots the application fills, and the arguments of [build_handler]. *)
Context (transfer_slot : option (string → string → string → state App (result string))).
Context (minter_slot : option MinterData).
Context (name dir addr : string) (port : Z).

Definition not_configured (what : string) : string :=
  "{" +:+ String "034" ("success" +:+ String "034" (":false," +:+ String "034" ("error" +:+ String "034" (":" +:+
  String "034" (what +:+ " not configured" +:+ String "034" "}"))))).

Definition with_slot {A} (slot : option A) (what : string) (f : A → W (result bool)) : W (result bool) :=
  match slot with
  | Some a => f a
  | None => send_text (not_configured what) false ;; mret (Ok true)
  end.
Definition infallible (m : W bool) : W (result bool) := b ← m; mret (Ok b).

Definition request_handler (now : Z) (rq : Request) : W (result bool) :=
  let is_post := match rq_meta rq with Some m => hm_post m | None => false end in
  let meta_path := match rq_meta rq with Some m => hm_path m | None => "" end in
  match route is_post meta_path with
  | RTransfer => with_slot transfer_slot "TransferFn" (fun tf => infallible (handle_transfer rq addr tf))
  | RAddress => infallible (handle_address_api meta_path)
  | RListContacts => infallible (handle_list_contacts base_path now addr)
  | RAddContact => infallible (handle_add_contact now rq)
  | RDeleteContact => infallible (handle_delete_contact meta_path)
  | RChatMessages => infallible (handle_get_chat_messages base_path meta_path)
  | RConversations => infallible (handle_get_conversations base_path)
  | RGetProfile => infallible (handle_get_profile base_path now meta_path)
  | RSelfProfile => infallible (handle_get_self_profile base_path now addr)
  | RSaveProfile => infallible (handle_save_profile base_path now rq addr meta_path)
  | RUploadAvatar => infallible (handle_upload_avatar base_path now rq addr meta_path)
  | RSendChat => handle_send_chat base_path now rq addr
  | RData => with_slot minter_slot "MinterData" (fun md => infallible (handle_data_api now md addr port))
  | RWallet => with_slot minter_slot "MinterData" (fun md => infallible (handle_wallet_page now port name addr md))
  | RChat => with_slot minter_slot "MinterData" (fun md => infallible (handle_chat_page now port name addr md))
  | RNetwork => with_slot minter_slot "MinterData" (fun md => infallible (handle_network_page now port name dir addr md))
  | RIndex => with_slot minter_slot "MinterData" (fun md => infallible (handle_index_page now port name dir addr md))
  end.
End pages.

(** ** What requests do *)

Section requests.
Context `{Crates, !FrameCodecs, !WebCrates, !JsonValue, !Chrono, !Machine}.
Context {F TC TB TT TS TR App : Type}.
Context `{!Fs F, !FsLaws F, !Sql TC Contact.Model, !Sql TB Balance.Model, !Sql TT Transaction.Model}.
Context `{!Sql TS WitnessSeed.Model, !Sql TR TickRecord.Model}.
Context `{!Json (list ChatMessage), !Json UserProfile, !JsonLaws UserProfile}.
Abbreviation Wb := (Web F (Db TC TB TT TS TR) App).
Context (base : string) (resources : option ResourceInfo) (account : option AccountInfo).
Context (render : Template → result string).
Context (tf : option (string → string → string → state App (result string))) (md : option MinterData).
Context (name dir addr : string) (port : Z).

(** The handler [build_handler] returns. *)
Definition serve (now : Z) (rq : Request) : state Wb (result bool) :=
  request_handler base resources account render tf md name dir addr port now rq.

Definition get_request (path : string) : Request := mk_request (Some (mk_meta false path None)) None.

Lemma run_infallible (m : state Wb bool) w : infallible m w = (Ok (m w).1, (m w).2).
Proof. unfold infallible. rewrite run_bind. by destruct (m w). Qed.

Lemma load_cached now a p (us : UserStore F) : us_cache us !! a = Some p → load_profile base now a us = (Ok p, us).
Proof. intros E. unfold load_profile. rewrite run_bind. cbn. by rewrite E. Qed.

Lemma save_profile_handler now rq p (w : Wb) :
  json_from_slice (body_of rq) = Ok p → is_Some (up_avatar_path p) →
  exec (handle_save_profile base now rq addr "/api/profile") w =
    exec (send_json success) (set_store (exec (save_profile base addr p) (wb_store w)) w).
Proof.
  intros Ej [path Ep]. unfold handle_save_profile. rewrite Ej, Ep. unfold exec. rewrite run_bind. cbn.
  rewrite run_bind. unfold on_store. rewrite run_on_part. done.
Qed.

Lemma self_profile_handler now p (w : Wb) :
  us_cache (wb_store w) !! addr = Some p →
  wb_sent (exec (handle_get_self_profile base now addr) w) = wb_sent w ++
    [mk_sent (value_to_string (JObj [("success", JBool true);
       ("profile", profile_json (match up_avatar_path p with
          | Some path => match (read_file base addr path (us_fs (wb_store w))).1 with
                         | Ok (Some data) => with_avatar (Some (avatar_data data)) p
                         | _ => p
                         end
          | None => p
          end))])) true].
Proof.
  intros E. unfold handle_get_self_profile, send_profile, profile_or_default, exec. rewrite !run_bind. unfold on_store.
  rewrite run_on_part, (load_cached now addr p) by done. cbn. rewrite run_bind. unfold embed_avatar.
  destruct (up_avatar_path p) as [path|]; [|done]. rewrite run_bind. unfold on_files, on_store. rewrite run_on_part, run_on_fs. done.
Qed.

(** C37. Any file the process can read is served. A profile that is posted may name
    any file as its avatar; once it is saved, the next request for the profile
    is answered with the contents of that file. *)
Theorem any_file_is_served now1 now2 rq p path data (w : Wb) :
  hm_post <$> rq_meta rq = Some true → hm_path <$> rq_meta rq = Some "/api/profile" →
  json_from_slice (body_of rq) = Ok p → up_avatar_path p = Some path → is_absolute path = true →
  (save_profile base addr p (wb_store w)).1 = Ok tt →
  let w1 := exec (serve now1 rq) w in
  (read_file base addr path (us_fs (wb_store w1))).1 = Ok (Some data) →
  fs_files (us_fs (wb_store w1)) !! where_ path = Some data ∧
  wb_sent (exec (serve now2 (get_request "/api/profile")) w1) = wb_sent w1 ++
    [mk_sent (value_to_string (JObj [("success", JBool true);
       ("profile", profile_json (with_avatar (Some (avatar_data data)) p))])) true].
Proof.
  intros Hpost Hpath Ej Ep Habs Hs w1 Hr.
  assert (E1 : w1 = exec (send_json success) (set_store (exec (save_profile base addr p) (wb_store w)) w)).
  { unfold w1, serve, request_handler. destruct (rq_meta rq) as [m|]; [|done]. cbn in Hpost, Hpath.
    injection Hpost as ->. injection Hpath as ->. change (route true "/api/profile") with RSaveProfile. cbn iota.
    unfold exec at 1. rewrite run_infallible. cbn [snd]. apply (save_profile_handler now1 rq p w Ej). by eexists. }
  clearbody w1.
  destruct (save_profile base addr p (wb_store w)) as [r us'] eqn:Es. cbn in Hs. subst r.
  assert (Hst : wb_store w1 = us') by (subst w1; unfold exec; by rewrite Es).
  pose proof (save_profile_effect base addr p (wb_store w) _ _ Es) as (_ & Hc & _).
  split.
  - destruct (read_file base addr path (us_fs (wb_store w1))) as [r s'] eqn:E. cbn in Hr. subst r.
    apply read_file_effect in E as (_ & E & _). rewrite <- (E data eq_refl). unfold file_place, where_.
    by rewrite resolve_join_absolute.
  - unfold serve, request_handler. cbn [rq_meta get_request hm_post hm_path].
    change (route false "/api/profile") with RSelfProfile. cbn iota. unfold exec. rewrite run_infallible. cbn [snd].
    pose proof (self_profile_handler now2 p w1) as E2. unfold exec at 1 in E2. rewrite E2.
    + rewrite Ep. by rewrite Hr.
    + rewrite Hst, Hc. apply lookup_insert_eq.
Qed.

(** ** Routing *)

Lemma route_profile path : route true path = RSaveProfile ∨ route true path = RUploadAvatar → has "?" path = false.
Proof.
  unfold route. cbn [negb andb].
  repeat match goal with
         | |- context [if bool_decide (path = ?p) then _ else _] =>
             destruct (bool_decide_reflect (path = p)) as [->|_]; [first [reflexivity|by intros []]|]
         | |- context [if ?b then _ else _] => destruct b; [by intros []|]
         end.
  by intros [].
Qed.

Lemma param_needs_query path key : has "?" path = false → get_query_param path key = None.
Proof. intros Hq. unfold get_query_param. by rewrite split_none. Qed.

Lemma contains_app p a b : contains p b = true → contains p (a +:+ b) = true.
Proof.
  rewrite !contains_spec. intros (x & y & ->). exists (a +:+ x), y. by rewrite !string_app_assoc.
Qed.

Lemma route_delete is_post q : contains "?address=" q = true → route is_post ("/api/contacts" +:+ q) = RDeleteContact.
Proof.
  intros Hq. assert (Hne : ∀ p, contains "?address=" p = false → bool_decide ("/api/contacts" +:+ q = p) = false).
  { intros p Hp. apply bool_decide_false. intros E. apply (contains_app _ "/api/contacts") in Hq. rewrite E in Hq. congruence. }
  unfold route. cbv beta zeta. rewrite !Hne by reflexivity. rewrite !andb_false_r, starts_with_app, (contains_app _ "/api/contacts") by done.
  reflexivity.
Qed.

(** What the routes make of a request. A contact is deleted by any
    request, one that only reads included, whose path is that of the contacts
    with an address; the profile and the avatar that a request stores are
    always the node's own: the parameter their handlers look for is in no path
    that is routed to them. *)
Theorem requests_routed :
  (∀ now rq q (w : Wb), hm_path <$> rq_meta rq = Some ("/api/contacts" +:+ q) → contains "?address=" q = true →
     let w' := exec (serve now rq) w in
     let a := decoded_param ("/api/contacts" +:+ q) "address" in
     db_contacts (wb_db w') = exec (Contact.delete a) (db_contacts (wb_db w)) ∧
     wb_sent w' = wb_sent w ++ [mk_sent (value_to_string
       (match eval (Contact.delete a) (db_contacts (wb_db w)) with Ok _ => success | Err e => failure e end)) true]) ∧
  (∀ path key, route true path = RSaveProfile ∨ route true path = RUploadAvatar → get_query_param path key = None).
Proof.
  split.
  - intros now rq q w Hp Hq w' a. unfold w', serve, request_handler. destruct (rq_meta rq) as [m|]; [|done].
    cbn in Hp. injection Hp as ->. rewrite route_delete by done. cbn iota. unfold exec at 1 3. rewrite run_infallible. cbn [snd].
    unfold handle_delete_contact. fold a. rewrite run_bind. unfold on_db. rewrite run_on_part. cbn.
    unfold on_contacts, exec, eval. by destruct (Contact.delete a (db_contacts (wb_db w))).
  - intros path key Hr. by apply param_needs_query, route_profile.
Qed.
End requests.
