(* ===== verification/Cli.v ===== *)
(** * The command line

    src/src/cli.rs and src/src/clis/: the loop that reads commands and the
    commands. What is printed is a list of lines. *)

From S2P Require Import Prelude Text Utf8 NetAddr External Command NodeRegistry Seeds World Frame Message Handshake P2PNode.
From Stdlib Require Import Ascii.
Open Scope Z_scope.
Open Scope stdpp_scope.

(** More of the connection manager of the crate aex: the entries [notify]
    hands to its callback for a node, [get_all_entries], and the buckets -
    address, scope, how many connections were accepted and dialled. *)
Class ManagerView `{Crates} : Type := {
  mgr_notified : Manager → bytes → list (ConnectionEntry AexNode);
  mgr_all_entries : Manager → list SocketAddr;
  mgr_buckets : Manager → list (IpAddr * NetworkScope * Z * Z);
}.

(** The counts [status], [peers] and [info] print. *)
Record Counts := mk_counts {
  co_ips : Z;
  co_intranet : Z;
  co_extranet : Z;
  co_clients : Z;
  co_servers : Z;
}.
Definition count_bucket (c : Counts) (b : IpAddr * NetworkScope * Z * Z) : Counts :=
  let '(ip, scope, clients, servers) := b in
  if negb (is_public_ip ip) then c
  else mk_counts (co_ips c + 1)
         (co_intranet c + match scope with Intranet => clients + servers | Extranet => 0 end)
         (co_extranet c + match scope with Intranet => 0 | Extranet => clients + servers end)
         (co_clients c + clients) (co_servers c + servers).
Definition count_buckets (l : list (IpAddr * NetworkScope * Z * Z)) : Counts := foldl count_bucket (mk_counts 0 0 0 0 0) l.

(** [{: <n}] *)
Fixpoint spaces (n : nat) : string := match n with O => "" | S n' => String " " (spaces n') end.
Definition pad_right (n : nat) (s : string) : string := s +:+ spaces (n - String.length s).

(** The seeds option of the command line: [split(',')], each trimmed and parsed,
    those that are no address left out. A text that parses has no white
    space, so that its trimmed form is its only word. *)
Definition parse_seeds (seeds : string) : list SocketAddr :=
  omap (fun s => match split_whitespace s with [w] => parse_sock w | _ => None end) (split "," seeds).

Section cli.
Context `{Crates, !FrameCodecs, !HandshakeCodecs, !ManagerView}.

(** [tc_address] is what [IOStorage] reads under the key "address": the outer
    [None] when the slot is not there. *)
Record Term := mk_term {
  tc_world : World;
  tc_address : option (option string);
  tc_next_id : Z;
  tc_out : list string;
}.
Definition println (s : string) : state Term unit :=
  modify (fun t => mk_term (tc_world t) (tc_address t) (tc_next_id t) (tc_out t ++ [s])).
Definition on_net {A} (m : M A) : state Term A := fun t =>
  let '(a, w) := m (tc_world t) in (a, mk_term w (tc_address t) (tc_next_id t) (tc_out t)).
Definition draw_request_id : state Term Z := fun t =>
  let '(id, n) := next_request_id (tc_next_id t) in (id, mk_term (tc_world t) (tc_address t) n (tc_out t)).

(** clis/help.rs *)
Definition help : state Term unit :=
  println "Commands:" ;;
  println " send <address> <message>   - send text message" ;;
  println " connect <ip> <port>        - connect to a new node" ;;
  println " status                     - show node status" ;;
  println " exit                       - exit program".

(** clis/send.rs: the second word is the message; a connection without a
    context is a panic. *)
Definition send (args : list string) : state Term (result unit) :=
  match args with
  | receiver :: msg :: _ =>
      request_id ← draw_request_id;
      address ← on_net (get_g g_address);
      let sender := default "" (addr_to_string <$> address) in
      m ← on_net (get_g g_manager);
      match mgr_notified m (as_bytes receiver) with
      | entry :: _ =>
          match entry_ctx entry with
          | Some c => on_net (send_text_message sender receiver request_id c msg) ;; mret (Ok tt)
          | None => mret (Err "Context missing")
          end
      | [] => mret (Ok tt)
      end
  | _ => println "Usage: send <address> <message>" ;; mret (Ok tt)
  end.

(** [String::from_utf8(local_node.id).unwrap_or_default()], registered with the
    address that is dialled. *)
Definition register_dialled (addr : SocketAddr) : M unit :=
  r ← get_registry;
  match r with
  | Some _ =>
      local ← get_g g_local_node;
      reg_register (default "" (from_utf8 (an_id local))) addr
  | None => mret tt
  end.

(** The callback of both dialling commands: the node announces itself. It panics
    without session keys, and in [connect] when sending fails; what it prints
    there is left out. *)
Definition announce_self (c : ctx_id) : M unit :=
  created ← use_psk (fun p => psk_create p false);
  match created with
  | None => mret tt
  | Some (id, key) =>
      node ← get_g g_local_node;
      seeds ← all_seeds_command;
      let '(intranet_ips, wan_ips) := local_ips node in
      send_ c (Some (mk_online id node key intranet_ips wan_ips (Some seeds))) Node OnLine false
  end.

(** clis/connect.rs *)
Definition connect_cmd (args : list string) : state Term unit :=
  match args with
  | ip :: port :: _ =>
      let addr_str := ip +:+ ":" +:+ port in
      match parse_sock addr_str with
      | Some addr =>
          on_net (register_dialled addr) ;;
          r ← on_net (dial addr announce_self);
          match r with
          | Ok _ => println "Connection attempt started..."
          | Err e => println ("Failed to connect: " +:+ e)
          end
      | None => println ("Invalid address: " +:+ addr_str)
      end
  | _ => println "Usage: connect <ip> <port>"
  end.

(** clis/status.rs *)
Definition status : state Term unit :=
  address ← gets tc_address;
  match address with
  | None => println "Error: IOStorage not found in context"
  | Some a =>
      println match a with
              | Some addr => "Node address: " +:+ addr
              | None => "Error: Failed to read or generate node address"
              end ;;
      m ← on_net (get_g g_manager);
      let c := count_buckets (mgr_buckets m) in
      println "┏━━━━━━━━━━━━━━━━ AEX Connection Profile ━━━━━━━━━━━━━━━┓" ;;
      println ("┃  Nodes (IPs):      " +:+ pad_right 40 (show_u (co_ips c)) +:+ " ┃") ;;
      println ("┃  Total Conns:      " +:+ pad_right 40 (show_u (co_clients c + co_servers c)) +:+ " ┃") ;;
      println "┠──────────────────────────────────────────────────────┨" ;;
      println ("┃  Direction:        Inbound: " +:+ pad_right 10 (show_u (co_clients c)) +:+ " Outbound: " +:+
               pad_right 10 (show_u (co_servers c)) +:+ " ┃") ;;
      println ("┃  Network Scope:    Intra:   " +:+ pad_right 10 (show_u (co_intranet c)) +:+ " Extra:    " +:+
               pad_right 10 (show_u (co_extranet c)) +:+ " ┃") ;;
      println "┗━━━━━━━━━━━━━━━━━━━━━━━━━━━━━━━━━━━━━━━━━━━━━━━━━━━━━━┛"
  end.

(** clis/peers.rs *)
Definition peers : state Term unit :=
  m ← on_net (get_g g_manager);
  let c := count_buckets (mgr_buckets m) in
  println "=== Connection Status ===" ;;
  println ("Intranet connections: " +:+ show_u (co_intranet c)) ;;
  println ("Extranet connections: " +:+ show_u (co_extranet c)) ;;
  println ("Inbound (clients): " +:+ show_u (co_clients c)) ;;
  println ("Outbound (servers): " +:+ show_u (co_servers c)).

(** clis/info.rs *)
Definition info (args : list string) : state Term unit :=
  let verbose := existsb (fun a => bool_decide (a = "-v") || bool_decide (a = "--verbose")) args in
  address ← gets tc_address;
  match address with
  | None => println "Error: IOStorage not found in context"
  | Some None => println "Error: Failed to read address"
  | Some (Some addr) =>
      println "=== Node Information ===" ;;
      println ("Address: " +:+ addr) ;;
      local ← on_net (get_g g_addr);
      println ("Local: " +:+ sock_to_string local) ;;
      if verbose then
        m ← on_net (get_g g_manager);
        let c := count_buckets (mgr_buckets m) in
        println ("Total connections: " +:+ show_u (co_clients c + co_servers c)) ;;
        println ("Inbound (clients): " +:+ show_u (co_clients c)) ;;
        println ("Outbound (servers): " +:+ show_u (co_servers c))
      else mret tt
  end.

(** ** clis/sync.rs *)

Definition SYNC_ROUNDS_PER_TICK : nat := 3.

(** What the node does besides at each wait. *)
Context (others : M unit).

Definition is_connected_to (m : Manager) (addr : SocketAddr) : bool :=
  bool_decide (addr ∈ filter_entries (mgr_all_entries m)).
Definition get_connected_seeds (m : Manager) : list string :=
  sort_strings (sock_to_string <$> filter_entries (mgr_all_entries m)).

(** The task of one address; that the answers of the peer are then read is
    part of [others]. *)
Definition connect_to_peer_sync (addr : SocketAddr) : M unit :=
  register_dialled addr ;;
  m ← get_g g_manager;
  let '(r, m') := mgr_connect m addr 5 in
  mod_g (set_g_manager m') ;;
  match r with
  | Ok c => announce_self c ;; others
  | Err _ => mret tt
  end.

(** The tasks of a round, for the addresses not connected when it begins, one
    after the other. *)
Fixpoint connect_all (l : list SocketAddr) : M unit :=
  match l with
  | [] => mret tt
  | addr :: l' => connect_to_peer_sync addr ;; connect_all l'
  end.
Definition connect_missing (target_addrs : list SocketAddr) : M unit :=
  m ← get_g g_manager;
  connect_all (List.filter (fun a => negb (is_connected_to m a)) target_addrs).

(** How a round ends: the hash and the count carried on, or the number of
    peers when the hash has been stable. *)
Definition judge_round (prev_hash : bytes) (stable_count : Z) (current : list string) : (bytes * Z) + Z :=
  let new_hash := compute_witness_hash current in
  if bool_decide (new_hash = prev_hash) && negb (bool_decide (current = [])) then
    if 2 <=? stable_count + 1 then inr (Z.of_nat (length current)) else inl (new_hash, stable_count + 1)
  else inl (new_hash, 0).

(** [{:?}] of bytes, and of texts without characters to escape *)
Definition debug_bytes (b : bytes) : string := "[" +:+ join_comma ((fun x => show_u (Z_of_byte x)) <$> b) +:+ "]".
Definition debug_strings (l : list string) : string :=
  "[" +:+ join_comma ((fun s => String "034" s +:+ String "034" "") <$> l) +:+ "]".

(** The rounds that are left. *)
Fixpoint sync_rounds (left : nat) (round : Z) (target_addrs : list SocketAddr) (prev_hash : bytes) (stable_count : Z) :
    state Term unit :=
  match left with
  | O => m ← on_net (get_g g_manager); println ("⚠️ Final: " +:+ debug_strings (get_connected_seeds m))
  | S left' =>
      on_net (connect_missing target_addrs ;; others) ;;
      m ← on_net (get_g g_manager);
      let current_seeds := get_connected_seeds m in
      let connected := show_u (Z.of_nat (length current_seeds)) +:+ " connected" in
      println ("  📊 Round " +:+ show_u (round + 1) +:+ ": " +:+ connected +:+ ", hash=" +:+
               debug_bytes (take 8 (compute_witness_hash current_seeds))) ;;
      match judge_round prev_hash stable_count current_seeds with
      | inr n => println ("✅ Sync complete: " +:+ show_u n +:+ " connected")
      | inl (new_hash, stable) => sync_rounds left' (round + 1) target_addrs new_hash stable
      end
  end.

Definition sync (args : list string) : state Term unit :=
  m ← on_net (get_g g_manager);
  let target_addrs := match args with [] => filter_entries (mgr_all_entries m) | _ => omap parse_sock args end in
  match target_addrs with
  | [] =>
      println "Usage: sync [<ip>:<port> ...]" ;;
      println "  Without args: sync with all connected peers" ;;
      println "  With args: sync with specified peers"
  | _ =>
      println ("🔄 Sync start: " +:+ show_u (Z.of_nat (length target_addrs)) +:+ " seeds") ;;
      sync_rounds SYNC_ROUNDS_PER_TICK 0 target_addrs zero_key 0
  end.

(** ** cli.rs *)

Definition infallible_cmd (m : state Term unit) : state Term (result unit) := m ;; mret (Ok tt).

(** [register_builtins]: the handler of a name. *)
Definition builtin (name : string) : option (list string → state Term (result unit)) :=
  if decide (name = "send") then Some send
  else if decide (name = "connect") then Some (fun args => infallible_cmd (connect_cmd args))
  else if decide (name = "status") then Some (fun _ => infallible_cmd status)
  else if decide (name = "help") then Some (fun _ => infallible_cmd help)
  else if decide (name = "peers") then Some (fun _ => infallible_cmd peers)
  else if decide (name = "info") then Some (fun args => infallible_cmd (info args))
  else if decide (name = "sync") then Some (fun args => infallible_cmd (sync args))
  else None.

(** The loop over [next_line]: a line of white space is skipped; its words are
    those of the trimmed line. *)
Fixpoint run_lines (lines : list (result string)) : state Term (result unit) :=
  match lines with
  | [] => mret (Ok tt)
  | Err e :: _ => mret (Err e)
  | Ok line :: rest =>
      match split_whitespace line with
      | [] => run_lines rest
      | command_name :: parts =>
          if decide (command_name = "exit") then println "Exiting..." ;; mret (Ok tt)
          else
            match builtin command_name with
            | Some handler => _ ←? handler parts; run_lines rest
            | None =>
                println ("Unknown command: '" +:+ command_name +:+ "', type 'help' for help") ;;
                run_lines rest
            end
      end
  end.
Definition run (lines : list (result string)) : state Term (result unit) :=
  println "Type 'help' for commands." ;; run_lines lines.
End cli.

(** ** Properties *)

Section properties.
Context `{Crates, !FrameCodecs, !HandshakeCodecs, !ManagerView}.
Context (others : M unit).

Definition is_exit (line : string) : Prop := ∃ args, split_whitespace line = "exit" :: args.

(** The loop ends at [exit]: nothing that stands after it is read. White space
    and unknown names change nothing but what is printed, and for a name that
    is a command the rest of the words are its arguments. *)
Theorem command_loop lines line rest t :
  (is_exit line → run_lines others (lines ++ Ok line :: rest) t = run_lines others (lines ++ [Ok line]) t) ∧
  (split_whitespace line = [] → run_lines others (Ok line :: rest) t = run_lines others rest t) ∧
  (∀ name args, split_whitespace line = name :: args → name ≠ "exit" → builtin others name = None →
     ∃ out, run_lines others (Ok line :: rest) t =
       run_lines others rest (mk_term (tc_world t) (tc_address t) (tc_next_id t) (tc_out t ++ [out]))) ∧
  (∀ name args f r t', split_whitespace line = name :: args → builtin others name = Some f → f args t = (r, t') →
     run_lines others (Ok line :: rest) t = match r with Ok _ => run_lines others rest t' | Err e => (Err e, t') end).
Proof.
  split_and!.
  - intros (args & Hx). revert t. induction lines as [|l lines IH]; intros t; cbn [app run_lines].
    + rewrite Hx. done.
    + destruct l as [l|e]; [|done]. destruct (split_whitespace l) as [|c parts]; [apply IH|].
      case_decide; [done|]. destruct (builtin others c) as [h|].
      * rewrite !run_try_bind. destruct (h parts t) as [[u|e] t1]; [apply IH|done].
      * rewrite !run_bind. apply IH.
  - intros Hx. cbn [run_lines]. by rewrite Hx.
  - intros name args Hx Hne Hb. cbn [run_lines]. rewrite Hx, decide_False, Hb by done. rewrite run_bind. eexists. done.
  - intros name args f r t' Hx Hb Hf. cbn [run_lines]. rewrite Hx. rewrite decide_False.
    + rewrite Hb, run_try_bind, Hf. by destruct r.
    + intros ->. by vm_compute in Hb.
Qed.

(** A sync never ends before its last round: the count has to reach two, and
    the first round is compared with a hash of zeros. When it ends, the hash
    of the addresses connected was the same in all three rounds, and some
    are connected. *)
Theorem sync_needs_all_rounds c1 c2 c3 h1 h2 s1 s2 n :
  compute_witness_hash c1 ≠ zero_key →
  judge_round zero_key 0 c1 = inl (h1, s1) → judge_round h1 s1 c2 = inl (h2, s2) → judge_round h2 s2 c3 = inr n →
  compute_witness_hash c1 = compute_witness_hash c2 ∧ compute_witness_hash c2 = compute_witness_hash c3 ∧
  c2 ≠ [] ∧ c3 ≠ [] ∧ n = Z.of_nat (length c3) ∧
  (∀ m, judge_round zero_key 0 c1 ≠ inr m) ∧ (∀ m, judge_round h1 s1 c2 ≠ inr m).
Proof.
  intros Hz. unfold judge_round. rewrite (bool_decide_false (compute_witness_hash c1 = zero_key)) by done. cbn.
  intros [= <- <-]. cbn.
  destruct (bool_decide_reflect (compute_witness_hash c2 = compute_witness_hash c1)) as [E2|E2]; cbn;
    [|intros [= <- <-]; destruct (bool_decide _ && _); cbn; done].
  destruct (bool_decide_reflect (c2 = [])) as [|Hc2]; cbn; [intros [= <- <-]; destruct (bool_decide _ && _); cbn; done|].
  intros [= <- <-]. destruct (bool_decide_reflect (compute_witness_hash c3 = compute_witness_hash c2)) as [E3|E3]; cbn; [|done].
  destruct (bool_decide_reflect (c3 = [])) as [|Hc3]; cbn; [done|]. intros [= <-]. split_and!; try congruence; intros m; discriminate.
Qed.

(** Dialling an address files it among the node's own seeds, not those of the
    peer. *)
Theorem dialled_is_own_seed addr w n r :
  g_node (w_g w) = Some n → from_utf8 (an_id (g_local_node (w_g w))) = Some r →
  ∃ n', g_node (w_g (exec (register_dialled addr) w)) = Some n' ∧
        has_seed (pn_registry n') r addr ∧
        ∀ a, a ≠ r → pn_registry n' !! a = pn_registry n !! a.
Proof.
  intros Hn Hr. unfold register_dialled, get_registry, exec. rewrite run_bind. cbn. rewrite Hn. cbn.
  rewrite run_bind. cbn. rewrite Hr. unfold reg_register. rewrite run_bind. cbn. rewrite Hn. cbn. eexists. split; [done|]. cbn.
  unfold register. split.
  - eexists. split; [apply lookup_insert_eq|]. cbn. unfold insert_direction. rewrite lookup_insert_eq. by eexists.
  - intros a Ha. by apply lookup_insert_ne.
Qed.

(** Of a message with several words the first is sent. *)
Example send_first_word receiver msg rest : send (receiver :: msg :: rest) = send [receiver; msg].
Proof. reflexivity. Qed.
End properties.
