(* ===== verification/Entries.v ===== *)
(** * The entries of the connection manager

    What the sources rely on of the manager of aex - an entry that was added
    is there until its address is removed, and carries the node it was last
    given - and that every handler and every spawned task but the announcement
    that a peer goes offline leaves the entries of the connections the node
    accepted where they are. *)

From S2P Require Import Prelude NetAddr External Command NodeRegistry Seeds World Frame Evolution Message.
From S2P Require Import Handshake SeedSync Tick NodeSync Router.
Open Scope Z_scope.
Open Scope stdpp_scope.

(** [manager.add(addr, abort_handle, token, is_client, Some(ctx))] *)
Class ServerManager `{Aex} : Type := mgr_add : Manager → SocketAddr → bool → ctx_id → Manager.

(** The entry of an accepted connection: the sources look for it under the
    scope of its address, among the clients. *)
Definition client `{Aex} (m : Manager) (a : SocketAddr) : option (ConnectionEntry AexNode) :=
  mgr_get m (sock_ip a) (scope_from_ip (sock_ip a)) Clients a.

Definition with_node_info {N} (n : N) (e : ConnectionEntry N) : ConnectionEntry N :=
  mk_entry (entry_addr e) (entry_ctx e) (Some n).

(** The documented behaviour of the manager, as far as clients go. *)
Class ManagerLaws `{ServerManager} : Prop := {
  client_add m a c : ∃ n, client (mgr_add m a true c) a = Some (mk_entry a (Some c) n);
  client_add_other m a b c : b ≠ a → client (mgr_add m a true c) b = client m b;
  client_update m a n :
    client (mgr_update_node m (sock_ip a) (scope_from_ip (sock_ip a)) Clients a n) a = with_node_info n <$> client m a;
  client_update_other m side a b n : side ≠ Clients ∨ b ≠ a →
    client (mgr_update_node m (sock_ip b) (scope_from_ip (sock_ip b)) side b n) a = client m a;
  client_mark m a b s : client (mgr_mark_active m b s) a = client m a;
  client_connect m a b secs : client (mgr_connect m b secs).2 a = client m a;
  client_remove_other m a b s : a ≠ b → client (mgr_remove m b s) a = client m a;
}.

Section entries.
Context `{Crates, !WireCodecs, !ServerManager, !ManagerLaws}.

(** The entry of [a] is the one of connection [c]. *)
Definition served (a : SocketAddr) (c : ctx_id) (w : World) : Prop :=
  ∃ n, client (g_manager (w_g w)) a = Some (mk_entry a (Some c) n).

(** The entries of all addresses in [P] stay. *)
Definition kept (P : SocketAddr → Prop) (w w' : World) : Prop := ∀ a c, P a → served a c w → served a c w'.
#[global] Instance kept_preorder P : PreOrder (kept P).
Proof. split; [by intros w a c|]. intros x y z Hxy Hyz a c Ha Hs. by apply Hyz, Hxy. Qed.

Lemma kept_same P w w' : g_manager (w_g w') = g_manager (w_g w) → kept P w w'.
Proof. intros E a c _ [n Hn]. exists n. by rewrite E. Qed.

(** Whatever does not touch the manager. *)
Definition same_manager : relation World := fun w w' => g_manager (w_g w') = g_manager (w_g w).
#[global] Instance same_manager_preorder : PreOrder same_manager.
Proof. split; [done|]. intros x y z E1 E2. unfold same_manager in *. congruence. Qed.

Lemma same_io {A} (m : M A) : respects io_step m → respects same_manager m.
Proof. intros Hm w. pose proof (io_g _ _ _ (Hm w)) as Hg. by apply (f_equal g_manager) in Hg. Qed.
Lemma same_mod_g f : (∀ g, g_manager (f g) = g_manager g) → respects same_manager (mod_g f).
Proof. intros Hf w. apply Hf. Qed.
Lemma same_with_registry f : respects same_manager (with_registry f).
Proof. intros w. unfold with_registry, exec, same_manager. cbn. by destruct (g_node (w_g w)). Qed.
Lemma same_ctx_set_peer c p : respects same_manager (ctx_set_peer c p).
Proof. by intros w. Qed.
Lemma same_spawn t : respects same_manager (spawn t).
Proof. by intros w. Qed.
Lemma same_publish e : respects same_manager (publish e).
Proof. by intros w. Qed.
Lemma same_confirm n : respects same_manager (confirm n).
Proof. by intros w. Qed.
Lemma same_mod_process f : respects same_manager (mod_process f).
Proof. by intros w. Qed.

Lemma respects_same {A} P (m : M A) : respects same_manager m → respects (kept P) m.
Proof. intros Hm w. apply kept_same, Hm. Qed.

(** A step of the manager, and what follows. *)
Lemma kept_manager {A} P (f : Manager → Manager) (k : Manager → M A) :
  (∀ m a, P a → client (f m) a = client m a ∨ ∃ n, client (f m) a = with_node_info n <$> client m a) →
  (∀ m, respects (kept P) (k m)) →
  respects (kept P) (m ← get_g g_manager; mod_g (set_g_manager (f m)) ;; k m).
Proof.
  intros Hf Hk w. rewrite !exec_bind. cbv beta. change (exec (get_g g_manager) w) with w.
  change (eval (get_g g_manager) w) with (g_manager (w_g w)). etrans; [|apply Hk].
  intros a c Ha [n Hn]. unfold served, exec. cbn. destruct (Hf (g_manager (w_g w)) a Ha) as [E|[n' E]]; rewrite E.
  - by exists n.
  - rewrite Hn. by exists (Some n').
Qed.
End entries.

(** Definitions are opened as they are met. *)
Ltac head_of t := lazymatch t with ?f _ => head_of f | _ => t end.
#[export] Hint Resolve same_with_registry same_ctx_set_peer same_spawn same_publish same_confirm same_mod_process : respects.
#[export] Hint Extern 1 (respects same_manager (mod_g _)) => (apply same_mod_g; intros ?; cbn; by repeat case_match) : respects.
#[export] Hint Extern 5 (respects same_manager _) => (apply same_io; solve [eauto with respects]) : respects.
#[export] Hint Extern 6 (respects (kept _) _) => (apply respects_same; solve [eauto with respects]) : respects.
Ltac opened := respects_tac; try (match goal with |- respects _ ?m => let h := head_of m in unfold h end; opened).

(** The manager is read, stepped and used. *)
Ltac kept_tac :=
  repeat first
    [ progress intros
    | solve [eauto with respects]
    | match goal with
      | |- respects (kept ?P) (mbind (fun m => mbind (fun _ => @?k m) (mod_g (set_g_manager (@?f m)))) (get_g g_manager)) =>
          apply (kept_manager P f k)
      | |- respects _ (mbind _ _) => apply respects_bind; [apply _| |]
      | |- respects _ (mret _) => apply respects_ret, _
      | |- respects _ (for_each _ _) => apply respects_for_each; [apply _|]
      | |- respects _ (match ?x with _ => _ end) => destruct x
      end
    | apply respects_same; solve [opened] ].

Section handlers.
Context `{Crates, !WireCodecs, !ServerManager, !ManagerLaws}.

Lemma same_seed_count : respects same_manager seed_count.
Proof. opened. Qed.
Lemma same_connect_seed c s : respects same_manager (connect_seed c s).
Proof. opened. Qed.
Lemma same_online_reply c f o b : respects same_manager (online_reply c f o b).
Proof. opened. Qed.
End handlers.

Section steps.
Context `{Crates, !WireCodecs, !ServerManager, !ManagerLaws}.

Lemma kept_store_peer_node P c sides n : respects (kept P) (store_peer_node c sides n).
Proof.
  induction sides as [|side sides IH]; cbn [store_peer_node]; [respects_tac|].
  apply respects_bind; [apply _|respects_tac|]. intros b w. rewrite exec_bind. cbv beta.
  change (exec (get_g g_manager) w) with w. change (eval (get_g g_manager) w) with (g_manager (w_g w)). cbv zeta.
  destruct (mgr_get _ _ _ side b) as [e|]; [|apply IH].
  intros a k _ [x Hx]. unfold served, exec. cbn. destruct side; [destruct (decide (a = b)) as [->|Hne]|].
  - rewrite client_update, Hx. by eexists.
  - rewrite client_update_other; [by exists x|by right].
  - rewrite client_update_other; [by exists x|by left].
Qed.

Lemma kept_connect_and_announce P a cmd : respects (kept P) (connect_and_announce a cmd).
Proof.
  unfold connect_and_announce. intros w. rewrite exec_bind. cbv beta.
  change (exec (get_g g_manager) w) with w. change (eval (get_g g_manager) w) with (g_manager (w_g w)).
  pose proof (client_connect (g_manager (w_g w))) as Hc. specialize (Hc) with (b := a) (secs := 10).
  destruct (mgr_connect _ a 10) as [r m']. cbn in Hc. rewrite exec_bind. cbv beta.
  etrans; [|assert (Hr : respects (kept P) (match r with Ok c => send_ c (Some cmd) Node OnLine false ;; mret (Ok tt) | Err e => mret (Err e) end)) by respects_tac; apply Hr].
  intros b k _ [x Hx]. exists x. unfold exec. cbn. by rewrite Hc.
Qed.
#[local] Hint Resolve kept_store_peer_node kept_connect_and_announce : respects.

Lemma kept_onlineack_handler P c f cmd : respects (kept P) (onlineack_handler c f cmd).
Proof.
  unfold onlineack_handler. kept_tac. left. apply client_mark.
Qed.
Lemma kept_online_handler P c f cmd : respects (kept P) (online_handler c f cmd).
Proof.
  unfold online_handler, online_handshake, online_gossip. kept_tac.
Qed.
Lemma kept_connect_to_new_peer P a : respects (kept P) (connect_to_new_peer a).
Proof. unfold connect_to_new_peer. kept_tac. Qed.
#[local] Hint Resolve kept_connect_to_new_peer kept_online_handler kept_onlineack_handler io_run_ack_direct
  io_run_ack_broadcast : respects.
Lemma kept_run_task P t : respects (kept P) (run_task t).
Proof.
  destruct t; cbn [run_task]; unfold run_connect, run_return_connect; kept_tac.
Qed.
Lemma kept_run_handler P h c f cmd : h ≠ HOffline → respects (kept P) (run_handler h c f cmd).
Proof. intros Hh. destruct h; cbn [run_handler]; try done; kept_tac. Qed.

(** The announcement that the peer goes offline removes its own entry. *)
Lemma kept_offline_handler P c f cmd w :
  ¬ P (ctx_addr (w_ctx w c)) → kept P w (exec (offline_handler c f cmd) w).
Proof.
  intros Hc. unfold offline_handler. rewrite !exec_bind. cbv beta. intros a k Ha [n Hn]. exists n.
  unfold exec, eval. cbn. rewrite client_remove_other; [done|]. intros ->. by apply Hc.
Qed.

(** Frames on any connection: the entries of all other addresses stay, its
    own unless its peer goes offline. *)
Lemma kept_dispatch P c f cmd w :
  (cmd_entity cmd, cmd_action cmd) ≠ (Node, OffLine) ∨ ¬ P (ctx_addr (w_ctx w c)) →
  kept P w (exec (dispatch c f cmd) w).
Proof.
  intros Hcmd. unfold dispatch, extract_p2p_cmd_id. destruct (handler_for _) as [h|] eqn:E; [|reflexivity].
  apply handler_for_known in E. destruct (decide (h = HOffline)) as [->|Hne]; [|by apply kept_run_handler].
  destruct Hcmd as [Hcmd|Hcmd]; [by rewrite <- E in Hcmd|]. by apply kept_offline_handler.
Qed.

(** Of the parts of the handshake only [store_peer_node] touches the
    manager. *)
Lemma handshake_manager c f online w :
  ∃ w2, g_manager (w_g w2) = g_manager (w_g w) ∧ ctx_addr (w_ctx w2 c) = ctx_addr (w_ctx w c) ∧
    g_manager (w_g (exec (online_handshake c f online) w)) =
    g_manager (w_g (exec (store_peer_node c [Clients; Servers] (on_node online)) w2)).
Proof.
  unfold online_handshake. rewrite !exec_bind. cbv beta. set (w1 := exec (online_admit _ _ _) w).
  exists (exec (ctx_set_peer c (fb_address (pf_body f))) w1). split_and!.
  - assert (Hr : respects same_manager (online_admit c f online)) by opened. apply Hr.
  - unfold ctx_set_peer, mod_ctx, exec. cbn. rewrite fn_lookup_insert.
    by destruct (wl_ctx _ _ (world_online_admit c f online w) c) as [A _].
  - assert (Hr : respects same_manager (online_reply c f online (eval (online_admit c f online) w))) by opened.
    apply Hr.
Qed.

Lemma exec_store_peer_node c side sides n w :
  exec (store_peer_node c (side :: sides) n) w =
  let a := ctx_addr (w_ctx w c) in
  match mgr_get (g_manager (w_g w)) (sock_ip a) (scope_from_ip (sock_ip a)) side a with
  | Some _ => set_w_g (set_g_manager (mgr_update_node (g_manager (w_g w)) (sock_ip a) (scope_from_ip (sock_ip a)) side a n) (w_g w)) w
  | None => exec (store_peer_node c sides n) w
  end.
Proof.
  cbn [store_peer_node]. rewrite !exec_bind. cbv beta zeta.
  change (eval (get_ctx c ctx_addr) w) with (ctx_addr (w_ctx w c)).
  change (eval (get_g g_manager) (exec (get_ctx c ctx_addr) w)) with (g_manager (w_g w)). by destruct (mgr_get _ _ _ _ _).
Qed.

(** A handshake on the connection of an entry leaves the announced node
    there. *)
Lemma handshake_stores a c f online w :
  ctx_addr (w_ctx w c) = a → served a c w →
  client (g_manager (w_g (exec (online_handshake c f online) w))) a = Some (mk_entry a (Some c) (Some (on_node online))).
Proof.
  intros Ha [n Hn]. destruct (handshake_manager c f online w) as (w2 & Em & Ec & ->).
  rewrite exec_store_peer_node, Ec, Ha, Em. unfold client in Hn. cbv zeta. rewrite Hn. cbn.
  rewrite client_update. unfold client. by rewrite Hn.
Qed.

(** A handshake that comes before the entry leaves no trace of the announced
    node in the manager. *)
Lemma handshake_lost c f online w :
  let a := ctx_addr (w_ctx w c) in
  client (g_manager (w_g w)) a = None → mgr_get (g_manager (w_g w)) (sock_ip a) (scope_from_ip (sock_ip a)) Servers a = None →
  g_manager (w_g (exec (online_handshake c f online) w)) = g_manager (w_g w).
Proof.
  intros a Hc Hs. unfold a, client in *. destruct (handshake_manager c f online w) as (w2 & Em & Ec & ->).
  rewrite !exec_store_peer_node. cbv zeta. by rewrite Ec, Em, Hc, Hs.
Qed.
End steps.
