(* ===== verification/Serve.v ===== *)
(** * Serving

    start and start_with_web of src/src/node.rs. What the server of aex calls
    for every connection it accepts spawns the task that reads its frames,
    files the connection in the manager, and only then lets that task go on,
    by a channel the task waits at; several connections are accepted, frames
    handled and tasks run in any order, by several threads. Also the routes of
    the web server, and the order in which start runs the server and the
    command line. *)

From S2P Require Import Prelude NetAddr External Command NodeRegistry Seeds World Frame Evolution Message.
From S2P Require Import Handshake SeedSync Tick NodeSync Router Cli Entries.
Open Scope Z_scope.
Open Scope stdpp_scope.

(** ** The routes of start_with_web *)

Inductive http_method := Get | AnyMethod.
Inductive executor := WebHandler | WebSocket.
(** [router.get], [router.all]: method, path, what runs, in the order in which
    they are registered. *)
Definition http_routes : list (http_method * string * executor) :=
  [(Get, "/", WebHandler); (Get, "/api/data", WebHandler); (AnyMethod, "/*", WebHandler); (Get, "/ws", WebSocket)].

(** ** start *)

Section start.
Context `{Crates, !FrameCodecs, !HandshakeCodecs, !ManagerView}.

(** Whether the task of the server is there, and the command line. *)
Record Started := mk_started { st_server : bool; st_term : Term }.

(** The server runs while the command line does, whose result is dropped; its
    task is aborted at the end. [serving] is what it does meanwhile. *)
Definition spawn_server : state Started unit := modify (fun s => mk_started true (st_term s)).
Definition abort_server : state Started unit := modify (fun s => mk_started false (st_term s)).
Definition run_cli (serving : M unit) (lines : list (result string)) : state Started (result unit) :=
  fun s => let '(r, t) := Cli.run serving lines (st_term s) in (r, mk_started (st_server s) t).
Definition start (serving : M unit) (lines : list (result string)) : state Started unit :=
  spawn_server ;; run_cli serving lines ;; abort_server.
End start.

(** ** Accepted connections *)

(** How far the handler of a connection is: the task spawned, waiting at
    [entry_added_rx]; the entry added; the signal sent; and the task: reading
    frames; over, by the end of the stream, the child token or the abort handle. *)
Inductive accepted_stage := Spawned | EntryAdded | Signalled | Routing | Over.
#[export] Instance accepted_stage_eq_dec : EqDecision accepted_stage.
Proof. solve_decision. Defined.

(** [ac_removed]: a peer at its address said it goes offline. *)
Record Accepted := mk_accepted { ac_addr : SocketAddr; ac_ctx : ctx_id; ac_stage : accepted_stage; ac_removed : bool }.

Section serve.
Context `{Crates, !WireCodecs, !ServerManager, !ManagerLaws}.

Record Server := mk_server { sv_accepted : list Accepted; sv_world : World }.

Definition is_offline (cmd : P2PCommand) : bool :=
  bool_decide (cmd_entity cmd = Node) && bool_decide (cmd_action cmd = OffLine).
(** An announcement to go offline removes the entry at the address it comes
    from. *)
Definition note_offline (a : SocketAddr) (cmd : P2PCommand) (l : list Accepted) : list Accepted :=
  (fun x => if is_offline cmd && bool_decide (ac_addr x = a) then mk_accepted (ac_addr x) (ac_ctx x) (ac_stage x) true else x) <$> l.

Inductive serve_step : Server → Server → Prop :=
(** No two connections that are up have the same peer and context. *)
| accept_connection l w a c :
    ctx_addr (w_ctx w c) = a → (∀ x, x ∈ l → ac_stage x ≠ Over → ac_addr x ≠ a) →
    serve_step (mk_server l w) (mk_server (l ++ [mk_accepted a c Spawned false]) w)
| add_entry l1 a c b l2 w :
    serve_step (mk_server (l1 ++ mk_accepted a c Spawned b :: l2) w)
      (mk_server (l1 ++ mk_accepted a c EntryAdded false :: l2)
         (set_w_g (set_g_manager (mgr_add (g_manager (w_g w)) a true c) (w_g w)) w))
| send_entry_added l1 a c b l2 w :
    serve_step (mk_server (l1 ++ mk_accepted a c EntryAdded b :: l2) w) (mk_server (l1 ++ mk_accepted a c Signalled b :: l2) w)
| receive_entry_added l1 a c b l2 w :
    serve_step (mk_server (l1 ++ mk_accepted a c Signalled b :: l2) w) (mk_server (l1 ++ mk_accepted a c Routing b :: l2) w)
| route_frame l a c b frame cmd w :
    mk_accepted a c Routing b ∈ l →
    serve_step (mk_server l w) (mk_server (note_offline (ctx_addr (w_ctx w c)) cmd l) (exec (dispatch c frame cmd) w))
(** Ended by the stream or its token, or aborted. *)
| task_over l1 a c st b l2 w :
    st ≠ Spawned →
    serve_step (mk_server (l1 ++ mk_accepted a c st b :: l2) w) (mk_server (l1 ++ mk_accepted a c Over b :: l2) w)
(** Frames on connections this node dialled. *)
| dialled_frame l c frame cmd w :
    c ∉ ac_ctx <$> l →
    serve_step (mk_server l w) (mk_server (note_offline (ctx_addr (w_ctx w c)) cmd l) (exec (dispatch c frame cmd) w))
| run_spawned l t w :
    t ∈ w_tasks w → serve_step (mk_server l w) (mk_server l (exec (run_task t) w))
(** What else goes on keeps the entries. *)
| other_work l w w' :
    world_le w w' → kept (fun _ => True) w w' → serve_step (mk_server l w) (mk_server l w').

(** ** The invariant *)

Definition live (x : Accepted) : bool := match ac_stage x with Over => false | _ => true end.
(** Its entry was added, and not removed since. *)
Definition entered (x : Accepted) : bool :=
  match ac_stage x with EntryAdded | Signalled | Routing => negb (ac_removed x) | _ => false end.
Definition addresses (l : list Accepted) : list SocketAddr := ac_addr <$> List.filter live l.

Record serve_inv (s : Server) : Prop := {
  si_addresses : NoDup (addresses (sv_accepted s));
  si_addr x : x ∈ sv_accepted s → live x = true → ctx_addr (w_ctx (sv_world s) (ac_ctx x)) = ac_addr x;
  si_served x : x ∈ sv_accepted s → entered x = true → served (ac_addr x) (ac_ctx x) (sv_world s);
}.

Lemma entered_live x : entered x = true → live x = true.
Proof. unfold entered, live. by destruct (ac_stage x). Qed.

Lemma same_addr w w' c a : world_le w w' → ctx_addr (w_ctx w c) = a → ctx_addr (w_ctx w' c) = a.
Proof. intros Hw <-. by destruct (wl_ctx _ _ Hw c). Qed.

Lemma inv_world l w w' : world_le w w' → kept (fun a => ∃ x, x ∈ l ∧ ac_addr x = a ∧ entered x = true) w w' →
  serve_inv (mk_server l w) → serve_inv (mk_server l w').
Proof.
  intros Hw Hk [Hn Ha Hs]. split; cbn in *; [done| |].
  - intros x Hx Hl. eapply same_addr; [done|by apply Ha].
  - intros x Hx He. apply Hk; [by exists x|by apply Hs].
Qed.

Lemma addresses_note a cmd l : addresses (note_offline a cmd l) = addresses l.
Proof.
  unfold addresses, note_offline. induction l as [|x l IH]; [done|]. cbn.
  destruct (is_offline cmd && _); unfold live in *; cbn; destruct (ac_stage x); cbn; rewrite ?IH; done.
Qed.

Lemma elem_of_note y a cmd l :
  y ∈ note_offline a cmd l → ∃ x, x ∈ l ∧ ac_addr y = ac_addr x ∧ ac_ctx y = ac_ctx x ∧ live y = live x ∧
    (entered y = true → entered x = true ∧ (is_offline cmd = false ∨ ac_addr x ≠ a)).
Proof.
  intros (x & -> & Hx)%list_elem_of_fmap. exists x. split; [done|].
  destruct (is_offline cmd); cbn; [case_bool_decide|]; (split_and!; [done..|]); unfold entered; cbn.
  - by destruct (ac_stage x).
  - intros E. split; [done|by right].
  - intros E. split; [done|by left].
Qed.

(** A frame leaves the entries that are not marked. *)
Lemma inv_frame l c frame cmd w :
  serve_inv (mk_server l w) →
  serve_inv (mk_server (note_offline (ctx_addr (w_ctx w c)) cmd l) (exec (dispatch c frame cmd) w)).
Proof.
  intros [Hn Ha Hs]. cbn [sv_accepted sv_world] in *. set (a := ctx_addr (w_ctx w c)). pose proof (world_dispatch c frame cmd w) as Hw. split; cbn [sv_accepted sv_world].
  - by rewrite addresses_note.
  - intros y (x & Hx & -> & -> & -> & _)%elem_of_note Hl. eapply same_addr; [done|by apply Ha].
  - intros y (x & Hx & -> & -> & _ & Hy)%elem_of_note He. destruct (Hy He) as [Hex Hoff].
    apply (kept_dispatch (fun b => b = ac_addr x)); [|done|by apply Hs]. fold a.
    destruct Hoff as [Hoff|Hne]; [left|by right; intros ->].
    intros [= E1 E2]. unfold is_offline in Hoff. by rewrite E1, E2 in Hoff.
Qed.

(** One connection moves on, its address and context staying. *)
Lemma inv_move_on l1 a c st b l2 w st' b' :
  (live (mk_accepted a c st' b') = true → live (mk_accepted a c st b) = true) →
  (entered (mk_accepted a c st' b') = true → entered (mk_accepted a c st b) = true) →
  serve_inv (mk_server (l1 ++ mk_accepted a c st b :: l2) w) → serve_inv (mk_server (l1 ++ mk_accepted a c st' b' :: l2) w).
Proof.
  intros Hl He [Hn Ha Hs]. cbn in *. split; cbn.
  - unfold addresses in *. rewrite !List.filter_app, !fmap_app in *. cbn in *.
    destruct (live (mk_accepted a c st' b')); [by rewrite Hl in Hn|]. cbn.
    destruct (live (mk_accepted a c st b)); [|done]. cbn in Hn. apply NoDup_app in Hn as (H1' & H2' & H3').
    apply NoDup_cons in H3' as [_ H3']. apply NoDup_app. split_and!; [done| |done]. intros x Hx Hx'. apply (H2' x Hx). by right.
  - intros x Hx. apply elem_of_app in Hx as [Hx|Hx]; [|apply elem_of_cons in Hx as [->|Hx]].
    + apply Ha. set_solver.
    + intros Hx%Hl. apply (Ha (mk_accepted a c st b)); [set_solver|done].
    + apply Ha. set_solver.
  - intros x Hx. apply elem_of_app in Hx as [Hx|Hx]; [|apply elem_of_cons in Hx as [->|Hx]].
    + apply Hs. set_solver.
    + intros Hx%He. apply (Hs (mk_accepted a c st b)); [set_solver|done].
    + apply Hs. set_solver.
Qed.

Lemma live_other l1 x l2 y : NoDup (addresses (l1 ++ x :: l2)) → live x = true → y ∈ l1 ++ l2 → live y = true → ac_addr y ≠ ac_addr x.
Proof.
  unfold addresses. rewrite List.filter_app, fmap_app. cbn. intros Hn Hlx Hy Hl E. rewrite Hlx in Hn. cbn in Hn.
  rewrite <- Permutation_middle, <- fmap_app, <- List.filter_app in Hn. apply NoDup_cons in Hn as [Hn _].
  apply Hn. rewrite <- E. apply list_elem_of_fmap. exists y. split; [done|].
  apply list_elem_of_In, filter_In. by rewrite <- list_elem_of_In.
Qed.

Lemma inv_add_entry l1 a c b l2 w :
  serve_inv (mk_server (l1 ++ mk_accepted a c Spawned b :: l2) w) →
  serve_inv (mk_server (l1 ++ mk_accepted a c EntryAdded false :: l2)
    (set_w_g (set_g_manager (mgr_add (g_manager (w_g w)) a true c) (w_g w)) w)).
Proof.
  intros [Hn Ha Hs]. cbn [sv_accepted sv_world] in *. split; cbn [sv_accepted sv_world].
  - unfold addresses in *. rewrite !List.filter_app, !fmap_app in *. exact Hn.
  - intros x Hx Hl. cbn. apply elem_of_app in Hx as [Hx|Hx]; [|apply elem_of_cons in Hx as [->|Hx]].
    + apply Ha; [set_solver|done].
    + apply (Ha (mk_accepted a c Spawned b)); [set_solver|done].
    + apply Ha; [set_solver|done].
  - intros x Hx He. unfold served. cbn. assert (Hx' : x = mk_accepted a c EntryAdded false ∨ x ∈ l1 ++ l2) by set_solver.
    destruct Hx' as [->|Hx']; [apply client_add|].
    rewrite client_add_other; [apply Hs; [set_solver|done]|].
    apply (live_other _ _ _ _ Hn eq_refl Hx'), entered_live, He.
Qed.

Lemma serve_step_inv s s' : serve_step s s' → serve_inv s → serve_inv s'.
Proof.
  intros Hstep Hinv. destruct Hstep as [l w a c Hc Hl|l1 a c b l2 w|l1 a c b l2 w|l1 a c b l2 w|l a c b frame cmd w Hx|l1 a c st b l2 w Hst|l c frame cmd w Hc|l t w Ht|l w w' Hw Hk].
  - destruct Hinv as [Hn Ha Hs]. cbn [sv_accepted sv_world] in *. split; cbn [sv_accepted sv_world].
    + unfold addresses in *. rewrite List.filter_app, fmap_app. cbn. apply NoDup_app. split; [done|]. split; [|apply NoDup_singleton].
      intros x (y & -> & Hy)%list_elem_of_fmap Hx%list_elem_of_singleton. apply list_elem_of_In, filter_In in Hy as [Hy Hlive].
      apply (Hl y); [by apply list_elem_of_In| |done]. intros E. unfold live in Hlive. by rewrite E in Hlive.
    + intros x [Hx| ->%list_elem_of_singleton]%elem_of_app Hlive; [by apply Ha|done].
    + intros x [Hx| ->%list_elem_of_singleton]%elem_of_app He; [by apply Hs|done].
  - by eapply inv_add_entry.
  - by eapply inv_move_on, Hinv.
  - by eapply inv_move_on, Hinv.
  - by apply inv_frame.
  - by eapply inv_move_on, Hinv.
  - by apply inv_frame.
  - eapply inv_world; [apply world_run_task|apply kept_run_task|done].
  - eapply inv_world; [done| |done]. intros a c _. by apply Hk.
Qed.

Lemma serve_inv_start w : serve_inv (mk_server [] w).
Proof. split; cbn; [constructor|set_solver|set_solver]. Qed.

(** C8. The entry is there before the first frame. However connections are
    accepted, frames routed and tasks run, a connection whose frames are read
    has its entry in the manager, unless its peer said it goes offline; so the
    announcement of a peer on it is filed there. (An announcement that came
    before the entry would be lost, which is why the task that reads frames
    waits.) *)
Theorem entry_before_frames w0 s x :
  rtc serve_step (mk_server [] w0) s → x ∈ sv_accepted s → ac_stage x = Routing → ac_removed x = false →
  let entry w := client (g_manager (w_g w)) (ac_addr x) in
  (∃ n, entry (sv_world s) = Some (mk_entry (ac_addr x) (Some (ac_ctx x)) n)) ∧
  (∀ frame pay online, decode pay = Ok online → on_session_id online ≠ [] →
     entry (exec (dispatch (ac_ctx x) frame (mk_command Node OnLine pay)) (sv_world s)) =
     Some (mk_entry (ac_addr x) (Some (ac_ctx x)) (Some (on_node online)))) ∧
  ∀ w c frame online, entry w = None → ctx_addr (w_ctx w c) = ac_addr x →
    mgr_get (g_manager (w_g w)) (sock_ip (ac_addr x)) (scope_from_ip (sock_ip (ac_addr x))) Servers (ac_addr x) = None →
    g_manager (w_g (exec (online_handshake c frame online) w)) = g_manager (w_g w).
Proof.
  intros Hrun Hx Hr Hrem. cbv zeta.
  assert (Hinv : serve_inv s).
  { clear Hx. revert s Hrun. apply rtc_ind_r; [apply serve_inv_start|]. intros ? ? _ Hst. by apply serve_step_inv. }
  assert (He : entered x = true) by (unfold entered; by rewrite Hr, Hrem).
  pose proof (si_served _ Hinv x Hx He) as Hs. split; [exact Hs|]. split.
  - intros frame pay online Hd Hsid. unfold exec. rewrite dispatch_online. unfold online_handler. cbn [cmd_data]. rewrite Hd.
    destruct (on_session_id online) as [|b l]; [done|]. apply handshake_stores; [|done].
    apply (si_addr _ Hinv x Hx), entered_live, He.
  - intros w c frame online Hn Ha Hs'. apply handshake_lost; rewrite Ha; done.
Qed.
End serve.
