(* ===== verification/Startup.v ===== *)
(** * Starting a node

    Node::init and Node::new of src/src/node.rs: the address and the two lists
    of endpoints are read from the storage (or made), the node registers its
    own seeds, and the seeds of the command line are recorded and saved. *)

From S2P Require Import Prelude Text NetAddr External Command NodeRegistry Seeds World Handshake Record P2PNode Cli IoStorage.
Open Scope Z_scope.
Open Scope stdpp_scope.

Section startup.
Context `{Crates} {S : Type} `{!Storage S Address, !Storage S records}.
(** [FreeWebMovementAddress::random] *)
Context (random : state S Address).

(** What [init] leaves: the parts of the [Node], and the address and the id of
    the local node in the context. *)
Record Booted := mk_booted {
  bo_name : string;
  bo_id : Address;
  bo_state : NodeState;
  bo_registry : registry;
  bo_peer_addrs : list SocketAddr;
  bo_address : Address;
  bo_local_id : bytes;
}.

(** [io_storage.read(key)], or the value for a key that is not there *)
Definition read_or {T} `{!Storage S T} (e : option (IOEntry S T)) (missing : state S T) : state S T :=
  v ← read_entry e;
  match v with Some v => mret v | None => missing end.

(** [Node::new]: the id and the two registries. *)
Definition node_new (ios : IOStorage S Address records) : state S (Address * records * records) :=
  id ← read_or (Some (ios_address ios)) random;
  inner_nodes ← read_or (Some (ios_inner_server ios)) (mret ∅);
  external_nodes ← read_or (Some (ios_external_server ios)) (mret ∅);
  mret (id, inner_nodes, external_nodes).

(** [save_registries] *)
Definition save_both (ios : IOStorage S Address records) (n : NodeState) : state S unit :=
  save_entry (Some (ios_inner_server ios)) (ns_inner n) ;;
  save_entry (Some (ios_external_server ios)) (ns_external n).

Definition seed_addrs (opt : Opt) : list SocketAddr :=
  match opt_seeds opt with Some seeds_str => parse_seeds seeds_str | None => [] end.

(** [Node::init]; [None] when the process exits. [now] is the clock of the
    registry in seconds, [t1] and [t2] of the records. *)
Definition init (opt : Opt) (all_ips : list IpAddr) (now t1 t2 : Z) : state S (option Booted) :=
  let io_storage := io_storage_init opt random ∅ in
  match parse_sock (opt_ip opt +:+ ":" +:+ show_u (opt_port opt)) with
  | None => mret None
  | Some addr =>
      address ← read_or (Some (ios_address io_storage)) random;
      let node_registry := self_seeds now addr (addr_to_string address) all_ips new_registry in
      n ← node_new io_storage;
      let '(id, inner_nodes, external_nodes) := n in
      let st := init_state t1 t2 addr inner_nodes external_nodes
                  (match opt_seeds opt with Some _ => Some (seed_addrs opt) | None => None end) in
      (match opt_seeds opt with Some _ => save_both io_storage st | None => mret tt end) ;;
      mret (Some (mk_booted (opt_name opt) id st node_registry (seed_addrs opt) address
                    (as_bytes (addr_to_string address))))
  end.

Definition address_file (opt : Opt) : string := io_file (ios_address (io_storage_init opt random (∅ : records))).
Definition inner_file (opt : Opt) : string := io_file (ios_inner_server (io_storage_init opt random (∅ : records))).
Definition external_file (opt : Opt) : string := io_file (ios_external_server (io_storage_init opt random (∅ : records))).
End startup.

(** ** Who the node is, and what a restart keeps *)

Section properties.
Context `{Crates} {S : Type} `{!Storage S Address, !Storage S records}.
Context `{!StorageLaws S Address, !StorageLaws S records}.
Context `{!StorageFrame S Address Address, !StorageFrame S Address records}.
Context `{!StorageFrame S records Address, !StorageFrame S records records}.
Context (random : state S Address).
(** Drawing an address is no access to the storage. *)
Context (random_reads : ∀ s f, storage_read (T := Address) (random s).2 f = storage_read s f ∧
                               storage_read (T := records) (random s).2 f = storage_read s f).
Abbreviation init := (init random).
Abbreviation files opt := [address_file random opt; inner_file random opt; external_file random opt].

(** All files but those of [l] read as before. *)
Definition reads_but (l : list string) (s s' : S) : Prop := ∀ f, f ∉ l →
  storage_read (T := Address) s' f = storage_read s f ∧ storage_read (T := records) s' f = storage_read s f.
#[local] Instance reads_but_preorder l : PreOrder (reads_but l).
Proof.
  split; [done|]. intros x y z A B f Hf. destruct (A f Hf) as [A1 A2], (B f Hf) as [B1 B2]. split; congruence.
Qed.

Lemma respects_save {T} `{!Storage S T, !StorageFrame S T Address, !StorageFrame S T records} l f (v : T) :
  f ∈ l → respects (reads_but l) (storage_save f v).
Proof.
  intros Hf s g Hg. assert (g ≠ f) by (intros ->; done). unfold exec.
  destruct (storage_save f v s) as [r s'] eqn:E. cbn. split; by eapply read_other.
Qed.
Lemma respects_read_or {T} `{!Storage S T, !StorageFrame S T Address, !StorageFrame S T records} l e (m : state S T) :
  io_file e ∈ l → respects (reads_but l) (io_make e) → respects (reads_but l) m →
  respects (reads_but l) (read_or (Some e) m).
Proof.
  intros Hf He Hm. unfold read_or, read_entry, IoStorage.read, saved_default.
  assert (Hs : ∀ v : T, respects (reads_but l) (storage_save (io_file e) v)) by (intros v; by apply respects_save).
  respects_tac.
Qed.
Lemma respects_random l : respects (reads_but l) random.
Proof. intros s f _. apply random_reads. Qed.
Lemma respects_save_entry l (e : IOEntry S records) v : io_file e ∈ l → respects (reads_but l) (save_entry (Some e) v).
Proof. intros Hf. unfold save_entry. respects_tac. by apply respects_save. Qed.

(** A value that is in the file is what is read. *)
Lemma read_or_found {T} `{!Storage S T} (e : IOEntry S T) m v s :
  storage_read s (io_file e) = Ok (Some v) → read_or (Some e) m s = (v, s).
Proof. intros E. unfold read_or, read_entry, IoStorage.read. rewrite !run_bind. cbn. by rewrite E. Qed.
Lemma read_or_made {T} `{!Storage S T} (e : IOEntry S T) m s :
  (∀ v, storage_read s (io_file e) ≠ Ok (Some v)) → eval (read_or (Some e) m) s = eval (io_make e) s.
Proof.
  intros E. unfold read_or, read_entry, IoStorage.read, saved_default, eval.
  rewrite !run_bind. cbn.
  destruct (storage_read s (io_file e)) as [[v|]|err] eqn:Er; [by destruct (E v)| |];
    rewrite !run_bind; destruct (io_make e s) as [v s1]; cbn; rewrite !run_bind;
    destruct (storage_save _ v s1) as [r s2]; cbn; [|done].
  rewrite !run_bind. by destruct (storage_save _ v s2).
Qed.

Abbreviation ios opt := (io_storage_init opt random (∅ : records)).
Abbreviation servers opt := [inner_file random opt; external_file random opt].

(** The stages of [init]. *)
Lemma init_stages opt ips now t1 t2 s b s' :
  init opt ips now t1 t2 s = (Some b, s') →
  ∃ addr a s1 id s2 inner s3 external s4,
    read_or (Some (ios_address (ios opt))) random s = (a, s1) ∧
    read_or (Some (ios_address (ios opt))) random s1 = (id, s2) ∧
    read_or (Some (ios_inner_server (ios opt))) (mret ∅) s2 = (inner, s3) ∧
    read_or (Some (ios_external_server (ios opt))) (mret ∅) s3 = (external, s4) ∧
    let st := init_state t1 t2 addr inner external
                (match opt_seeds opt with Some _ => Some (seed_addrs opt) | None => None end) in
    b = mk_booted (opt_name opt) id st (self_seeds now addr (addr_to_string a) ips new_registry) (seed_addrs opt) a
          (as_bytes (addr_to_string a)) ∧
    s' = match opt_seeds opt with Some _ => exec (save_both (ios opt) st) s4 | None => s4 end.
Proof.
  unfold Startup.init. destruct (parse_sock _) as [addr|]; [|done]. rewrite run_bind.
  destruct (read_or _ random s) as [a s1] eqn:E1. unfold node_new. rewrite !run_bind.
  destruct (read_or _ random s1) as [id s2] eqn:E2. rewrite run_bind.
  destruct (read_or _ _ s2) as [inner s3] eqn:E3. rewrite run_bind.
  destruct (read_or _ _ s3) as [external s4] eqn:E4. cbn -[init_state save_both].
  set (st := init_state _ _ _ _ _ _). rewrite run_bind. intros E.
  exists addr, a, s1, id, s2, inner, s3, external, s4. do 4 (split; [done|]). cbv zeta. fold st.
  destruct (opt_seeds opt).
  - unfold exec. destruct (save_both _ st s4) as [[] s5]. cbn in E. by injection E as <- <-.
  - cbn in E. by injection E as <- <-.
Qed.

Lemma address_apart opt : NoDup (files opt) → address_file random opt ∉ servers opt.
Proof. by intros [Hn _]%NoDup_cons. Qed.

(** The file of the address after a start: as the first reading left it, unless
    the second had to make one, too. *)
Lemma init_address opt ips now t1 t2 s b s' a s1 :
  NoDup (files opt) → init opt ips now t1 t2 s = (Some b, s') →
  read_or (Some (ios_address (ios opt))) random s = (a, s1) →
  bo_address b = a ∧ bo_local_id b = as_bytes (addr_to_string a) ∧
  (∀ x seed, has_seed (bo_registry b) x seed → x = addr_to_string a) ∧
  (storage_read s1 (address_file random opt) = Ok (Some a) →
   bo_id b = a ∧ storage_read s' (address_file random opt) = Ok (Some a)) ∧
  ((∀ v : Address, storage_read s1 (address_file random opt) ≠ Ok (Some v)) → bo_id b = eval random s1).
Proof.
  intros Hn E Ea. apply address_apart in Hn.
  destruct (init_stages _ _ _ _ _ _ _ _ E) as (addr & a' & s1' & id & s2 & inner & s3 & external & s4 & E1 & E2 & E3 & E4 & -> & Es).
  rewrite Ea in E1. injection E1 as <- <-. cbn [bo_address bo_local_id bo_registry bo_id].
  split; [done|]. split; [done|]. split; [by intros x seed (-> & _)%self_seeds_spec|]. split.
  - intros Hr. rewrite (read_or_found (ios_address (ios opt)) random a s1 Hr) in E2. injection E2 as <- <-. split; [done|].
    assert (R3 : reads_but (servers opt) s1 s3).
    { change s3 with (inner, s3).2. rewrite <- E3. apply respects_read_or; [by left|apply respects_ret, _..]. }
    assert (R4 : reads_but (servers opt) s3 s4).
    { change s4 with (external, s4).2. rewrite <- E4. apply respects_read_or; [by right; left|apply respects_ret, _..]. }
    assert (R5 : reads_but (servers opt) s4 s').
    { rewrite Es. destruct (opt_seeds opt); [|done]. unfold save_both.
      apply respects_bind; [apply _|apply respects_save_entry; by left|]. intros _. apply respects_save_entry; by right; left. }
    destruct (R3 _ Hn) as [A3 _], (R4 _ Hn) as [A4 _], (R5 _ Hn) as [A5 _]. congruence.
  - intros Hr. rewrite <- (read_or_made (ios_address (ios opt)) random s1 Hr). unfold eval. by rewrite E2.
Qed.

(** Who a node is. If its address was found, or could be saved when it was
    made, the node has it as id, in the context and for its own seeds; the
    storage has it after, and every later start from a storage that still has
    it finds the same. If it could not be saved, the node is two: the address
    it announces is one random draw, the id of [Node] another. *)
Theorem node_identity opt ips now t1 t2 s b s' a s1 :
  NoDup (files opt) → init opt ips now t1 t2 s = (Some b, s') →
  read_or (Some (ios_address (ios opt))) random s = (a, s1) →
  bo_address b = a ∧ bo_local_id b = as_bytes (addr_to_string a) ∧
  (∀ x seed, has_seed (bo_registry b) x seed → x = addr_to_string a) ∧
  (storage_read s1 (address_file random opt) = Ok (Some a) →
   bo_id b = a ∧ storage_read s' (address_file random opt) = Ok (Some a) ∧
   ∀ ips2 now2 t3 t4 s2 b2 s3, storage_read s2 (address_file random opt) = Ok (Some a) →
     init opt ips2 now2 t3 t4 s2 = (Some b2, s3) → bo_id b2 = a ∧ bo_address b2 = a) ∧
  ((∀ v : Address, storage_read s1 (address_file random opt) ≠ Ok (Some v)) → bo_id b = eval random s1).
Proof.
  intros Hn E Ea. destruct (init_address _ _ _ _ _ _ _ _ _ _ Hn E Ea) as (H1 & H2 & H3 & H4 & H5).
  split; [done|]. split; [done|]. split; [done|]. split; [|done].
  intros Hr. destruct (H4 Hr) as [Hid Hs]. split; [done|]. split; [done|].
  intros ips2 now2 t3 t4 s2 b2 s3 Hr2 E2.
  pose proof (read_or_found (ios_address (ios opt)) random a s2 Hr2) as Ea2.
  destruct (init_address _ _ _ _ _ _ _ _ _ _ Hn E2 Ea2) as (G1 & _ & _ & G4 & _). by destruct (G4 Hr2).
Qed.

(** ** The seeds of the command line *)

Lemma upserted t1 t2 l n a :
  let n' := foldl (fun n s => upsert_both t1 t2 s n) n l in
  a ∈ l ∨ (∃ r, ns_inner n !! a = Some r ∧ last_seen r = t2 ∧ is_available r = true) →
  ∃ r, ns_inner n' !! a = Some r ∧ last_seen r = t2 ∧ is_available r = true.
Proof.
  cbv zeta. revert n. induction l as [|x l IH]; intros n; cbn [foldl]; [by intros [[]%elem_of_nil|Hr]|].
  intros Ha. apply IH. destruct (decide (a = x)) as [->|Hne].
  - right. eexists. split; [apply lookup_insert_eq|done].
  - destruct Ha as [[|Ha]%elem_of_cons|(r & Hr & H')]; [done|by left|]. right. exists r. split; [|done]. cbn.
    unfold upsert. by rewrite lookup_insert_ne.
Qed.

Lemma init_saved t1 t2 addr inner external l :
  let st := init_state t1 t2 addr inner external (Some l) in
  ∀ a, a ∈ l → ∃ r, ns_inner st !! a = Some r ∧ last_seen r = t2 ∧ is_available r = true.
Proof. cbv zeta. intros a Ha. cbn. apply upserted. by left. Qed.

(** A storage that takes what it is given. *)
Context (saves : ∀ f (v : records) s, eval (storage_save f v) s = Ok tt).

Lemma saved_entry (e : IOEntry S records) v s : storage_read (exec (save_entry (Some e) v) s) (io_file e) = Ok (Some v).
Proof.
  pose proof (saves (io_file e) v s) as Hs. unfold save_entry, exec, eval in *. rewrite run_bind.
  destruct (storage_save _ v s) as [r s'] eqn:E. cbn in *. subst r. by apply (read_saved s).
Qed.

(** C40. Seeds given on the command line survive a restart without them: the next
    start has the same two lists of endpoints, but for those not seen for five
    days, which are marked; the seeds are among them, available if they are
    younger than that. *)
Theorem seeds_survive_restart opt opt2 ips ips2 now now2 t1 t2 t3 t4 s b s' b2 s2 :
  NoDup (files opt) → is_Some (opt_seeds opt) →
  inner_file random opt2 = inner_file random opt → external_file random opt2 = external_file random opt →
  NoDup (files opt2) → opt_seeds opt2 = None →
  init opt ips now t1 t2 s = (Some b, s') → init opt2 ips2 now2 t3 t4 s' = (Some b2, s2) →
  ns_inner (bo_state b2) = check_expiry t3 <$> ns_inner (bo_state b) ∧
  ns_external (bo_state b2) = check_expiry t3 <$> ns_external (bo_state b) ∧
  ∀ a, a ∈ seed_addrs opt → ∃ r, ns_inner (bo_state b2) !! a = Some r ∧ last_seen r = t2 ∧
    (is_available r = true ↔ days_since t3 t2 < MAX_VALID_DAYS).
Proof.
  intros Hn [text Et] Hi He Hn2 Et2 E E'.
  destruct (init_stages _ _ _ _ _ _ _ _ E) as (addr & a & s1 & id & s3 & inner & s4 & external & s5 & _ & _ & _ & _ & Eb & Es).
  rewrite Et in Eb, Es. set (st := init_state t1 t2 addr inner external (Some (seed_addrs opt))) in *.
  assert (Ri : storage_read s' (inner_file random opt) = Ok (Some (ns_inner st)) ∧
               storage_read s' (external_file random opt) = Ok (Some (ns_external st))).
  { rewrite Es. unfold save_both. rewrite exec_bind. split; [|apply (saved_entry (ios_external_server (ios opt)))].
    etrans; [|apply (saved_entry (ios_inner_server (ios opt)) (ns_inner st) s5)].
    apply (respects_save_entry [external_file random opt] (ios_external_server (ios opt))); [by left|].
    apply NoDup_cons in Hn as [_ [Hn _]%NoDup_cons]. intros Eq%list_elem_of_singleton. apply Hn.
    change (inner_file random opt = external_file random opt) in Eq. rewrite Eq. by left. }
  destruct Ri as [Ri Re].
  destruct (init_stages _ _ _ _ _ _ _ _ E') as (addr' & a' & s1' & id' & s3' & inner' & s4' & external' & s5' & E1 & E2 & E3 & E4 & Eb' & _).
  assert (Hload : respects (reads_but [address_file random opt2]) (read_or (Some (ios_address (ios opt2))) random)).
  { apply respects_read_or; [apply elem_of_cons; by left|apply respects_random..]. }
  assert (Haddr : reads_but [address_file random opt2] s' s3').
  { pose proof (Hload s') as L1. unfold exec in L1. rewrite E1 in L1.
    pose proof (Hload s1') as L2. unfold exec in L2. rewrite E2 in L2. by etrans. }
  assert (Hf : inner_file random opt2 ≠ address_file random opt2 ∧ external_file random opt2 ≠ address_file random opt2).
  { apply NoDup_cons in Hn2 as [Hn2 _]. split; intros Eq; apply Hn2; rewrite <- Eq; [by left|by right; left]. }
  assert (Hi' : storage_read s3' (inner_file random opt2) = Ok (Some (ns_inner st))).
  { rewrite (proj2 (Haddr (inner_file random opt2) ltac:(rewrite list_elem_of_singleton; apply Hf))). by rewrite Hi. }
  rewrite (read_or_found (ios_inner_server (ios opt2)) _ _ _ Hi') in E3. injection E3 as <- <-.
  assert (He' : storage_read s3' (external_file random opt2) = Ok (Some (ns_external st))).
  { rewrite (proj2 (Haddr (external_file random opt2) ltac:(rewrite list_elem_of_singleton; apply Hf))). by rewrite He. }
  rewrite (read_or_found (ios_external_server (ios opt2)) _ _ _ He') in E4. injection E4 as <- <-.
  rewrite Et2 in Eb'. rewrite Eb', Eb. cbn [bo_state]. split; [done|]. split; [done|].
  intros x Hx. destruct (init_saved t1 t2 addr inner external (seed_addrs opt) x Hx) as (r & Hr & Hl & Ha).
  exists (check_expiry t3 r). split; [|split].
  - change ((check_expiry t3 <$> ns_inner st) !! x = Some (check_expiry t3 r)). rewrite lookup_fmap.
    change (ns_inner st !! x = Some r) in Hr. by rewrite Hr.
  - unfold check_expiry. by destruct (_ <=? _).
  - unfold check_expiry. rewrite Hl. destruct (Z.leb_spec MAX_VALID_DAYS (days_since t3 t2)); cbn; [split; [done|lia]|].
    rewrite Ha. split; [lia|done].
Qed.
End properties.
