(* ===== verification/Running.v ===== *)
(** * The running node

    Node::init leaves a node that serves, dials, runs its command line and its
    web server, all on the same state and in any order. The running node is the
    step relation [step]: any command may arrive on any connection, any spawned
    task may run - a task stays in the list once spawned, so that nothing is
    assumed about when or how often it runs - connections are accepted, the
    node dials what it has on record and what it is told to, any command is
    typed, any request is posted, and the application calls the operations it
    is offered. *)

From S2P Require Import Prelude Text NetAddr External Command NodeRegistry Seeds World Frame Evolution Message.
From S2P Require Import Handshake SeedSync Tick NodeSync Router Record P2PNode Sql Files UserStore Entries.
From S2P Require Import Resources Url Web WebApi WebSend WebData WebPages Cli IoStorage Startup.
From S2P Require Balance Contact Transaction TickRecord WitnessSeed.
Open Scope Z_scope.
Open Scope stdpp_scope.

Section running.
Context `{Crates, !WireCodecs, !ServerManager, !ManagerView, !WebCrates, !JsonValue, !Chrono, !Machine}.
Context {F TC TB TT TS TR App : Type}.
Context `{!Fs F, !Sql TC Contact.Model, !Sql TB Balance.Model, !Sql TT Transaction.Model}.
Context `{!Sql TS WitnessSeed.Model, !Sql TR TickRecord.Model}.
Context `{!Json (list ChatMessage), !Json UserProfile}.
Abbreviation Wb := (Web F (Db TC TB TT TS TR) App).

Inductive step (w : World) : World → Prop :=
(** What arrives, and what it set going. *)
| step_accept a c : step w (set_w_g (set_g_manager (mgr_add (g_manager (w_g w)) a true c) (w_g w)) w)
| step_dispatch c frame cmd : step w (exec (dispatch c frame cmd) w)
| step_task t : t ∈ w_tasks w → step w (exec (run_task t) w)
(** Node::connect, its callback on a connection, and Node::connect_to. *)
| step_connect n : step w (exec (P2PNode.connect n) w)
| step_announce c : step w (exec (P2PNode.announce c) w)
| step_connect_to t1 t2 peer_addr n : step w (exec (connect_to t1 t2 peer_addr n) w)
(** A command of the command line, whatever happens besides while it waits. *)
| step_cli others name args f t :
    respects world_le others → builtin others name = Some f → tc_world t = w → step w (tc_world (exec (f args) t))
(** A request to the web server, and the closure one of them spawns. *)
| step_request base resources account render tf md name dir addr port now rq (v : Wb) :
    wb_world v = w →
    step w (wb_world (exec (request_handler base resources account render tf md name dir addr port now rq) v))
| step_await base now t outcome (v : Wb) :
    wb_world v = w → step w (wb_world (exec (run_await_ack base now t outcome) v))
(** What the application calls. *)
| step_send_text s r id c m : step w (exec (send_text_message s r id c m) w)
| step_send_tick c : step w (exec (send_tick c) w)
| step_send_validate c s n : step w (exec (send_validate_request c s n) w)
| step_broadcast_seed_set set : step w (exec (broadcast_seed_set_to_all_peers set) w)
| step_lock_seed_set set : step w (exec (lock_seed_set_global set) w)
| step_sync others past peers rounds :
    respects world_le others → step w (exec (run_seed_sync_cycle others past peers rounds) w).

(** ** Dialling *)

Lemma io_announce c : respects io_step (P2PNode.announce c).
Proof. unfold P2PNode.announce. respects_tac. Qed.
Lemma io_announce_self c : respects io_step (announce_self c).
Proof. unfold announce_self. respects_tac. Qed.

Lemma world_dial addr callback : (∀ c, respects world_le (callback c)) → respects world_le (dial addr callback).
Proof. intros Hc. unfold dial. respects_tac. Qed.

Lemma world_connect n : respects world_le (P2PNode.connect n).
Proof.
  unfold P2PNode.connect. apply respects_for_each; [apply _|]. intros a _. destruct (initiates _ _); [|respects_tac].
  apply respects_bind; [apply _|apply world_dial; intros c; apply respects_io, io_announce|respects_tac].
Qed.

Lemma world_connect_to t1 t2 peer n : respects world_le (connect_to t1 t2 peer n).
Proof.
  unfold connect_to. destruct (parse_sock peer) as [a|]; [|respects_tac].
  apply respects_bind; [apply _|apply world_dial; respects_tac|respects_tac].
Qed.

(** ** The command line *)

Definition term_le (t t' : Term) : Prop := world_le (tc_world t) (tc_world t').
#[local] Instance term_le_preorder : PreOrder term_le.
Proof. split; [by intros t|]. intros x y z Hxy Hyz. unfold term_le in *. by etrans. Qed.

Lemma term_on_net {A} (m : M A) : respects world_le m → respects term_le (on_net m).
Proof. intros Hm t. unfold term_le, on_net, exec. specialize (Hm (tc_world t)). unfold exec in Hm. by destruct (m (tc_world t)). Qed.
Lemma term_println s : respects term_le (println s).
Proof. by intros t. Qed.
Lemma term_draw_request_id : respects term_le draw_request_id.
Proof. intros t. unfold term_le, draw_request_id, exec. by destruct (next_request_id _). Qed.
Lemma world_register_dialled a : respects world_le (register_dialled a).
Proof. unfold register_dialled. respects_tac. Qed.
#[local] Hint Resolve term_println term_draw_request_id world_register_dialled io_announce_self send_text_io : respects.
#[local] Hint Extern 2 (respects term_le (on_net _)) => (apply term_on_net; respects_tac) : respects.

Lemma world_connect_to_peer_sync others a : respects world_le others → respects world_le (connect_to_peer_sync others a).
Proof. intros Ho. unfold connect_to_peer_sync. respects_tac. Qed.
Lemma world_connect_missing others l : respects world_le others → respects world_le (connect_missing others l).
Proof.
  intros Ho. unfold connect_missing. apply respects_bind; [apply _|respects_tac|]. intros m.
  induction (List.filter _ l) as [|a l' IH]; cbn; [respects_tac|].
  apply respects_bind; [apply _|by apply world_connect_to_peer_sync|done].
Qed.

Lemma term_sync_rounds others n k l h s : respects world_le others → respects term_le (sync_rounds others n k l h s).
Proof.
  intros Ho. pose proof (world_connect_missing others l Ho). revert k h s.
  induction n as [|n IH]; intros k h s; cbn; respects_tac.
Qed.

Lemma term_builtin others name f args :
  respects world_le others → builtin others name = Some f → respects term_le (f args).
Proof.
  intros Ho. unfold builtin. pose proof (term_sync_rounds others).
  repeat (case_decide; [intros [= <-]|]); [..|done]; unfold infallible_cmd.
  - unfold Cli.send. respects_tac.
  - unfold connect_cmd. respects_tac.
    apply term_on_net, world_dial. intros c. apply respects_io, io_announce_self.
  - unfold status. respects_tac.
  - unfold help. respects_tac.
  - unfold peers. respects_tac.
  - unfold info. respects_tac.
  - unfold sync. respects_tac.
Qed.

(** ** The web server *)

Definition web_le (v v' : Wb) : Prop := world_le (wb_world v) (wb_world v').
#[local] Instance web_le_preorder : PreOrder web_le.
Proof. split; [by intros v|]. intros x y z Hxy Hyz. unfold web_le in *. by etrans. Qed.

Lemma web_on_world {A} (m : M A) : respects world_le m → respects web_le (on_world m : state Wb A).
Proof. intros Hm v. unfold web_le, on_world, exec. rewrite run_on_part. apply Hm. Qed.
(** Whatever acts on another part. *)
Lemma web_on_part {S A} (get : Wb → S) put (m : state S A) :
  (∀ s v, wb_world (put s v) = wb_world v) → respects web_le (on_part get put m).
Proof. intros Hp v. unfold web_le, exec. rewrite run_on_part. cbn. by rewrite Hp. Qed.
Lemma web_on_store {A} (m : state (UserStore F) A) : respects web_le (on_store m : state Wb A).
Proof. by apply web_on_part. Qed.
Lemma web_on_files {A} (m : state F A) : respects web_le (on_files m : state Wb A).
Proof. apply web_on_store. Qed.
Lemma web_on_db {A} (m : state (Db TC TB TT TS TR) A) : respects web_le (on_db m : state Wb A).
Proof. by apply web_on_part. Qed.
Lemma web_on_app {A} (m : state App A) : respects web_le (on_app m : state Wb A).
Proof. by apply web_on_part. Qed.
Lemma web_on_next_id {A} (m : state Z A) : respects web_le (on_next_id m : state Wb A).
Proof. by apply web_on_part. Qed.
Lemma web_modify (f : Wb → Wb) : (∀ v, wb_world (f v) = wb_world v) → respects web_le (modify f).
Proof. intros Hf v. unfold web_le, exec. cbn. by rewrite Hf. Qed.
Lemma web_send_json j : respects web_le (send_json j : state Wb unit).
Proof. by apply web_modify. Qed.
Lemma web_send_text t b : respects web_le (send_text t b : state Wb unit).
Proof. by apply web_modify. Qed.
Lemma web_spawn t : respects web_le (spawn_web t : state Wb unit).
Proof. by apply web_modify. Qed.
Lemma web_broadcast t : respects web_le (broadcast t : state Wb unit).
Proof. by apply web_modify. Qed.
#[local] Hint Resolve web_on_store web_on_files web_on_db web_on_app web_on_next_id web_send_json web_send_text
  web_spawn web_broadcast : respects.
#[local] Hint Extern 2 (respects web_le (on_world _)) => (apply web_on_world; respects_tac) : respects.

Lemma world_add_pending id : respects world_le (add_pending id).
Proof. unfold add_pending. respects_tac. Qed.
Lemma world_remove_pending id : respects world_le (remove_pending id).
Proof. unfold remove_pending. respects_tac. Qed.
#[local] Hint Resolve world_add_pending world_remove_pending send_to_peers_io : respects.

Lemma web_announce content event : respects web_le (WebSend.announce content event : state Wb _).
Proof. intros v. destruct (WebSend.announce content event v) as [r v'] eqn:E. unfold exec. rewrite E.
  apply announce_effect in E as [(l & ->) _]. by unfold web_le. Qed.
Lemma web_profile_or_default base now a : respects web_le (profile_or_default base now a : state Wb _).
Proof. unfold profile_or_default. respects_tac. Qed.
Lemma web_sync_registry : respects web_le (sync_registry : state Wb _).
Proof.
  unfold sync_registry. apply web_on_world. respects_tac. apply respects_with_registry. intros r. apply rtc_once. constructor.
Qed.
#[local] Hint Resolve web_announce web_profile_or_default web_sync_registry : respects.

Lemma web_list_db_contacts base now a unread l m : respects web_le (list_db_contacts base now a unread l m : state Wb _).
Proof. revert m. induction l as [|c l IH]; intros m; cbn; respects_tac. Qed.
Lemma web_list_registry_contacts base now a l m : respects web_le (list_registry_contacts base now a l m : state Wb _).
Proof. revert m. induction l as [|e l IH]; intros m; cbn; respects_tac. Qed.
Lemma web_send_profile base now a : respects web_le (send_profile base now a : state Wb _).
Proof. unfold send_profile, embed_avatar. respects_tac. Qed.
Lemma web_load_all_seeds : respects web_le (load_all_seeds : state Wb _).
Proof. unfold load_all_seeds, load_seeds_from_db, load_seeds_from_global_context. respects_tac. Qed.
#[local] Hint Resolve web_list_db_contacts web_list_registry_contacts web_send_profile web_load_all_seeds : respects.
Lemma web_gather resources account now md addr port :
  respects web_le (gather_page_data resources account now md addr port : state Wb _).
Proof. unfold gather_page_data. respects_tac. Qed.
#[local] Hint Resolve web_gather : respects.

Lemma web_handle_send_chat base now rq a : respects web_le (handle_send_chat base now rq a : state Wb _).
Proof. unfold handle_send_chat, target_addrs_of. respects_tac. Qed.
Lemma web_run_await_ack base now t outcome : respects web_le (run_await_ack base now t outcome : state Wb _).
Proof. unfold run_await_ack. respects_tac. Qed.

Lemma web_infallible (m : state Wb bool) : respects web_le m → respects web_le (infallible m).
Proof. intros Hm. unfold infallible. respects_tac. Qed.
Lemma web_with_slot {A} (slot : option A) what (f : A → state Wb (result bool)) :
  (∀ a, respects web_le (f a)) → respects web_le (with_slot slot what f).
Proof. intros Hf. unfold with_slot. respects_tac. Qed.

Lemma web_request base resources account render tf md name dir addr port now rq :
  respects web_le (request_handler base resources account render tf md name dir addr port now rq : state Wb _).
Proof.
  unfold request_handler. pose proof web_handle_send_chat. destruct (route _ _);
    try (apply web_with_slot; intros ?); try apply web_infallible;
    unfold handle_transfer, handle_address_api, handle_list_contacts, handle_add_contact, handle_delete_contact,
      handle_get_chat_messages, handle_get_conversations, handle_get_profile, handle_get_self_profile,
      handle_save_profile, handle_upload_avatar, handle_data_api, handle_wallet_page, handle_chat_page,
      handle_network_page, handle_index_page, send_page; respects_tac.
Qed.

(** ** Every step *)

Lemma step_world_le w w' : step w w' → world_le w w'.
Proof.
  intros [a c|c f cmd|t _|n|c|t1 t2 peer n|others name args f t Ho Hb <-|base res acc render tf md name dir addr port now rq v <-
         |base now t outcome v <-|s r id c m|c|c s n|set|set|others past peers k Ho].
  - match goal with |- world_le w ?w' =>
      assert (Hm : respects world_le (mod_g (fun g => set_g_manager (mgr_add (g_manager g) a true c) g))) by respects_tac;
      apply Hm end.
  - apply world_dispatch.
  - apply world_run_task.
  - apply world_connect.
  - apply respects_io, io_announce.
  - apply world_connect_to.
  - by apply (term_builtin others name f args Ho Hb).
  - apply web_request.
  - apply web_run_await_ack.
  - apply respects_io, send_text_io.
  - apply respects_io, io_send_tick.
  - apply respects_io. unfold send_validate_request. respects_tac.
  - apply respects_io. apply io_broadcast_seed_set.
  - apply world_lock_seed_set.
  - unfold run_seed_sync_cycle. destruct peers as [|p peers].
    + match goal with |- world_le _ (exec ?m _) => assert (Hm : respects world_le m) by respects_tac; apply Hm end.
    + match goal with |- world_le _ (exec ?m _) => assert (Hm : respects world_le m); [|apply Hm] end.
      apply respects_bind; [apply _| |respects_tac].
      apply generic_rounds; [apply _|by intros ??; apply respects_io| |done].
      intros m. by apply respects_mod_g.
Qed.

Lemma steps_world_le w w' : rtc step w w' → world_le w w'.
Proof. induction 1 as [|x y z Hs _ IH]; [reflexivity|]. etrans; [by apply step_world_le|done]. Qed.

(** ** From the start on *)

(** The state init leaves: the slots it fills, with the registry that has the
    node's own seeds. *)
Definition booted (b : Booted) (w : World) : Prop :=
  g_node (w_g w) = Some (mk_p2p_node (bo_registry b) (bo_peer_addrs b)) ∧
  g_address (w_g w) = Some (bo_address b) ∧ g_addr (w_g w) = ns_addr (bo_state b) ∧
  an_id (g_local_node (w_g w)) = bo_local_id b ∧ is_Some (g_psk (w_g w)) ∧
  g_seen (w_g w) = Some ∅ ∧ g_pending (w_g w) = Some ∅.

Lemma self_seeds_steps now addr name ips r : rtc registry_step r (self_seeds now addr name ips r).
Proof.
  unfold self_seeds. set (r0 := if negb _ then _ else _).
  assert (Hr0 : rtc registry_step r r0) by (unfold r0; destruct (negb _); [apply rtc_once; constructor|done]).
  etrans; [exact Hr0|]. clear. clearbody r0. revert r0. induction ips as [|ip ips IH]; intros r0; cbn; [done|].
  etrans; [|apply IH]. case_bool_decide; [done|]. destruct (is_loopback ip); [done|]. apply rtc_once. constructor.
Qed.

Context {S : Type} `{!Storage S Address, !Storage S records} (random : state S Address).

Lemma booted_registry opt ips now t1 t2 s b s' :
  init random opt ips now t1 t2 s = (Some b, s') → registry_wf (bo_registry b).
Proof.
  intros E. destruct (init_stages random _ _ _ _ _ _ _ _ E) as (addr & a & s1 & id & s2 & inn & s3 & ext & s4 & _ & _ & _ & _ & -> & _).
  cbn. eapply rtc_registry_wf; [apply self_seeds_steps|]. apply map_Forall_empty.
Qed.

(** C4. Safety of the running node. From what init leaves - the node's own seeds
    registered -, whatever is received, dialled, typed or requested, in
    whatever order tasks run and the application calls in: the registry is
    well formed, still has every node, seed and direction it ever had, from
    the node's own seeds on; the node's address and its session keys stay; and
    nothing it has sent, delivered, published or confirmed is taken back. *)
Theorem reachable_invariant opt ips now t1 t2 s b s' w0 w w' :
  init random opt ips now t1 t2 s = (Some b, s') → booted b w0 →
  rtc step w0 w → rtc step w w' →
  ∃ r r', reg_of w = Some r ∧ reg_of w' = Some r' ∧ registry_wf r' ∧
    registry_le (bo_registry b) r ∧ registry_le r r' ∧
    g_address (w_g w') = Some (bo_address b) ∧ is_Some (g_psk (w_g w')) ∧
    (∀ c, ctx_out (w_ctx w c) `prefix_of` ctx_out (w_ctx w' c)) ∧
    option_extends (g_inbox (w_g w)) (g_inbox (w_g w')) ∧
    w_events w `prefix_of` w_events w' ∧ w_confirmed w `prefix_of` w_confirmed w'.
Proof.
  intros Hb%booted_registry (Hn0 & Ha0 & _ & _ & Hp0 & _) Hw%steps_world_le Hw'%steps_world_le.
  destruct Hw as [N1 A1 _ P1 _ _ _ _ _], Hw' as [N2 A2 _ P2 C2 I2 _ E2 K2].
  rewrite Hn0 in N1. unfold reg_of.
  destruct (g_node (w_g w)) as [n|]; [|done]. destruct (g_node (w_g w')) as [n'|]; [|done].
  cbn in N1, N2. exists (pn_registry n), (pn_registry n').
  assert (Hle : ∀ r r', rtc registry_step r r' → registry_le r r').
  { induction 1 as [|x y z Hs _ IH]; [done|]. etrans; [by apply registry_step_le|done]. }
  split_and!; try done; try (by apply Hle).
  - eapply rtc_registry_wf; [exact N2|]. by eapply rtc_registry_wf; [exact N1|].
  - congruence.
  - by apply P2, P1.
  - intros c. destruct (C2 c) as (_ & _ & o & Eo & _). by exists o.
Qed.

(** C27. Whatever is received and done, what a node writes to a connection is a
    sequence of frames it built and signed itself: the receiver's
    [verify_bytes] accepts each, and it names the address and the key of the
    node that sent it. A frame that names another node is never passed on, and
    a node without an address writes nothing at all. *)
Theorem only_own_frames `{!FrameCodecsLaws, !AccountLaws} w w' c :
  rtc step w w' →
  ∃ out, ctx_out (w_ctx w' c) = ctx_out (w_ctx w c) ++ out ∧
    (g_address (w_g w) = None → out = []) ∧
    ∀ raw, raw ∈ out → ∃ a f cmd version, g_address (w_g w) = Some a ∧
      verify_bytes raw = Ok f ∧ frame_carries a cmd version f.
Proof.
  intros Hs. apply steps_world_le in Hs. destruct (wl_ctx _ _ Hs c) as (_ & _ & out & Eo & Ho).
  rewrite Forall_forall in Ho. exists out. split; [done|]. split.
  - intros Hn. destruct out as [|raw out]; [done|]. destruct (Ho raw) as (a & cmd & v & w1 & f & Ha & _); [by left|]. congruence.
  - intros raw Hr. destruct (Ho raw Hr) as (a & cmd & v & w1 & f & Ha & Hb & He).
    destruct (build_verifies _ _ _ _ _ _ Hb He) as [Hv Hf]. by exists a, f, cmd, v.
Qed.
End running.
