(* ===== verification/Toy.v ===== *)
(** * A concrete instance of the parameters

    Executable stand-ins for the crates of [External] and for the codecs, on
    which the statements about them can be evaluated: a digest that is the
    identity, signatures that repeat the key and the message, session keys
    that do not encrypt, a manager that is the lists of what it dialled and
    accepted, a clock that counts. They satisfy the laws the theorems assume. *)

From S2P Require Import Prelude NetAddr External Command NodeRegistry Seeds World Frame Handshake SeedSync Tick.
From S2P Require Import NodeSync Router.
Open Scope Z_scope.
Open Scope stdpp_scope.

#[export] Instance toy_sha : Sha256 := fun b => b.

#[export] Instance toy_account : Account := {|
  Address := string;
  PublicKey := bytes;
  Signature := bytes;
  addr_to_string a := a;
  addr_public_key a := as_bytes a;
  addr_sign a m := as_bytes a ++ m;
  to_public_key b := b;
  to_signature b := b;
  verify_message k m s := bool_decide (s = k ++ m);
|}.
#[export] Instance toy_account_laws : AccountLaws.
Proof. intros a m. by apply bool_decide_eq_true. Qed.

#[export] Instance toy_keys : SessionKeys := {|
  Psk := nat;
  psk_create n _ := (([Byte.x01], [Byte.x02]), S n);
  psk_establish_begins n _ _ _ := (Ok (Some [Byte.x03]), S n);
  psk_establish_ends n _ _ _ _ := (Ok true, S n);
  psk_encrypt n _ d := (Ok d, n);
  psk_decrypt n _ d := (Ok d, n);
|}.
#[export] Instance toy_session_laws : SessionLaws.
Proof. refine {| linked _ _ _ _ := True |}; try done; try (by intros; eexists); congruence. Defined.

Record ToyNode := mk_toy_node { tn_id : bytes; tn_port : Z }.
(** What the manager dialled, and the entries of what it accepted. *)
Record ToyManager := mk_toy_manager { tm_dialled : list (SocketAddr * nat); tm_clients : list (ConnectionEntry ToyNode) }.
Definition toy_entry (m : ToyManager) (a : SocketAddr) : option (ConnectionEntry ToyNode) :=
  (fun p => mk_entry a (Some p.2) None) <$> List.find (fun p => bool_decide (p.1 = a)) (tm_dialled m).
Definition toy_client (m : ToyManager) (a : SocketAddr) : option (ConnectionEntry ToyNode) :=
  List.find (fun e => bool_decide (entry_addr e = a)) (tm_clients m).
Definition toy_update (m : ToyManager) (side : ConnSide) (a : SocketAddr) (n : ToyNode) : ToyManager :=
  match side with
  | Clients => mk_toy_manager (tm_dialled m)
      ((fun e => if decide (entry_addr e = a) then mk_entry (entry_addr e) (entry_ctx e) (Some n) else e) <$> tm_clients m)
  | Servers => m
  end.

#[export] Instance toy_aex : Aex := {|
  AexNode := ToyNode;
  an_id := tn_id;
  an_port := tn_port;
  an_ips _ := [];
  an_from_system port id _ := mk_toy_node id port;
  scope_from_ip ip := match ip with V4 v4 => if v4_is_private v4 then Intranet else Extranet | V6 _ => Extranet end;
  Manager := ToyManager;
  mgr_get m _ _ side a := match side with Servers => toy_entry m a | Clients => toy_client m a end;
  mgr_update_node m _ _ side a n := toy_update m side a n;
  mgr_entries m := ((fun p => mk_entry p.1 (Some p.2) None) <$> tm_dialled m) ++ tm_clients m;
  mgr_find_entry m a := match toy_entry m a with Some e => Some e | None => toy_client m a end;
  mgr_mark_active m _ _ := m;
  mgr_remove m a _ := mk_toy_manager (List.filter (fun p => negb (bool_decide (p.1 = a))) (tm_dialled m))
                        (List.filter (fun e => negb (bool_decide (entry_addr e = a))) (tm_clients m));
  mgr_connect m a _ := (Ok (length (tm_dialled m)), mk_toy_manager (tm_dialled m ++ [(a, length (tm_dialled m))]) (tm_clients m));
|}.

#[export] Instance toy_host : Host := {|
  host_clock n := Z.of_nat n;
  host_timestamp n := Z.of_nat n;
  host_nonce n := Z.of_nat n;
  host_uuid _ := "uuid";
  host_free _ := true;
|}.

#[export] Instance toy : Crates := {|
  crates_sha := toy_sha; crates_account := toy_account; crates_keys := toy_keys;
  crates_aex := toy_aex; crates_host := toy_host;
|}.

(** ** Codecs *)

(** A self-delimiting format: what was written is read back, and the rest of
    the input is left. *)
Class Ser (T : Type) : Type := {
  ser : T → bytes;
  des : bytes → option (T * bytes);
  des_ser : ∀ x r, des (ser x ++ r) = Some (x, r);
}.

#[export] Instance ser_byte : Ser Byte.byte.
Proof.
  refine {| ser b := [b]; des l := match l with [] => None | b :: r => Some (b, r) end |}. done.
Defined.

#[export] Instance ser_pair {A B} `{Ser A, Ser B} : Ser (A * B).
Proof.
  refine {| ser p := ser p.1 ++ ser p.2;
            des l := '(a, l) ← des l; '(b, l) ← des l; Some ((a, b), l) |}.
  intros [a b] r. cbn. by rewrite <- app_assoc, des_ser; cbn; rewrite des_ser.
Defined.

#[export] Instance ser_option {A} `{Ser A} : Ser (option A).
Proof.
  refine {| ser o := match o with None => [Byte.x00] | Some a => Byte.x01 :: ser a end;
            des l := match l with
                     | Byte.x00 :: l => Some (None, l)
                     | Byte.x01 :: l => '(a, l) ← des l; Some (Some a, l)
                     | _ => None
                     end |}.
  intros [a|] r; cbn; [by rewrite des_ser|done].
Defined.

Section ser_list.
Context {A : Type} `{Ser A}.
Fixpoint ser_seq (l : list A) : bytes :=
  match l with [] => [Byte.x00] | x :: l' => Byte.x01 :: ser x ++ ser_seq l' end.
Fixpoint des_seq (fuel : nat) (b : bytes) : option (list A * bytes) :=
  match fuel, b with
  | S f, Byte.x00 :: b => Some ([], b)
  | S f, Byte.x01 :: b => '(x, b) ← des b; '(l, b) ← des_seq f b; Some (x :: l, b)
  | _, _ => None
  end.
Lemma des_ser_seq l r f : (length (ser_seq l ++ r) ≤ f)%nat → des_seq f (ser_seq l ++ r) = Some (l, r).
Proof.
  revert f. induction l as [|x l IH]; intros [|f]; cbn; try lia; [done|]. intros Hf.
  rewrite <- app_assoc, des_ser. cbn. rewrite IH; [done|].
  rewrite length_app in *. rewrite length_app in Hf. lia.
Qed.
End ser_list.
#[export] Instance ser_list {A} `{Ser A} : Ser (list A).
Proof.
  refine {| ser := ser_seq; des b := des_seq (length b) b |}. intros x r. by apply des_ser_seq.
Defined.

Fixpoint ser_pos (p : positive) : bytes :=
  match p with xH => [Byte.x02] | xO p => Byte.x00 :: ser_pos p | xI p => Byte.x01 :: ser_pos p end.
Fixpoint des_pos (b : bytes) : option (positive * bytes) :=
  match b with
  | Byte.x02 :: b => Some (xH, b)
  | Byte.x00 :: b => '(p, b) ← des_pos b; Some (xO p, b)
  | Byte.x01 :: b => '(p, b) ← des_pos b; Some (xI p, b)
  | _ => None
  end.
Lemma des_ser_pos p r : des_pos (ser_pos p ++ r) = Some (p, r).
Proof. induction p as [p IH|p IH|]; cbn; rewrite ?IH; done. Qed.

#[export] Instance ser_Z : Ser Z.
Proof.
  refine {| ser z := match z with Z0 => [Byte.x00] | Zpos p => Byte.x01 :: ser_pos p | Zneg p => Byte.x02 :: ser_pos p end;
            des b := match b with
                     | Byte.x00 :: b => Some (Z0, b)
                     | Byte.x01 :: b => '(p, b) ← des_pos b; Some (Zpos p, b)
                     | Byte.x02 :: b => '(p, b) ← des_pos b; Some (Zneg p, b)
                     | _ => None
                     end |}.
  intros [|p|p] r; cbn; rewrite ?des_ser_pos; done.
Defined.

(** A type that is a retract of one with a format. *)
Definition ser_via {T U} `{Ser U} (f : T → U) (g : U → T) (Hgf : ∀ x, g (f x) = x) : Ser T.
Proof.
  refine {| ser x := ser (f x); des b := '(u, b) ← des b; Some (g u, b) |}.
  intros x r. rewrite des_ser. cbn. by rewrite Hgf.
Defined.

#[export] Instance ser_string : Ser string := ser_via as_bytes from_bytes from_as_bytes.

Definition codec_of (T : Type) `{Ser T} : Codec T := {|
  External.encode x := Ok (ser x);
  External.decode b := match des b with Some (x, []) => Ok x | _ => Err "decode" end;
|}.
Lemma codec_of_laws (T : Type) `{Ser T} : @CodecLaws T (codec_of T).
Proof. intros x b [= <-]. cbn. by rewrite <- (app_nil_r (ser x)), des_ser. Qed.

Lemma codec_of_total (T : Type) `{Ser T} : @CodecTotal T (codec_of T).
Proof. intros x. by eexists. Qed.

Definition no_codec (T : Type) : Codec T := {| External.encode _ := Err "encode"; External.decode _ := Err "decode" |}.

(** The formats of the wire types. *)
Definition entity_of (n : Z) : Entity := default Node (entities !! Z.to_nat (n - 1)).
Definition action_of (n : Z) : Action := default OnLine (actions !! Z.to_nat (n - 1)).

#[export] Instance ser_command : Ser P2PCommand.
Proof.
  refine (ser_via (fun c => (entity_u32 (cmd_entity c), action_u32 (cmd_action c), cmd_data c))
                  (fun '(e, a, d) => mk_command (entity_of e) (action_of a) d) _).
  by intros [[] [] d].
Defined.
#[export] Instance ser_body : Ser FrameBody.
Proof.
  refine (ser_via (fun b => (fb_version b, fb_address b, fb_public_key b, fb_nonce b, fb_data_length b, fb_data b))
                  (fun '(v, a, k, n, l, d) => mk_body v a k n l d) _).
  by intros [].
Defined.
#[export] Instance ser_frame : Ser P2PFrame.
Proof. refine (ser_via (fun f => (pf_body f, pf_signature f)) (fun '(b, s) => mk_frame b s) _). by intros []. Defined.
#[export] Instance ser_message : Ser MessageCommand.
Proof.
  refine (ser_via (fun m => (mc_sender m, mc_receiver m, mc_request_id m, mc_timestamp m, mc_message m))
                  (fun '(s, r, i, t, m) => mk_message s r i t m) _).
  by intros [].
Defined.
#[export] Instance ser_message_ack : Ser MessageAckCommand.
Proof. refine (ser_via ma_request_id mk_message_ack _). by intros []. Defined.
#[export] Instance ser_seed : Ser SeedRecord.
Proof.
  refine (ser_via (fun s => (sr_address s, sr_node_address s, sr_first_seen s)) (fun '(a, n, t) => mk_seed a n t) _).
  by intros [].
Defined.
#[export] Instance ser_seeds : Ser SeedsCommand.
Proof. refine (ser_via (fun c => (sc_seeds c, sc_hash c)) (fun '(l, h) => mk_seeds l h) _). by intros []. Defined.
#[export] Instance ser_node : Ser ToyNode.
Proof. refine (ser_via (fun n => (tn_id n, tn_port n)) (fun '(i, p) => mk_toy_node i p) _). by intros []. Defined.
#[export] Instance ser_aex_node : Ser AexNode := ser_node.
#[export] Instance ser_online : Ser OnlineCommand.
Proof.
  refine (ser_via (fun o => (on_session_id o, on_node o, on_ephemeral o, on_intranet_ips o, on_wan_ips o, on_seeds o))
                  (fun '(i, n, e, li, lw, s) => mk_online i n e li lw s) _).
  by intros [].
Defined.
#[export] Instance ser_online_ack : Ser OnlineAckCommand.
Proof.
  refine (ser_via (fun o => (oa_session_id o, oa_address o, oa_node o, oa_ephemeral o, oa_intranet_ips o,
                             oa_wan_ips o, oa_seeds o))
                  (fun '(i, a, n, e, li, lw, s) => mk_online_ack i a n e li lw s) _).
  by intros [].
Defined.
#[export] Instance ser_tick : Ser TickCommand.
Proof.
  refine (ser_via (fun t => (tk_daily_epoch t, tk_slot t, tk_challenge t, tk_seeds t, tk_ring_hash t))
                  (fun '(d, s, c, o, h) => mk_tick d s c o h) _).
  by intros [].
Defined.
#[export] Instance ser_node_sync_request : Ser NodeSyncRequest.
Proof.
  refine (ser_via (fun q => (nq_request_id q, nq_node_id q, nq_sync_type q)) (fun '(i, n, t) => mk_node_sync_request i n t) _).
  by intros [].
Defined.
#[export] Instance ser_validate_response : Ser WitnessValidateResponse.
Proof.
  refine (ser_via (fun q => (vp_sender_id q, vp_nonce q)) (fun '(i, n) => mk_validate_response i n) _). by intros [].
Defined.

#[export] Instance toy_frame_codecs : FrameCodecs := {|
  codec_command := codec_of _; codec_body := codec_of _; codec_frame := codec_of _;
  codec_message := codec_of _; codec_message_ack := codec_of _;
|}.
#[export] Instance toy_frame_laws : FrameCodecsLaws.
Proof. split; apply codec_of_laws. Qed.

#[export] Instance toy_frame_total : FrameCodecsTotal.
Proof. split; apply codec_of_total. Qed.

#[export] Instance toy_handshake_codecs : HandshakeCodecs := {|
  codec_online := codec_of _; codec_online_ack := codec_of _;
|}.
#[export] Instance toy_message_laws : CodecLaws MessageCommand.
Proof. apply codec_of_laws. Qed.
#[export] Instance toy_message_ack_laws : CodecLaws MessageAckCommand.
Proof. apply codec_of_laws. Qed.
#[export] Instance toy_online_laws : CodecLaws OnlineCommand.
Proof. apply codec_of_laws. Qed.
#[export] Instance toy_online_ack_laws : CodecLaws OnlineAckCommand.
Proof. apply codec_of_laws. Qed.

#[export] Instance toy_message_total : CodecTotal MessageCommand.
Proof. apply codec_of_total. Qed.
#[export] Instance toy_message_ack_total : CodecTotal MessageAckCommand.
Proof. apply codec_of_total. Qed.
#[export] Instance toy_online_total : CodecTotal OnlineCommand.
Proof. apply codec_of_total. Qed.
#[export] Instance toy_online_ack_total : CodecTotal OnlineAckCommand.
Proof. apply codec_of_total. Qed.

#[export] Instance toy_seed_sync_codecs : SeedSyncCodecs := {|
  codec_sync_request := no_codec _; codec_sync_response := no_codec _; codec_sync_commit := no_codec _;
|}.
#[export] Instance toy_sync_codecs : SyncCodecs := {|
  codec_node_sync_request := codec_of _; codec_node_sync_response := no_codec _;
  codec_validate_request := no_codec _; codec_validate_response := codec_of _;
|}.
#[export] Instance toy_wire : WireCodecs := {|
  wire_frame := toy_frame_codecs; wire_handshake := toy_handshake_codecs;
  wire_seed_sync := toy_seed_sync_codecs; wire_sync := toy_sync_codecs; wire_tick := codec_of _;
|}.

(** ** Two small nodes *)

Definition sock4 (a b c d port : Z) : SocketAddr := SockV4 (mk_v4 a b c d) port.

(** A node named [name] at [addr] that holds [r], with writable connections
    to [peer]. *)
Definition toy_world (name : string) (addr peer : SocketAddr) (r : registry) : World :=
  mk_world
    (mk_gctx addr (mk_toy_node (as_bytes name) (sock_port addr)) (Some 0%nat) (mk_toy_manager [] []) (Some name)
       (Some (mk_p2p_node r [])) (Some ∅) (Some {[7]}) (Some []) None None None None None)
    (fun _ => mk_ctx peer None true []) [] [] [] 0 0 (mk_process None (Some []) (Some (1%nat, []))).
