(* ===== verification/FilesToy.v ===== *)
(** * A file system in memory

    An instance of [Fs] with proofs of its laws: a map from places to files
    ([Some b]) and directories ([None]). *)

From S2P Require Import Prelude Utf8 Text Files.
Open Scope Z_scope.
Open Scope stdpp_scope.

Abbreviation MemFs := (gmap place (option bytes)) (only parsing).
Fixpoint tails (p : place) : list place := p :: match p with [] => [] | _ :: p' => tails p' end.

Definition mem_cwd : place := ["srv"].
Definition mem_where (p : string) : place := resolve mem_cwd p.
Definition mem_is_file (s : MemFs) (p : place) : bool := match s !! p with Some (Some _) => true | _ => false end.
Definition mem_mkdir (p : string) : state MemFs (io unit) := fun s =>
  if existsb (mem_is_file s) (tails (mem_where p)) then (IoErr false "Not a directory", s)
  else (IoOk tt, foldr (fun d => <[d := None]>) s (tails (mem_where p))).
(** A file can be made where no directory is, in a directory that is there. *)
Definition mem_can_write (s : MemFs) (p : place) : bool :=
  bool_decide (s !! p ≠ Some None) && bool_decide (s !! tail p = Some None).
Definition mem_write (p : string) (data : bytes) : state MemFs (io unit) := fun s =>
  if mem_can_write s (mem_where p) then (IoOk tt, <[mem_where p := Some data]> s)
  else (IoErr true "No such file or directory", s).
Definition mem_create (p : string) : state MemFs (io place) := fun s =>
  if mem_can_write s (mem_where p) then (IoOk (mem_where p), <[mem_where p := Some []]> s)
  else (IoErr true "No such file or directory", s).
Definition mem_append (f : place) (data : bytes) : state MemFs (io unit) := fun s =>
  match s !! f with
  | Some (Some old) => (IoOk tt, <[f := Some (old ++ data)]> s)
  | _ => (IoOk tt, s)
  end.
Definition mem_read (p : string) : state MemFs (io bytes) := fun s =>
  (match s !! mem_where p with
   | Some (Some b) => IoOk b
   | Some None => IoErr false "Is a directory"
   | None => IoErr true "No such file or directory"
   end, s).
Definition mem_remove (p : string) : state MemFs (io unit) := fun s =>
  match s !! mem_where p with
  | Some (Some _) => (IoOk tt, delete (mem_where p) s)
  | Some None => (IoErr false "Is a directory", s)
  | None => (IoErr true "No such file or directory", s)
  end.
Definition mem_names (s : MemFs) (p : place) : list string :=
  omap (fun q : place => match q with n :: d => if decide (d = p ∧ plain n) then Some n else None | [] => None end)
    (map_to_list s).*1.
Definition mem_entry (s : MemFs) (p : place) (n : string) : DirEntry :=
  mk_dir_entry n (IoOk (if mem_is_file s (n :: p) then IsFile else IsDir)).
Definition mem_read_dir (p : string) : state MemFs (io (list (io DirEntry))) := fun s =>
  (match s !! mem_where p with
   | Some None => IoOk ((fun n => IoOk (mem_entry s (mem_where p) n)) <$> mem_names s (mem_where p))
   | Some (Some _) => IoErr false "Not a directory"
   | None => IoErr true "No such file or directory"
   end, s).

#[export] Instance mem_fs : Fs MemFs := {|
  fs_cwd := mem_cwd;
  FsFile := place;
  fs_create_dir_all := mem_mkdir;
  fs_create := mem_create;
  fs_write_all := mem_append;
  fs_flush _ := mret (IoOk tt);
  fs_write := mem_write;
  fs_read := mem_read;
  fs_remove_file := mem_remove;
  fs_read_dir := mem_read_dir;
|}.

Definition mem_files (s : MemFs) : gmap place bytes := omap id s.
Definition mem_dirs (s : MemFs) : gset place := dom (filter (fun kv : place * option bytes => kv.2 = None) s).

Lemma mem_files_lookup s p : mem_files s !! p = s !! p ≫= id.
Proof. apply lookup_omap. Qed.
Lemma mem_dirs_elem s p : p ∈ mem_dirs s ↔ s !! p = Some None.
Proof.
  unfold mem_dirs. rewrite elem_of_dom. unfold is_Some. setoid_rewrite map_lookup_filter_Some. cbn.
  split; [by intros (x & H & ->)|eauto].
Qed.
Lemma mem_files_insert s p b : mem_files (<[p := Some b]> s) = <[p := b]> (mem_files s).
Proof. unfold mem_files. by apply omap_insert_Some. Qed.
Lemma mem_dirs_insert s p b : s !! p ≠ Some None → mem_dirs (<[p := Some b]> s) = mem_dirs s.
Proof.
  intros H. apply set_eq. intros q. rewrite !mem_dirs_elem. destruct (decide (q = p)) as [->|].
  - by rewrite lookup_insert_eq.
  - by rewrite lookup_insert_ne.
Qed.

Lemma elem_of_tails d p : d ∈ tails p ↔ d `suffix_of` p.
Proof.
  induction p as [|n p IH]; cbn.
  - rewrite list_elem_of_singleton. split; [by intros ->|]. intros [k E]. symmetry in E. by apply app_eq_nil in E as [_ ->].
  - rewrite elem_of_cons, IH. split; [intros [->|H]; [done|by apply suffix_cons_r]|].
    intros [k E]. destruct k as [|x k]; [by left|right]. injection E as -> ->. by exists k.
Qed.

(** Making directories makes no file and hides none. *)
Lemma foldr_mkdir (s : MemFs) l p :
  foldr (fun d : place => <[d := None]>) s l !! p = if decide (p ∈ l) then Some None else s !! p.
Proof.
  induction l as [|d l IH]; cbn; [by rewrite decide_False by set_solver|].
  destruct (decide (p = d)) as [->|Hne].
  - rewrite lookup_insert_eq, decide_True by set_solver. done.
  - rewrite lookup_insert_ne, IH by done. case_decide; [rewrite decide_True by set_solver|rewrite decide_False by set_solver]; done.
Qed.

Lemma mem_mkdir_files p s r s' : mem_mkdir p s = (r, s') → mem_files s' = mem_files s.
Proof.
  unfold mem_mkdir. destruct (existsb _ _) eqn:E; intros [= <- <-]; [done|]. apply map_eq. intros q.
  rewrite !mem_files_lookup, foldr_mkdir. case_decide as Hq; [|done].
  destruct (s !! q) as [[b|]|] eqn:Es; [|done..]. exfalso.
  assert (Ht : existsb (mem_is_file s) (tails (mem_where p)) = true); [|congruence].
  apply existsb_exists. exists q. split; [by apply list_elem_of_In|]. unfold mem_is_file. by rewrite Es.
Qed.

Lemma mem_mkdir_dirs p s r s' : mem_mkdir p s = (r, s') →
  mem_dirs s ⊆ mem_dirs s' ∧
  (∀ d, d ∈ mem_dirs s' → d ∈ mem_dirs s ∨ d `suffix_of` mem_where p) ∧
  (r = IoOk tt → ∀ d, d `suffix_of` mem_where p → d ∈ mem_dirs s').
Proof.
  unfold mem_mkdir. destruct (existsb _ _); intros [= <- <-]; [split_and!; [done|by left|done]|]. split_and!.
  - intros d. rewrite !mem_dirs_elem, foldr_mkdir. by case_decide.
  - intros d. rewrite !mem_dirs_elem, foldr_mkdir. case_decide as Hd; [right; by apply elem_of_tails|by left].
  - intros _ d Hd. rewrite mem_dirs_elem, foldr_mkdir, decide_True; [done|by apply elem_of_tails].
Qed.

Lemma mem_names_spec s p n : n ∈ mem_names s p ↔ plain n ∧ is_Some (s !! (n :: p)).
Proof.
  unfold mem_names. rewrite list_elem_of_omap. setoid_rewrite list_elem_of_fmap. split.
  - intros (q & ([q' v] & -> & Hin) & E). apply elem_of_map_to_list in Hin. cbn in *. destruct q' as [|m d]; [done|].
    case_decide as Hd; [|done]. injection E as ->. destruct Hd as [-> Hn]. split; [done|]. by exists v.
  - intros (Hn & v & Hv). exists (n :: p). split; [|by rewrite decide_True].
    exists (n :: p, v). split; [done|]. by apply elem_of_map_to_list.
Qed.

Lemma mem_names_nodup s p : NoDup (mem_names s p).
Proof.
  unfold mem_names. pose proof (NoDup_fst_map_to_list s) as Hn. induction (map_to_list s).*1 as [|q l IH]; cbn; [constructor|].
  apply NoDup_cons in Hn as [Hq Hn]. destruct q as [|n d]; [by apply IH|]. case_decide as Hd; [|by apply IH].
  constructor; [|by apply IH]. destruct Hd as [-> Hp]. intros (q & Hin & E)%list_elem_of_omap. destruct q as [|m d]; [done|].
  case_decide as Hd; [|done]. injection E as ->. by destruct Hd as [-> _].
Qed.

Lemma mem_can_write_no_dir s p : mem_can_write s p = true → s !! p ≠ Some None.
Proof. unfold mem_can_write. intros [H _]%andb_true_iff. by apply bool_decide_eq_true in H. Qed.

Lemma mem_write_effect p data s r s' : mem_write p data s = (r, s') →
  mem_dirs s' = mem_dirs s ∧
  match r with
  | IoOk _ => mem_files s' = <[mem_where p := data]> (mem_files s)
  | IoErr _ _ => mem_files s' = mem_files s ∨ ∃ k, mem_files s' = <[mem_where p := take k data]> (mem_files s)
  end.
Proof.
  unfold mem_write. destruct (mem_can_write _ _) eqn:E; intros [= <- <-]; [|by split; [|left]].
  split; [by apply mem_dirs_insert, mem_can_write_no_dir|apply mem_files_insert].
Qed.

Lemma mem_write_flush_effect f data s p old r s' :
  f = p → mem_files s !! p = Some old → write_flush (f : FsFile) data s = (r, s') →
  mem_dirs s' = mem_dirs s ∧
  match r with
  | Ok _ => mem_files s' = <[p := old ++ data]> (mem_files s)
  | Err _ => ∃ k, mem_files s' = <[p := old ++ take k data]> (mem_files s)
  end.
Proof.
  intros -> Hf. rewrite mem_files_lookup in Hf. apply bind_Some in Hf as (x & Hf & Hx). cbn in Hx. subst x.
  unfold write_flush, try_bind, lift_io, mbind, state_bind. cbn. unfold mem_append. rewrite Hf. cbn. intros [= <- <-].
  split; [apply mem_dirs_insert; congruence|apply mem_files_insert].
Qed.

Lemma mem_read_dir_effect p s r s' : mem_read_dir p s = (r, s') →
  mem_dirs s' = mem_dirs s ∧ mem_files s' = mem_files s ∧
  match r with
  | IoOk l =>
      NoDup (omap (fun e => match e with IoOk e => Some (de_name e) | IoErr _ _ => None end) l) ∧
      (∀ e, IoOk e ∈ l → plain (de_name e)) ∧
      (∀ e t, IoOk e ∈ l → de_type e = IoOk t →
         (t = IsDir ↔ de_name e :: mem_where p ∈ mem_dirs s) ∧
         (t = IsFile ↔ is_Some (mem_files s !! (de_name e :: mem_where p)))) ∧
      (Forall (fun e => match e with IoOk _ => True | IoErr _ _ => False end) l →
         ∀ n, plain n → n :: mem_where p ∈ mem_dirs s ∨ is_Some (mem_files s !! (n :: mem_where p)) →
         ∃ e, IoOk e ∈ l ∧ de_name e = n)
  | IoErr not_found _ => not_found = true → ".." ∉ components p → mem_where p ∉ mem_dirs s
  end.
Proof.
  unfold mem_read_dir. intros [= <- <-]. split_and!; [done..|].
  destruct (s !! mem_where p) as [[b|]|] eqn:Ep; [done| |by intros _ _; rewrite mem_dirs_elem, Ep].
  assert (Hin : ∀ e, IoOk e ∈ (fun n => IoOk (mem_entry s (mem_where p) n)) <$> mem_names s (mem_where p) →
    plain (de_name e) ∧ is_Some (s !! (de_name e :: mem_where p)) ∧ e = mem_entry s (mem_where p) (de_name e)).
  { intros e (n & [= ->] & Hn)%list_elem_of_fmap. by apply mem_names_spec in Hn as [? ?]. }
  split_and!.
  - assert (omap (fun e => match e with IoOk e => Some (de_name e) | IoErr _ _ => None end)
      ((fun n => IoOk (mem_entry s (mem_where p) n)) <$> mem_names s (mem_where p)) = mem_names s (mem_where p)) as ->.
    { clear Hin. induction (mem_names s (mem_where p)) as [|n l IH]; [done|]. cbn. f_equal. exact IH. }
    apply mem_names_nodup.
  - intros e He. by apply Hin in He as (? & _).
  - intros e t (_ & [v Hv] & Heq)%Hin Ht. rewrite Heq in Ht. unfold mem_entry in Ht. cbn in Ht.
    rewrite mem_dirs_elem, mem_files_lookup. unfold mem_is_file in Ht. rewrite Hv in *.
    destruct v as [b|]; injection Ht as <-; cbn; split; split; intros H; done.
  - intros _ n Hn H. exists (mem_entry s (mem_where p) n). split; [|done]. apply list_elem_of_fmap. exists n.
    split; [done|]. apply mem_names_spec. split; [done|]. rewrite mem_dirs_elem, mem_files_lookup in H.
    destruct (s !! (n :: mem_where p)) as [v|]; [by eexists|]. destruct H as [H|[? H]]; done.
Qed.

#[export] Instance mem_fs_laws : FsLaws MemFs.
Proof.
  refine {| fs_files := mem_files; fs_dirs := mem_dirs; fs_open _ f := Some (f : place) |}.
  - apply mem_mkdir_files.
  - apply mem_mkdir_dirs.
  - intros p s r s'. cbn. unfold mem_create. destruct (mem_can_write _ _) eqn:E; intros [= <- <-]; [|done].
    split; [by apply mem_dirs_insert, mem_can_write_no_dir|]. split; [apply mem_files_insert|done].
  - intros f data s p old r s' [= ->]. by apply mem_write_flush_effect.
  - apply mem_write_effect.
  - intros p s r s'. cbn. unfold mem_read. intros [= <- <-]. split_and!; [done..|]. change (where_ p) with (mem_where p).
    destruct (s !! mem_where p) as [[b|]|] eqn:E; cbn; rewrite ?mem_files_lookup, ?E; done.
  - intros p s r s'. cbn. unfold mem_remove. change (where_ p) with (mem_where p).
    destruct (s !! mem_where p) as [[b|]|] eqn:E; intros [= <- <-].
    + split.
      * apply set_eq. intros q. rewrite !mem_dirs_elem. destruct (decide (q = mem_where p)) as [->|];
          [rewrite lookup_delete_eq, E; done|by rewrite lookup_delete_ne].
      * split; [rewrite mem_files_lookup, E; by eexists|]. unfold mem_files. by rewrite omap_delete.
    + split; [done|]. by split.
    + split; [done|]. split; [done|]. intros _ _. by rewrite mem_files_lookup, E.
  - apply mem_read_dir_effect.
Defined.
