(* ===== verification/Witnesses.v ===== *)
(** * The theorems on concrete inputs

    One closed lemma for each theorem that has hypotheses: it applies the
    theorem to the instance of [Toy] at an input where the hypotheses hold. *)

From S2P Require Import Prelude NetAddr External Command NodeRegistry Seeds World Frame Evolution Message Handshake.
From S2P Require Import SeedSync Tick NodeSync SyncChannel Interleave Pieces Overtake Router Record P2PNode Entries Serve Toy.
Open Scope Z_scope.
Open Scope stdpp_scope.

(** ** Inputs *)

Definition alice : @Address (@crates_account toy) := "alice".
Definition bob : @Address (@crates_account toy) := "bob".
Definition mallory : @Address (@crates_account toy) := "mallory".

Definition sa : SocketAddr := sock4 10 0 0 1 9000.
Definition sb : SocketAddr := sock4 10 0 0 2 9001.
Definition reg_a : registry := register 1 "alice" sa Intranet new_registry.
Definition reg_b : registry := register 1 "bob" sb Intranet new_registry.
Definition wa : World := toy_world "alice" sa sb reg_a.
Definition wb : World := toy_world "bob" sb sa reg_b.

Definition hello : OnlineCommand :=
  mk_online [Byte.x01] (mk_toy_node (as_bytes "alice") 9000) [Byte.x02] [] [] None.
Definition hello_frame : P2PFrame :=
  mk_frame (mk_body 1 "alice" (as_bytes "alice") 0 0 []) [].
Definition encoded {T} `{Codec T} (x : T) : bytes := unwrap_or [] (encode x).

Definition greeting : MessageCommand := mk_message "bob" "alice" 7 5 "hi".
Definition from_bob (e : Entity) (a : Action) (d : bytes) : P2PFrame * P2PCommand :=
  (mk_frame (mk_body 1 "bob" (as_bytes "bob") 0 0 []) [], mk_command e a d).
Definition greeting_in : input :=
  let '(f, c) := from_bob Message SendText (encoded greeting) in InMessage 0 f c.
Definition ack_in : input :=
  let '(f, c) := from_bob Message MessageAck (encoded (mk_message_ack 7)) in InAck 0 f c.

(** ** Handshake and frames *)

(** Both halves: each node has the other on record at the end. *)
Lemma two_node_handshake_witness :
  let wa1 := exec (send 0 (Some hello) Node OnLine false) wa in
  ∃ f cmd f' cmd',
    let wb1 := exec (dispatch 1 f cmd) wb in
    recorded wb1 1 "alice" sa Inbound ∧ length (ctx_out (w_ctx wb1 1)) = 1%nat ∧
    recorded (exec (dispatch 0 f' cmd') wa1) 0 "bob" (ctx_addr (w_ctx wa 0)) Outbound.
Proof.
  cbv zeta.
  assert (Ha : ready wa 0 alice) by (repeat split; try (by eexists)).
  assert (Hb : ready wb 1 bob) by (repeat split; try (by eexists)).
  destruct (two_node_handshake 0 1 alice bob hello wa wb Ha Hb ltac:(discriminate))
    as (f & raw & cmd & _ & _ & _ & Hr & Hans).
  destruct (Hans [Byte.x03] ltac:(vm_compute; reflexivity)) as (f' & raw' & cmd' & ack & Ho & _ & _ & _ & _ & _ & Hr').
  exists f, cmd, f', cmd'. split; [exact Hr|]. split; [rewrite Ho; reflexivity|exact Hr'].
Defined.

(** ** An accepted connection *)

#[export] Instance toy_server : ServerManager := fun m a _ c =>
  mk_toy_manager (tm_dialled m) (mk_entry a (Some c) None :: List.filter (fun e => negb (bool_decide (entry_addr e = a))) (tm_clients m)).

Lemma find_filter_other (l : list (ConnectionEntry ToyNode)) a b :
  b ≠ a → List.find (fun e => bool_decide (entry_addr e = b)) (List.filter (fun e => negb (bool_decide (entry_addr e = a))) l) =
          List.find (fun e => bool_decide (entry_addr e = b)) l.
Proof.
  intros Hne. induction l as [|e l IH]; [done|]. cbn. case_bool_decide as Ea; cbn; [rewrite bool_decide_false by congruence; exact IH|].
  case_bool_decide; [done|exact IH].
Qed.

Lemma find_update (l : list (ConnectionEntry ToyNode)) a b n :
  List.find (fun e => bool_decide (entry_addr e = b))
    ((fun e => if decide (entry_addr e = a) then mk_entry (entry_addr e) (entry_ctx e) (Some n) else e) <$> l) =
  (if decide (b = a) then with_node_info n else id) <$> List.find (fun e => bool_decide (entry_addr e = b)) l.
Proof.
  induction l as [|e l IH]; [done|]. cbn.
  assert (E : entry_addr (if decide (entry_addr e = a) then mk_entry (entry_addr e) (entry_ctx e) (Some n) else e) = entry_addr e)
    by (destruct (decide (entry_addr e = a)); reflexivity).
  rewrite E. case_bool_decide as Eb; [|exact IH]. cbn. f_equal. subst b. by destruct (decide (entry_addr e = a)).
Qed.

#[export] Instance toy_manager_laws : ManagerLaws.
Proof.
  split; unfold client; cbn; unfold toy_client; cbn.
  - intros m a c. rewrite bool_decide_true by done. by eexists.
  - intros m a b c Hne. rewrite bool_decide_false by congruence. by apply find_filter_other.
  - intros m a n. unfold toy_update. cbn. rewrite find_update. by rewrite decide_True.
  - intros m [] a b n Hs; [|done]. destruct Hs as [Hs|Hne]; [done|]. unfold toy_update. cbn.
    rewrite find_update, decide_False by congruence. by rewrite option_fmap_id.
  - done.
  - done.
  - intros m a b s Hne. by apply find_filter_other.
Qed.

Definition served_by_bob : Server :=
  mk_server [mk_accepted sa 1 Routing false] (set_w_g (set_g_manager (mgr_add (g_manager (w_g wb)) sa true 1) (w_g wb)) wb).

Lemma entry_before_frames_witness :
  let f := (from_bob Node OnLine (encoded hello)).1 in
  rtc serve_step (mk_server [] wb) served_by_bob ∧
  client (g_manager (w_g (exec (dispatch 1 f (mk_command Node OnLine (encoded hello))) (sv_world served_by_bob)))) sa =
  Some (mk_entry sa (Some 1%nat) (Some (on_node hello))).
Proof.
  intros f.
  assert (Hrun : rtc serve_step (mk_server [] wb) served_by_bob).
  { eapply rtc_l; [apply (accept_connection [] wb sa 1); [reflexivity|intros x Hx; inversion Hx]|].
    eapply rtc_l; [apply (add_entry [] sa 1 false [])|].
    eapply rtc_l; [apply (send_entry_added [] sa 1 false [])|].
    eapply rtc_l; [apply (receive_entry_added [] sa 1 false [])|]. apply rtc_refl. }
  split; [exact Hrun|].
  destruct (entry_before_frames wb served_by_bob (mk_accepted sa 1 Routing false) Hrun
    ltac:(apply list_elem_of_here) eq_refl eq_refl) as (_ & Hon & _).
  apply Hon; [vm_compute; reflexivity|discriminate].
Defined.

Lemma send_spec_witness :
  let w' := exec (send 0 (Some hello) Node OnLine false) wa in
  eval (send 0 (Some hello) Node OnLine false) wa = Ok tt ∧ io_step wa w'.
Proof.
  split; [vm_compute; reflexivity|].
  exact (proj2 (send_spec 0 (Some hello) Node OnLine false wa
    (eval (send 0 (Some hello) Node OnLine false) wa) _ (surjective_pairing _))).
Defined.

Lemma build_round_trip_witness :
  let cmd := command_new Node OffLine [Byte.x05] in
  ∃ f raw, eval (build alice cmd 1) wa = Ok f ∧ encode f = Ok raw ∧ verify_bytes raw = Ok f ∧
    frame_carries alice cmd 1 f.
Proof.
  set (cmd := command_new Node OffLine [Byte.x05]). cbn zeta.
  destruct (eval (build alice cmd 1) wa) as [f|e] eqn:E; [|vm_compute in E; discriminate].
  exists f, (encoded f). split; [reflexivity|]. split; [reflexivity|].
  exact (build_round_trip alice cmd 1 wa f (encoded f) E eq_refl).
Defined.

Lemma verify_does_not_bind_address_witness :
  ∃ f, verify f = Ok f ∧ fb_address (pf_body f) = "bob" ∧ fb_public_key (pf_body f) = as_bytes "mallory".
Proof.
  pose (body := mk_body 1 "bob" (as_bytes "mallory") 0 0 []).
  assert (He : encode body = Ok (encoded body)) by (vm_compute; reflexivity).
  destruct (verify_does_not_bind_address mallory "bob" 1 0 [] (encoded body) He) as (f & Hs & Hv & _ & Hf).
  exists f. split; [exact Hv|]. split; [exact Hf|].
  assert (E : fb_public_key (pf_body f) = as_bytes "mallory") by (injection Hs as <-; reflexivity). exact E.
Defined.

Lemma online_handshake_reply_witness :
  key_offered "alice" hello wb = Some [Byte.x03] ∧
  ∃ ack, oa_session_id ack = [Byte.x01] ∧ oa_ephemeral ack = [Byte.x03] ∧ oa_address ack = "bob" ∧
    length (ctx_out (w_ctx (exec (online_handshake 1 hello_frame hello) wb) 1)) = 1%nat.
Proof.
  assert (Hk : key_offered "alice" hello wb = Some [Byte.x03]) by (vm_compute; reflexivity).
  split; [exact Hk|].
  pose proof (online_handshake_reply 1 hello_frame hello wb) as H. cbv zeta in H.
  change (fb_address (pf_body hello_frame)) with "alice" in H. rewrite Hk in H.
  destruct H as (a & ack & pay & f & raw & l & Ha & (Hs & Hn & _) & He & _ & _ & _ & Ho & _).
  injection Ha as <-. exists ack. split; [exact Hs|]. split; [exact He|]. split; [exact Hn|]. rewrite Ho. reflexivity.
Defined.

(** Bob gossips a node that sorts above alice and that she does not know. *)
Definition carol_seed : SeedRecord := mk_seed "10.0.0.3:9002" "carol" 3.
Definition gossip_of (l : list SeedRecord) : OnlineCommand :=
  mk_online [] (mk_toy_node (as_bytes "bob") 9001) zero_key [] [] (Some (seeds_command_new l)).
Definition gossip_cmd (l : list SeedRecord) : P2PCommand := mk_command Node OnLine (encoded (gossip_of l)).
Definition bob_frame : P2PFrame := mk_frame (mk_body 1 "bob" (as_bytes "bob") 0 0 []) [].

Lemma handlers_plan_allowed_connects_witness :
  let w' := exec (online_handler 0 bob_frame (gossip_cmd [carol_seed])) wa in
  planned wa w' (TConnect 0 (sock4 10 0 0 3 9002) "carol") ∧
  ∃ r, reg_of wa = Some r ∧ is_connected "carol" r = false.
Proof.
  assert (Hp : planned wa (exec (online_handler 0 bob_frame (gossip_cmd [carol_seed])) wa)
                 (TConnect 0 (sock4 10 0 0 3 9002) "carol")).
  { exists (w_tasks (exec (online_handler 0 bob_frame (gossip_cmd [carol_seed])) wa)). split; [reflexivity|].
    apply (list_elem_of_lookup_2 _ 0). vm_compute. reflexivity. }
  split; [exact Hp|].
  destruct (handlers_plan_allowed_connects false 0 bob_frame (gossip_cmd [carol_seed]) wa 0
    (sock4 10 0 0 3 9002) "carol" Hp) as (r & Hr & Hc & _).
  exists r. exact (conj Hr Hc).
Defined.

Definition forged : OnlineCommand :=
  mk_online [] (mk_toy_node (as_bytes "bob") 9001) zero_key [] [] (Some (mk_seeds [carol_seed] [])).

Lemma unverified_seeds_ignored_witness :
  only_peer "bob" wa (exec (online_handler 0 bob_frame (mk_command Node OnLine (encoded forged))) wa).
Proof.
  apply (proj1 (unverified_seeds_ignored 0 bob_frame (mk_command Node OnLine (encoded forged)) wa) forged).
  - vm_compute. reflexivity.
  - vm_compute. reflexivity.
Defined.

Lemma gossip_quiesces_witness :
  let w' := exec (gossip_merge 0 (seeds_command_new [mk_seed "10.0.0.1:9000" "alice" 3])) wa in
  reg_of w' = Some reg_a.
Proof.
  refine (proj1 (gossip_quiesces 0 (seeds_command_new [mk_seed "10.0.0.1:9000" "alice" 3]) wa reg_a eq_refl _)).
  vm_compute. repeat constructor.
Defined.

(** ** Messages *)

Lemma delivery_at_most_once_witness :
  ∃ got, g_inbox (w_g (exec (handle_inputs [greeting_in; ack_in; greeting_in]) wa)) = Some got ∧ NoDup got ∧
    got = [mk_incoming "bob" "hi" 5].
Proof.
  destruct (delivery_at_most_once [greeting_in; ack_in; greeting_in] alice wa eq_refl eq_refl eq_refl
    ltac:(vm_compute; discriminate)) as (got & Hg & Hn).
  exists got. split; [exact Hg|]. split; [exact Hn|].
  assert (E : g_inbox (w_g (exec (handle_inputs [greeting_in; ack_in; greeting_in]) wa)) =
              Some [mk_incoming "bob" "hi" 5]) by (vm_compute; reflexivity).
  rewrite E in Hg. injection Hg as <-. reflexivity.
Defined.

(** The two handlers of a repeated message overtake each other: the later one
    looks first. *)
Lemma interleaved_delivery_witness :
  let p := take_turns [0; 2; 2; 1; 0; 1; 2; 1; 2; 2]%nat (mk_pool (call <$> [greeting_in; ack_in; greeting_in]) wa []) in
  g_inbox (w_g (po_world p)) = Some [mk_incoming "bob" "hi" 5] ∧ w_confirmed (po_world p) = [7] ∧
  NoDup [mk_incoming "bob" "hi" 5].
Proof.
  intros p.
  destruct (interleaved_delivery [greeting_in; ack_in; greeting_in] alice {[7]} wa p eq_refl eq_refl eq_refl eq_refl
    ltac:(vm_compute; discriminate) (take_turns_run _ _)) as ((got & Hg & Hn & _) & _).
  assert (E : g_inbox (w_g (po_world p)) = Some [mk_incoming "bob" "hi" 5]) by (vm_compute; reflexivity).
  split; [exact E|]. split; [vm_compute; reflexivity|]. rewrite E in Hg. injection Hg as <-. exact Hn.
Defined.

(** Nobody at alice's waits for this one: bob's connection is handed it. *)
Definition stray_ack : P2PFrame * P2PCommand := from_bob Message MessageAck (encoded (mk_message_ack 99)).
Definition connected_world : World := set_w_g (set_g_manager (mk_toy_manager [(sb, 0%nat)] []) (w_g wa)) wa.

Lemma confirmed_once_witness :
  ∃ new, w_confirmed (exec (handle_inputs [ack_in; ack_in]) wa) = new ∧ NoDup new ∧ new = [7].
Proof.
  destruct (confirmed_once [ack_in; ack_in] {[7]} wa eq_refl) as (new & Hc & Hn & _).
  exists new. split; [exact Hc|]. split; [exact Hn|].
  assert (E : w_confirmed (exec (handle_inputs [ack_in; ack_in]) wa) = [7]) by (vm_compute; reflexivity).
  rewrite E in Hc. exact (eq_sym Hc).
Defined.

Lemma seen_insert_spec_witness : (seen_insert "k" ∅).2 = {["k"]} ∪ ∅.
Proof.
  destruct (seen_insert_spec "k" ∅) as (_ & _ & Hs & _); [vm_compute; discriminate|].
  apply Hs. vm_compute. reflexivity.
Defined.

(** ** Registry and seeds *)

Lemma registry_invariant_witness :
  let r := register 1 "alice" sa Intranet new_registry in
  let r' := (try_connect 2 "alice" r).2 in
  registry_wf r' ∧ registry_le r r'.
Proof.
  cbn zeta. apply registry_invariant; apply rtc_once; constructor.
Defined.

Definition set_of (l : list string) : SeedSet :=
  seed_set_new ((fun ip => mk_info ip 9000 "n" true true 0 0 0) <$> l) 0.

(** An address the first set has twice stays twice. *)
Lemma merge_spec_witness :
  let a := set_of ["10.0.0.1"; "10.0.0.1"] in
  let b := set_of ["10.0.0.2"; "127.0.0.1"; "10.0.0.1"; "10.0.0.2"] in
  ss_seeds (merge a b) = ss_seeds (set_of ["10.0.0.1"; "10.0.0.1"; "10.0.0.2"]) ∧
  seed_set_verify (merge a b) = true ∧ ¬ NoDup (si_address <$> ss_seeds (merge a b)).
Proof.
  cbv zeta.
  destruct (merge_spec (set_of ["10.0.0.1"; "10.0.0.1"]) (set_of ["10.0.0.2"; "127.0.0.1"; "10.0.0.1"; "10.0.0.2"]))
    as (_ & _ & Hn & _ & _ & _ & Hv).
  split; [vm_compute; reflexivity|]. split; [exact Hv|]. rewrite Hn.
  apply (bool_decide_eq_false_1 _). vm_compute. reflexivity.
Defined.

Lemma merge_converges_witness :
  let a := set_of ["10.0.0.1"] in let b := set_of ["10.0.0.2"] in
  ss_hash (merge a b) = ss_hash (merge b a) ∧ a ≠ b.
Proof.
  cbn zeta. split; [|vm_compute; discriminate].
  refine (proj1 (proj1 (proj2 merge_converges) (set_of ["10.0.0.1"]) (set_of ["10.0.0.2"]) (set_of []) eq_refl eq_refl _ _ _));
    vm_compute; repeat constructor; set_solver.
Defined.

(** ** Record and node *)

Lemma record_periods_invariant_witness :
  let r := foldl run_op (record_new 0 sa) [OpStatus 1 true; OpStatus (2 * hour) true] in
  periods_wf (periods r) ∧ periods r = [(1, 1); (2 * hour, 2 * hour)].
Proof.
  assert (Hs : Sorted Z.le (0 :: (op_time <$> [OpStatus 1 true; OpStatus (2 * hour) true])))
    by (repeat constructor; vm_compute; discriminate).
  destruct (record_periods_invariant 0 sa [OpStatus 1 true; OpStatus (2 * hour) true] Hs) as [Hp _].
  split; [exact Hp|]. vm_compute. reflexivity.
Defined.

Lemma startup_tie_breaker_witness : initiates sa sb = true ∧ initiates sb sa = false ∧ initiates sa sa = false.
Proof.
  assert (Ha : sock_wf sa) by (vm_compute; repeat split; discriminate).
  assert (Hb : sock_wf sb) by (vm_compute; repeat split; discriminate).
  destruct (startup_tie_breaker sa sb Ha Hb) as [Hx Hself].
  split; [vm_compute; reflexivity|]. split; [|exact Hself].
  assert (E : initiates sa sb = negb (initiates sb sa)) by (apply Hx; discriminate).
  destruct (initiates sb sa); [|reflexivity]. vm_compute in E. discriminate.
Defined.

(** ** Sync cycle *)

Lemma idle_world_le : respects world_le (mret tt : M unit).
Proof. intros w. reflexivity. Qed.
Lemma idle_reg_same : respects reg_same (mret tt : M unit).
Proof. intros w. reflexivity. Qed.

Lemma run_seed_sync_cycle_spec_witness :
  ∃ r', eval (run_seed_sync_cycle (mret tt) (fun _ => false) [sb] 0) wa = Ok (derive_seed_set_from_registry r') ∧
    seed_set_verify (derive_seed_set_from_registry r') = true.
Proof.
  destruct (run_seed_sync_cycle_spec (mret tt) (fun _ => false) [sb] 0 wa reg_a idle_world_le eq_refl
    ltac:(vm_compute; split; [discriminate|reflexivity])) as (r' & _ & He & Hv & _).
  exists r'. exact (conj He Hv).
Defined.

Lemma cycle_converges_witness :
  eval (rounds (mret tt) (fun _ => false) 10 [sb] 0 0 None) wa = (3, Ok (derive_seed_set_from_registry reg_a)).
Proof.
  apply (cycle_converges (mret tt) (fun _ => false) [sb] wa reg_a 10 idle_reg_same
    (fun _ => eq_refl) eq_refl). lia.
Defined.

Lemma sync_succeeds_without_answer_witness :
  eval (send_and_check (mret tt) 0 empty_seed_set) wa = false.
Proof.
  rewrite (sync_succeeds_without_answer (mret tt) 0 empty_seed_set wa reg_a idle_world_le eq_refl).
  vm_compute. reflexivity.
Defined.

Lemma merge_seed_set_spec_witness :
  let set := seed_set_new [mk_info "10.0.0.2" 9001 "bob" true true 0 0 0] 0 in
  ∃ n', g_node (w_g (exec (merge_seed_set set) wa)) = Some n' ∧ has_seed (pn_registry n') "bob" sb.
Proof.
  cbn zeta.
  destruct (merge_seed_set_spec (seed_set_new [mk_info "10.0.0.2" 9001 "bob" true true 0 0 0] 0) wa
    (mk_p2p_node reg_a []) eq_refl) as (n' & Hn & _ & Hs & _).
  exists n'. split; [exact Hn|]. apply (Hs (mk_info "10.0.0.2" 9001 "bob" true true 0 0 0)).
  - apply list_elem_of_here.
  - vm_compute. reflexivity.
Defined.

(** ** Ticks *)

Definition ring : list SeedRecord := [mk_seed "10.0.0.1:9000" "alice" 0; mk_seed "10.0.0.2:9001" "bob" 0; carol_seed].

Lemma distribute_conserves_witness :
  sum_balances (distribute 5 ring [mk_balance "bob" 10 0]) = 10 + 3 * 333.
Proof.
  destruct (distribute_conserves 5 ring [mk_balance "bob" 10 0]) as [E _].
  - repeat constructor; vm_compute; discriminate.
  - vm_compute. reflexivity.
  - exact E.
Defined.

Lemma lock_updates_witnesses_witness :
  NoDup (we_address <$> upsert_witnesses 5 0 ring [mk_witness "bob" "old" 1 "active" 0 9]) ∧
  mk_witness "bob" "10.0.0.2:9001" 1 "active" 5 1 ∈ upsert_witnesses 5 0 ring [mk_witness "bob" "old" 1 "active" 0 9].
Proof.
  destruct (lock_updates_witnesses 5 ring [mk_witness "bob" "old" 1 "active" 0 9]) as (Hn & Hw & _);
    [apply NoDup_singleton|].
  split; [exact Hn|].
  apply (Hw [mk_seed "10.0.0.1:9000" "alice" 0] (mk_seed "10.0.0.2:9001" "bob" 0) [carol_seed]); [reflexivity| |reflexivity].
  intros s ->%list_elem_of_singleton. discriminate.
Defined.

Lemma stable_after_two_rounds_witness :
  let w1 := exec (note_stable [Byte.x01]) wa in
  eval (note_stable [Byte.x01]) wa = false ∧ eval (note_stable [Byte.x01]) w1 = true.
Proof.
  destruct (stable_after_two_rounds [Byte.x01] [Byte.x02] wa) as (H1 & H2 & _); [discriminate|discriminate|].
  exact (conj H1 H2).
Defined.

(** ** Router and sync *)

Lemma ticks_are_dropped_witness :
  ∃ f raw cmd, ctx_out (w_ctx (exec (send_tick 0) wa) 0) = [raw] ∧ verify_bytes raw = Ok f ∧
    command_from_data (pf_body f) = Ok cmd ∧ dispatch 1 f cmd wb = (tt, wb).
Proof.
  assert (Hs : send_tick 0 wa = (Ok tt, exec (send_tick 0) wa)).
  { rewrite (surjective_pairing (send_tick 0 wa)). f_equal; vm_compute; reflexivity. }
  destruct (@ticks_are_dropped toy toy_wire _ _ 0 wa (exec (send_tick 0) wa) Hs eq_refl)
    as (f & raw & cmd & Ho & Hv & Hc & Hd & _).
  exists f, raw, cmd. exact (conj Ho (conj Hv (conj Hc (Hd 1%nat wb)))).
Defined.

Definition hello_cmd : P2PCommand := mk_command Node OnLine (encoded hello).
Definition answered : World := exec (dispatch 1 hello_frame hello_cmd) wb.

Definition sync_request : P2PCommand :=
  mk_command Node Command.NodeSyncRequest (encoded (mk_node_sync_request "r1" "alice" "full")).

Lemma node_sync_answers_witness :
  sent_one 0 (failure_response "r1") Node Command.NodeSyncResponse wa (exec (node_sync_handler 0 bob_frame sync_request) wa).
Proof.
  assert (Hd : decode (cmd_data sync_request) = Ok (mk_node_sync_request "r1" "alice" "full"))
    by (vm_compute; reflexivity).
  destruct (node_sync_answers 0 bob_frame sync_request (mk_node_sync_request "r1" "alice" "full") wa Hd) as (response & Hs & _ & Hn & _).
  rewrite (Hn eq_refl) in Hs. exact Hs.
Defined.

(** Two requests at once: the second is answered, the first refused when the
    application goes away. *)
Definition full_answer (id : string) : NodeSyncResponse := mk_node_sync_response id true [] [] [] [] [].
Definition app_answers (id : string) (r : NodeSyncResponse) : Prop := r = full_answer id.
Definition both_answered : Channels :=
  mk_channels [("r1", Answered (failure_response "r1")); ("r2", Answered (full_answer "r2"))]
    [Open; Sent (full_answer "r2")] [] false [].
Lemma sync_channel_refines_witness :
  rtc (answer_step app_answers) (called ["r1"; "r2"]) (abstract both_answered) ∧ (8 ≤ 13)%nat.
Proof.
  assert (Hrun : nsteps (channel_step app_answers) 8 (get_request_receiver ["r1"; "r2"]) both_answered).
  { eapply nsteps_l; [apply look_some with (i := 1%nat) (id := "r2"); reflexivity|]. cbn.
    eapply nsteps_l; [apply send_request with (i := 1%nat) (id := "r2"); [reflexivity|reflexivity|cbv; lia]|]. cbn.
    eapply nsteps_l; [apply look_some with (i := 0%nat) (id := "r1"); reflexivity|]. cbn.
    eapply nsteps_l; [eapply receive_request; reflexivity|]. cbn.
    eapply nsteps_l; [apply answer_request with (l1 := []) (q := mk_sync_request "r2" 1) (l2 := []); reflexivity|]. cbn.
    eapply nsteps_l; [apply close_receiver; reflexivity|]. cbn.
    eapply nsteps_l; [apply send_refused with (i := 0%nat) (id := "r1"); reflexivity|]. cbn.
    eapply nsteps_l; [apply response_received with (i := 1%nat) (id := "r2") (r := full_answer "r2"); reflexivity|].
    apply nsteps_O. }
  destruct (sync_channel_refines app_answers ["r1"; "r2"] 8 both_answered Hrun) as (Hr & _ & Hk & _).
  split; [exact Hr|exact Hk].
Defined.

Definition validate_ack : P2PCommand :=
  mk_command Witness ValidateAck (encoded (mk_validate_response "carol" [Byte.x09])).

Lemma validation_is_unbound_witness :
  pr_validation (w_process (exec (witness_validate_ack_handler 0 bob_frame validate_ack) wa)) =
    Some (1%nat, [mk_validation_event "carol" true]).
Proof.
  assert (Hd : decode (cmd_data validate_ack) = Ok (mk_validate_response "carol" [Byte.x09]))
    by (vm_compute; reflexivity).
  exact (proj2 (validation_is_unbound 0 bob_frame validate_ack wa) (mk_validate_response "carol" [Byte.x09]) 1%nat []
    Hd eq_refl ltac:(constructor)).
Defined.

(** An announcement and a gossip, on two connections at once. *)
Definition two_calls : list HandlerCall :=
  [mk_call false 1 hello_frame (mk_command Node OnLine (encoded hello)); mk_call false 0 bob_frame (gossip_cmd [carol_seed])].

Lemma handshakes_overtake_witness :
  let from := fb_address (pf_body hello_frame) in
  ∃ w', rtc (run_step (fun _ _ => False)) (call_pieces <$> two_calls, wb) (replicate 2 Done, w') ∧
    filed from (sock_new (sock_ip (ctx_addr (w_ctx wb 1))) (an_port (on_node hello))) Inbound w' ∧ named 1 from w'.
Proof.
  intros from. destruct (all_end (fun _ _ => False) (call_pieces <$> two_calls) wb) as [w' Hrun]. exists w'.
  split; [exact Hrun|].
  destruct (handshakes_overtake two_calls (fun _ _ => False) wb _ ltac:(vm_compute; repeat constructor; set_solver) eq_refl
    ltac:(by intros)) as [_ Hall].
  destruct (Hall _ w' Hrun) as (_ & _ & Hleft & _).
  apply (Hleft 0%nat _ eq_refl eq_refl hello); [vm_compute; reflexivity|discriminate].
Defined.
