(* ===== verification/TableWitnesses.v ===== *)
(** * The theorems on tables, on concrete tables

    One closed lemma for each theorem on the stores that has hypotheses: it
    applies the theorem to a table in memory ([Sql.Table]), with the digest of
    [Toy]. *)

From S2P Require Import Prelude External Sql Chain Toy.
From S2P Require Import Balance Transaction EpochAllocation Epoch TickRecord Meta Mail Chat.
Open Scope Z_scope.
Open Scope stdpp_scope.

(** ** Balances *)

Definition funded : Table Balance.Model :=
  exec (Balance.set 0 "alice" 100 ;; Balance.set 0 "bob" 5 ;; mret tt) table_new.

Lemma funded_wf : Balance.wf funded.
Proof.
  split; [apply (bool_decide_unpack _); vm_compute; exact I|].
  repeat constructor; [exists 100|exists 5]; split; vm_compute; done.
Qed.

Lemma alice_has : Balance.account "alice" (Balance.ledger funded) = 100.
Proof. vm_compute. reflexivity. Qed.

Lemma store_refines_ledger_witness :
  Balance.wf funded ∧ in_u 64 30 ∧
  ∀ r t', Balance.transfer 1 "alice" "bob" 30 funded = (r, t') →
    match r with
    | Ok _ => Balance.wf t' ∧ 0 < 30 ≤ Balance.account "alice" (Balance.ledger funded) ∧
        Balance.ledger t' = Balance.ledger_transfer "alice" "bob" 30 (Balance.ledger funded)
    | Err _ => t' = funded
    end.
Proof.
  assert (H : in_u 64 30) by (vm_compute; done).
  split; [exact funded_wf|]. split; [exact H|].
  exact (proj2 (proj2 (Balance.store_refines_ledger 1 "alice" "bob" 30 funded funded_wf H))).
Defined.

Lemma transfer_conserves_witness :
  let '(r, t') := Balance.transfer 1 "alice" "bob" 30 funded in
  r = Ok tt ∧ Balance.supply (Balance.ledger t') = Balance.supply (Balance.ledger funded).
Proof.
  pose proof (Balance.transfer_conserves 1 "alice" "bob" 30 funded funded_wf ltac:(vm_compute; done)
    ltac:(discriminate) ltac:(vm_compute; done)) as H.
  destruct (Balance.transfer 1 "alice" "bob" 30 funded) as [r t']. destruct H as (Hr & _ & _ & Hs & _).
  split; [apply Hr; rewrite alice_has; lia|exact Hs].
Defined.

Lemma transfer_to_self_mints_witness :
  let '(r, t') := Balance.transfer 1 "alice" "alice" 30 funded in
  r = Ok tt ∧ Balance.account "alice" (Balance.ledger t') = Balance.account "alice" (Balance.ledger funded) + 30.
Proof.
  pose proof (Balance.transfer_to_self_mints 1 "alice" 30 funded funded_wf ltac:(rewrite alice_has; lia)
    ltac:(rewrite alice_has; lia)) as H.
  destruct (Balance.transfer 1 "alice" "alice" 30 funded) as [r t']. exact (conj (proj1 H) (proj1 (proj2 H))).
Defined.

(** ** Chains *)

Definition requests : list Transaction.request :=
  [Transaction.mk_request 1 0 0 Transaction.Mint "" "alice" 100 "s";
   Transaction.mk_request 2 0 0 Transaction.Transfer "alice" "bob" 30 "s"].

Lemma transactions_chain_witness :
  sql_rows (table_new (R := Transaction.Model)) = [] ∧
  Transaction.chained (sql_rows (exec (Transaction.record_all requests) (table_new (R := Transaction.Model)))).
Proof.
  split; [reflexivity|].
  exact (proj1 (Transaction.transactions_chain requests [] (Transaction.mk_request 3 0 0 Transaction.Burn "bob" "" 1 "s")
    (table_new (R := Transaction.Model)) eq_refl)).
Defined.

Definition allocated : Table EpochAllocation.Model :=
  exec (EpochAllocation.allocate_all
    [EpochAllocation.mk_request 1 0 0 "alice" "1" "10"; EpochAllocation.mk_request 2 1 0 "bob" "1" "20";
     EpochAllocation.mk_request 3 0 1 "bob" "2" "30"]) table_new.

Lemma verify_chain_spec_witness :
  EpochAllocation.verify_chain 0 allocated = (Ok true, allocated) ∧
  EpochAllocation.epoch_linked 0 (sql_rows allocated).
Proof.
  assert (E : EpochAllocation.verify_chain 0 allocated = (Ok true, allocated)) by (vm_compute; reflexivity).
  split; [exact E|]. exact (proj1 (proj1 (EpochAllocation.verify_chain_spec 0 allocated true allocated E)) eq_refl).
Defined.

(** ** Epochs and ticks *)

Definition epoch_ops : list Epoch.epoch_op :=
  [Epoch.OpCurrent 10 "p"; Epoch.OpTicks 0 7; Epoch.OpFinalize 20 0 "h" 96 "5"; Epoch.OpCurrent 21 "h"].

Lemma epoch_lifecycle_witness :
  let t := exec (for_each epoch_ops Epoch.run_op) (table_new (R := Epoch.Model)) in
  let '(r, t') := Epoch.get_current_or_create 30 "x" t in
  is_ok r = true ∧ Epoch.epochs_wf (sql_rows t').
Proof.
  intros t. destruct (Epoch.get_current_or_create 30 "x" t) as [r t'] eqn:E. split.
  - assert (Hr : is_ok (Epoch.get_current_or_create 30 "x" t).1 = true) by (vm_compute; reflexivity).
    rewrite E in Hr. exact Hr.
  - exact (proj1 (Epoch.epoch_lifecycle (SqlLaws0 := table_laws) epoch_ops 30 "x" table_new r t' ltac:(reflexivity) ltac:(vm_compute; done) E)).
Defined.

Lemma ticks_counted_witness :
  let l := [(1, 0, "alice"); (2, 0, "bob"); (3, 0, "alice"); (4, 1, "alice")] in
  ∃ addrs m, TickRecord.get_full_time_addresses 0 2 (exec (TickRecord.tick_all l) table_new) =
    (Ok addrs, exec (TickRecord.tick_all l) table_new) ∧ "alice" ∈ addrs ∧ 2 ≤ m.
Proof.
  intros l. destruct (TickRecord.ticks_counted (SqlLaws0 := table_laws) l 0 2 (table_new (R := TickRecord.Model)) ltac:(reflexivity))
    as (addrs & m & Ha & _ & _ & Hin & Hm & _).
  exists addrs, m. split; [exact Ha|]. split.
  - apply Hin. vm_compute. split; [lia|discriminate].
  - specialize (Hm "alice"). vm_compute in Hm. exact Hm.
Defined.

(** ** Settings *)

Definition winner : list Meta.caller * Table Meta.Model :=
  Meta.race Meta.GenesisApplied "true" "genesis already applied" [0; 1; 0; 1]%nat (replicate 2 Meta.Asking, table_new).

Lemma marked_once_witness :
  winner.1 !! 0%nat = Some (Meta.Finished (Ok tt)) ∧ Meta.present Meta.GenesisApplied winner.2.
Proof.
  assert (E : winner.1 !! 0%nat = Some (Meta.Finished (Ok tt))) by (vm_compute; reflexivity).
  split; [exact E|].
  exact (proj2 (proj1 (Meta.marked_once Meta.GenesisApplied "true" "genesis already applied" 2 [0; 1; 0; 1]%nat
    table_new winner eq_refl) 0%nat 0%nat E E)).
Defined.

Definition on_main : Table Meta.Model := exec (Meta.set_network Meta.Main) table_new.

Lemma settings_read_back_witness :
  Meta.set_network Meta.Main table_new = (Ok tt, on_main) ∧
  ∀ r t2, Meta.get_network on_main = (r, t2) →
    t2 = on_main ∧ (r = Ok Meta.Main ∨ is_ok (Meta.find_key Meta.KeyNetworkType on_main).1 = false).
Proof.
  assert (E : Meta.set_network Meta.Main table_new = (Ok tt, on_main)) by (vm_compute; reflexivity).
  split; [exact E|].
  exact (proj1 (proj2 (proj2 (proj2 (Meta.settings_read_back Meta.GenesisApplied "" Meta.Main table_new on_main
    (NoDup_nil_2 (A := string))) E)))).
Defined.

(** ** Messages *)

Definition mailed : Table Mail.Model :=
  exec (Mail.insert 1 "m1" "alice" "bob" [Byte.x01] [] [] ;; Mail.insert 2 "m2" "bob" "alice" [Byte.x02] [] [] ;;
        mret tt) table_new.
Definition mailed' : Table Mail.Model := exec (Mail.delete_by_receiver "m1" "bob") mailed.

Lemma delete_is_one_sided_witness :
  Mail.delete_by_receiver "m1" "bob" mailed = (Ok tt, mailed') ∧
  ∀ l t2, Mail.get_for_recipient "bob" mailed' = (Ok l, t2) → ∀ m, m ∈ l → Mail.mm_msg_id m ≠ "m1".
Proof.
  assert (E : Mail.delete_by_receiver "m1" "bob" mailed = (Ok tt, mailed')) by (vm_compute; reflexivity).
  split; [exact E|].
  exact (proj1 (Mail.delete_is_one_sided "m1" "bob" mailed mailed'
    ltac:(apply (bool_decide_unpack _); vm_compute; exact I) E)).
Defined.

Definition chatted : Table Chat.Model :=
  exec (Chat.add 1 "bob" "hi" false "received" ;; Chat.add 2 "bob" "there" false "received" ;;
        Chat.add 3 "carol" "hello" true "sent" ;; mret tt) table_new.

Lemma conversations_spec_witness :
  ∃ l, Chat.get_conversations chatted = (Ok l, chatted) ∧ "bob" ∈ Chat.cs_address <$> l.
Proof.
  destruct (Chat.get_conversations chatted) as [r t'] eqn:E. destruct r as [l|e].
  - destruct (Chat.conversations_spec chatted l t' E) as (-> & _ & _ & Ha & _). exists l. split; [reflexivity|].
    apply Ha. eexists. split; [vm_compute; apply list_elem_of_here|reflexivity].
  - assert (H : is_ok (Chat.get_conversations chatted).1 = true) by (vm_compute; reflexivity).
    rewrite E in H. discriminate.
Defined.
