(* ===== verification/FilesWitnesses.v ===== *)
(** * The user store, tried out

    A text format for the data of the user store, with proofs that it is read
    back, and the theorems of [UserStore] at concrete directories in memory. *)

From S2P Require Import Prelude Utf8 Text Files FilesToy UserStore StoreRace ProfileRace Toy.
From Stdlib Require Import Ascii.
Open Scope Z_scope.
Open Scope stdpp_scope.

(** ** A text format *)

Fixpoint unhex (s : string) : option bytes :=
  match s with
  | EmptyString => Some []
  | String a (String b s') =>
      match char_digit 16 a, char_digit 16 b, unhex s' with
      | Some x, Some y, Some l => Some (byte_of_Z (x * 16 + y) :: l)
      | _, _, _ => None
      end
  | _ => None
  end.

Lemma unhex_hex b : unhex (hex b) = Some b.
Proof.
  induction b as [|x b IH]; [done|]. cbn. pose proof (Z_of_byte_bound x) as Hx.
  unfold hex_digit. rewrite !char_digit_of_digit, IH; [|by right| |by right|].
  - do 2 f_equal. apply Z_of_byte_inj. rewrite Z_of_byte_of_Z, Z.mod_small; pose proof (Z.div_mod (Z_of_byte x) 16); lia.
  - apply Z.mod_pos_bound. lia.
  - split; [apply Z.div_pos|apply Z.div_lt_upper_bound]; lia.
Qed.

Definition toy_text {T} `{Ser T} (x : T) : string := "x" +:+ hex (ser x).
Definition toy_read {T} `{Ser T} (b : bytes) : result T :=
  match from_bytes b with
  | String _ s => match unhex s ≫= des with Some (x, []) => Ok x | _ => Err "json" end
  | EmptyString => Err "json"
  end.
Definition toy_json (T : Type) `{Ser T} : Json T := {| json_pretty x := Ok (toy_text x); json_from_slice := toy_read |}.

Lemma hex_ascii b : ascii_bytes (as_bytes (hex b)).
Proof.
  assert (H : ∀ d, 0 ≤ d < 16 → Z_of_byte (byte_of_ascii (hex_digit d)) < 128).
  { intros d Hd. assert (Hc : d ∈ map Z.of_nat (seq 0 16)) by (apply list_elem_of_fmap; exists (Z.to_nat d);
      rewrite elem_of_seq; split; lia).
    cbn in Hc. repeat (apply elem_of_cons in Hc as [->|Hc]; [reflexivity|]). set_solver. }
  induction b as [|x b IH]; [constructor|]. pose proof (Z_of_byte_bound x) as Hx.
  cbn. constructor; [apply H; split; [apply Z.div_pos|apply Z.div_lt_upper_bound]; lia|].
  constructor; [apply H, Z.mod_pos_bound; lia|exact IH].
Qed.

Lemma words_not_blank x s : ws_len (as_bytes (String x s)) = None → is_blank (String x s) = false.
Proof.
  intros H. apply bool_decide_eq_false. unfold split_whitespace.
  assert (Hgo : ∀ l cur skip, cur ≠ [] → words_go skip cur l ≠ []).
  { intros l. induction l as [|y l IH]; intros cur skip Hc; cbn [words_go]; [by destruct cur|].
    destruct skip as [|k]; [|by apply IH]. destruct (ws_len (y :: l)); [by destruct cur|]. apply IH. by destruct cur. }
  change (as_bytes (String x s)) with (byte_of_ascii x :: as_bytes s) in *. cbn [words_go]. rewrite H. by apply Hgo.
Qed.

Lemma toy_json_laws (T : Type) `{Ser T} : @JsonLaws T (toy_json T).
Proof.
  intros x s [= <-]. cbn. split_and!.
  - unfold toy_read. rewrite from_as_bytes. unfold toy_text. rewrite string_cons_app, string_nil_app, unhex_hex. cbn.
    by rewrite <- (app_nil_r (ser x)), des_ser.
  - rewrite from_utf8_ascii; [by rewrite from_as_bytes|]. unfold toy_text. rewrite string_cons_app, string_nil_app.
    constructor; [reflexivity|apply hex_ascii].
  - unfold toy_text. rewrite string_cons_app, string_nil_app. apply words_not_blank.
    change (as_bytes (String "x" (hex (ser x)))) with (Byte.x78 :: as_bytes (hex (ser x))).
    destruct (as_bytes (hex (ser x))) as [|b1 [|b2 l]]; reflexivity.
Qed.

(** ** Formats of the data *)

#[export] Instance ser_bool : Ser bool.
Proof. refine (ser_via (fun b : bool => if b then 1 else 0) (fun z => bool_decide (z = 1)) _). by intros []. Defined.
#[export] Instance ser_chat : Ser ChatMessage.
Proof.
  refine (ser_via (fun m => (cm_id m, cm_contact_address m, cm_content m, cm_is_sent m, cm_status m, cm_timestamp m))
                  (fun '(i, a, c, s, st, t) => mk_chat i a c s st t) _).
  by intros [].
Defined.
#[export] Instance ser_profile : Ser UserProfile.
Proof.
  refine (ser_via (fun p => ((up_name p, up_notes p, up_avatar_path p, up_added_at p, up_nickname p, up_gender p, up_age p),
                             (up_country p, up_ethnicity p, up_blood_type p, up_height_cm p, up_weight_kg p, up_education p,
                              up_home_address p)))
                  (fun '((a, b, c, d, e, f, g), (h, i, j, k, l, m, n)) => mk_profile a b c d e f g h i j k l m n) _).
  by intros [].
Defined.
#[export] Instance json_chats : Json (list ChatMessage) := toy_json _.
#[export] Instance json_profile : Json UserProfile := toy_json _.
#[export] Instance json_chats_laws : JsonLaws (list ChatMessage) := toy_json_laws _.
#[export] Instance json_profile_laws : JsonLaws UserProfile := toy_json_laws _.

(** ** Logs *)

Lemma run_ends {S A} (m : state S A) s a : eval m s = a → m s = (a, exec m s).
Proof. intros <-. apply surjective_pairing. Qed.

Definition empty_fs : MemFs := foldr (fun d => <[d := None]>) ∅ (tails ["data"; "srv"]).
Definition chat_ops : list (string * log_op) :=
  [("bob", Append 5 "hi" true "sent"); ("carol", Append 6 "hello" false "received");
   ("bob", SetLastSent "delivered"); ("bob", Append 7 "yes?" false "received"); ("carol", MarkRead)].
Definition chat_fs : MemFs := exec (run_ops "data" chat_ops) empty_fs.
Definition logs (c : string) : list ChatMessage :=
  if decide (c = "bob") then [mk_chat 1 "bob" "hi" true "delivered" 5; mk_chat 2 "bob" "yes?" false "received" 7]
  else if decide (c = "carol") then [mk_chat 1 "carol" "hello" false "read" 6] else [].

Lemma empty_represents : represents "data" empty_fs (fun _ => []).
Proof.
  intros c Hc. unfold log. rewrite chat_place_eq by done. cbn [fs_files mem_fs_laws]. rewrite mem_files_lookup.
  unfold empty_fs. rewrite foldr_mkdir, decide_False; [done|].
  rewrite elem_of_tails. intros [k E]. apply (f_equal length) in E. rewrite length_app in E. cbn in E. lia.
Qed.

Lemma chat_logs_refined_witness :
  run_ops "data" chat_ops empty_fs = (Ok tt, chat_fs) ∧ log "data" chat_fs "bob" = Ok (logs "bob") ∧
  eval (get_unread_count "data" "bob") chat_fs = Ok 1.
Proof.
  assert (E : run_ops "data" chat_ops empty_fs = (Ok tt, chat_fs)) by (apply run_ends; vm_compute; reflexivity).
  split; [exact E|].
  destruct (chat_logs_refined "data" ltac:(apply (bool_decide_unpack _); vm_compute; exact I) chat_ops empty_fs chat_fs
    (fun _ => []) empty_represents ltac:(apply (bool_decide_unpack _); vm_compute; exact I)
    ltac:(intros c; split; [reflexivity|vm_compute; reflexivity]) E) as (Hr & _ & _).
  split; [|vm_compute; reflexivity].
  rewrite (Hr "bob" ltac:(apply (bool_decide_unpack _); vm_compute; exact I)). vm_compute. reflexivity.
Defined.

(** Two methods at once: the first is written, the second has the lock. *)
Definition both : list (string * log_op) := [("bob", Append 5 "hi" true "sent"); ("bob", Append 7 "yes?" false "received")].
Definition second_reads : Shared MemFs := Nat.iter 7 (next_piece "data") (start both empty_fs).

Lemma methods_take_turns_witness :
  sh_guard second_reads = Some (Reading ("bob", Append 7 "yes?" false "received")) ∧
  log "data" (sh_fs second_reads) "bob" = Ok [mk_chat 1 "bob" "hi" true "sent" 5] ∧ both ≡ₚ calls second_reads.
Proof.
  assert (Eg : sh_guard second_reads = Some (Reading ("bob", Append 7 "yes?" false "received"))) by (vm_compute; reflexivity).
  destruct (methods_take_turns "data" ltac:(apply (bool_decide_unpack _); vm_compute; exact I) both (fun _ => []) empty_fs second_reads
    empty_represents ltac:(apply (bool_decide_unpack _); vm_compute; exact I)
    ltac:(intros c; split; [reflexivity|vm_compute; reflexivity]) (pieces_run "data" 7 _)) as (Hl & _ & _ & Hc & _).
  split; [exact Eg|]. split; [|exact Hc].
  destruct (Hl "bob" ltac:(apply (bool_decide_unpack _); vm_compute; exact I)) as (Hb & _).
  - assert (Eb : broken (sh_ended second_reads) = ∅) by (vm_compute; reflexivity). rewrite Eb. apply not_elem_of_empty.
  - rewrite Eg. done.
  - rewrite Hb. vm_compute. reflexivity.
Defined.

(** A directory stands where the log should be. *)
Definition blocked_fs : MemFs := foldr (fun d => <[d := None]>) chat_fs (tails ["chat.json"; "dave"; "users"; "data"; "srv"]).

Lemma failed_operation_witness :
  ∃ s', run_op "data" "dave" (Append 9 "hi" true "sent") blocked_fs = (Err "Is a directory", s') ∧
        log "data" s' "bob" = log "data" blocked_fs "bob".
Proof.
  destruct (run_op "data" "dave" (Append 9 "hi" true "sent") blocked_fs) as [r s'] eqn:E.
  assert (Er : r = Err "Is a directory") by (change r with (fst (r, s')); rewrite <- E; vm_compute; reflexivity).
  subst r. exists s'. split; [reflexivity|].
  apply (failed_operation "data" ltac:(apply (bool_decide_unpack _); vm_compute; exact I) "dave"
    (Append 9 "hi" true "sent") blocked_fs "Is a directory" s' ltac:(apply (bool_decide_unpack _); vm_compute; exact I) E);
    apply (bool_decide_unpack _); vm_compute; exact I.
Defined.

(** ** Files and profiles *)

Definition image_fs : MemFs := exec (save_image "data" "bob" "cat.png" [Byte.x01]) chat_fs.
Definition root_fs : MemFs := exec (fs_write "/key" (as_bytes "secret")) chat_fs.
(** A relative name stays below the directory; an absolute one is deleted
    where it says. *)
Lemma files_contained_witness :
  eval (save_image "data" "bob" "cat.png" [Byte.x01]) chat_fs = Ok tt ∧
  eval (list_images "data" "bob") image_fs = Ok ["cat.png"] ∧
  fs_files (exec (store_file "data" "bob" "images/cat.png" [Byte.x01]) chat_fs) !! ["etc"] = fs_files chat_fs !! ["etc"] ∧
  fs_files root_fs !! ["key"] = Some (as_bytes "secret") ∧
  eval (delete_file "data" "bob" "/key") root_fs = Ok true ∧
  fs_files (exec (delete_file "data" "bob" "/key") root_fs) !! ["key"] = None.
Proof.
  split; [vm_compute; reflexivity|]. split; [vm_compute; reflexivity|]. split; [|split; [vm_compute; reflexivity|]].
  - apply (proj1 (files_contained "data" "bob" "images/cat.png" [Byte.x01] chat_fs) eq_refl
      ltac:(apply (bool_decide_unpack _); vm_compute; exact I) eq_refl
      ltac:(apply (bool_decide_unpack _); vm_compute; exact I) ["etc"]).
    apply (bool_decide_unpack _). vm_compute. exact I.
  - destruct (proj2 (files_contained "data" "bob" "/key" [] root_fs) eq_refl) as (_ & _ & Hdel & _).
    destruct (Hdel (exec (fs_remove_file "/key") root_fs)) as (Er & _ & Hgone).
    + apply run_ends. vm_compute. reflexivity.
    + unfold eval, exec at 1. change (taken_as_is "bob" "/key") with "/key" in *. rewrite Er. split; [reflexivity|exact Hgone].
Defined.

Definition some_profile : UserProfile := mk_profile "Bob" "" None 3 "b" "" 30 "" "" "" 180 70 "" "".
Definition no_profiles : UserStore MemFs := UserStore.new chat_fs.
Definition saved : UserStore MemFs := exec (save_profile "data" "bob" some_profile) no_profiles.

Lemma no_profiles_coherent : coherent "data" no_profiles.
Proof. intros a p _ H. done. Qed.

Lemma calls_in_turn_witness :
  save_profile "data" "bob" some_profile no_profiles = (Ok tt, saved) ∧
  load_profile "data" 8 "bob" saved = (Ok some_profile, saved).
Proof.
  assert (E : save_profile "data" "bob" some_profile no_profiles = (Ok tt, saved)) by (apply run_ends; vm_compute; reflexivity).
  split; [exact E|].
  apply (proj2 (calls_in_turn "data" ltac:(apply (bool_decide_unpack _); vm_compute; exact I) no_profiles "bob"
    no_profiles_coherent ltac:(apply (bool_decide_unpack _); vm_compute; exact I)) some_profile saved E).
Defined.

(** A save left alone ends with its profile in the cache and on disk. *)
Lemma profile_cache_witness :
  ∃ x, rtc (profile_step "data") (begin [SaveProfile "bob" some_profile] no_profiles) x ∧
    cache_of x !! "bob" = Some some_profile ∧ source "data" no_profiles [SaveProfile "bob" some_profile] "bob" some_profile ∧
    on_disk "data" x "bob" some_profile.
Proof.
  assert (E : save_profile "data" "bob" some_profile no_profiles = (Ok tt, saved)) by (apply run_ends; vm_compute; reflexivity).
  assert (Ec : us_cache saved !! "bob" = Some some_profile) by (apply (bool_decide_unpack _); vm_compute; exact I).
  destruct (save_alone "data" "bob" some_profile no_profiles (Ok tt) saved E) as (b & Hb & Hrun). specialize (Hb eq_refl). subst b.
  set (x := mk_profiles _ _ _) in Hrun. exists x.
  destruct (profile_cache "data" ltac:(apply (bool_decide_unpack _); vm_compute; exact I) [SaveProfile "bob" some_profile] no_profiles x
    ltac:(constructor; [apply (bool_decide_unpack _); vm_compute; exact I|constructor]) Hrun) as (Hsrc & _ & Hcalm & _).
  split; [exact Hrun|]. split; [exact Ec|]. split; [by apply Hsrc|]. apply (Hcalm "bob" x).
  - apply (bool_decide_unpack _). vm_compute. exact I.
  - intros q H. discriminate H.
  - apply lone_call_calm; [cbn; lia|exact Hrun].
  - intros Hd. apply Exists_cons in Hd as [[Hd _]|Hd]; [discriminate Hd|by apply Exists_nil in Hd].
  - reflexivity.
  - exact Ec.
Defined.

Definition looked : UserStore MemFs := exec (on_fs (profile_from_disk "data" 4 "bob")) no_profiles.
Definition saved_late : UserStore MemFs := exec (save_profile "data" "bob" some_profile) looked.
Lemma load_races_with_save_witness :
  on_fs (profile_from_disk "data" 4 "bob") no_profiles = (Ok (default_profile 4), looked) ∧
  load_profile "data" 9 "bob" (exec (set_cache <["bob" := default_profile 4]>) saved_late) =
    (Ok (default_profile 4), exec (set_cache <["bob" := default_profile 4]>) saved_late).
Proof.
  assert (E1 : on_fs (profile_from_disk "data" 4 "bob") no_profiles = (Ok (default_profile 4), looked))
    by (apply run_ends; vm_compute; reflexivity).
  assert (E2 : save_profile "data" "bob" some_profile looked = (Ok tt, saved_late)) by (apply run_ends; vm_compute; reflexivity).
  split; [exact E1|].
  apply (load_races_with_save "data" no_profiles "bob" 4 (default_profile 4) looked some_profile saved_late E1 E2).
Defined.

(** The listing of all contacts, as computed. *)
Example conversations_computed :
  match (get_conversations "data" chat_fs).1 with
  | Ok l => Ok (map (fun su => (su_contact_address su, su_last_content su, su_unread_count su)) l)
  | Err e => Err e
  end = Ok [("bob", "yes?", 1); ("carol", "hello", 0)].
Proof. vm_compute. reflexivity. Qed.
