(* ===== verification/WebWitnesses.v ===== *)
(** * The web interface, tried out

    A form as request body, JSON as text, and the theorems on the web
    interface at concrete requests, with the files, tables and nodes of the
    other files of concrete instances. *)

From S2P Require Import Prelude Utf8 Text NetAddr External Command NodeRegistry World Router Sql Files FilesToy UserStore.
From S2P Require Import Toy Witnesses FilesWitnesses Resources Url Web WebApi WebSend Delivery WebData WebPages.
From S2P Require Float Balance Contact Transaction TickRecord WitnessSeed.
From Stdlib Require Import Ascii.
Open Scope Z_scope.
Open Scope stdpp_scope.

#[local] Existing Instances Contact.contact_row Balance.model_row Transaction.model_row.
#[local] Existing Instances WitnessSeed.seed_row TickRecord.tick_row.

(** ** What the interface is a parameter in *)

Definition quote : string := String "034" "".
Fixpoint json_text (v : json) : string :=
  match v with
  | JNull => "null"
  | JBool b => if b then "true" else "false"
  | JInt n => show_i n
  | JFloat t => t
  | JStr s => quote +:+ s +:+ quote
  | JArr l => "[" +:+ join_comma (map json_text l) +:+ "]"
  | JObj l => "{" +:+ join_comma (map (fun '(k, v) => quote +:+ k +:+ quote +:+ ":" +:+ json_text v) l) +:+ "}"
  end.
(** A body with one [key=value] between ampersands. *)
Definition form_value (b : bytes) : result json :=
  Ok (JObj ((fun part => let '(k, v) := splitn2 "=" part in (k, JStr (default "" v))) <$> split "&" (from_bytes b))).
#[export] Instance toy_json_value : JsonValue := {| value_from_slice := form_value; value_to_string := json_text |}.

#[export] Instance toy_web : WebCrates := {|
  base64 := hex;
  get_connection_info m := NodeRegistry.mk_info [] [];
|}.
#[export] Instance toy_chrono : Chrono := fun ts => Some (show_i ts).
#[export] Instance toy_machine : Machine := {| read_to_string _ := None; df_TB := None; ip_addr_show := None |}.

(** ** Sending a message *)

(** Alice, with bob on record and a connection to him. *)
Definition linked_world : World :=
  set_w_g (set_g_manager (mk_toy_manager [(sb, 0%nat)] [])
    (set_g_node (Some (mk_p2p_node (register 1 "bob" sb Intranet reg_a) [])) (w_g wa))) wa.
Definition page_open : Web MemFs unit unit := mk_web linked_world no_profiles tt tt 8 (Some []) [] [].
Definition alone : Web MemFs unit unit := mk_web wa no_profiles tt tt 8 None [] [].
Definition post (path body : string) : Request :=
  mk_request (Some (mk_meta true path (Some (show_u (Z.of_nat (String.length body)))))) (Some (as_bytes body)).
Definition send_hi : Request := post "/api/send" "to=bob&message=hi".

Definition sent_hi : ChatMessage := mk_chat 3 "bob" "hi" true "sent" 20.

(** With bob connected the message goes out to him; with nobody connected the
    request is refused. *)
Lemma send_chat_spec_witness :
  let w' := exec (handle_send_chat "data" 20 send_hi "alice") page_open in
  let w2 := exec (handle_send_chat "data" 20 send_hi "alice") alone in
  eval (handle_send_chat "data" 20 send_hi "alice") page_open = Ok true ∧
  chat_log "data" w' "bob" = Ok (logs "bob" ++ [sent_hi]) ∧ wb_tasks w' = [TAwaitAck 8 "bob" "hi"] ∧
  length (written w' 0) = 1%nat ∧ (∃ c, took_on "alice" "bob" 8 "hi" c (exec (add_pending 8) linked_world) (wb_world w')) ∧
  wb_tasks w2 = [] ∧ ∀ c, written w2 c = written alone c.
Proof.
  assert (El : chat_log "data" page_open "bob" = Ok (logs "bob")) by (vm_compute; reflexivity).
  assert (Hspec : ∀ (w : Web MemFs unit unit),
    (add_message "data" 20 "bob" "hi" true "sent" (us_fs (wb_store w))).1 = Ok sent_hi →
    let q := (eval (handle_send_chat "data" 20 send_hi "alice") w, exec (handle_send_chat "data" 20 send_hi "alice") w) in
    handle_send_chat "data" 20 send_hi "alice" w = q) by (intros w _; apply surjective_pairing).
  assert (A1 : (add_message "data" 20 "bob" "hi" true "sent" (us_fs (wb_store page_open))).1 = Ok sent_hi) by (vm_compute; reflexivity).
  assert (A2 : (add_message "data" 20 "bob" "hi" true "sent" (us_fs (wb_store alone))).1 = Ok sent_hi) by (vm_compute; reflexivity).
  destruct (send_chat_spec "data" ltac:(apply (bool_decide_unpack _); vm_compute; exact I) 20 send_hi "alice" page_open _ _
    sent_hi ltac:(vm_compute; discriminate) ltac:(vm_compute; discriminate)
    ltac:(apply (bool_decide_unpack _); vm_compute; exact I) A1 (Hspec _ A1)) as ((l & Hl & Hl') & Hout1).
  destruct (send_chat_spec "data" ltac:(apply (bool_decide_unpack _); vm_compute; exact I) 20 send_hi "alice" alone _ _
    sent_hi ltac:(vm_compute; discriminate) ltac:(vm_compute; discriminate)
    ltac:(apply (bool_decide_unpack _); vm_compute; exact I) A2 (Hspec _ A2)) as (_ & Hout2).
  assert (E1 : eval (handle_send_chat "data" 20 send_hi "alice") page_open = Ok true) by (vm_compute; reflexivity).
  assert (E2 : eval (handle_send_chat "data" 20 send_hi "alice") alone = Ok true) by (vm_compute; reflexivity).
  rewrite E1 in Hout1. rewrite E2 in Hout2.
  assert (T1 : wb_tasks (exec (handle_send_chat "data" 20 send_hi "alice") page_open) = [TAwaitAck 8 "bob" "hi"]) by (vm_compute; reflexivity).
  assert (T2 : wb_tasks (exec (handle_send_chat "data" 20 send_hi "alice") alone) = []) by (vm_compute; reflexivity).
  cbv zeta. split; [exact E1|]. split.
  { change (str_field "to" (json_body send_hi)) with "bob" in *. rewrite El in Hl. injection Hl as <-. rewrite Hl'. vm_compute. reflexivity. }
  split; [exact T1|]. split; [vm_compute; reflexivity|]. split; [|split; [exact T2|]].
  - destruct Hout1 as [(_ & Ht & _)|(_ & _ & _ & c & _ & Hc)]; [rewrite T1 in Ht; discriminate Ht|]. exists c. exact Hc.
  - destruct Hout2 as [(_ & _ & _ & Hw)|(_ & Ht & _)]; [exact Hw|rewrite T2 in Ht; discriminate Ht].
Defined.

(** The task that waits is told that the message was accepted: the newest
    message to bob is marked, although another one was meant. *)
Lemma ack_marks_last_sent_witness :
  let w1 := exec (handle_send_chat "data" 20 send_hi "alice") page_open in
  let w2 := exec (run_await_ack "data" 21 (TAwaitAck 5 "bob" "yes?") (Acked true)) w1 in
  chat_log "data" w2 "bob" = Ok (logs "bob" ++ [mk_chat 3 "bob" "hi" true "delivered" 20]).
Proof.
  cbv zeta. set (w1 := exec (handle_send_chat "data" 20 send_hi "alice") page_open).
  assert (El : chat_log "data" w1 "bob" = Ok (logs "bob" ++ [sent_hi])) by (vm_compute; reflexivity).
  destruct (ack_marks_last_sent "data" ltac:(apply (bool_decide_unpack _); vm_compute; exact I) 21 5 "bob" "yes?" (Acked true) w1
    (exec (run_await_ack "data" 21 (TAwaitAck 5 "bob" "yes?") (Acked true)) w1)
    (eval (run_await_ack "data" 21 (TAwaitAck 5 "bob" "yes?") (Acked true)) w1)
    ltac:(apply (bool_decide_unpack _); vm_compute; exact I) (surjective_pairing _)) as (_ & _ & H).
  destruct (H eq_refl ltac:(vm_compute; reflexivity)) as (l & Hl & ->).
  rewrite El in Hl. injection Hl as <-. vm_compute. reflexivity.
Defined.

(** Bob, with alice on record and a connection to her under her name. *)
Definition bob_linked : World :=
  set_w_ctx (fun _ => mk_ctx sa (Some "alice") true [])
    (set_w_g (set_g_manager (mk_toy_manager [(sa, 1%nat)] [])
      (set_g_node (Some (mk_p2p_node (register 1 "alice" sa Intranet reg_b) [])) (w_g wb))) wb).

(** Out and back: bob's application has the text, and alice's log shows it as
    delivered. *)
Lemma chat_delivered_witness :
  ∃ w' f cmd f' cmd', handle_send_chat "data" 20 send_hi "alice" page_open = (Ok true, w') ∧
    arrives (wb_world page_open) (wb_world w') 0 f cmd ∧
    let wb1 := exec (dispatch 1 f cmd) bob_linked in
    let wb2 := exec (run_task (TAckDirect "alice" 8 [sa])) wb1 in
    g_inbox (w_g wb1) = Some [mk_incoming "alice" "hi" 0] ∧ arrives bob_linked wb2 1 f' cmd' ∧
    let w2 := exec (on_world (dispatch 0 f' cmd')) w' in
    let w3 := exec (run_await_ack "data" 21 (TAwaitAck 8 "bob" "hi") (Acked true)) w2 in
    w_confirmed (wb_world w2) = [8] ∧
    chat_log "data" w3 "bob" = Ok (logs "bob" ++ [mk_chat 3 "bob" "hi" true "delivered" 20]).
Proof.
  destruct (chat_delivered "data" ltac:(apply (bool_decide_unpack _); vm_compute; exact I) alice bob 0 1 20 send_hi page_open
    bob_linked 0%nat 0%nat [] (mk_p2p_node (register 1 "alice" sa Intranet reg_b) []) [sa] sent_hi)
    as (w' & E & _ & f & cmd & Har & Hin & _ & f' & cmd' & Hback & Hconf & _ & Hlog).
  - vm_compute. reflexivity.
  - discriminate.
  - vm_compute. discriminate.
  - apply (bool_decide_unpack _). vm_compute. exact I.
  - right. vm_compute. reflexivity.
  - vm_compute. reflexivity.
  - repeat split.
  - by eexists.
  - vm_compute. reflexivity.
  - vm_compute. reflexivity.
  - repeat split.
  - exact I.
  - discriminate.
  - reflexivity.
  - reflexivity.
  - vm_compute. reflexivity.
  - vm_compute. reflexivity.
  - reflexivity.
  - vm_compute. reflexivity.
  - exists w', f, cmd, f', cmd'. split; [exact E|]. split; [exact Har|]. split; [exact Hin|]. split; [exact Hback|].
    split; [exact Hconf|].
    assert (Ew : exec (handle_send_chat "data" 20 send_hi "alice") page_open = w').
    { exact (f_equal snd E). }
    assert (Hup : (update_last_sent_status "data" (addr_to_string bob) "delivered"
      (us_fs (wb_store (exec (on_world (dispatch 0 f' cmd')) w')))).1 = Ok tt).
    { unfold exec, on_world. rewrite run_on_part. cbn [snd set_world wb_store]. rewrite <- Ew. vm_compute. reflexivity. }
    destruct (Hlog 21 _ _ (surjective_pairing _) Hup) as (l0 & El & Hl).
    assert (Eb : chat_log "data" page_open "bob" = Ok (logs "bob")) by (vm_compute; reflexivity).
    change (addr_to_string bob) with "bob" in El. rewrite Eb in El. injection El as <-. exact Hl.
Defined.

(** ** Serving files *)

Definition secret_fs : MemFs := exec (fs_write "/key" (as_bytes "secret")) chat_fs.
Definition mallory_profile : UserProfile := mk_profile "M" "" (Some "/key") 3 "m" "" 30 "" "" "" 180 70 "" "".
Definition no_tables : Db (Table Contact.Model) (Table Balance.Model) (Table Transaction.Model)
                          (Table WitnessSeed.Model) (Table TickRecord.Model) :=
  mk_db table_new table_new table_new table_new table_new.
Definition site : Web MemFs _ unit := mk_web wa (UserStore.new secret_fs) no_tables tt 8 None [] [].
Definition post_profile : Request := post "/api/profile" (toy_text mallory_profile).
Definition at_alice (now : Z) (rq : Request) : state (Web MemFs _ unit) (result bool) :=
  serve "data" None None (fun _ => Err "render") None None "node" "data" "alice" 9000 now rq
    (TC := Table Contact.Model) (TB := Table Balance.Model) (TT := Table Transaction.Model)
    (TS := Table WitnessSeed.Model) (TR := Table TickRecord.Model).

Lemma any_file_is_served_witness :
  let w1 := exec (at_alice 30 post_profile) site in
  wb_sent (exec (at_alice 31 (get_request "/api/profile")) w1) = wb_sent w1 ++
    [mk_sent (value_to_string (JObj [("success", JBool true);
       ("profile", profile_json (with_avatar (Some (avatar_data (as_bytes "secret"))) mallory_profile))])) true].
Proof.
  assert (Ej : json_from_slice (body_of post_profile) = Ok mallory_profile) by (vm_compute; reflexivity).
  assert (Es : (save_profile "data" "alice" mallory_profile (wb_store site)).1 = Ok tt) by (vm_compute; reflexivity).
  assert (Er : (read_file "data" "alice" "/key" (us_fs (wb_store (exec (at_alice 30 post_profile) site)))).1 =
               Ok (Some (as_bytes "secret"))) by (vm_compute; reflexivity).
  exact (proj2 (any_file_is_served "data" None None (fun _ => Err "render") None None "node" "data" "alice" 9000 30 31
    post_profile mallory_profile "/key" (as_bytes "secret") site eq_refl eq_refl Ej eq_refl eq_refl Es Er)).
Defined.

(** ** Parameters, seeds and connections *)

Lemma query_round_trip_witness :
  url_decode_query <$> get_query_param "/api/chat/messages?limit=5&contact=bob%27s+%2B1" "contact" = Some "bob's +1".
Proof.
  change "/api/chat/messages?limit=5&contact=bob%27s+%2B1" with
    ("/api/chat/messages" +:+ "?" +:+ query_text [("limit", "5"); ("contact", "bob%27s+%2B1")]).
  apply query_round_trip with (e := "bob%27s+%2B1").
  - change (encodes [Byte.x62; Byte.x6f; Byte.x62; Byte.x27; Byte.x73; Byte.x20; Byte.x2b; Byte.x31]
      [Byte.x62; Byte.x6f; Byte.x62; Byte.x25; Byte.x32; Byte.x37; Byte.x73; Byte.x2b; Byte.x25; Byte.x32; Byte.x42; Byte.x31]).
    do 3 (apply enc_plain; [discriminate..|]). apply (enc_hex _ _ _ 2 7); [reflexivity..|].
    apply enc_plain; [discriminate..|]. apply enc_space. apply (enc_hex _ _ _ 2 11); [reflexivity..|].
    apply enc_plain; [discriminate..|]. apply enc_nil.
  - vm_compute. reflexivity.
  - reflexivity.
  - repeat constructor.
  - repeat constructor.
  - exists [("limit", "5")], []. split; [reflexivity|]. apply (bool_decide_unpack _). vm_compute. exact I.
Defined.

Definition received_seed (ip : string) (port : Z) : SeedData :=
  mk_seed_data 0 ip port "bob" false true 0 0 0 0 (Float.f64_of 1).
Definition received : list SeedData := [received_seed "10.0.0.2:9001" 0; received_seed "10.0.0.3" 9002].
Definition seed_table : Table WitnessSeed.Model :=
  exec (WitnessSeed.upsert 3 "10.9.9.9" 1 "eve" true) table_new.

(** A third seed for the first endpoint is lost. *)
Definition twice : list SeedData := received ++ [mk_seed_data 0 "10.0.0.2" 9001 "carol" true true 0 0 0 0 (Float.f64_of 1)].
Lemma seeds_replaced_witness :
  sighting_of <$> eval read_seeds_from_db (exec (write_seeds_to_db Z.of_nat twice) seed_table) =
    [("10.0.0.2", 9001, "bob", false); ("10.0.0.3", 9002, "bob", false)] ∧
  ∃ kept, NoDup kept.*2 ∧ length kept = 2%nat ∧
    (received_seed "10.0.0.2:9001" 0, ("10.0.0.2", 9001)) ∈ kept.
Proof.
  assert (E : sighting_of <$> eval read_seeds_from_db (exec (write_seeds_to_db Z.of_nat twice) seed_table) =
    [("10.0.0.2", 9001, "bob", false); ("10.0.0.3", 9002, "bob", false)]) by (vm_compute; reflexivity).
  split; [exact E|].
  destruct (seeds_replaced Z.of_nat twice seed_table) as (kept & Hk & Hn & Hiff).
  - intros s e Hs Hm%meant_endpoint. repeat (apply elem_of_cons in Hs as [->|Hs]; [subst e; vm_compute; split; congruence|]). inversion Hs.
  - exists kept. split; [exact Hn|]. split.
    + rewrite E in Hk. apply Permutation_length in Hk. rewrite length_fmap in Hk. symmetry. exact Hk.
    + apply Hiff. exists [], [received_seed "10.0.0.3" 9002; mk_seed_data 0 "10.0.0.2" 9001 "carol" true true 0 0 0 0 (Float.f64_of 1)].
      split; [reflexivity|]. split; [apply meant_endpoint; vm_compute; reflexivity|constructor].
Defined.

(** Bob dialled in twice, and one address nobody announced is his, too. *)
Definition peer_at (addr : string) (nid : option string) : PeerInfo :=
  NodeRegistry.mk_peer nid addr [] [].
Definition seen_from : NodeRegistry.ConnectionInfo :=
  NodeRegistry.mk_info [peer_at "10.0.0.2:9001" None; peer_at "10.0.0.2:5000" (Some "bob"); peer_at "10.0.0.1:1" (Some "alice")] [].
Lemma connections_grouped_witness :
  let c := group_connections_by_direction seen_from (register 1 "bob" sb Intranet reg_a) "alice" in
  NoDup (gr_node_id <$> cn_inbound c) ∧ (gr_node_id <$> cn_inbound c) = ["bob"].
Proof.
  cbv zeta. split; [|vm_compute; reflexivity].
  apply (connections_grouped seen_from (register 1 "bob" sb Intranet reg_a) "alice"
    (NodeRegistry.inbound seen_from)). left. reflexivity.
Defined.
