(* ===== verification/StartWitnesses.v ===== *)
(** * Starting a node, tried out

    A storage in memory - the files of either kind, whether they can be
    written, and a counter for random addresses -, the theorems of [Startup]
    there, and those of [Running] for the node that was started. *)

From S2P Require Import Prelude Text NetAddr External Command NodeRegistry Seeds World Frame Handshake Router Record P2PNode Cli Sql.
From S2P Require Import IoStorage Startup Running FilesToy Toy Witnesses FilesWitnesses Web WebWitnesses.
From S2P Require Contact Balance Transaction WitnessSeed TickRecord.
Open Scope Z_scope.
Open Scope stdpp_scope.

Record Disk := mk_disk {
  dk_addresses : gmap string string;
  dk_servers : gmap string records;
  dk_writable : bool;
  dk_draws : nat;
}.
#[export] Instance disk_addresses : Storage Disk (@Address (@crates_account toy)) := {|
  storage_read d f := Ok (dk_addresses d !! f);
  storage_save f v d := if dk_writable d then (Ok tt, mk_disk (<[f := v]> (dk_addresses d)) (dk_servers d) true (dk_draws d))
                        else (Err "read-only", d);
|}.
#[export] Instance disk_servers : Storage Disk records := {|
  storage_read d f := Ok (dk_servers d !! f);
  storage_save f v d := (Ok tt, mk_disk (dk_addresses d) (<[f := v]> (dk_servers d)) (dk_writable d) (dk_draws d));
|}.
#[export] Instance disk_address_laws : StorageLaws Disk (@Address (@crates_account toy)).
Proof. intros s s' f v. cbn. destruct (dk_writable s); [|done]. intros [= <-]. cbn. by rewrite lookup_insert_eq. Qed.
#[export] Instance disk_server_laws : StorageLaws Disk records.
Proof. intros s s' f v [= <-]. cbn. by rewrite lookup_insert_eq. Qed.
#[export] Instance disk_frame_aa : StorageFrame Disk (@Address (@crates_account toy)) (@Address (@crates_account toy)).
Proof. intros s s' f g v r. cbn. destruct (dk_writable s); intros [= <- <-] Hg; [|done]. cbn. by rewrite lookup_insert_ne. Qed.
#[export] Instance disk_frame_ar : StorageFrame Disk (@Address (@crates_account toy)) records.
Proof. intros s s' f g v r. cbn. by destruct (dk_writable s); intros [= <- <-]. Qed.
#[export] Instance disk_frame_ra : StorageFrame Disk records (@Address (@crates_account toy)).
Proof. by intros s s' f g v r [= <- <-]. Qed.
#[export] Instance disk_frame_rr : StorageFrame Disk records records.
Proof. intros s s' f g v r [= <- <-] Hg. cbn. by rewrite lookup_insert_ne. Qed.

Definition draw_address : state Disk (@Address (@crates_account toy)) := fun d =>
  ("address " +:+ show_u (Z.of_nat (dk_draws d)), mk_disk (dk_addresses d) (dk_servers d) (dk_writable d) (S (dk_draws d))).
Lemma draw_reads s f : storage_read (T := @Address (@crates_account toy)) (draw_address s).2 f = storage_read s f ∧
                       storage_read (T := records) (draw_address s).2 f = storage_read s f.
Proof. split; reflexivity. Qed.

Definition disk (writable : bool) : Disk := mk_disk ∅ ∅ writable 0.
Definition opts (seeds : option string) : Opt := mk_opt "node" "10.0.0.1" 9000 None None None None seeds false.
Definition start (seeds : option string) (d : Disk) : option Booted * Disk := init draw_address (opts seeds) [] 1 2 3 d.

Lemma opts_apart seeds :
  NoDup [address_file draw_address (opts seeds); inner_file draw_address (opts seeds); external_file draw_address (opts seeds)].
Proof. apply (bool_decide_unpack _). destruct seeds; vm_compute; exact I. Qed.

Definition there {A} (o : option A) : bool := match o with Some _ => true | None => false end.

(** On a disk that cannot be written the node has two identities. *)
Lemma node_identity_witness :
  ∃ b s', start None (disk false) = (Some b, s') ∧ bo_address b = "address 0" ∧ bo_id b = "address 1".
Proof.
  destruct (start None (disk false)) as [[b|] s'] eqn:E;
    [|assert (Es : there (fst (start None (disk false))) = true) by (vm_compute; reflexivity);
      rewrite E in Es; discriminate Es].
  exists b, s'. split; [reflexivity|].
  destruct (read_or (Some (ios_address (io_storage_init (opts None) draw_address (∅ : records)))) draw_address (disk false))
    as [a s1] eqn:Ea.
  pose proof (node_identity draw_address (opts None) [] 1 2 3 (disk false) b s' a s1 (opts_apart None) E Ea) as (Hb & _ & _ & _ & Hid).
  assert (Ea1 : a = "address 0") by (change a with (fst (a, s1)); rewrite <- Ea; vm_compute; reflexivity).
  assert (Es1 : s1 = mk_disk ∅ ∅ false 1) by (change s1 with (snd (a, s1)); rewrite <- Ea; vm_compute; reflexivity).
  split; [rewrite Hb; exact Ea1|]. rewrite Hid; rewrite Es1; [vm_compute; reflexivity|discriminate].
Defined.

Definition seed_text : string := "10.0.0.2:9001, nonsense".
Lemma seeds_survive_restart_witness :
  ∃ b s' b2 s2, start (Some seed_text) (disk true) = (Some b, s') ∧
    init draw_address (opts None) [] 1 4 5 s' = (Some b2, s2) ∧
    is_Some (ns_inner (bo_state b2) !! sock4 10 0 0 2 9001).
Proof.
  destruct (start (Some seed_text) (disk true)) as [o s'] eqn:E.
  assert (Eo : there o = true) by (change o with (fst (o, s')); rewrite <- E; vm_compute; reflexivity).
  destruct o as [b|]; [|discriminate Eo].
  destruct (init draw_address (opts None) [] 1 4 5 s') as [o2 s2] eqn:E2.
  assert (Eo2 : there o2 = true).
  { change o2 with (fst (o2, s2)). rewrite <- E2. change s' with (snd (Some b, s')). rewrite <- E. vm_compute. reflexivity. }
  destruct o2 as [b2|]; [|discriminate Eo2].
  exists b, s', b2, s2. split; [reflexivity|]. split; [exact E2|].
  destruct (seeds_survive_restart draw_address draw_reads ltac:(intros f v s; reflexivity) (opts (Some seed_text)) (opts None)
    [] [] 1 1 2 3 4 5 (disk true) b s' b2 s2 (opts_apart _) ltac:(eexists; reflexivity) eq_refl eq_refl (opts_apart _) eq_refl E E2)
    as (_ & _ & H).
  destruct (H (sock4 10 0 0 2 9001)) as (r & Hr & _); [|exists r; exact Hr].
  apply (bool_decide_unpack _). vm_compute. exact I.
Defined.

(** ** The running node *)

#[local] Existing Instances Contact.contact_row Balance.model_row Transaction.model_row.
#[local] Existing Instances WitnessSeed.seed_row TickRecord.tick_row.
#[export] Instance toy_view : ManagerView := {|
  mgr_notified m id := tm_clients m;
  mgr_all_entries m := (tm_dialled m).*1;
  mgr_buckets _ := [];
|}.
Definition runs : World → World → Prop :=
  step (F := MemFs) (TC := Table Contact.Model) (TB := Table Balance.Model) (TT := Table Transaction.Model)
    (TS := Table WitnessSeed.Model) (TR := Table TickRecord.Model) (App := unit).

(** What init leaves, in the state of the handlers. *)
Definition booted_world (b : Booted) : World :=
  mk_world
    (mk_gctx (ns_addr (bo_state b)) (mk_toy_node (bo_local_id b) 9000) (Some 0%nat) (mk_toy_manager [] []) (Some (bo_address b))
       (Some (mk_p2p_node (bo_registry b) (bo_peer_addrs b))) (Some ∅) (Some ∅) (Some []) None None None None None)
    (fun _ => mk_ctx sb None true []) [] [] [] 0 0 (mk_process None (Some []) (Some (1%nat, []))).
Definition heard (b : Booted) : World :=
  exec (dispatch 0 bob_frame (gossip_cmd [carol_seed])) (exec (P2PNode.connect (bo_state b)) (booted_world b)).

(** The node starts with a seed on its list, dials it, hears of Carol and
    answers: the registry has Carol, and the node itself still. *)
Lemma reachable_invariant_witness :
  ∃ b s' r r', start (Some seed_text) (disk true) = (Some b, s') ∧
    bo_registry b !! "address 0" = Some r ∧ is_Some (seeds r !! sock4 10 0 0 1 9000) ∧
    rtc runs (booted_world b) (heard b) ∧ length (ctx_out (w_ctx (heard b) 0)) = 1%nat ∧
    reg_of (heard b) = Some r' ∧ registry_wf r' ∧ is_Some (r' !! "carol") ∧
    has_seed r' "address 0" (sock4 10 0 0 1 9000) ∧ g_address (w_g (heard b)) = Some (bo_address b).
Proof.
  destruct (start (Some seed_text) (disk true)) as [o s'] eqn:E.
  assert (Eo : match o with
               | Some b => there (bo_registry b !! "address 0" ≫= λ e, seeds e !! sock4 10 0 0 1 9000)
                           && there (reg_of (heard b) ≫= λ r, r !! "carol")
                           && bool_decide (length (ctx_out (w_ctx (heard b) 0)) = 1%nat)
               | None => false end = true) by (change o with (fst (o, s')); rewrite <- E; vm_compute; reflexivity).
  destruct o as [b|]; [|discriminate Eo].
  apply andb_true_iff in Eo as [[Hown Hcarol]%andb_true_iff Hsent%bool_decide_eq_true].
  assert (Hsteps : rtc runs (booted_world b) (heard b)).
  { apply (rtc_l _ _ _ _ (step_connect (booted_world b) (bo_state b))).
    apply rtc_once. exact (step_dispatch _ 0 bob_frame (gossip_cmd [carol_seed])). }
  destruct (reachable_invariant draw_address (opts (Some seed_text)) [] 1 2 3 (disk true) b s' (booted_world b) (heard b) (heard b)
    E ltac:(repeat split; eexists; reflexivity) Hsteps (rtc_refl _ _))
    as (r1 & r' & Hr1 & Hr' & Hwf & Hle & Hle' & Ha & _).
  destruct (bo_registry b !! "address 0") as [r|] eqn:Er; [|discriminate Hown]. cbn in Hown.
  exists b, s', r, r'. split; [reflexivity|]. split; [exact Er|].
  assert (Hs : is_Some (seeds r !! sock4 10 0 0 1 9000)) by (destruct (seeds r !! _); [eexists; reflexivity|discriminate Hown]).
  rewrite Hr' in Hcarol. cbn in Hcarol.
  split; [exact Hs|]. split; [exact Hsteps|]. split; [exact Hsent|]. split; [exact Hr'|]. split; [exact Hwf|].
  split; [destruct (r' !! "carol"); [eexists; reflexivity|discriminate Hcarol]|]. split; [|exact Ha].
  apply Hle', Hle. exists r. split; [exact Er|exact Hs].
Defined.

Lemma only_own_frames_witness :
  ∃ raw f cmd version, raw ∈ ctx_out (w_ctx answered 1) ∧ verify_bytes raw = Ok f ∧ frame_carries bob cmd version f.
Proof.
  assert (Hs : rtc runs wb answered) by exact (rtc_once _ _ (step_dispatch wb 1 hello_frame hello_cmd)).
  destruct (only_own_frames (App := unit) wb answered 1 Hs) as (out & Eo & _ & Hout).
  destruct out as [|raw out].
  - assert (El : length (ctx_out (w_ctx answered 1)) = 1%nat) by (vm_compute; reflexivity). rewrite Eo in El. discriminate El.
  - destruct (Hout raw (list_elem_of_here _ _)) as (a & f & cmd & v & Ha & Hv & Hf).
    assert (Eb : a = bob) by (injection Ha as <-; reflexivity). rewrite Eb in Hf.
    exists raw, f, cmd, v. rewrite Eo. split; [apply elem_of_app; right; apply list_elem_of_here|]. split; [exact Hv|exact Hf].
Defined.
